(* ===== verification/_CoqProject ===== *)
-Q . S2P
Prelude.v
GoStd.v
GoStdFacts.v
Escape.v
EscapeFacts.v
GoUtf8.v
GoFloat.v
GoFloatFacts.v
Json.v
JsonFacts.v
JsonDecode.v
JsonIter.v
JsonIterFacts.v
JsonDecodeFacts.v
GoTime.v
ModelsTime.v
Scan.v
ScanFields.v
ScanFacts.v
Tags.v
TagsFacts.v
ScanKeyFacts.v
Point.v
PointCodec.v
Parse.v
FieldsFacts.v
LineFacts.v
TimeWindow.v
Sensu.v
Transformers.v
Hook.v
HookFacts.v
EventJson.v
EventJsonFacts.v
GoNet.v
GoNetFacts.v
StoreKeys.v
StoreKeysFacts.v
Rbac.v
RbacGuarantees.v
EtcdClient.v
EtcdStore.v
EtcdStoreFacts.v
EventStore.v
Client.v
Udp.v
Delivery.v
PointFacts.v
UdpFacts.v
CutFacts.v
PointCodecFacts.v
Termination.v
LineProtocol.v
Pflag.v
Cobra.v
CommandLineFacts.v
QueryFacts.v
Handler.v
HandlerFacts.v
HandlerCommand.v
HandlerGuarantees.v
HandlerSafety.v
CommandLine.v
SensuFacts.v
SensuGuarantees.v
StoreGuarantees.v
EventHistory.v
EventStoreGuarantees.v
EventGuarantees.v
Messaging.v
MessagingGuarantees.v
Environment.v
Resources.v
Pipelined.v
PipelinedGuarantees.v
Eventd.v
SilencedStore.v
Liveness.v
EventdGuarantees.v
