(* ===== verification/Prelude.v ===== *)
(** * Verification of sensu-influxdb-handler

    The program ([src/src/sensu-influxdb-handler/main.go]) reads a Sensu event
    as JSON from its standard input, makes a point of line protocol of every
    metric point of the event, and writes the points to an InfluxDB in one
    HTTP request. Everything else under [src/src] is the GOPATH the program is
    built from. The development models the packages the program runs through,
    and, of the Sensu backend and agent that are vendored with the types of
    the event, what an event goes through before the handler is started.

    ** The handler, and the files that model it

    - The handler: [main], [configureRootCommand], [run] and [sendMetrics] of
      [main.go]. File [Handler]: [root_flags] and [root_command] are the flags
      and the command, [config_of] the package variables the flags point to,
      [make_point] one turn of the loop of [sendMetrics], [make_batch] the
      loop, [run] and [main] the functions of these names. The result of
      [main] is the list of requests sent and the exit status.
    - Line protocol ([influxdata/influxdb/models/points.go], [models/time.go],
      [models/inline_fnv.go], [pkg/escape]). [Escape]: both layers of escaping
      (Modules [PkgEscape] and [Models]). [ModelsTime]: precisions and the
      range of times. [Scan] and [ScanFields]: the scanners, which read a
      buffer from a position, as recursions on the unread suffix. [Tags]: tags
      and series keys. [Point]: fields, construction, text, splitting and the
      field iterator. [PointCodec]: the binary form. [Parse]: [parsePoint] and
      [ParsePointsWithPrecision].
    - The InfluxDB client ([influxdata/influxdb/client/v2]). [Client]: points,
      batches, and the HTTP client's [Write], [Ping] and [Query]. [Udp]: the
      UDP client, with its buffer and delayed error as a state. [GoNet]: what
      the client uses of [path], [net/url] and [net/http].
    - The command line ([spf13/pflag], [spf13/cobra]). [Pflag]: flag sets with
      string and bool flags, and the parser of arguments. [Cobra]: a root
      command without subcommands, its [execute] over any world [W].
    - Sensu's event ([sensu/sensu-go/api/core/v2]). [TimeWindow]: time windows
      and the kitchen layout of times. [Sensu]: the data, every validator that
      [Event.Validate] reaches, silencing, check histories, flapping. [Hook]:
      hooks and lists of hooks, with their JSON methods. [EventJson]: the
      struct types of the event with their tags, and [Unmarshal_event], the
      call of [json.Unmarshal].
    - JSON. [Json]: the grammar of [encoding/json], as relations, and its
      parser. [JsonDecode]: decoding by the type, over [gtype] and [gval].
      [JsonIter]: [json-iterator] on the one type that hooks are written in;
      an iterator reads by position and keeps its first error.
    - The Go standard library: [GoStd] ([strings], [bytes], [strconv],
      [sort]), [GoFloat] ([float64] as the Standard Library's [spec_float],
      correctly rounded [ParseFloat], shortest [FormatFloat]), [GoTime]
      ([time.Time] as seconds and nanoseconds, [ParseDuration]), [GoUtf8]
      ([unicode/utf8], [unicode/utf16]).

    They interact as the program does: [Handler.main] runs [Cobra.Execute],
    which parses the arguments with [Pflag.FlagSet_Parse] and calls
    [Handler.run]; [run] decodes the input with [EventJson], validates with
    [Sensu.Validate_event], and calls [sendMetrics], which builds a
    [Client.client] and a [Client.batchpoints] of [Client.Point]s (each a
    [Point.point] made by [Point.NewPoint]) and calls [Client.Write]; the body
    of the request is read, on the server's side, by
    [Parse.ParsePointsWithPrecision].

    ** What an event goes through before the handler

    - [Transformers] ([agent/transformers]): the agent reads the output of a
      check in one of four formats, and makes the metric points.
    - [Eventd] ([backend/eventd]): [handleMessage] validates an event, asks
      which silences apply ([getSilenced]), stores it, expires silences,
      publishes it and flips the switch of its check; [dead] makes the event
      of a check that is late. The stores, the switches and the bus are the
      class [Backend] over a state, and what they promise is [BackendLaws].
    - [EtcdClient]: the client of etcd, an interface with the documented laws
      of its calls. Over it, [StoreKeys] ([backend/store]): keys;
      [EtcdStore]: objects, pages and namespaces; [EventStore]: events, merged
      with the one before; [SilencedStore]: silenced entries, kept with
      leases (class [EtcdLeases]), and entities. [Liveness]: the switches,
      and a system of backends that watch one etcd, as a step relation.
      [EventdGuarantees.etcd_backend_laws] shows that the stores over etcd
      keep the promises of [BackendLaws].
    - [Messaging] ([backend/messaging]): topics, bindings and the bus. Each
      call is a thread, whose steps are the critical sections and the sends of
      the source; the steps of all threads interleave freely.
    - [Resources]: handlers, mutators, filters and extensions, and the
      redaction of entities. [Environment] ([util/environment]): sets of
      environment variables. [Pipelined] ([backend/pipelined]): what handlers
      an event names, through which filters and mutators it goes, and how a
      handler (a command, a socket, an extension) is run. The store is the
      class [PipeStore], the outside the class [World]; what is done to the
      outside is a list of actions.
    - [Rbac] ([backend/authorization/rbac]): who may do what, over the class
      [Store].

    ** Conventions

    Strings and byte slices are lists of bytes. A function that returns an
    error is of type [outcome]: a value, an error, or a panic; a function that
    only returns an error is an [option error]. An error is its format and
    its arguments, so that equal errors print alike. Integers are of type [Z]
    and wrap where the source computes at width 64 ([i64], [u64]). A slice of
    pointers is a list of options, whose [None] is nil. What talks to the
    server is of type [io]: the requests sent, in order, and an outcome. What
    talks to a store is of type [store_m]: a state is threaded, and an error
    is a [store_error], by its type. A map is a [gmap], or, where the order of
    a range over it could be seen, the list of its entries in the order
    visited, over all of whose permutations the theorem ranges.

    Parameters stand for what is not under [src], with their properties as
    hypotheses of the theorems that need them: the class [GoNet.Net] is the
    parser and printer of addresses and the round trip to the server;
    [ParseStandard_ok] is the vendored parser of cron schedules and
    [ParseExpressions] that of JavaScript expressions; [now] and [clock] are
    the clock; [stdin] is the input; for queries, [json_Marshal],
    [ParseMediaType] and [json_Decode]; for UDP, the resolver and the
    connection; for merging checks, [sort.Sort], which leaves the order of
    equal elements open; for the stores, etcd and the generated codecs of
    protobuf; for the pipeline, processes, sockets, extensions and assets; for
    redaction, the tables of Unicode above ASCII. A main theorem with
    a hypothesis on a parameter has a witness, which gives a concrete one.

    ** What the theorems show

    - [HandlerGuarantees]: a run on an event that line protocol can carry
      sends one request, whose body the server's parser reads as exactly the
      event's points ([run_delivers], the refinement of the program to "the
      metric points arrive"); nothing is sent otherwise, and never a part of
      the batch ([run_sends_whole_batch]); what [Write] reports and what its
      request says; the whole seconds of timestamps.
    - [HandlerSafety]: when the handler does not panic, when it does, and the
      points it accepts and loses; over [CutFacts], what the server makes of
      a tag value of two lines ([CutFacts.cut_tag]).
    - [EventGuarantees], over [EventJsonFacts], [JsonFacts],
      [JsonDecodeFacts], [HookFacts] and [JsonIterFacts]: the events that some
      text decodes to are those within the bounds of their types, and no
      other; the errors of a run; lists of hooks are read back as written.
      [JsonFacts] shows that the parser accepts the grammar and nothing else,
      and [JsonIterFacts] has a weakest precondition, in total correctness,
      for computations on the iterator.
    - [CommandLine], over [HandlerCommand] and [CommandLineFacts]: the
      behaviour of the whole program on every command line of known flags,
      and on no command line a request without a database; the invariant of
      flag sets; parsing; termination; what [execute] guards.
    - [LineProtocol]: what the client writes the parser reads, for batches,
      lines, keys and fields; construction of points; times and overflow;
      tags as maps; escapes; sizes and splitting. The steps are in
      [EscapeFacts], [ScanFacts], [TagsFacts], [ScanKeyFacts], [FieldsFacts],
      [LineFacts], [PointFacts], [HandlerFacts] and [Delivery];
      [Delivery.sendable] says what can be sent, and is decidable.
      [PointCodecFacts]: the binary form, whole and truncated.
    - [QueryFacts] and [UdpFacts]: what a query reports, and what datagrams
      the UDP client sends.
    - [SensuGuarantees], over [SensuFacts]: validation of events as a
      predicate, names as languages, windows, silences. [EventHistory]: a
      check that stops changing stops flapping, and occurrences are counted.
    - [StoreGuarantees], over [StoreKeysFacts] and [EtcdStoreFacts]: the
      methods of the store as operations on a map; keys of plain names are
      parsed back, and names that are not plain leave their namespace; pages
      list every object once. [EventStoreGuarantees]: what storing an event
      reads and writes.
    - [EventdGuarantees]: what becomes of an event, and what is published and
      stored; the silenced entries under their names; the silences that a
      resolution leaves; the events of late checks. [Liveness]: in every
      interleaving, no more backends lead than a switch was deleted, and a
      switch that is gone when a backend that loses no events has caught up
      was never put or was buried; and the races that lose one.
    - [MessagingGuarantees]: the invariant of the bus, in every interleaving;
      a bound subscriber receives what is published, in order; progress; and
      what goes wrong when the bus stops.
    - [PipelinedGuarantees]: the expansion of handlers, exactly; how the
      handler of the program is run by the pipeline, and with which event;
      and where the pipeline goes wrong. [Environment.merge_environments]: which variable
      wins. [RbacGuarantees]: what the authorizer decides, and in which order.
    - [Termination]: the fuel of the loops of the parser.

    ** Fuel

    A loop of the source that moves a position forward, or drops a prefix, is
    a recursion on the unread suffix where it can be, and otherwise takes as
    fuel the length of the buffer plus one or two. [Termination] shows for
    the loops of the parser of points, and [CommandLine.parse_terminates] for
    those of the flag parser, that more fuel changes nothing. The parser of
    JSON has twice the length of the text plus one, and [JsonFacts] shows that
    it reads every text of the grammar; [unquote] and [runes] have the length
    of the literal, which holds at most as many characters; the loops of the
    iterator have the length of the buffer plus two, and [JsonIterFacts] shows
    that no computation runs out. Pages are listed with as many turns as there
    are objects, plus one ([StoreGuarantees.list_pages]). Handlers are
    expanded three levels deep, by the bound of the source itself. The fuel of
    [digits] is the binary logarithm of the number, and that of [count_digits]
    the 19 digits of an [int64]; their lemmas in [GoStdFacts] and [PointFacts]
    are equalities, which too little fuel would falsify. [GoFloat.shortest]
    tries at most 17 digits, then writes the exact expansion; either denotes
    the number ([GoFloatFacts.finite64_reparses]).

    ** Not modelled

    - The output of the program (help, usage, the error printed by [main], the
      line [main] prints first) and logging: no theorem depends on it. The
      texts of the errors of [encoding/json] are shortened.
    - The transport: TLS, proxy, timeout and connection reuse are the
      network's; [InsecureSkipVerify] is only carried along. [Ping] with a
      leader to wait for, and chunked responses, are left out.
    - Fields of type [float32], and the caches of a point. The location of a
      time, which only the binary form stores, is an argument there.
    - Flags of other types than string and bool, deprecated flags and usage
      texts of pflag; the other features of cobra's commands (subcommands,
      hooks, version, completion): the handler has none.
    - Fields of checks and entities that no operation modelled reads or
      writes.
    - A method of a store runs without another's steps in between: its reads
      and writes are separate calls of etcd, whose interleavings with those of
      other backends only [Liveness] has. A watch of etcd that is cut and made
      again is a step that may lose events.
    - The goroutines of eventd and pipelined that read a channel and call
      [handleMessage] and [handleEvent] for one event after the other.
    - The rest of Sensu's backend, agent and CLI (schedulers, sessions, HTTP
      and GraphQL servers, assets, migrations), and InfluxDB's server beyond
      its parser of line protocol, which are in the GOPATH and not in the
      program.

    What is left to extend: the interleavings of the store's methods; the
    validators of the resources that are not in the pipeline; trees of
    commands and the other flag types. *)

From stdpp Require Export base list gmap strings.
From Stdlib Require Export Ascii ZArith Lia.

(* ------------------------------------------------------------------ *)
(** ** Go strings and byte slices *)

(** A Go [string] and a Go [[]byte] are both sequences of bytes. *)
Abbreviation bytes := (list ascii).

(** Literal text of the source. *)
Definition bs (s : string) : bytes := String.list_ascii_of_string s.

Declare Scope go_scope.
Delimit Scope go_scope with go.

(** Character tests of the source, [buf[i] == ','] and the like. *)
Notation "c =c d" := (Ascii.eqb c d%char) (at level 70, d at level 0) : go_scope.
Notation "c <>c d" := (negb (Ascii.eqb c d%char)) (at level 70, d at level 0) : go_scope.
Open Scope go_scope.

(** The double quote, which a character literal cannot hold. *)
Definition dquote : ascii := "034"%char.
Abbreviation newline := ("010"%char).

Definition backslash : ascii := "\"%char.
Arguments backslash : simpl never.

(** [buf[i:j]] for [0 <= i <= j <= len(buf)]. *)
Definition slice (buf : bytes) (i j : nat) : bytes := take (j - i) (drop i buf).

(* ------------------------------------------------------------------ *)
(** ** Errors and results *)

(** An error value: the format string and the rendered arguments of the
    [fmt.Errorf] or [errors.New] that built it; [Wrapf] also has the error
    that the last verb of the format prints.  Sentinel errors of the source
    are constants built from their text. *)
Inductive error :=
| Errorf (format : string) (args : list bytes)
| Wrapf (format : string) (args : list bytes) (cause : error).

#[export] Instance error_eq_dec : EqDecision error.
Proof. solve_decision. Defined.

(** The result of a Go function that returns a value and an error, and
    that may panic. *)
Inductive outcome (A : Type) :=
| Ret (a : A)
| Fail (e : error)
| Panic.
Arguments Ret {A} a.
Arguments Fail {A} e.
Arguments Panic {A}.

#[export] Instance outcome_ret : MRet outcome := λ A, Ret.
#[export] Instance outcome_bind : MBind outcome := λ A B f m,
  match m with Ret a => f a | Fail e => Fail e | Panic => Panic end.

#[export] Instance outcome_fmap : FMap outcome := λ A B f m,
  match m with Ret a => Ret (f a) | Fail e => Fail e | Panic => Panic end.

Definition panics {A} (m : outcome A) : bool :=
  match m with Panic => true | _ => false end.

Definition returns {A} (m : outcome A) : bool :=
  match m with Ret _ => true | _ => false end.

(* ------------------------------------------------------------------ *)
(** ** Lexicographic order: [bytes.Compare] and Go's [<] on strings *)

Fixpoint bytes_compare (a b : bytes) : comparison :=
  match a, b with
  | [], [] => Eq
  | [], _ :: _ => Lt
  | _ :: _, [] => Gt
  | x :: a', y :: b' =>
      match N.compare (N_of_ascii x) (N_of_ascii y) with
      | Eq => bytes_compare a' b'
      | c => c
      end
  end.

Definition bytes_ltb (a b : bytes) : bool :=
  match bytes_compare a b with Lt => true | _ => false end.

Definition bytes_lt (a b : bytes) : Prop := bytes_compare a b = Lt.

(* ------------------------------------------------------------------ *)
(** ** Codecs: the promise an encoder makes to the decoder of its text *)

(** [dec] recovers every value accepted by [ok] from its encoding. *)
Class Codec {A : Type} (enc : A → bytes) (dec : bytes → A) (ok : A → Prop) :=
  codec_roundtrip : ∀ a, ok a → dec (enc a) = a.

(** [dec] recovers a value up to what the encoder drops ([norm]). *)
Class CodecUpTo {A : Type} (enc : A → bytes) (dec : bytes → outcome A)
  (norm : A → A) (ok : A → Prop) :=
  codec_upto : ∀ a, ok a → dec (enc a) = Ret (norm a).

(* ------------------------------------------------------------------ *)
(** ** Machine integers *)

Definition two63 : Z := 9223372036854775808.
Definition two64 : Z := 18446744073709551616.

(** Wrap-around of [int64] and [uint64] arithmetic. *)
Definition i64 (z : Z) : Z := (z + two63) mod two64 - two63.
Definition u64 (z : Z) : Z := z mod two64.

Definition in_i64 (z : Z) : Prop := (- two63 <= z < two63)%Z.

Lemma i64_id z : in_i64 z → i64 z = z.
Proof. unfold in_i64, i64, two63, two64. intros. rewrite Z.mod_small; lia. Qed.

Lemma i64_range z : in_i64 (i64 z).
Proof.
  unfold in_i64, i64, two63, two64.
  pose proof (Z.mod_pos_bound (z + 9223372036854775808) 18446744073709551616). lia.
Qed.

Lemma u64_range z : (0 <= u64 z < two64)%Z.
Proof. apply Z.mod_pos_bound. reflexivity. Qed.

(* ------------------------------------------------------------------ *)
(** ** Tactics *)

(** Case analysis on every character test and decidable test in sight. *)
Ltac char_cases :=
  repeat match goal with
  | |- context [Ascii.eqb ?c ?d] =>
      is_var c; destruct (Ascii.eqb_spec c d); [subst c|]; cbn [negb andb orb]
  | H : context [Ascii.eqb ?c ?d] |- _ =>
      is_var c; destruct (Ascii.eqb_spec c d); [subst c|]; cbn [negb andb orb] in H
  end.

(** Rewrite a failed character test, from the disequality in the context. *)
Ltac char_neq :=
  repeat match goal with
  | H : ?c <> ?d |- context [Ascii.eqb ?c ?d] =>
      rewrite (proj2 (Ascii.eqb_neq c d) H)
  | H : ?c <> ?d, H' : context [Ascii.eqb ?c ?d] |- _ =>
      rewrite (proj2 (Ascii.eqb_neq c d) H) in H'
  end; cbn [negb andb orb].

(** Equality of concatenations up to associativity. *)
Ltac app_eq := repeat progress (rewrite <- ?app_assoc; cbn [app]); reflexivity.

(** Equality of results whose components are numbers. *)
Ltac pair_lia :=
  repeat first [ reflexivity | lia
               | match goal with
                 | |- Ret _ = Ret _ => apply f_equal
                 | |- (_, _) = (_, _) => apply f_equal2
                 end ].

Create HintDb go discriminated.
Create Rewrite HintDb go.

(* ------------------------------------------------------------------ *)
(** ** Lemmas on the order *)

Lemma bytes_compare_refl a : bytes_compare a a = Eq.
Proof. induction a as [|x a IH]; cbn; [done|]. by rewrite N.compare_refl. Qed.

Lemma bytes_compare_eq a b : bytes_compare a b = Eq ↔ a = b.
Proof.
  split; [|intros ->; apply bytes_compare_refl].
  revert b. induction a as [|x a IH]; intros [|y b]; cbn; try done.
  destruct (N.compare_spec (N_of_ascii x) (N_of_ascii y)) as [E|E|E]; try done.
  intros H. f_equal; [|by apply IH].
  rewrite <- (ascii_N_embedding x), <- (ascii_N_embedding y). by f_equal.
Qed.

Lemma bytes_compare_antisym a b : bytes_compare b a = CompOpp (bytes_compare a b).
Proof.
  revert b. induction a as [|x a IH]; intros [|y b]; cbn; try done.
  rewrite (N.compare_antisym (N_of_ascii x)).
  destruct (N.compare (N_of_ascii x) (N_of_ascii y)); cbn; auto.
Qed.

Lemma bytes_lt_trans a b c : bytes_lt a b → bytes_lt b c → bytes_lt a c.
Proof.
  unfold bytes_lt. revert b c.
  induction a as [|x a IH]; intros [|y b] [|z c]; cbn; try done.
  destruct (N.compare_spec (N_of_ascii x) (N_of_ascii y)) as [E|E|E]; try done;
  destruct (N.compare_spec (N_of_ascii y) (N_of_ascii z)) as [F|F|F]; try done; intros;
  destruct (N.compare_spec (N_of_ascii x) (N_of_ascii z)) as [G|G|G]; try done; try lia;
  eauto.
Qed.

Lemma bytes_lt_irrefl a : ¬ bytes_lt a a.
Proof. unfold bytes_lt. by rewrite bytes_compare_refl. Qed.

Lemma bytes_lt_total a b : bytes_lt a b ∨ a = b ∨ bytes_lt b a.
Proof.
  unfold bytes_lt. rewrite (bytes_compare_antisym a b).
  destruct (bytes_compare a b) eqn:E; cbn; auto.
  right. left. by apply bytes_compare_eq.
Qed.

Lemma bytes_ltb_lt a b : bytes_ltb a b = true ↔ bytes_lt a b.
Proof. unfold bytes_ltb, bytes_lt. destruct (bytes_compare a b); naive_solver. Qed.

Lemma bytes_ltb_nlt a b : bytes_ltb a b = false ↔ ¬ bytes_lt a b.
Proof. unfold bytes_ltb, bytes_lt. destruct (bytes_compare a b); naive_solver. Qed.

#[export] Hint Resolve bytes_lt_trans bytes_lt_irrefl : go.

(* ------------------------------------------------------------------ *)
(** ** Lemmas on lists *)

Lemma drop_length_app {A} (l k : list A) : drop (length l) (l ++ k) = k.
Proof. by rewrite drop_app_length. Qed.

Lemma slice_app (pre mid post : bytes) i j :
  i = length pre → j = length pre + length mid →
  slice (pre ++ mid ++ post) i j = mid.
Proof.
  intros -> ->. unfold slice. rewrite drop_app_length.
  replace (length pre + length mid - length pre) with (length mid) by lia.
  by rewrite take_app_length.
Qed.

Lemma length_slice buf i j : i ≤ j → j ≤ length buf → length (slice buf i j) = j - i.
Proof. intros. unfold slice. rewrite length_take, length_drop. lia. Qed.

#[export] Hint Rewrite @drop_length_app : go.
