(* ===== verification/GoStd.v ===== *)
(** * The Go standard library: [strings], [bytes], [strconv] and [sort]

    Executable definitions of what the program calls of these packages,
    with the lemmas the components share. *)

From Stdlib Require Export Sorted.
From S2P Require Import Prelude.

(* ------------------------------------------------------------------ *)
(** ** [strings] and [bytes] *)

(** [bytes.IndexByte]; [-1] is [None]. *)
Fixpoint index_byte (s : bytes) (c : ascii) : option nat :=
  match s with
  | [] => None
  | d :: s' => if Ascii.eqb d c then Some 0 else S <$> index_byte s' c
  end.

Definition has_byte (s : bytes) (c : ascii) : bool :=
  match index_byte s c with Some _ => true | None => false end.

Definition count_byte (s : bytes) (c : ascii) : nat :=
  length (List.filter (λ d, Ascii.eqb d c) s).

(** [strings.HasPrefix]. *)
Fixpoint has_prefix (s prefix : bytes) {struct prefix} : bool :=
  match prefix, s with
  | [], _ => true
  | _ :: _, [] => false
  | p :: prefix', c :: s' => Ascii.eqb c p && has_prefix s' prefix'
  end.

Definition bytes_equal (a b : bytes) : bool :=
  match bytes_compare a b with Eq => true | _ => false end.

(** [bytes.Replace(s, old, new, -1)] for a non-empty [old]: the leftmost
    non-overlapping occurrences; [skip] bytes belong to a replaced one. *)
Fixpoint replace_from (old new : bytes) (skip : nat) (s : bytes) : bytes :=
  match s with
  | [] => []
  | c :: s' =>
      match skip with
      | S k => replace_from old new k s'
      | O => if has_prefix s old then new ++ replace_from old new (length old - 1) s'
             else c :: replace_from old new 0 s'
      end
  end.
Definition replace_all (s old new : bytes) : bytes := replace_from old new 0 s.

(** [strings.NewReplacer(pairs...).Replace]: at each position the first
    pair whose old string matches. *)
Fixpoint replacer_from (pairs : list (bytes * bytes)) (skip : nat) (s : bytes) : bytes :=
  match s with
  | [] => []
  | c :: s' =>
      match skip with
      | S k => replacer_from pairs k s'
      | O => match List.find (λ p, has_prefix s p.1) pairs with
             | Some (old, new) => new ++ replacer_from pairs (length old - 1) s'
             | None => c :: replacer_from pairs 0 s'
             end
      end
  end.
Definition replacer (pairs : list (bytes * bytes)) (s : bytes) : bytes :=
  replacer_from pairs 0 s.

(** [strings.Split(s, sep)] for a one-byte separator: never empty. *)
Fixpoint split_byte (sep : ascii) (s : bytes) : list bytes :=
  match s with
  | [] => [[]]
  | c :: s' =>
      if Ascii.eqb c sep then [] :: split_byte sep s'
      else match split_byte sep s' with
           | [] => [[c]]
           | w :: ws => (c :: w) :: ws
           end
  end.

(** [strings.SplitN(s, sep, 2)] for a one-byte separator. *)
Fixpoint cut_byte (sep : ascii) (s : bytes) : bytes * option bytes :=
  match s with
  | [] => ([], None)
  | c :: s' => if Ascii.eqb c sep then ([], Some s')
               else let '(a, b) := cut_byte sep s' in (c :: a, b)
  end.

(** [strings.Join]. *)
Fixpoint join (sep : bytes) (ss : list bytes) : bytes :=
  match ss with
  | [] => []
  | [s] => s
  | s :: ss' => s ++ sep ++ join sep ss'
  end.

(* ------------------------------------------------------------------ *)
(** ** [strconv] *)

Definition digit (d : Z) : ascii := ascii_of_N (Z.to_N (48 + d)).
Definition is_digit (c : ascii) : bool :=
  (48 <=? Z.of_N (N_of_ascii c))%Z && (Z.of_N (N_of_ascii c) <=? 57)%Z.
Abbreviation all_digits := (Forall (λ c, is_digit c = true)).
Definition digit_value (c : ascii) : Z := (Z.of_N (N_of_ascii c) - 48)%Z.

(** Decimal digits of [n >= 0], most significant first. *)
Fixpoint digits_fuel (fuel : nat) (n : Z) : bytes :=
  match fuel with
  | O => []
  | S f => if (n <? 10)%Z then [digit n]
           else digits_fuel f (n / 10)%Z ++ [digit (n mod 10)%Z]
  end.
Definition digits (n : Z) : bytes := digits_fuel (S (Z.to_nat (Z.log2 n))) n.
Arguments digits : simpl never.

(** [strconv.FormatInt(z, 10)], [strconv.AppendInt], [FormatUint]. *)
Definition format_int (z : Z) : bytes :=
  if (z <? 0)%Z then "-"%char :: digits (- z) else digits z.

Definition format_bool (b : bool) : bytes := if b then bs "true" else bs "false".

Definition syntax_error (fn : string) (s : bytes) : error :=
  Errorf "strconv.%s: parsing %q: invalid syntax" [bs fn; s].
Definition range_error (fn : string) (s : bytes) : error :=
  Errorf "strconv.%s: parsing %q: value out of range" [bs fn; s].

(** The loop of [strconv.ParseUint(s, 10, 64)]: [inl true] is a syntax
    error, [inl false] a range error. *)
Fixpoint parse_uint_loop (s : bytes) (n : Z) : bool + Z :=
  match s with
  | [] => inr n
  | c :: s' =>
      if negb (is_digit c) then inl true
      else if (two64 / 10 + 1 <=? n)%Z then inl false
      else let n1 := (n * 10 + digit_value c)%Z in
           if (two64 <=? n1)%Z then inl false else parse_uint_loop s' n1
  end.

Definition parse_uint (s : bytes) : outcome Z :=
  match s with
  | [] => Fail (syntax_error "ParseUint" s)
  | _ => match parse_uint_loop s 0 with
         | inr n => Ret n
         | inl true => Fail (syntax_error "ParseUint" s)
         | inl false => Fail (range_error "ParseUint" s)
         end
  end.

(** [strconv.ParseInt(s, 10, 64)]. *)
Definition parse_int (s : bytes) : outcome Z :=
  match s with
  | [] => Fail (syntax_error "ParseInt" s)
  | c :: s' =>
      let neg := c =c "-" in
      let body := if (c =c "+") || neg then s' else s in
      match body with
      | [] => Fail (syntax_error "ParseInt" s)
      | _ =>
        match parse_uint_loop body 0 with
        | inl true => Fail (syntax_error "ParseInt" s)
        | inl false => Fail (range_error "ParseInt" s)
        | inr un =>
            if negb neg && (two63 <=? un)%Z then Fail (range_error "ParseInt" s)
            else if neg && (two63 <? un)%Z then Fail (range_error "ParseInt" s)
            else Ret (if neg then - un else un)%Z
        end
      end
  end.

(** [strconv.ParseBool]. *)
Definition parse_bool (s : bytes) : outcome bool :=
  if existsb (bytes_equal s) (map bs ["1"; "t"; "T"; "TRUE"; "true"; "True"]%string) then Ret true
  else if existsb (bytes_equal s) (map bs ["0"; "f"; "F"; "FALSE"; "false"; "False"]%string) then Ret false
  else Fail (syntax_error "ParseBool" s).

(* ------------------------------------------------------------------ *)
(** ** [sort] *)

(** [sort.Sort] with the order [lt].  The source sorts by keys that are
    pairwise distinct, where every algorithm gives the same result
    ([sort_unique] below); insertion sort stands for all of them. *)
Section Sort.
Context {A : Type} (lt : A → A → bool).

Fixpoint sort_insert (x : A) (l : list A) : list A :=
  match l with
  | [] => [x]
  | y :: l' => if lt y x then y :: sort_insert x l' else x :: l
  end.

Fixpoint sort (l : list A) : list A :=
  match l with
  | [] => []
  | x :: l' => sort_insert x (sort l')
  end.

Lemma sort_insert_perm x l : sort_insert x l ≡ₚ x :: l.
Proof.
  induction l as [|y l IH]; cbn; [done|].
  destruct (lt y x); [|done]. rewrite IH. constructor.
Qed.

Lemma sort_perm l : sort l ≡ₚ l.
Proof. induction l as [|x l IH]; cbn; [done|]. by rewrite sort_insert_perm, IH. Qed.

Lemma length_sort l : length (sort l) = length l.
Proof. by rewrite sort_perm. Qed.

(** Strictly increasing lists. *)
Definition increasing : list A → Prop := StronglySorted (λ x y, lt x y = true).

Context (lt_trans : ∀ x y z, lt x y = true → lt y z = true → lt x z = true).

Lemma sort_insert_increasing x l :
  increasing l → Forall (λ y, lt x y = true ∨ lt y x = true) l →
  increasing (sort_insert x l).
Proof.
  unfold increasing. induction l as [|y l IH]; cbn; intros Hl Hx.
  { repeat constructor. }
  inversion Hl as [|? ? Hs Hy]; subst. inversion Hx as [|? ? Hxy Hxl]; subst.
  destruct (lt y x) eqn:E.
  - constructor; [by apply IH|].
    rewrite sort_insert_perm. by constructor.
  - destruct Hxy as [Hxy|]; [|congruence].
    constructor; [done|]. constructor; [done|].
    eapply Forall_impl; [exact Hy|]. eauto.
Qed.

(** Sorting pairwise comparable elements gives a strictly increasing list. *)
Lemma sort_increasing l :
  ForallOrdPairs (λ x y, lt x y = true ∨ lt y x = true) l → increasing (sort l).
Proof.
  induction 1 as [|x l Hx Hl IH]; cbn; [constructor|].
  apply sort_insert_increasing; [done|]. by rewrite sort_perm.
Qed.

Context (lt_irrefl : ∀ x, lt x x = false).

(** A strictly increasing list is determined by its elements, so the
    result of a sort of distinct keys does not depend on the algorithm. *)
Lemma sort_unique l k : increasing l → increasing k → l ≡ₚ k → l = k.
Proof.
  unfold increasing. intros Hl. revert k.
  induction Hl as [|x l Hl IH Hx]; intros k Hk Hp.
  { by apply Permutation_nil in Hp. }
  destruct Hk as [|y k Hk Hy]; [by apply Permutation_sym, Permutation_nil in Hp|].
  assert (x = y) as ->.
  { assert (x ∈ y :: k) as Hin by (rewrite <- Hp; constructor).
    assert (y ∈ x :: l) as Hin' by (rewrite Hp; constructor).
    rewrite Forall_forall in Hx, Hy.
    apply elem_of_cons in Hin as [->|Hin]; [done|].
    apply elem_of_cons in Hin' as [->|Hin']; [done|].
    specialize (Hx _ Hin'). specialize (Hy _ Hin).
    pose proof (lt_trans _ _ _ Hx Hy). rewrite lt_irrefl in *. done. }
  f_equal. apply IH; [done|]. by apply Permutation_cons_inv in Hp.
Qed.

Lemma sort_sorted l : increasing l → sort l = l.
Proof.
  intros Hl. induction Hl as [|x l Hl IH Hx]; [done|]. cbn. rewrite IH.
  destruct Hx as [|y l Hy _]; [done|]. cbn.
  destruct (lt y x) eqn:E; [|done].
  pose proof (lt_trans _ _ _ Hy E). rewrite lt_irrefl in *. done.
Qed.
End Sort.
