(* ===== verification/GoStdFacts.v ===== *)
(** * Facts about the standard-library models: equality of strings, decimal
    numerals *)

From S2P Require Import Prelude GoStd.

(** ** Equality *)

Lemma bytes_equal_true a b : bytes_equal a b = true ↔ a = b.
Proof. unfold bytes_equal. rewrite <- bytes_compare_eq. by destruct (bytes_compare a b). Qed.

Lemma bytes_equal_false a b : bytes_equal a b = false ↔ a ≠ b.
Proof. rewrite <- bytes_equal_true. by destruct (bytes_equal a b). Qed.

#[local] Open Scope Z_scope.

(** ** Order *)

Lemma bytes_ltb_trans x y z : bytes_ltb x y = true → bytes_ltb y z = true → bytes_ltb x z = true.
Proof. rewrite !bytes_ltb_lt. eauto with go. Qed.

Lemma bytes_ltb_irrefl x : bytes_ltb x x = false.
Proof. rewrite bytes_ltb_nlt. auto with go. Qed.

Lemma sort_keys_increasing l : NoDup l → increasing bytes_ltb (sort bytes_ltb l).
Proof.
  intros Hl. apply sort_increasing; [apply bytes_ltb_trans|].
  induction Hl as [|x l Hx _ IH]; constructor; [|done]. apply Forall_forall. intros y Hy. rewrite !bytes_ltb_lt.
  destruct (bytes_lt_total x y) as [?|[->|?]]; auto. done.
Qed.

(** ** Cutting and splitting *)

Lemma cut_byte_spec c s :
  match cut_byte c s with
  | (a, Some b) => s = a ++ c :: b ∧ c ∉ a
  | (a, None) => a = s ∧ c ∉ s
  end.
Proof.
  induction s as [|d s IH]; cbn; [split; [done|apply not_elem_of_nil]|].
  destruct (Ascii.eqb_spec d c) as [->|Hd]; [split; [done|apply not_elem_of_nil]|].
  destruct (cut_byte c s) as [a [b|]]; destruct IH as [-> IH]; rewrite not_elem_of_cons;
    (split; [done|]; split; [by apply not_eq_sym|done]).
Qed.

Lemma split_byte_plain c w : c ∉ w → split_byte c w = [w].
Proof.
  induction w as [|d w IH]; [done|]. rewrite not_elem_of_cons. intros [Hd Hw]. cbn.
  destruct (Ascii.eqb_spec d c) as [->|_]; [done|]. by rewrite IH.
Qed.

Lemma split_byte_app c w s : c ∉ w → split_byte c (w ++ c :: s) = w :: split_byte c s.
Proof.
  induction w as [|d w IH]; cbn; [by rewrite Ascii.eqb_refl|]. rewrite not_elem_of_cons. intros [Hd Hw].
  destruct (Ascii.eqb_spec d c) as [->|_]; [done|]. by rewrite IH.
Qed.

Lemma split_byte_nonempty c s : split_byte c s ≠ [].
Proof. destruct s as [|d s]; cbn; [done|]. destruct (d =c c); [done|]. by destruct (split_byte c s). Qed.

Lemma split_byte_two c s a b : split_byte c s = [a; b] ↔ s = a ++ c :: b ∧ c ∉ a ∧ c ∉ b.
Proof.
  split.
  - pose proof (cut_byte_spec c s) as Hs. destruct (cut_byte c s) as [w [r|]]; destruct Hs as [-> Hw].
    + rewrite split_byte_app by done. intros [= -> E]. split; [|split; [done|]].
      * pose proof (cut_byte_spec c r) as Hr. destruct (cut_byte c r) as [w' [r'|]]; destruct Hr as [-> Hr].
        -- rewrite split_byte_app in E by done. injection E as _ E. by destruct (split_byte_nonempty c r').
        -- rewrite split_byte_plain in E by done. by injection E as ->.
      * pose proof (cut_byte_spec c r) as Hr. destruct (cut_byte c r) as [w' [r'|]]; destruct Hr as [-> Hr].
        -- rewrite split_byte_app in E by done. injection E as _ E. by destruct (split_byte_nonempty c r').
        -- rewrite split_byte_plain in E by done. by injection E as ->.
    + by rewrite split_byte_plain.
  - intros (-> & Ha & Hb). by rewrite split_byte_app, split_byte_plain.
Qed.

Lemma split_byte_join c l : l ≠ [] → Forall (λ w, c ∉ w) l → split_byte c (join [c] l) = l.
Proof.
  intros Hl Hw. induction Hw as [|w l Hw Hws IH]; [done|]. destruct l as [|v l]; [by apply split_byte_plain|].
  change (join [c] (w :: v :: l)) with (w ++ c :: join [c] (v :: l)). rewrite split_byte_app by done. by rewrite IH.
Qed.

(** ** Digits *)

Lemma digit_range_cases (P : Z → Prop) :
  P 0 → P 1 → P 2 → P 3 → P 4 → P 5 → P 6 → P 7 → P 8 → P 9 →
  ∀ d, 0 <= d < 10 → P d.
Proof.
  intros. assert (d = 0 ∨ d = 1 ∨ d = 2 ∨ d = 3 ∨ d = 4 ∨ d = 5 ∨ d = 6 ∨ d = 7
    ∨ d = 8 ∨ d = 9) as HH by lia.
  by repeat (destruct HH as [->|HH]); [..|rewrite HH].
Qed.

Lemma is_digit_digit d : 0 <= d < 10 → is_digit (digit d) = true.
Proof. revert d. by apply digit_range_cases. Qed.

Lemma digit_value_digit d : 0 <= d < 10 → digit_value (digit d) = d.
Proof. revert d. by apply digit_range_cases. Qed.

Lemma is_digit_not c : is_digit c = true →
  c ≠ "-"%char ∧ c ≠ "+"%char ∧ c ≠ " "%char ∧ c ≠ ","%char ∧ c ≠ "="%char
  ∧ c ≠ "\"%char ∧ c ≠ "."%char ∧ c ≠ "010"%char ∧ c ≠ dquote ∧ c ≠ "000"%char
  ∧ c ≠ "009"%char.
Proof. intros H. repeat split; intros ->; vm_compute in H; done. Qed.

Lemma log2_div10 n : 10 <= n → 0 <= Z.log2 (n / 10) < Z.log2 n.
Proof.
  intros. split; [apply Z.log2_nonneg|].
  assert (n / 10 <= n / 2) by (apply Z.div_le_compat_l; lia).
  assert (Z.log2 (n / 2) = Z.log2 n - 1).
  { replace (n / 2) with (Z.shiftr n 1) by (rewrite Z.shiftr_div_pow2 by lia; done).
    rewrite Z.log2_shiftr by lia. pose proof (Z.log2_le_mono 2 n ltac:(lia)).
    change (Z.log2 2) with 1 in *. lia. }
  pose proof (Z.log2_le_mono (n / 10) (n / 2) ltac:(lia)). lia.
Qed.

Lemma digits_fuel_enough f g n :
  0 <= n → (Z.to_nat (Z.log2 n) < f)%nat → (Z.to_nat (Z.log2 n) < g)%nat →
  digits_fuel f n = digits_fuel g n.
Proof.
  revert g n. induction f as [|f IH]; intros [|g] n Hn Hf Hg; try lia.
  cbn. destruct (Z.ltb_spec n 10); [done|].
  pose proof (log2_div10 n ltac:(lia)).
  f_equal. apply IH; [apply Z.div_pos; lia|lia|lia].
Qed.

Lemma digits_small n : 0 <= n < 10 → digits n = [digit n].
Proof. intros. unfold digits. cbn. destruct (Z.ltb_spec n 10); [done|lia]. Qed.

Lemma digits_large n : 10 <= n → digits n = digits (n / 10) ++ [digit (n mod 10)].
Proof.
  intros. unfold digits at 1. cbn [digits_fuel]. destruct (Z.ltb_spec n 10); [lia|].
  pose proof (log2_div10 n ltac:(lia)). f_equal.
  apply digits_fuel_enough; [apply Z.div_pos; lia|lia|lia].
Qed.

(** Induction that follows the numeral of a natural number. *)
Lemma digits_ind (P : Z → Prop) :
  (∀ n, 0 <= n < 10 → P n) → (∀ n, 10 <= n → P (n / 10) → P n) →
  ∀ n, 0 <= n → P n.
Proof.
  intros Hs Hl. apply Zlt_0_ind. intros n IH Hn.
  destruct (Z.lt_ge_cases n 10); [apply Hs; lia|].
  apply Hl; [lia|]. apply IH. split; [apply Z.div_pos; lia|apply Z.div_lt; lia].
Qed.

Lemma digits_are_digits n : 0 <= n → Forall (λ c, is_digit c = true) (digits n).
Proof.
  revert n. apply digits_ind; intros n Hn.
  - rewrite digits_small by done. repeat constructor. by apply is_digit_digit.
  - intros IH. rewrite digits_large by done. apply Forall_app. split; [done|].
    repeat constructor. apply is_digit_digit, Z.mod_pos_bound. lia.
Qed.

Lemma length_digits_bounds n : 0 <= n →
  n < 10 ^ Z.of_nat (length (digits n)) ∧
  (0 < n → 10 ^ (Z.of_nat (length (digits n)) - 1) <= n) ∧
  (1 <= length (digits n))%nat.
Proof.
  revert n. apply digits_ind; intros n Hn.
  - rewrite digits_small by done. cbn. lia.
  - intros (IH1 & IH2 & IH3). rewrite digits_large by done.
    rewrite length_app. cbn [length]. split_and!; [| |lia].
    + replace (Z.of_nat (length (digits (n / 10)) + 1))
        with (Z.succ (Z.of_nat (length (digits (n / 10))))) by lia.
      rewrite Z.pow_succ_r by lia.
      pose proof (Z.div_mod n 10). pose proof (Z.mod_pos_bound n 10). lia.
    + intros _. replace (Z.of_nat (length (digits (n / 10)) + 1) - 1)
        with (Z.succ (Z.of_nat (length (digits (n / 10))) - 1)) by lia.
      rewrite Z.pow_succ_r by lia.
      assert (0 < n / 10) by (apply Z.div_str_pos; lia).
      pose proof (Z.div_mod n 10). pose proof (Z.mod_pos_bound n 10). lia.
Qed.

(** The number of digits is fixed by the power of ten below [n]. *)
Lemma length_digits n k : (1 <= k)%nat →
  10 ^ (Z.of_nat k - 1) <= n < 10 ^ Z.of_nat k → length (digits n) = k.
Proof.
  intros Hk [Hl Hu].
  assert (0 < 10 ^ (Z.of_nat k - 1)) by (apply Z.pow_pos_nonneg; lia).
  destruct (length_digits_bounds n) as (H1 & H2 & H3); [lia|].
  specialize (H2 ltac:(lia)).
  assert (10 ^ (Z.of_nat k - 1) < 10 ^ Z.of_nat (length (digits n))) as G1 by lia.
  assert (10 ^ (Z.of_nat (length (digits n)) - 1) < 10 ^ Z.of_nat k) as G2 by lia.
  apply Z.pow_lt_mono_r_iff in G1, G2; lia.
Qed.

Lemma length_digits_le n k : (1 <= k)%nat →
  0 <= n < 10 ^ Z.of_nat k → (length (digits n) <= k)%nat.
Proof.
  intros Hk [Hl Hu]. destruct (length_digits_bounds n) as (H1 & H2 & H3); [lia|].
  destruct (Z.eq_dec n 0) as [->|]; [rewrite digits_small by lia; cbn; lia|].
  specialize (H2 ltac:(lia)).
  assert (10 ^ (Z.of_nat (length (digits n)) - 1) < 10 ^ Z.of_nat k) as G2 by lia.
  apply Z.pow_lt_mono_r_iff in G2; lia.
Qed.

(** Cutting a numeral after [k] digits divides by a power of ten. *)
Lemma take_digits n k : 0 <= n → (1 <= k <= length (digits n))%nat →
  take k (digits n) = digits (n / 10 ^ Z.of_nat (length (digits n) - k)).
Proof.
  intros Hn. revert n Hn k. apply (digits_ind (λ n, ∀ k, (1 <= k <= length (digits n))%nat →
  take k (digits n) = digits (n / 10 ^ Z.of_nat (length (digits n) - k)))); intros n Hn.
  - rewrite digits_small by done. cbn [length]. intros k Hk.
    assert (k = 1%nat) as -> by lia. change (10 ^ Z.of_nat (1 - 1)) with 1.
    rewrite Z.div_1_r. by rewrite digits_small.
  - intros IH k. rewrite digits_large by done. rewrite length_app. cbn [length]. intros Hk.
    set (l := length (digits (n / 10))) in *.
    destruct (decide (k = l + 1)%nat) as [->|].
    + rewrite Nat.sub_diag. change (10 ^ Z.of_nat 0) with 1. rewrite Z.div_1_r.
      rewrite take_ge by (rewrite length_app; cbn; lia). by rewrite <- digits_large.
    + rewrite take_app_le by lia. rewrite IH by lia. f_equal.
      replace (l + 1 - k)%nat with (S (l - k)) by lia.
      rewrite Nat2Z.inj_succ, Z.pow_succ_r by lia.
      rewrite Z.div_div; [done|lia|]. apply Z.pow_pos_nonneg; lia.
Qed.

(** ** Parsing numerals *)

Lemma parse_uint_loop_app s t n :
  parse_uint_loop (s ++ t) n =
  match parse_uint_loop s n with inr m => parse_uint_loop t m | inl e => inl e end.
Proof.
  revert n. induction s as [|c s IH]; intros n; cbn; [done|].
  destruct (negb (is_digit c)); [done|].
  destruct (two64 / 10 + 1 <=? n); [done|].
  destruct (two64 <=? _); [done|]. apply IH.
Qed.

Lemma parse_uint_loop_digits n : 0 <= n < two64 → parse_uint_loop (digits n) 0 = inr n.
Proof.
  intros [Hn Hb]. revert n Hn Hb.
  apply (digits_ind (λ n, n < two64 → parse_uint_loop (digits n) 0 = inr n)); intros n Hn.
  - intros _. rewrite digits_small by done. cbn [parse_uint_loop].
    rewrite is_digit_digit, digit_value_digit by done. cbn [negb].
    destruct (Z.leb_spec (two64 / 10 + 1) 0) as [Hc|_]; [by vm_compute in Hc|].
    destruct (Z.leb_spec two64 (0 * 10 + n)); [unfold two64 in *; lia|]. done.
  - intros IH Hb. rewrite digits_large by done. rewrite parse_uint_loop_app.
    pose proof (Z.div_mod n 10). pose proof (Z.mod_pos_bound n 10).
    rewrite IH by (unfold two64 in *; lia). cbn [parse_uint_loop].
    rewrite is_digit_digit, digit_value_digit by lia. cbn [negb].
    change (two64 / 10 + 1) with 1844674407370955162.
    destruct (Z.leb_spec 1844674407370955162 (n / 10)); [unfold two64 in *; lia|].
    destruct (Z.leb_spec two64 (n / 10 * 10 + n mod 10)); [lia|].
    f_equal. lia.
Qed.

Lemma digits_cons n : 0 <= n → ∃ c s, digits n = c :: s ∧ is_digit c = true.
Proof.
  intros Hn. pose proof (digits_are_digits n Hn) as Hd.
  pose proof (length_digits_bounds n Hn) as (_ & _ & Hl).
  destruct (digits n) as [|c s]; [cbn in Hl; lia|].
  inversion Hd; subst. eauto.
Qed.

(** [ParseInt] recovers every [int64] from its decimal text. *)
Lemma parse_int_format_int z : in_i64 z → parse_int (format_int z) = Ret z.
Proof.
  intros Hz. unfold in_i64 in Hz. unfold format_int. destruct (Z.ltb_spec z 0).
  - unfold parse_int. cbn.
    destruct (digits_cons (- z)) as (c & s & E & _); [lia|].
    pose proof (parse_uint_loop_digits (- z)) as Hp. rewrite E in Hp |- *.
    rewrite Hp by (unfold two63, two64 in *; lia).
    destruct (Z.ltb_spec two63 (- z)); [unfold two63 in *; lia|].
    f_equal. lia.
  - destruct (digits_cons z) as (c & s & E & Hd); [lia|].
    unfold parse_int. rewrite E.
    destruct (is_digit_not c Hd) as (H1 & H2 & _).
    rewrite (proj2 (Ascii.eqb_neq c _) H1), (proj2 (Ascii.eqb_neq c _) H2). cbn [orb].
    rewrite <- E, parse_uint_loop_digits by (unfold two63, two64 in *; lia).
    cbn [negb andb]. destruct (Z.leb_spec two63 z); [unfold two63 in *; lia|]. done.
Qed.

Lemma parse_uint_format_int z : 0 <= z < two64 → parse_uint (format_int z) = Ret z.
Proof.
  intros Hz. unfold format_int. destruct (Z.ltb_spec z 0); [lia|].
  unfold parse_uint. destruct (digits_cons z) as (c & s & E & Hd); [lia|].
  rewrite E. by rewrite <- E, parse_uint_loop_digits.
Qed.

(** The characters of a decimal integer. *)
Lemma format_int_chars z :
  Forall (λ c, is_digit c = true ∨ c = "-"%char) (format_int z).
Proof.
  unfold format_int. destruct (Z.ltb_spec z 0); [constructor; [by right|]|];
  (eapply Forall_impl; [apply digits_are_digits; lia|]; auto).
Qed.

Lemma parse_bool_format_bool b : parse_bool (format_bool b) = Ret b.
Proof. by destruct b. Qed.

#[export] Hint Resolve is_digit_digit digits_are_digits parse_int_format_int
  parse_bool_format_bool : go.
