(* ===== verification/Escape.v ===== *)
(** * Escaping: package [pkg/escape] and the escaping half of [models/points.go]

    Every escape of line protocol puts a backslash before a byte of some
    class.  The class-indexed functions [esc] and [unesc] are the
    specification; the definitions named after the source are proved equal
    to them. *)

From S2P Require Import Prelude GoStd.

(* ------------------------------------------------------------------ *)
(** ** Specification *)

(** Put a backslash before every byte of the class [P]. *)
Fixpoint esc (P : ascii → bool) (s : bytes) : bytes :=
  match s with
  | [] => []
  | c :: s' => if P c then backslash :: c :: esc P s' else c :: esc P s'
  end.

(** Drop a backslash that stands before a byte of the class [P]. *)
Fixpoint unesc (P : ascii → bool) (s : bytes) : bytes :=
  match s with
  | [] => []
  | c :: s' =>
      if Ascii.eqb c backslash then
        match s' with
        | d :: s'' => if P d then d :: unesc P s'' else c :: unesc P s'
        | [] => [c]
        end
      else c :: unesc P s'
  end.

(* ------------------------------------------------------------------ *)
(** ** Package [pkg/escape] *)

Module PkgEscape.

(** [Codes]; Go iterates over a map in no fixed order. *)
Definition Codes : list (ascii * bytes) :=
  [(",", bs "\,"); (dquote, [backslash; dquote]); (" ", bs "\ "); ("=", bs "\=")]%char.

(** [Bytes], for the order in which the runtime visits the codes. *)
Definition Bytes (order : list (ascii * bytes)) (inp : bytes) : bytes :=
  foldl (λ acc p, replace_all acc [p.1] p.2) inp order.

Definition escapeChars : bytes := ","%char :: dquote :: bs " =".

Definition special (c : ascii) : bool := has_byte escapeChars c.

(** [IsEscaped]: [b = b[i+1:]] until a backslash before an escape character. *)
Fixpoint IsEscaped (b : bytes) : bool :=
  match b with
  | [] => false
  | c :: b' =>
      if Ascii.eqb c backslash then
        match b' with
        | d :: _ => if special d then true else IsEscaped b'
        | [] => false
        end
      else IsEscaped b'
  end.

(** The loop of [AppendUnescaped]; every turn shortens [src] or moves
    [pos] forward, so [length src] turns are enough. *)
Fixpoint append_unescaped_loop (fuel : nat) (dst src : bytes) (pos : nat) : bytes :=
  match fuel with
  | O => dst ++ src
  | S fuel' =>
      match src with
      | [] => dst
      | _ :: _ =>
          match index_byte (drop pos src) backslash with
          | None => dst ++ src
          | Some next =>
              match src !! (pos + next + 1) with
              | None => dst ++ src
              | Some c =>
                  if special c then
                    let dst' := if (0 <? pos + next)%nat then dst ++ take (pos + next) src
                                else dst in
                    append_unescaped_loop fuel' dst' (drop (pos + next + 1) src) 0
                  else append_unescaped_loop fuel' dst src (pos + next + 1)
              end
          end
      end
  end.
Definition AppendUnescaped (dst src : bytes) : bytes :=
  append_unescaped_loop (S (length src)) dst src 0.

(** The loop of [Unescape]: [in[i]] is the head, [in[i+1]] the next byte. *)
Fixpoint unescape_loop (inp : bytes) : bytes :=
  match inp with
  | [] => []
  | c :: rest =>
      if Ascii.eqb c backslash then
        match rest with
        | d :: rest' =>
            if (d =c ",") || (Ascii.eqb d dquote) || (d =c " ") || (d =c "=")
            then d :: unescape_loop rest'
            else c :: unescape_loop rest
        | [] => [c]
        end
      else c :: unescape_loop rest
  end.

Definition Unescape (inp : bytes) : bytes :=
  match inp with
  | [] => []
  | _ => if negb (has_byte inp backslash) then inp else unescape_loop inp
  end.

Definition escaper : bytes → bytes :=
  replacer [(bs ",", bs "\,"); ([dquote], [backslash; dquote]);
            (bs " ", bs "\ "); (bs "=", bs "\=")].
Definition unescaper : bytes → bytes :=
  replacer [(bs "\,", bs ","); ([backslash; dquote], [dquote]);
            (bs "\ ", bs " "); (bs "\=", bs "=")].

Definition UnescapeString (inp : bytes) : bytes :=
  if negb (has_byte inp backslash) then inp else unescaper inp.

Definition String (inp : bytes) : bytes := escaper inp.

End PkgEscape.

(* ------------------------------------------------------------------ *)
(** ** Escaping in [models/points.go] *)

Module Models.

(** An [escapeSet]: the byte [k] and its escaped form [esc]. *)
Record escapeSet := EscapeSet { k : bytes; esc_code : bytes }.

Definition measurementEscapeCodes : list escapeSet :=
  [EscapeSet (bs ",") (bs "\,"); EscapeSet (bs " ") (bs "\ ")].

Definition tagEscapeCodes : list escapeSet :=
  [EscapeSet (bs ",") (bs "\,"); EscapeSet (bs " ") (bs "\ "); EscapeSet (bs "=") (bs "\=")].

Definition has_code (s : bytes) (c : escapeSet) : bool :=
  match k c with b :: _ => has_byte s b | [] => false end.

(** One turn of the escaping loops. *)
Definition escape_code (s : bytes) (c : escapeSet) : bytes :=
  if has_code s c then replace_all s (k c) (esc_code c) else s.

(** One turn of the unescaping loops. *)
Definition unescape_code (s : bytes) (c : escapeSet) : bytes :=
  if has_code s c then replace_all s (esc_code c) (k c) else s.

Definition EscapeMeasurement (inp : bytes) : bytes :=
  foldl escape_code inp measurementEscapeCodes.

Definition unescapeMeasurement (inp : bytes) : bytes :=
  if negb (has_byte inp backslash) then inp
  else foldl unescape_code inp measurementEscapeCodes.

Definition escapeTag (inp : bytes) : bytes := foldl escape_code inp tagEscapeCodes.

Definition unescapeTag (inp : bytes) : bytes :=
  if negb (has_byte inp backslash) then inp
  else foldl unescape_code inp tagEscapeCodes.

Definition escapeStringFieldReplacer : bytes → bytes :=
  replacer [([dquote], [backslash; dquote]); ([backslash], [backslash; backslash])].

Definition EscapeStringField (inp : bytes) : bytes := escapeStringFieldReplacer inp.

Fixpoint unescape_string_loop (inp : bytes) : bytes :=
  match inp with
  | [] => []
  | c :: rest =>
      if Ascii.eqb c backslash then
        match rest with
        | d :: rest' =>
            if Ascii.eqb d backslash then backslash :: unescape_string_loop rest'
            else if Ascii.eqb d dquote then dquote :: unescape_string_loop rest'
            else c :: unescape_string_loop rest
        | [] => [c]
        end
      else c :: unescape_string_loop rest
  end.

Definition unescapeStringField (inp : bytes) : bytes :=
  if negb (has_byte inp backslash) then inp else unescape_string_loop inp.

End Models.
