(* ===== verification/EscapeFacts.v ===== *)
(** * The escapes are inverse: lemmas and properties of [Escape] *)

From S2P Require Import Prelude GoStd Escape.

(** Induction on the length of a byte string. *)
Lemma bytes_length_ind (P : bytes → Prop) :
  (∀ s, (∀ t, length t < length s → P t) → P s) → ∀ s, P s.
Proof.
  intros H s. remember (length s) as n eqn:E. revert s E.
  induction n as [n IH] using (well_founded_induction lt_wf). intros s ->.
  apply H. intros t Ht. by eapply IH.
Qed.

(** ** [esc] and [unesc] *)

Section Esc.
Context (P : ascii → bool).

Lemma unesc_esc s : P backslash = false → unesc P (esc P s) = s.
Proof.
  intros HP. induction s as [|c s IH]; [done|]. cbn.
  destruct (P c) eqn:Hc; cbn; [by rewrite Hc, IH|].
  destruct (Ascii.eqb_spec c backslash) as [->|]; [|by rewrite IH].
  destruct s as [|d s]; [done|]. cbn in *.
  destruct (P d) eqn:Hd; [rewrite HP; by rewrite IH|]. by rewrite Hd, IH.
Qed.

(** For a class that holds the backslash itself. *)
Lemma unesc_esc_full s : P backslash = true → unesc P (esc P s) = s.
Proof.
  intros HP. induction s as [|c s IH]; [done|]. cbn.
  destruct (P c) eqn:Hc; cbn; [by rewrite Hc, IH|].
  destruct (Ascii.eqb_spec c backslash) as [->|]; [congruence|]. by rewrite IH.
Qed.

Lemma esc_id s : Forall (λ c, P c = false) s → esc P s = s.
Proof. induction 1 as [|c s Hc _ IH]; cbn; [done|]. by rewrite Hc, IH. Qed.

Lemma unesc_id s : backslash ∉ s → unesc P s = s.
Proof.
  induction s as [|c s IH]; [done|]. rewrite not_elem_of_cons. intros [Hc Hs]. cbn.
  rewrite (proj2 (Ascii.eqb_neq c backslash)) by done. by rewrite IH.
Qed.

Lemma esc_app s t : esc P (s ++ t) = esc P s ++ esc P t.
Proof. induction s as [|c s IH]; cbn; [done|]. destruct (P c); cbn; by rewrite IH. Qed.

Lemma unesc_plain s t : backslash ∉ s → unesc P (s ++ t) = s ++ unesc P t.
Proof.
  induction s as [|c s IH]; [done|]. rewrite not_elem_of_cons. intros [Hc Hs]. cbn.
  rewrite (proj2 (Ascii.eqb_neq c backslash)) by done. by rewrite IH.
Qed.

Lemma esc_nil_inv s : esc P s = [] → s = [].
Proof. destruct s as [|c s]; cbn; [done|]. by destruct (P c). Qed.

Lemma esc_length s : length s ≤ length (esc P s) ≤ 2 * length s.
Proof. induction s as [|c s IH]; cbn; [lia|]. destruct (P c); cbn; lia. Qed.
End Esc.

Lemma esc_ext P Q s : (∀ c, P c = Q c) → esc P s = esc Q s.
Proof. intros H. induction s as [|c s IH]; cbn; [done|]. by rewrite H, IH. Qed.

Lemma unesc_ext P Q s : (∀ c, P c = Q c) → unesc P s = unesc Q s.
Proof.
  intros H. induction s as [s IH] using bytes_length_ind. destruct s as [|c s]; [done|].
  cbn. destruct (Ascii.eqb c backslash); [|rewrite IH; cbn; [done|lia]].
  destruct s as [|d s]; [done|]. rewrite H.
  destruct (Q d); rewrite IH; cbn; done || lia.
Qed.

(** Escaping one more byte after a class is escaping the larger class. *)
Lemma esc_esc P d s : P d = false → d ≠ backslash →
  esc (λ c, Ascii.eqb c d) (esc P s) = esc (λ c, P c || Ascii.eqb c d) s.
Proof.
  intros HP Hd. induction s as [|c s IH]; cbn; [done|].
  destruct (P c) eqn:Hc; cbn.
  - rewrite (proj2 (Ascii.eqb_neq backslash d)) by done.
    destruct (Ascii.eqb_spec c d); [congruence|]. by rewrite IH.
  - destruct (Ascii.eqb c d); by rewrite IH.
Qed.

Lemma unesc_head P s : P backslash = false →
  ∃ t, unesc P (backslash :: s) = backslash :: t ∨
       ∃ p, P p = true ∧ unesc P (backslash :: s) = p :: t.
Proof.
  intros HP. destruct s as [|d s]; cbn; [eauto|].
  destruct (P d) eqn:Hd; eexists; [right|left]; eauto.
Qed.

(** Unescaping one more byte after a class is unescaping the larger class. *)
Lemma unesc_unesc P d s : P d = false → d ≠ backslash → P backslash = false →
  unesc (λ c, Ascii.eqb c d) (unesc P s) = unesc (λ c, P c || Ascii.eqb c d) s.
Proof.
  intros HP Hd Hb. induction s as [s IH] using bytes_length_ind.
  destruct s as [|c s]; [done|]. cbn [unesc].
  destruct (Ascii.eqb_spec c backslash) as [->|Hc].
  2:{ cbn. rewrite (proj2 (Ascii.eqb_neq c backslash)) by done. rewrite IH; cbn; [done|lia]. }
  destruct s as [|e s]; [done|]. destruct (P e) eqn:He; cbn [orb].
  { cbn [unesc]. destruct (Ascii.eqb_spec e backslash) as [->|]; [congruence|].
    rewrite IH; cbn; [done|lia]. }
  destruct (Ascii.eqb_spec e d) as [->|Hed].
  { cbn [unesc]. rewrite (proj2 (Ascii.eqb_neq d backslash)) by done.
    rewrite !Ascii.eqb_refl. rewrite IH; cbn; [done|lia]. }
  rewrite <- IH by (cbn; lia).
  destruct (Ascii.eqb_spec e backslash) as [->|Heb].
  - destruct (unesc_head P s Hb) as (t & [E|(p & Hp & E)]); rewrite E; cbn [unesc].
    + rewrite (proj2 (Ascii.eqb_neq backslash d)) by done. done.
    + destruct (Ascii.eqb_spec p d); [congruence|]. done.
  - cbn [unesc]. rewrite (proj2 (Ascii.eqb_neq e backslash)) by done. cbn.
    rewrite (proj2 (Ascii.eqb_neq e d)) by done.
    by rewrite (proj2 (Ascii.eqb_neq e backslash)).
Qed.

(** ** The replacing functions of the source are [esc] and [unesc] *)

Lemma has_byte_spec s c : has_byte s c = true ↔ c ∈ s.
Proof.
  unfold has_byte. induction s as [|d s IH]; cbn; [split; [done|by intros ?%elem_of_nil]|].
  rewrite elem_of_cons. destruct (Ascii.eqb_spec d c) as [->|Hn]; [split; auto|].
  rewrite <- IH. destruct (index_byte s c); cbn; (split; [auto|intros [?|?]; congruence]).
Qed.

Lemma has_byte_false s c : has_byte s c = false ↔ c ∉ s.
Proof. rewrite <- has_byte_spec. by destruct (has_byte s c). Qed.

Lemma replace_one s c : replace_all s [c] [backslash; c] = esc (λ d, Ascii.eqb d c) s.
Proof.
  unfold replace_all. induction s as [|d s IH]; cbn; [done|].
  destruct (Ascii.eqb_spec d c) as [->|]; cbn; by rewrite IH.
Qed.

Lemma replace_two s c : c ≠ backslash →
  replace_all s [backslash; c] [c] = unesc (λ d, Ascii.eqb d c) s.
Proof.
  intros Hc. unfold replace_all. induction s as [s IH] using bytes_length_ind.
  destruct s as [|d s]; [done|]. cbn.
  destruct (Ascii.eqb_spec d backslash) as [->|]; cbn; [|rewrite IH; cbn; [done|lia]].
  destruct s as [|e s]; [done|].
  destruct (Ascii.eqb_spec e c) as [->|]; cbn; [rewrite IH; cbn; [done|lia]|].
  f_equal. apply (IH (e :: s)). cbn; lia.
Qed.

Lemma escape_code_spec s c :
  Models.escape_code s (Models.EscapeSet [c] [backslash; c]) = esc (λ d, Ascii.eqb d c) s.
Proof.
  unfold Models.escape_code, Models.has_code. cbn. rewrite replace_one.
  destruct (has_byte s c) eqn:E; [done|]. apply has_byte_false in E.
  symmetry. apply esc_id, Forall_forall. intros x Hx.
  apply Ascii.eqb_neq. by intros ->.
Qed.

Lemma unescape_code_spec s c : c ≠ backslash →
  Models.unescape_code s (Models.EscapeSet [c] [backslash; c]) = unesc (λ d, Ascii.eqb d c) s.
Proof.
  intros Hc. unfold Models.unescape_code, Models.has_code. cbn. rewrite replace_two by done.
  destruct (has_byte s c) eqn:E; [done|]. apply has_byte_false in E.
  symmetry. induction s as [|d s IH]; [done|]. apply not_elem_of_cons in E as [_ E]. cbn.
  destruct (Ascii.eqb d backslash); [|by rewrite IH].
  rewrite IH by done. destruct s as [|e s]; [done|].
  apply not_elem_of_cons in E as [Ee _]. by rewrite (proj2 (Ascii.eqb_neq e c)).
Qed.

(** The classes of the two families of escapes. *)
Definition meas_class (c : ascii) : bool := (c =c ",") || (c =c " ").
Definition tag_class (c : ascii) : bool := (c =c ",") || (c =c " ") || (c =c "=").
Definition str_class (c : ascii) : bool := Ascii.eqb c dquote || Ascii.eqb c backslash.
Definition key_class (c : ascii) : bool :=
  (c =c ",") || Ascii.eqb c dquote || (c =c " ") || (c =c "=").

Lemma EscapeMeasurement_spec s : Models.EscapeMeasurement s = esc meas_class s.
Proof.
  unfold Models.EscapeMeasurement, Models.measurementEscapeCodes. cbn [foldl bs String.list_ascii_of_string].
  rewrite !escape_code_spec. by rewrite esc_esc.
Qed.

Lemma unescapeMeasurement_spec s : Models.unescapeMeasurement s = unesc meas_class s.
Proof.
  unfold Models.unescapeMeasurement. destruct (has_byte s backslash) eqn:E; cbn [negb].
  - unfold Models.measurementEscapeCodes. cbn [foldl bs String.list_ascii_of_string].
    rewrite !unescape_code_spec by done. by rewrite unesc_unesc.
  - apply has_byte_false in E. by rewrite unesc_id.
Qed.

Lemma escapeTag_spec s : Models.escapeTag s = esc tag_class s.
Proof.
  unfold Models.escapeTag, Models.tagEscapeCodes. cbn [foldl bs String.list_ascii_of_string].
  rewrite !escape_code_spec. by rewrite (esc_esc (λ d, d =c ",") " "), (esc_esc (λ c, (c =c ",") || (c =c " ")) "=").
Qed.

Lemma unescapeTag_spec s : Models.unescapeTag s = unesc tag_class s.
Proof.
  unfold Models.unescapeTag. destruct (has_byte s backslash) eqn:E; cbn [negb].
  - unfold Models.tagEscapeCodes. cbn [foldl bs String.list_ascii_of_string].
    rewrite !unescape_code_spec by done. by rewrite (unesc_unesc (λ d, d =c ",") " "),
      (unesc_unesc (λ c, (c =c ",") || (c =c " ")) "=").
  - apply has_byte_false in E. by rewrite unesc_id.
Qed.

Lemma escape_String_spec s : PkgEscape.String s = esc key_class s.
Proof.
  unfold PkgEscape.String, PkgEscape.escaper, replacer. cbn [bs String.list_ascii_of_string].
  induction s as [|c s IH]; [done|]. cbn.
  unfold key_class at 1. char_cases; cbn; by rewrite IH.
Qed.

Lemma unescape_loop_spec s : PkgEscape.unescape_loop s = unesc key_class s.
Proof.
  induction s as [s IH] using bytes_length_ind. destruct s as [|c s]; [done|]. cbn.
  destruct (Ascii.eqb c backslash); [|rewrite IH; cbn; [done|lia]].
  destruct s as [|d s]; [done|]. fold (key_class d).
  destruct (key_class d); rewrite IH; cbn; done || lia.
Qed.

Lemma Unescape_spec s : PkgEscape.Unescape s = unesc key_class s.
Proof.
  unfold PkgEscape.Unescape. destruct s as [|c s]; [done|].
  destruct (has_byte (c :: s) backslash) eqn:E; cbn [negb]; [apply unescape_loop_spec|].
  apply has_byte_false in E. by rewrite unesc_id.
Qed.

Lemma EscapeStringField_spec s : Models.EscapeStringField s = esc str_class s.
Proof.
  unfold Models.EscapeStringField, Models.escapeStringFieldReplacer, replacer.
  induction s as [|c s IH]; [done|]. cbn.
  unfold str_class at 1. char_cases; cbn; by rewrite IH.
Qed.

Lemma unescapeStringField_spec s : Models.unescapeStringField s = unesc str_class s.
Proof.
  unfold Models.unescapeStringField. destruct (has_byte s backslash) eqn:E; cbn [negb].
  2:{ apply has_byte_false in E. by rewrite unesc_id. }
  clear E. induction s as [s IH] using bytes_length_ind. destruct s as [|c s]; [done|]. cbn.
  destruct (Ascii.eqb c backslash); [|rewrite IH; cbn; [done|lia]].
  destruct s as [|d s]; [done|]. unfold str_class at 1.
  destruct (Ascii.eqb_spec d backslash) as [->|]; cbn.
  { rewrite IH by (cbn; lia). by destruct (Ascii.eqb backslash dquote). }
  destruct (Ascii.eqb_spec d dquote) as [->|]; cbn; f_equal; [apply (IH s)|apply (IH (d :: s))];
    cbn; lia.
Qed.

Create Rewrite HintDb esc.
#[export] Hint Rewrite EscapeMeasurement_spec unescapeMeasurement_spec escapeTag_spec
  unescapeTag_spec escape_String_spec Unescape_spec EscapeStringField_spec
  unescapeStringField_spec : esc.

#[export] Instance measurement_codec :
  Codec Models.EscapeMeasurement Models.unescapeMeasurement (λ _, True).
Proof. intros s _. autorewrite with esc. by apply unesc_esc. Qed.

#[export] Instance tag_codec : Codec Models.escapeTag Models.unescapeTag (λ _, True).
Proof. intros s _. autorewrite with esc. by apply unesc_esc. Qed.

#[export] Instance key_codec : Codec PkgEscape.String PkgEscape.Unescape (λ _, True).
Proof. intros s _. autorewrite with esc. by apply unesc_esc. Qed.

#[export] Instance string_field_codec :
  Codec Models.EscapeStringField Models.unescapeStringField (λ _, True).
Proof. intros s _. autorewrite with esc. by apply unesc_esc_full. Qed.

(** ** [AppendUnescaped] and [IsEscaped] *)

Lemma key_class_special c : PkgEscape.special c = key_class c.
Proof.
  destruct (key_class c) eqn:E; unfold key_class in E.
  - unfold PkgEscape.special. apply has_byte_spec.
    rewrite !orb_true_iff, !Ascii.eqb_eq in E.
    destruct E as [[[->| ->]| ->]| ->]; unfold PkgEscape.escapeChars; cbn; set_solver.
  - unfold PkgEscape.special. apply has_byte_false.
    rewrite !orb_false_iff, !Ascii.eqb_neq in E. destruct E as [[[? ?] ?] ?].
    unfold PkgEscape.escapeChars; cbn. rewrite !not_elem_of_cons.
    split_and!; auto. by intros ?%elem_of_nil.
Qed.

Lemma index_byte_Some s c n : index_byte s c = Some n →
  ∃ u v, s = u ++ c :: v ∧ length u = n ∧ c ∉ u.
Proof.
  revert n. induction s as [|d s IH]; intros n; cbn; [done|].
  destruct (Ascii.eqb_spec d c) as [->|Hd].
  - intros [= <-]. exists [], s. split_and!; [done..|by intros ?%elem_of_nil].
  - destruct (index_byte s c) as [m|]; cbn; [|done]. intros [= <-].
    destruct (IH m) as (u & v & -> & <- & Hu); [done|].
    exists (d :: u), v. rewrite not_elem_of_cons. split_and!; done || congruence.
Qed.

Lemma index_byte_None s c : index_byte s c = None → c ∉ s.
Proof. intros H. apply has_byte_false. unfold has_byte. by rewrite H. Qed.

Lemma append_unescaped_loop_spec fuel dst src pos :
  length src - pos < fuel → pos ≤ length src →
  unesc key_class src = take pos src ++ unesc key_class (drop pos src) →
  PkgEscape.append_unescaped_loop fuel dst src pos = dst ++ unesc key_class src.
Proof.
  revert dst src pos. induction fuel as [|fuel IH]; intros dst src pos Hf Hp Hu; [lia|].
  cbn [PkgEscape.append_unescaped_loop].
  destruct src as [|s0 src0]; [cbn; by rewrite app_nil_r|].
  set (src := s0 :: src0) in *.
  destruct (index_byte (drop pos src) backslash) as [next|] eqn:E.
  2:{ apply index_byte_None in E. by rewrite Hu, unesc_id, take_drop. }
  apply index_byte_Some in E as (u & v & Ed & <- & Hnb).
  assert (src = take pos src ++ u ++ backslash :: v) as Es by (by rewrite <- Ed, take_drop).
  assert (length (take pos src) = pos) as Hlt by (rewrite length_take; lia).
  assert (drop (pos + length u + 1) src = v) as Hdrop.
  { rewrite Es. change (backslash :: v) with ([backslash] ++ v). rewrite !app_assoc.
    apply drop_app_length'. rewrite !length_app, Hlt. cbn. lia. }
  assert (take (pos + length u) src = take pos src ++ u) as Htake.
  { rewrite Es at 1. rewrite app_assoc. rewrite take_app_length'; [done|].
    rewrite length_app, Hlt. lia. }
  assert (src !! (pos + length u + 1) = v !! 0) as Hget.
  { rewrite <- Hdrop, lookup_drop. f_equal. lia. }
  assert (length src = pos + length u + 1 + length v) as Hlen.
  { rewrite Es at 1. rewrite !length_app. cbn. lia. }
  rewrite Hget, Hdrop, Htake. rewrite Ed, unesc_plain in Hu by done.
  destruct v as [|c v]; cbn [lookup list_lookup].
  { rewrite Hu. cbn. by rewrite Es at 1. }
  rewrite key_class_special. destruct (key_class c) eqn:Hc.
  - assert (c ≠ backslash) as Hcb by (intros ->; done).
    assert (unesc key_class (c :: v) = c :: unesc key_class v) as Hcv.
    { cbn. by rewrite (proj2 (Ascii.eqb_neq c backslash)). }
    rewrite IH; [|cbn in *; lia|cbn; lia|done].
    rewrite Hu, Hcv. cbn [unesc]. rewrite Ascii.eqb_refl, Hc.
    destruct (Nat.ltb_spec 0 (pos + length u)) as [|Hz]; [by rewrite <- !app_assoc|].
    destruct u as [|]; [|cbn in Hz; lia]. assert (pos = 0) as -> by lia. done.
  - apply IH; [cbn in *; lia|lia|].
    assert (take (pos + length u + 1) src = take pos src ++ u ++ [backslash]) as ->.
    { rewrite Es at 1. change (backslash :: c :: v) with ([backslash] ++ c :: v).
      rewrite (app_assoc u), app_assoc.
      rewrite take_app_length'; [done|]. rewrite !length_app, Hlt. cbn. lia. }
    rewrite Hu, Hdrop. cbn [unesc]. rewrite Ascii.eqb_refl, Hc. by rewrite <- !app_assoc.
Qed.

Lemma AppendUnescaped_spec dst src :
  PkgEscape.AppendUnescaped dst src = dst ++ unesc key_class src.
Proof. apply append_unescaped_loop_spec; [lia|lia|]. by rewrite take_0, drop_0. Qed.

Lemma IsEscaped_spec b : PkgEscape.IsEscaped b = false → unesc key_class b = b.
Proof.
  induction b as [|c b IH]; [done|]. cbn.
  destruct (Ascii.eqb c backslash); [|intros; by rewrite IH].
  destruct b as [|d b]; [done|]. rewrite key_class_special.
  destruct (key_class d); [done|]. intros. by rewrite IH.
Qed.

(* ------------------------------------------------------------------ *)
(** ** The order of the codes *)

(** Escaping the bytes of a list in turn is escaping their class, in any
    order. *)
Lemma fold_replace_one (cs : list ascii) : ∀ P s, NoDup cs → backslash ∉ cs →
  (∀ c, c ∈ cs → P c = false) →
  foldl (λ acc c, replace_all acc [c] [backslash; c]) (esc P s) cs =
  esc (λ c, P c || existsb (Ascii.eqb c) cs) s.
Proof.
  induction cs as [|d cs IH]; intros P s Hnd Hb HP; cbn [foldl].
  - apply esc_ext. intros c. cbn. by rewrite orb_false_r.
  - apply NoDup_cons in Hnd as [Hd Hnd]. apply not_elem_of_cons in Hb as [Hbd Hb].
    rewrite replace_one, esc_esc; [|by apply HP; left|done].
    rewrite IH; [|done|done|].
    + apply esc_ext. intros c. cbn. by rewrite orb_assoc.
    + intros c Hc. rewrite HP by (by right). cbn. apply Ascii.eqb_neq. by intros ->.
Qed.

Lemma existsb_perm {A} (f : A → bool) l k : l ≡ₚ k → existsb f l = existsb f k.
Proof.
  induction 1; cbn; try done; [by f_equal| |by etransitivity].
  rewrite !orb_assoc. f_equal. apply orb_comm.
Qed.

Lemma Bytes_any_order order inp : order ≡ₚ PkgEscape.Codes →
  PkgEscape.Bytes order inp = PkgEscape.String inp.
Proof.
  intros Hp. rewrite escape_String_spec. unfold PkgEscape.Bytes.
  assert (∀ p, p ∈ order → p.2 = [backslash; p.1]) as Hshape.
  { intros p. rewrite Hp. unfold PkgEscape.Codes. rewrite !elem_of_cons, elem_of_nil. naive_solver. }
  assert (foldl (λ acc p, replace_all acc [p.1] p.2) inp order =
          foldl (λ acc c, replace_all acc [c] [backslash; c]) inp order.*1) as ->.
  { clear Hp. revert inp. induction order as [|p order IH]; intros inp; cbn; [done|].
    rewrite (Hshape p) by by left. apply IH. intros q Hq. apply Hshape. by right. }
  assert (order.*1 ≡ₚ PkgEscape.Codes.*1) as Hp1 by by rewrite Hp.
  rewrite <- (esc_id (λ _, false) inp) at 1 by (by apply Forall_forall).
  rewrite fold_replace_one.
  - apply esc_ext. intros c. cbn [orb]. rewrite (existsb_perm _ _ _ Hp1). cbn.
    unfold key_class. rewrite orb_false_r. by rewrite !orb_assoc.
  - rewrite Hp1. apply (bool_decide_unpack _). by vm_compute.
  - rewrite Hp1. apply (bool_decide_unpack _). by vm_compute.
  - done.
Qed.

Lemma unescaper_spec s : PkgEscape.unescaper s = unesc key_class s.
Proof.
  unfold PkgEscape.unescaper, replacer. cbn [bs String.list_ascii_of_string].
  induction s as [s IH] using bytes_length_ind. destruct s as [|c s]; [done|].
  cbn [replacer_from List.find has_prefix fst snd unesc].
  change "\"%char with backslash. destruct (Ascii.eqb_spec c backslash) as [->|].
  2:{ cbn [andb]. rewrite IH; [done|cbn; lia]. }
  destruct s as [|d s]; [done|]. cbn [andb]. unfold key_class at 1. rewrite !andb_true_r.
  destruct (Ascii.eqb_spec d ","%char) as [->|]; cbn [orb app length Nat.sub replacer_from];
    [rewrite IH; [done|cbn; lia]|].
  destruct (Ascii.eqb_spec d dquote) as [->|]; cbn [orb app length Nat.sub replacer_from];
    [rewrite IH; [done|cbn; lia]|].
  destruct (Ascii.eqb_spec d " "%char) as [->|]; cbn [orb app length Nat.sub replacer_from];
    [rewrite IH; [done|cbn; lia]|].
  destruct (Ascii.eqb_spec d "="%char) as [->|]; cbn [orb app length Nat.sub replacer_from];
    [rewrite IH; [done|cbn; lia]|].
  f_equal. apply (IH (d :: s)). cbn; lia.
Qed.

Lemma UnescapeString_spec s : PkgEscape.UnescapeString s = unesc key_class s.
Proof.
  unfold PkgEscape.UnescapeString. rewrite unescaper_spec.
  destruct (has_byte s backslash) eqn:E; [done|]. apply has_byte_false in E. cbn. by rewrite unesc_id.
Qed.
