(* ===== verification/GoUtf8.v ===== *)
(** * [unicode/utf8], [unicode/utf16], [unicode.IsSpace] and
    [strings.TrimSpace] *)

From S2P Require Import Prelude GoStd.

#[local] Open Scope Z_scope.

(** A byte as a number, and the byte of a number. *)
Definition code (c : ascii) : Z := Z.of_N (N_of_ascii c).
Definition chr (z : Z) : ascii := ascii_of_N (Z.to_N z).

Definition RuneError : Z := 65533.
Definition MaxRune : Z := 1114111.

(** The surrogates are no characters. *)
Definition is_surrogate (r : Z) : bool := (55296 <=? r) && (r <? 57344).
Definition valid_rune (r : Z) : bool := (0 <=? r) && (r <=? MaxRune) && negb (is_surrogate r).

(** [utf8.EncodeRune]. *)
Definition EncodeRune (r : Z) : bytes :=
  let r := if valid_rune r then r else RuneError in
  if r <? 128 then [chr r]
  else if r <? 2048 then [chr (192 + r / 64); chr (128 + r mod 64)]
  else if r <? 65536 then [chr (224 + r / 4096); chr (128 + r / 64 mod 64); chr (128 + r mod 64)]
  else [chr (240 + r / 262144); chr (128 + r / 4096 mod 64); chr (128 + r / 64 mod 64);
        chr (128 + r mod 64)].

Definition in_range (lo hi : Z) (c : ascii) : bool := (lo <=? code c) && (code c <=? hi).
Definition is_cont : ascii → bool := in_range 128 191.

(** The length of the character a byte above 127 begins, and the range of
    its second byte. *)
Definition first_info (b0 : Z) : option (nat * Z * Z) :=
  if b0 <? 194 then None
  else if b0 <? 224 then Some (2%nat, 128, 191)
  else if b0 =? 224 then Some (3%nat, 160, 191)
  else if b0 =? 237 then Some (3%nat, 128, 159)
  else if b0 <? 240 then Some (3%nat, 128, 191)
  else if b0 =? 240 then Some (4%nat, 144, 191)
  else if b0 <? 244 then Some (4%nat, 128, 191)
  else if b0 =? 244 then Some (4%nat, 128, 143)
  else None.

(** [utf8.DecodeRune]: the character and the bytes it takes; a byte that
    begins none is [RuneError] and one byte. *)
Definition DecodeRune (s : bytes) : Z * nat :=
  match s with
  | [] => (RuneError, 0%nat)
  | c0 :: s1 =>
      let b0 := code c0 in
      if b0 <? 128 then (b0, 1%nat)
      else match first_info b0 with
           | None => (RuneError, 1%nat)
           | Some (size, lo, hi) =>
               match s1 with
               | [] => (RuneError, 1%nat)
               | c1 :: s2 =>
                   if negb (in_range lo hi c1) then (RuneError, 1%nat)
                   else if (size =? 2)%nat then (b0 mod 32 * 64 + code c1 mod 64, 2%nat)
                   else match s2 with
                   | [] => (RuneError, 1%nat)
                   | c2 :: s3 =>
                       if negb (is_cont c2) then (RuneError, 1%nat)
                       else if (size =? 3)%nat then
                         (b0 mod 16 * 4096 + code c1 mod 64 * 64 + code c2 mod 64, 3%nat)
                       else match s3 with
                       | [] => (RuneError, 1%nat)
                       | c3 :: _ =>
                           if negb (is_cont c3) then (RuneError, 1%nat)
                           else (b0 mod 8 * 262144 + code c1 mod 64 * 4096 + code c2 mod 64 * 64
                                 + code c3 mod 64, 4%nat)
                       end
                   end
               end
           end
  end.

(** [utf16.DecodeRune]: the character of a pair of surrogates. *)
Definition utf16_DecodeRune (r1 r2 : Z) : Z :=
  if (55296 <=? r1) && (r1 <? 56320) && (56320 <=? r2) && (r2 <? 57344)
  then (r1 - 55296) * 1024 + (r2 - 56320) + 65536 else RuneError.

Definition EncodeRunes (rs : list Z) : bytes := concat (map EncodeRune rs).

(** A text in UTF-8. *)
Definition utf8 (s : bytes) : Prop := ∃ rs, Forall (λ r, valid_rune r = true) rs ∧ s = EncodeRunes rs.

Example decode_euro : DecodeRune (EncodeRune 8364 ++ bs "x") = (8364, 3%nat).
Proof. reflexivity. Qed.

(* ------------------------------------------------------------------ *)
(** ** Lemmas *)

Lemma code_range c : 0 <= code c < 256.
Proof. unfold code. pose proof (N_ascii_bounded c). lia. Qed.

Lemma code_chr z : 0 <= z < 256 → code (chr z) = z.
Proof. intros. unfold code, chr. rewrite N_ascii_embedding by lia. lia. Qed.

Lemma chr_code c : chr (code c) = c.
Proof. unfold code, chr. by rewrite N2Z.id, ascii_N_embedding. Qed.

Lemma valid_rune_spec r : valid_rune r = true ↔ 0 <= r < 55296 ∨ 57344 <= r <= MaxRune.
Proof. unfold valid_rune, is_surrogate, MaxRune. lia. Qed.

(** The parts of a character below its base. *)
Ltac rune_parts r :=
  pose proof (Z.div_mod r 64 ltac:(lia)); pose proof (Z.mod_pos_bound r 64 ltac:(lia));
  pose proof (Z.div_mod (r / 64) 64 ltac:(lia)); pose proof (Z.mod_pos_bound (r / 64) 64 ltac:(lia));
  assert (r / 4096 = r / 64 / 64) by (rewrite Z.div_div by lia; done);
  assert (r / 262144 = r / 4096 / 64) by (rewrite !Z.div_div by lia; done);
  pose proof (Z.div_mod (r / 4096) 64 ltac:(lia)); pose proof (Z.mod_pos_bound (r / 4096) 64 ltac:(lia)).

Lemma first_info_2 b : 194 <= b < 224 → first_info b = Some (2%nat, 128, 191).
Proof. intros. unfold first_info. by rewrite (proj2 (Z.ltb_ge _ _)), (proj2 (Z.ltb_lt _ _)) by lia. Qed.

Lemma first_info_3 b : 224 <= b < 240 → ∃ lo hi, first_info b = Some (3%nat, lo, hi) ∧
  lo = (if b =? 224 then 160 else 128) ∧ hi = (if b =? 237 then 159 else 191).
Proof.
  intros. unfold first_info. rewrite !(proj2 (Z.ltb_ge b _)) by lia.
  destruct (Z.eqb_spec b 224) as [->|]; [by eexists _, _|].
  destruct (Z.eqb_spec b 237); [by eexists _, _|].
  rewrite (proj2 (Z.ltb_lt b 240)) by lia. by eexists _, _.
Qed.

Lemma first_info_4 b : 240 <= b <= 244 → ∃ lo hi, first_info b = Some (4%nat, lo, hi) ∧
  lo = (if b =? 240 then 144 else 128) ∧ hi = (if b =? 244 then 143 else 191).
Proof.
  intros. assert (b = 240 ∨ b = 241 ∨ b = 242 ∨ b = 243 ∨ b = 244) as [->|[->|[->|[->| ->]]]] by lia;
    by eexists _, _.
Qed.

Lemma in_range_chr lo hi z : 0 <= z < 256 → lo <= z <= hi → in_range lo hi (chr z) = true.
Proof. intros. unfold in_range. rewrite code_chr by done. lia. Qed.

(** A character is decoded from its encoding. *)
Lemma DecodeRune_EncodeRune r rest : valid_rune r = true →
  DecodeRune (EncodeRune r ++ rest) = (r, length (EncodeRune r)).
Proof.
  intros Hv. unfold EncodeRune. rewrite Hv. apply valid_rune_spec in Hv. unfold MaxRune in Hv.
  rune_parts r.
  destruct (Z.ltb_spec r 128).
  { cbn [app DecodeRune length]. rewrite code_chr by lia. by rewrite (proj2 (Z.ltb_lt _ _)). }
  destruct (Z.ltb_spec r 2048).
  { cbn [app DecodeRune length]. rewrite !code_chr by lia. rewrite (proj2 (Z.ltb_ge _ _)) by lia.
    rewrite first_info_2 by lia. rewrite in_range_chr by lia. cbn. f_equal.
    rewrite <- (Z.mod_unique (192 + r / 64) 32 6 (r / 64)), <- (Z.mod_unique (128 + r mod 64) 64 2 (r mod 64)); lia. }
  destruct (Z.ltb_spec r 65536).
  { cbn [app DecodeRune length]. rewrite !code_chr by lia. rewrite (proj2 (Z.ltb_ge _ _)) by lia.
    destruct (first_info_3 (224 + r / 4096)) as (lo & hi & -> & Hlo & Hhi); [lia|].
    rewrite in_range_chr.
    2: lia. 2: destruct (Z.eqb_spec (224 + r / 4096) 224), (Z.eqb_spec (224 + r / 4096) 237); lia.
    unfold is_cont. rewrite in_range_chr by lia. cbn [negb Nat.eqb]. f_equal.
    rewrite <- (Z.mod_unique (224 + r / 4096) 16 14 (r / 4096)),
      <- (Z.mod_unique (128 + r / 64 mod 64) 64 2 (r / 64 mod 64)),
      <- (Z.mod_unique (128 + r mod 64) 64 2 (r mod 64)); lia. }
  cbn [app DecodeRune length]. rewrite !code_chr by lia. rewrite (proj2 (Z.ltb_ge _ _)) by lia.
  destruct (first_info_4 (240 + r / 262144)) as (lo & hi & -> & Hlo & Hhi); [lia|].
  rewrite in_range_chr.
  2: lia. 2: destruct (Z.eqb_spec (240 + r / 262144) 240), (Z.eqb_spec (240 + r / 262144) 244); lia.
  unfold is_cont. rewrite !in_range_chr by lia. cbn [negb Nat.eqb]. f_equal.
  rewrite <- (Z.mod_unique (240 + r / 262144) 8 30 (r / 262144)),
    <- (Z.mod_unique (128 + r / 4096 mod 64) 64 2 (r / 4096 mod 64)),
    <- (Z.mod_unique (128 + r / 64 mod 64) 64 2 (r / 64 mod 64)),
    <- (Z.mod_unique (128 + r mod 64) 64 2 (r mod 64)); lia.
Qed.

Lemma EncodeRune_nonempty r : EncodeRune r ≠ [].
Proof. unfold EncodeRune. repeat case_match; done. Qed.

(** A byte below 128 is its own encoding; the bytes of the other
    characters are above. *)
Lemma EncodeRune_ascii r : 0 <= r < 128 → EncodeRune r = [chr r].
Proof.
  intros. unfold EncodeRune. rewrite (proj2 (valid_rune_spec r)) by (unfold MaxRune; lia).
  by rewrite (proj2 (Z.ltb_lt _ _)) by lia.
Qed.

Lemma EncodeRune_high r : valid_rune r = true → 128 <= r → Forall (λ c, 128 <= code c) (EncodeRune r).
Proof.
  intros Hv Hr. unfold EncodeRune. rewrite Hv. apply valid_rune_spec in Hv. unfold MaxRune in Hv.
  rune_parts r. rewrite (proj2 (Z.ltb_ge _ _)) by lia.
  repeat case_match; repeat constructor; rewrite code_chr; lia.
Qed.

(** What is decoded is a character. *)
Lemma DecodeRune_valid s : valid_rune (DecodeRune s).1 = true.
Proof.
  apply valid_rune_spec. unfold DecodeRune, MaxRune, RuneError. destruct s as [|c0 s1]; [cbn; lia|].
  pose proof (code_range c0) as Hc0.
  destruct (Z.ltb_spec (code c0) 128); [cbn; lia|].
  destruct (first_info (code c0)) as [[[size lo] hi]|] eqn:E; [|cbn; lia].
  destruct s1 as [|c1 s2]; [cbn; lia|].
  destruct (in_range lo hi c1) eqn:E1; cbn [negb]; [|cbn; lia].
  unfold in_range in E1. apply andb_prop in E1 as [H1 H1']. apply Z.leb_le in H1, H1'.
  assert (194 <= code c0 <= 244 ∧ ((size = 2%nat ∧ code c0 < 224 ∧ 128 <= lo ∧ hi <= 191) ∨
    (size = 3%nat ∧ 224 <= code c0 < 240 ∧ 128 <= lo ∧ hi <= 191 ∧ (code c0 = 237 → hi = 159) ∧ (code c0 = 224 → lo = 160)) ∨
    (size = 4%nat ∧ 240 <= code c0 ∧ 128 <= lo ∧ hi <= 191 ∧ (code c0 = 244 → hi = 143) ∧ (code c0 = 240 → lo = 144)))) as [Hb Hs].
  { unfold first_info in E. repeat case_match; simplify_eq; lia. }
  clear E. assert (code c1 mod 64 = code c1 - 128) as E1 by (symmetry; apply (Z.mod_unique _ _ 2); lia).
  destruct Hs as [(-> & ?)|[(-> & ?)|(-> & ?)]]; cbn [Nat.eqb].
  - rewrite E1. assert (code c0 mod 32 = code c0 - 192) as -> by (symmetry; apply (Z.mod_unique _ _ 6); lia).
    cbn; lia.
  - destruct s2 as [|c2 s3]; [cbn; lia|]. destruct (is_cont c2); cbn [negb]; [|cbn; lia].
    pose proof (Z.mod_pos_bound (code c2) 64 ltac:(lia)). cbn [fst]. rewrite E1.
    assert (code c0 mod 16 = code c0 - 224) as -> by (symmetry; apply (Z.mod_unique _ _ 14); lia).
    lia.
  - destruct s2 as [|c2 s3]; [cbn; lia|]. destruct (is_cont c2); cbn [negb]; [|cbn; lia].
    destruct s3 as [|c3 s4]; [cbn; lia|]. destruct (is_cont c3); cbn [negb]; [|cbn; lia].
    pose proof (Z.mod_pos_bound (code c2) 64 ltac:(lia)).
    pose proof (Z.mod_pos_bound (code c3) 64 ltac:(lia)). cbn [fst]. rewrite E1.
    assert (code c0 mod 8 = code c0 - 240) as -> by (symmetry; apply (Z.mod_unique _ _ 30); lia).
    lia.
Qed.

(** At least one byte is read. *)
Lemma DecodeRune_size c s : (1 <= (DecodeRune (c :: s)).2 ∧ (DecodeRune (c :: s)).2 <= length (c :: s))%nat.
Proof.
  cbn [DecodeRune]. repeat case_match; cbn; lia.
Qed.

Lemma utf16_valid r1 r2 : valid_rune (utf16_DecodeRune r1 r2) = true.
Proof.
  apply valid_rune_spec. unfold utf16_DecodeRune, MaxRune, RuneError.
  destruct (_ && _) eqn:E; [|lia]. rewrite !andb_true_iff in E. lia.
Qed.

Lemma EncodeRunes_cons r rs : EncodeRunes (r :: rs) = EncodeRune r ++ EncodeRunes rs.
Proof. done. Qed.

#[local] Close Scope Z_scope.

(** The white space of Unicode, and its texts. *)
Definition space_runes : list Z :=
  [9; 10; 11; 12; 13; 32; 133; 160; 5760; 8192; 8193; 8194; 8195; 8196; 8197; 8198; 8199; 8200;
   8201; 8202; 8232; 8233; 8239; 8287; 12288]%Z.
Definition space_texts : list bytes := map EncodeRune space_runes.

(** The space a text begins with: its first character is the one whose text
    it begins with, as the texts of characters are no prefixes of each
    other. *)
Definition leading_space (s : bytes) : option bytes := List.find (has_prefix s) space_texts.

Fixpoint trim_left_fuel (fuel : nat) (s : bytes) : bytes :=
  match fuel with
  | O => s
  | S f => match leading_space s with
           | Some p => trim_left_fuel f (drop (length p) s)
           | None => s
           end
  end.
Definition trim_left (s : bytes) : bytes := trim_left_fuel (length s) s.

(** The space a text ends with, on the reversed text: the last character is
    found back from its first byte, the only one that continues no other. *)
Definition trailing_space (r : bytes) : option bytes := List.find (has_prefix r) (map (@rev ascii) space_texts).

Fixpoint trim_right_fuel (fuel : nat) (r : bytes) : bytes :=
  match fuel with
  | O => r
  | S f => match trailing_space r with
           | Some p => trim_right_fuel f (drop (length p) r)
           | None => r
           end
  end.
Definition trim_right (s : bytes) : bytes := rev (trim_right_fuel (length s) (rev s)).

Definition TrimSpace (s : bytes) : bytes := trim_right (trim_left s).

Example trim_space : TrimSpace (bs "  a b
" ++ EncodeRune 8195 ++ EncodeRune 133) = bs "a b".
Proof. by vm_compute. Qed.

(* ------------------------------------------------------------------ *)
(** ** Texts without space at their ends *)

Lemma has_prefix_app s p : has_prefix s p = true → ∃ r, s = p ++ r.
Proof.
  revert s. induction p as [|c p IH]; intros s; [by exists s|]. cbn. destruct s as [|d s]; [done|].
  intros [E%Ascii.eqb_eq H]%andb_prop. apply IH in H as [r ->]. exists r. by subst.
Qed.

Lemma leading_space_None s : (match s with c :: _ => (32 <? code c)%Z && (code c <? 128)%Z = true | [] => True end) →
  leading_space s = None.
Proof.
  intros H. destruct s as [|c s]; [done|].
  destruct c as [[] [] [] [] [] [] [] []]; try discriminate H; reflexivity.
Qed.

Lemma trailing_space_None s : (match s with c :: _ => (32 <? code c)%Z && (code c <? 128)%Z = true | [] => True end) →
  trailing_space s = None.
Proof.
  intros H. destruct s as [|c s]; [done|].
  destruct c as [[] [] [] [] [] [] [] []]; try discriminate H; reflexivity.
Qed.

(** A visible character of ASCII. *)
Definition visible (c : ascii) : bool := (32 <? code c)%Z && (code c <? 128)%Z.

(** A text that begins and ends with visible characters is kept. *)
Lemma TrimSpace_visible c s d : visible c = true → visible d = true → TrimSpace (c :: s ++ [d]) = c :: s ++ [d].
Proof.
  intros Hc Hd. unfold TrimSpace, trim_left, trim_right. cbn [length trim_left_fuel].
  rewrite (leading_space_None (c :: s ++ [d])) by done.
  replace (rev (c :: s ++ [d])) with (d :: rev s ++ [c]) by (cbn; by rewrite rev_app_distr).
  cbn [length trim_right_fuel]. rewrite (trailing_space_None (d :: _)) by done.
  cbn [rev]. by rewrite rev_app_distr, rev_involutive.
Qed.
