(* ===== verification/GoFloat.v ===== *)
(** * [float64]: [strconv.ParseFloat] and [strconv.FormatFloat(v, 'f', -1, 64)]

    A [float64] is a value of the Standard Library's [spec_float]; parsing
    rounds the exact decimal to nearest even, formatting searches for the
    shortest digits that parse back. *)

From Stdlib Require Export SpecFloat.
From S2P Require Import Prelude GoStd GoStdFacts.

#[local] Open Scope Z_scope.

Abbreviation float64 := spec_float.

Definition prec64 : Z := 53.
Definition emax64 : Z := 1024.

#[export] Instance float64_eq_dec : EqDecision float64.
Proof. solve_decision. Defined.

Definition is_nan (f : float64) : bool := match f with S754_nan => true | _ => false end.
Definition is_inf (f : float64) : bool :=
  match f with S754_infinity _ => true | _ => false end.
Definition is_finite (f : float64) : bool :=
  match f with S754_zero _ | S754_finite _ _ _ => true | _ => false end.

(** The [float64] nearest to [(-1)^neg * mant * 10^k]. *)
Definition float_of_decimal (neg : bool) (mant k : Z) : float64 :=
  match mant with
  | Z0 => S754_zero neg
  | Zpos p =>
      if 0 <=? k then
        binary_normalize prec64 emax64 (if neg then - (mant * 10 ^ k) else mant * 10 ^ k) 0 neg
      else match 10 ^ (- k) with
           | Zpos q => SFdiv prec64 emax64 (S754_finite neg p 0) (S754_finite false q 0)
           | _ => S754_nan
           end
  | Zneg _ => S754_nan
  end.

(* ------------------------------------------------------------------ *)
(** ** [strconv.ParseFloat] *)

(** The digits of a mantissa: value, digits after the point, whether a
    point and whether a digit was seen, and the unread rest. *)
Fixpoint read_mantissa (s : bytes) (mant : Z) (frac : Z) (sawdot sawdigits : bool)
  : option (Z * Z * bool * bytes) :=
  match s with
  | [] => Some (mant, frac, sawdigits, [])
  | c :: s' =>
      if c =c "." then
        if sawdot then Some (mant, frac, sawdigits, s)
        else read_mantissa s' mant frac true sawdigits
      else if is_digit c then
        read_mantissa s' (mant * 10 + digit_value c) (if sawdot then frac + 1 else frac)
          sawdot true
      else Some (mant, frac, sawdigits, s)
  end.

(** Exponent digits: [if e < 10000 { e = e*10 + d }]. *)
Fixpoint read_exponent (s : bytes) (e : Z) : Z * bytes :=
  match s with
  | c :: s' => if is_digit c
               then read_exponent s' (if e <? 10000 then e * 10 + digit_value c else e)
               else (e, s)
  | [] => (e, [])
  end.

Definition lower (c : ascii) : ascii :=
  let n := N_of_ascii c in
  if (65 <=? n)%N && (n <=? 90)%N then ascii_of_N (n + 32) else c.

(** [special]: the names of the infinities and of NaN. *)
Definition special_float (s : bytes) : option float64 :=
  let '(neg, signed, t) :=
    match s with
    | c :: s' => if c =c "-" then (true, true, s') else if c =c "+" then (false, true, s')
                 else (false, false, s)
    | [] => (false, false, [])
    end in
  let t := map lower t in
  if bytes_equal t (bs "inf") || bytes_equal t (bs "infinity") then Some (S754_infinity neg)
  else if bytes_equal t (bs "nan") && negb signed then Some S754_nan
  else None.

(** [readFloat]: sign, mantissa and decimal exponent. *)
Definition read_float (s : bytes) : option (bool * Z * Z) :=
  let '(neg, t) :=
    match s with
    | c :: s' => if c =c "-" then (true, s') else if c =c "+" then (false, s') else (false, s)
    | [] => (false, [])
    end in
  match read_mantissa t 0 0 false false with
  | Some (mant, frac, true, []) => Some (neg, mant, - frac)
  | Some (mant, frac, true, c :: t') =>
      if (c =c "e") || (c =c "E") then
        let '(esign, t'') :=
          match t' with
          | d :: u => if d =c "+" then (1, u) else if d =c "-" then (-1, u) else (1, t')
          | [] => (1, [])
          end in
        match t'' with
        | d :: _ => if is_digit d then
                      match read_exponent t'' 0 with
                      | (e, []) => Some (neg, mant, esign * e - frac)
                      | _ => None
                      end
                    else None
        | [] => None
        end
      else None
  | _ => None
  end.

Definition parse_float (s : bytes) : outcome float64 :=
  match special_float s with
  | Some f => Ret f
  | None =>
      match read_float s with
      | None => Fail (syntax_error "ParseFloat" s)
      | Some (neg, mant, k) =>
          let f := float_of_decimal neg mant k in
          if is_inf f then Fail (range_error "ParseFloat" s) else Ret f
      end
  end.

(* ------------------------------------------------------------------ *)
(** ** [strconv.FormatFloat(v, 'f', -1, 64)] *)

(** [m * 2^e] as a fraction. *)
Definition ratio (m : positive) (e : Z) : Z * Z :=
  if 0 <=? e then (Zpos m * 2 ^ e, 1) else (Zpos m, 2 ^ (- e)).

(** [floor(m * 2^e / 10^k)]. *)
Definition scaled_floor (m : positive) (e k : Z) : Z :=
  let '(a, b) := ratio m e in
  if 0 <=? k then a / (b * 10 ^ k) else (a * 10 ^ (- k)) / b.

(** Whether [c * 10^k], or the next decimal up, is the nearer to [m * 2^e];
    halfway goes to even. *)
Definition rounds_up (m : positive) (e k c : Z) : bool :=
  let '(a, b) := ratio m e in
  let '(a', b') := if 0 <=? k then (a, b * 10 ^ k) else (a * 10 ^ (- k), b) in
  let r := 2 * (a' - c * b') in
  (b' <? r) || ((b' =? r) && Z.odd c).

(** The number [dp] with [10^(dp-1) <= m * 2^e < 10^dp]. *)
Definition decimal_point (m : positive) (e : Z) : Z :=
  let '(a, b) := ratio m e in
  if b <=? a then Z.of_nat (length (digits (a / b)))
  else 1 - Z.of_nat (length (digits (b / a)))
       + (if a * 10 ^ (Z.of_nat (length (digits (b / a))) - 1) =? b then 1 else 0).

(** The shortest decimal, of at most 17 digits, that parses back to the
    value; the exact expansion when there is none. *)
Fixpoint shortest_from (fuel : nat) (n : Z) (m : positive) (e dp : Z) : Z * Z :=
  match fuel with
  | O => if 0 <=? e then (Zpos m * 2 ^ e, 0) else (Zpos m * 5 ^ (- e), e)
  | S fuel' =>
      let k := dp - n in
      let down := scaled_floor m e k in
      let v := S754_finite false m e in
      let okdown := bool_decide (float_of_decimal false down k = v) in
      let okup := bool_decide (float_of_decimal false (down + 1) k = v) in
      if okdown && okup then (if rounds_up m e k down then down + 1 else down, k)
      else if okdown then (down, k)
      else if okup then (down + 1, k)
      else shortest_from fuel' (n + 1) m e dp
  end.
Definition shortest (m : positive) (e : Z) : Z * Z :=
  shortest_from 17 1 m e (decimal_point m e).

Definition zeros (n : Z) : bytes := repeat "0"%char (Z.to_nat n).

(** The [%f] text of [mant * 10^k], with no more digits than needed. *)
Definition decimal_text (mant k : Z) : bytes :=
  let s := digits mant in
  let l := Z.of_nat (length s) in
  if 0 <=? k then s ++ zeros k
  else if l <=? - k then bs "0." ++ zeros (- k - l) ++ s
  else take (Z.to_nat (l + k)) s ++ "."%char :: drop (Z.to_nat (l + k)) s.

Definition format_float (f : float64) : bytes :=
  match f with
  | S754_nan => bs "NaN"
  | S754_infinity true => bs "-Inf"
  | S754_infinity false => bs "+Inf"
  | S754_zero true => bs "-0"
  | S754_zero false => bs "0"
  | S754_finite neg m e =>
      let '(mant, k) := shortest m e in
      (if neg then [("-")%char] else []) ++ decimal_text mant k
  end.

(** ** Examples *)

Example format_float_42 :
  format_float (float_of_decimal false 42 0) = bs "42".
Proof. by vm_compute. Qed.
Example format_float_tenth :
  format_float (float_of_decimal true 1 (-1)) = bs "-0.1".
Proof. by vm_compute. Qed.
Example format_float_denormal :
  float_of_decimal false 5 (-324) = S754_finite false 1 (-1074) ∧
  shortest 1 (-1074) = (5, -324).
Proof. by vm_compute. Qed.
Example format_float_e21 :
  format_float (float_of_decimal false 123 19) = bs "1230000000000000000000".
Proof. by vm_compute. Qed.
Example format_float_pi :
  format_float (float_of_decimal false 3141592653589793 (-15)) = bs "3.141592653589793".
Proof. by vm_compute. Qed.
Example format_float_hundredth :
  format_float (float_of_decimal false 1 (-2)) = bs "0.01".
Proof. by vm_compute. Qed.
Example parse_float_examples :
  map parse_float (map bs ["1e400"; "0x1"; "1e5"; "-.5"; "inf"; "1.2.3"; "."]%string) =
  [Fail (range_error "ParseFloat" (bs "1e400")); Fail (syntax_error "ParseFloat" (bs "0x1"));
   Ret (float_of_decimal false 100000 0); Ret (float_of_decimal true 5 (-1));
   Ret (S754_infinity false); Fail (syntax_error "ParseFloat" (bs "1.2.3"));
   Fail (syntax_error "ParseFloat" (bs "."))].
Proof. by vm_compute. Qed.
