(* ===== verification/GoFloatFacts.v ===== *)
(** * The text of a [float64]: its shape, and that it parses back *)

From S2P Require Import Prelude GoStd GoStdFacts GoFloat.

#[local] Open Scope Z_scope.

(** The value of a run of digits read after the prefix of value [m]. *)
Definition digits_value (m : Z) (d : bytes) : Z :=
  foldl (λ m c, m * 10 + digit_value c) m d.


Lemma digits_value_digits n : 0 <= n → digits_value 0 (digits n) = n.
Proof.
  revert n. apply digits_ind; intros n Hn.
  - rewrite digits_small by done. cbn. rewrite digit_value_digit by done. lia.
  - intros IH. rewrite digits_large by done. unfold digits_value in *.
    rewrite foldl_app, IH. cbn. rewrite digit_value_digit by (apply Z.mod_pos_bound; lia).
    pose proof (Z.div_mod n 10). lia.
Qed.

Lemma length_zeros n : 0 <= n → Z.of_nat (length (zeros n)) = n.
Proof. intros. unfold zeros. rewrite repeat_length. lia. Qed.

Lemma zeros_digits n : all_digits (zeros n).
Proof. unfold zeros. apply Forall_forall. by intros c ->%list_elem_of_In%repeat_spec. Qed.

Lemma digits_value_zeros m n : 0 <= n → digits_value m (zeros n) = m * 10 ^ n.
Proof.
  intros Hn. unfold zeros. rewrite <- (Z2Nat.id n) at 2 by done.
  generalize (Z.to_nat n) as k. clear n Hn. intros k. revert m.
  induction k as [|k IH]; intros m; cbn [repeat digits_value foldl]; [cbn; lia|].
  fold (digits_value (m * 10 + digit_value "0") (repeat "0"%char k)). rewrite IH.
  rewrite Nat2Z.inj_succ, Z.pow_succ_r by lia. change (digit_value "0") with 0. lia.
Qed.

Lemma digits_value_app m d d' : digits_value m (d ++ d') = digits_value (digits_value m d) d'.
Proof. apply foldl_app. Qed.

Lemma read_mantissa_digits d r m f sd sg : all_digits d →
  read_mantissa (d ++ r) m f sd sg =
  read_mantissa r (digits_value m d) (if sd then f + Z.of_nat (length d) else f) sd
    (match d with [] => sg | _ => true end).
Proof.
  intros Hd. revert m f sg. induction Hd as [|c d Hc Hd IH]; intros m f sg.
  { cbn. destruct sd; [|done]. by rewrite Z.add_0_r. }
  cbn [app read_mantissa length]. destruct (is_digit_not c Hc) as (_ & _ & _ & _ & _ & _ & Hdot & _).
  rewrite (proj2 (Ascii.eqb_neq c ".") Hdot), Hc, IH. cbn [digits_value foldl].
  fold (digits_value (m * 10 + digit_value c) d).
  destruct sd; [replace (f + 1 + Z.of_nat (length d)) with (f + Z.of_nat (S (length d))) by lia|];
    by destruct d.
Qed.

(** Text of the form [a] or [a.b], with [a] and [b] non-empty runs of digits. *)
Inductive decimal_shape : bytes → Prop :=
| shape_int a : all_digits a → a ≠ [] → decimal_shape a
| shape_frac a b : all_digits a → a ≠ [] → all_digits b → b ≠ [] →
    decimal_shape (a ++ "."%char :: b).

Lemma digits_nonempty n : 0 <= n → digits n ≠ [].
Proof. intros H. destruct (digits_cons n H) as (c & s & -> & _). done. Qed.

Lemma decimal_text_shape mant k : 0 <= mant → decimal_shape (decimal_text mant k).
Proof.
  intros Hm. unfold decimal_text.
  pose proof (digits_are_digits mant Hm) as Hd. pose proof (digits_nonempty mant Hm) as Hn.
  destruct (Z.leb_spec 0 k).
  { apply shape_int; [apply Forall_app; auto using zeros_digits|].
    by intros ?%app_eq_nil%proj1. }
  destruct (Z.leb_spec (Z.of_nat (length (digits mant))) (- k)).
  - change (bs "0.") with (["0"%char] ++ ["."%char]). rewrite <- app_assoc.
    apply (shape_frac ["0"%char]); [by repeat constructor|done| |].
    + apply Forall_app; auto using zeros_digits.
    + by intros ?%app_eq_nil%proj2.
  - apply shape_frac; [by apply Forall_take| |by apply Forall_drop|].
    + intros E%(f_equal length). rewrite length_take in E. cbn in E. lia.
    + intros E%(f_equal length). rewrite length_drop in E. cbn in E. lia.
Qed.

(** Reading the text of [mant * 10^k] gives back the decimal. *)
Lemma read_mantissa_decimal_text mant k : 0 <= mant →
  read_mantissa (decimal_text mant k) 0 0 false false =
  Some (if 0 <=? k then mant * 10 ^ k else mant, if 0 <=? k then 0 else - k, true, []).
Proof.
  intros Hm. unfold decimal_text.
  pose proof (digits_are_digits mant Hm) as Hd. pose proof (digits_nonempty mant Hm) as Hn.
  destruct (Z.leb_spec 0 k).
  - rewrite <- (app_nil_r (digits mant ++ zeros k)).
    rewrite read_mantissa_digits by (apply Forall_app; auto using zeros_digits).
    rewrite digits_value_app, digits_value_digits, digits_value_zeros by done.
    by destruct (digits mant).
  - destruct (Z.leb_spec (Z.of_nat (length (digits mant))) (- k)).
    + cbn [bs String.list_ascii_of_string app read_mantissa].
      change (("0" =c ".")) with false. cbn [is_digit]. change (is_digit "0") with true. cbn iota.
      change ("." =c ".") with true. cbn iota.
      set (j := - k - Z.of_nat (length (digits mant))).
      rewrite <- (app_nil_r (zeros j ++ digits mant)).
      rewrite read_mantissa_digits by (apply Forall_app; auto using zeros_digits).
      rewrite digits_value_app. change (0 * 10 + digit_value "0") with 0.
      rewrite digits_value_zeros by lia. rewrite Z.mul_0_l, digits_value_digits by done.
      rewrite length_app, Nat2Z.inj_add, length_zeros by lia. cbn [read_mantissa].
      replace (0 + (j + Z.of_nat (length (digits mant)))) with (- k) by lia.
      by destruct (zeros j ++ digits mant).
    + set (p := Z.to_nat (Z.of_nat (length (digits mant)) + k)).
      rewrite read_mantissa_digits by (by apply Forall_take).
      cbn [read_mantissa]. change ("." =c ".") with true. cbn iota.
      rewrite <- (app_nil_r (drop p (digits mant))).
      rewrite read_mantissa_digits by (by apply Forall_drop).
      rewrite <- digits_value_app, take_drop, digits_value_digits by done. cbn [read_mantissa].
      rewrite length_drop.
      replace (0 + Z.of_nat (length (digits mant) - p)) with (- k) by lia.
      destruct (drop p (digits mant)) eqn:E; [|done].
      apply (f_equal length) in E. rewrite length_drop in E. cbn in E. lia.
Qed.

(** The decimal that [format_float] prints parses back to [f]. *)
Definition reparses (f : float64) : bool :=
  match f with
  | S754_zero _ => true
  | S754_finite neg m e =>
      let '(mant, k) := shortest m e in
      (0 <? mant) && bool_decide (float_of_decimal neg mant k = f)
  | _ => false
  end.

(* ------------------------------------------------------------------ *)
(** ** Rounding a number that needs none *)

Lemma digits2_log2 p : Zpos (digits2_pos p) = Z.log2 (Zpos p) + 1.
Proof. change (digits2_pos p) with (Pos.size p). destruct p; cbn [Z.log2 Pos.size]; lia. Qed.

Lemma Zdigits2_log2 n : 0 < n → Zdigits2 n = Z.log2 n + 1.
Proof. destruct n as [|p|p]; try lia. intros _. apply digits2_log2. Qed.

Lemma shr_1_even k : 0 < k → shr_1 {| shr_m := k * 2; shr_r := false; shr_s := false |} =
  {| shr_m := k; shr_r := false; shr_s := false |}.
Proof. intros Hk. rewrite Z.mul_comm. by destruct k. Qed.

Lemma iter_shr p : ∀ m, 0 < m →
  iter_pos shr_1 p {| shr_m := m * 2 ^ Zpos p; shr_r := false; shr_s := false |} =
  {| shr_m := m; shr_r := false; shr_s := false |}.
Proof.
  induction p as [p IH|p IH|]; intros m Hm; cbn [iter_pos].
  - assert (2 ^ Zpos p~1 = 2 ^ Zpos p * 2 ^ Zpos p * 2) as ->.
    { rewrite <- Z.pow_add_r, Z.mul_comm, <- Z.pow_succ_r by lia. f_equal. lia. }
    assert (0 < 2 ^ Zpos p) by (apply Z.pow_pos_nonneg; lia). rewrite !Z.mul_assoc.
    rewrite shr_1_even by nia. rewrite IH by nia. by apply IH.
  - assert (2 ^ Zpos p~0 = 2 ^ Zpos p * 2 ^ Zpos p) as ->.
    { rewrite <- Z.pow_add_r by lia. f_equal. lia. }
    assert (0 < 2 ^ Zpos p) by (apply Z.pow_pos_nonneg; lia). rewrite !Z.mul_assoc.
    rewrite IH by nia. by apply IH.
  - by apply shr_1_even.
Qed.

Lemma shr_fexp_exact m k e : 0 < m → 0 <= k →
  fexp prec64 emax64 (Z.log2 m + 1 + (e + k)) = e + k →
  shr_fexp prec64 emax64 (m * 2 ^ k) e loc_Exact =
  ({| shr_m := m; shr_r := false; shr_s := false |}, e + k).
Proof.
  intros Hm Hk Hf. unfold shr_fexp.
  assert (0 < 2 ^ k) by (apply Z.pow_pos_nonneg; lia).
  rewrite Zdigits2_log2, Z.log2_mul_pow2 by nia.
  replace (k + Z.log2 m + 1 + e) with (Z.log2 m + 1 + (e + k)) by lia. rewrite Hf.
  replace (e + k - e) with k by lia. unfold shr, shr_record_of_loc.
  destruct k as [|p|p]; [by rewrite Z.mul_1_r, Z.add_0_r|by rewrite iter_shr|lia].
Qed.

(** A canonical number, shifted left, is rounded to itself. *)
Lemma binary_round_aux_exact s m e k : bounded prec64 emax64 m e = true → 0 <= k →
  binary_round_aux prec64 emax64 s (Zpos m * 2 ^ k) (e - k) loc_Exact = S754_finite s m e.
Proof.
  intros [Hc%Z.eqb_eq He]%andb_true_iff Hk. rewrite digits2_log2 in Hc. unfold binary_round_aux.
  rewrite shr_fexp_exact by (try lia; by replace (e - k + k) with e by lia).
  cbn [shr_m loc_of_shr_record round_nearest_even]. replace (e - k + k) with e by lia.
  pose proof (shr_fexp_exact (Zpos m) 0 e ltac:(lia) ltac:(lia)) as H.
  rewrite Z.mul_1_r, Z.add_0_r in H. rewrite H by done. cbn [shr_m]. by rewrite He.
Qed.

Lemma fexp_mono a b : a <= b → fexp prec64 emax64 a <= fexp prec64 emax64 b.
Proof. unfold fexp. lia. Qed.

(** The quotient of the exact expansion by its power of ten. *)
Lemma SFdiv_core_exact m e : bounded prec64 emax64 m e = true → e < 0 →
  ∃ k, 0 <= k ∧ SFdiv_core_binary prec64 emax64 (Zpos m * 5 ^ (- e)) 0 (10 ^ (- e)) 0 =
       (Zpos m * 2 ^ k, e - k, loc_Exact).
Proof.
  intros [Hc%Z.eqb_eq _]%andb_true_iff He. rewrite digits2_log2 in Hc. unfold SFdiv_core_binary.
  assert (0 < 5 ^ (- e)) by (apply Z.pow_pos_nonneg; lia).
  assert (0 < 2 ^ (- e)) by (apply Z.pow_pos_nonneg; lia).
  assert (10 ^ (- e) = 2 ^ (- e) * 5 ^ (- e)) as E10 by (rewrite <- Z.pow_mul_l; done).
  set (a := Zpos m * 5 ^ (- e)). set (b := 10 ^ (- e)).
  assert (0 < a) as Ha by nia. assert (0 < b) as Hb by nia.
  rewrite !Zdigits2_log2, !Z.add_0_r, Z.sub_0_r by done.
  assert (Z.log2 a + 1 - (Z.log2 b + 1) <= Z.log2 (Zpos m) + 1 + e) as Hle.
  { assert (a * 2 ^ (- e) = Zpos m * b) as Eab by (unfold a, b; rewrite E10; lia).
    pose proof (Z.log2_mul_below (Zpos m) b ltac:(lia) Hb) as H1.
    pose proof (Z.log2_mul_above (Zpos m) b ltac:(lia) ltac:(lia)) as H2.
    rewrite <- Eab, Z.log2_mul_pow2 in H2 by lia. lia. }
  apply fexp_mono in Hle. rewrite Hc in Hle. set (e' := Z.min _ 0).
  assert (e' <= e) as He' by (unfold e'; lia).
  exists (e - e'). split; [lia|].
  replace (e - (e - e')) with e' by lia. rewrite Z.sub_0_l.
  assert (match - e' with 0 => a | Zpos _ => Z.shiftl a (- e') | Zneg _ => 0 end
    = Zpos m * 2 ^ (e - e') * b) as ->.
  { destruct (- e') as [|p|p] eqn:Ep; try lia. rewrite <- Ep, Z.shiftl_mul_pow2 by lia.
    unfold a, b. rewrite E10. replace (- e') with (e - e' + - e) by lia.
    rewrite Z.pow_add_r by lia. lia. }
  pose proof (Z.div_mul (Zpos m * 2 ^ (e - e')) b ltac:(lia)) as Hq.
  pose proof (Z.mod_mul (Zpos m * 2 ^ (e - e')) b ltac:(lia)) as Hr.
  unfold Z.div, Z.modulo in Hq, Hr. destruct (Z.div_eucl _ b) as [q r]. subst q r.
  unfold new_location, new_location_even, new_location_odd. by destruct (Z.even b).
Qed.

Lemma binary_round_aux_opp m e l :
  binary_round_aux prec64 emax64 true m e l = SFopp (binary_round_aux prec64 emax64 false m e l).
Proof.
  unfold binary_round_aux. destruct (shr_fexp _ _ m e l) as [r1 e1].
  destruct (shr_fexp _ _ _ e1 _) as [r2 e2]. destruct (shr_m r2); try done. by destruct (_ <=? _).
Qed.

Lemma float_of_decimal_opp mant k : 0 < mant →
  float_of_decimal true mant k = SFopp (float_of_decimal false mant k).
Proof.
  intros Hm. destruct mant as [|p|p]; try lia. unfold float_of_decimal.
  destruct (Z.leb_spec 0 k).
  - assert (0 < Zpos p * 10 ^ k) as Hp by (assert (0 < 10 ^ k) by (apply Z.pow_pos_nonneg; lia); nia).
    destruct (Zpos p * 10 ^ k) as [|q|q]; try lia.
    change (binary_round prec64 emax64 true q 0 = SFopp (binary_round prec64 emax64 false q 0)).
    unfold binary_round. destruct (shl_align _ _ _). apply binary_round_aux_opp.
  - destruct (10 ^ (- k)) as [|q|q]; try done. cbn [SFdiv].
    destruct (SFdiv_core_binary _ _ _ _ _ _) as [[mz ez] lz]. apply binary_round_aux_opp.
Qed.

(** The exact expansion of a number denotes it. *)
Lemma float_of_decimal_exact m e : bounded prec64 emax64 m e = true →
  let '(mant, k) := if 0 <=? e then (Zpos m * 2 ^ e, 0) else (Zpos m * 5 ^ (- e), e) in
  0 < mant ∧ float_of_decimal false mant k = S754_finite false m e.
Proof.
  intros Hb. destruct (Z.leb_spec 0 e) as [He|He].
  - assert (0 < 2 ^ e) by (apply Z.pow_pos_nonneg; lia). split; [nia|].
    pose proof (binary_round_aux_exact false m e e Hb He) as Hr. rewrite Z.sub_diag in Hr.
    unfold float_of_decimal. destruct (Zpos m * 2 ^ e) as [|p|p] eqn:E; try nia.
    cbn [Z.leb Z.compare]. change (10 ^ 0) with 1. rewrite Z.mul_1_r. cbn [binary_normalize].
    unfold binary_round, shl_align.
    apply andb_true_iff in Hb as [Hc%Z.eqb_eq _]. rewrite digits2_log2 in Hc |- *.
    rewrite <- E, Z.log2_mul_pow2 by lia.
    replace (e + Z.log2 (Zpos m) + 1 + 0) with (Z.log2 (Zpos m) + 1 + e) by lia.
    rewrite Hc, Z.sub_0_r. by destruct e as [|e|e]; [| |lia].
  - assert (0 < 5 ^ (- e)) by (apply Z.pow_pos_nonneg; lia). split; [nia|].
    destruct (SFdiv_core_exact m e Hb He) as (k & Hk & Ec). unfold float_of_decimal.
    destruct (Zpos m * 5 ^ (- e)) as [|p|p] eqn:E; try nia.
    rewrite (proj2 (Z.leb_gt 0 e)) by done.
    assert (0 < 10 ^ (- e)) by (apply Z.pow_pos_nonneg; lia).
    destruct (10 ^ (- e)) as [|q|q]; try lia. cbn [SFdiv]. rewrite Ec.
    by apply binary_round_aux_exact.
Qed.

Lemma float_of_decimal_positive mant k m e :
  float_of_decimal false mant k = S754_finite false m e → 0 < mant.
Proof. by destruct mant. Qed.

Lemma shortest_denotes fuel : ∀ n m e dp, bounded prec64 emax64 m e = true →
  let '(mant, k) := shortest_from fuel n m e dp in
  float_of_decimal false mant k = S754_finite false m e.
Proof.
  induction fuel as [|fuel IH]; intros n m e dp Hb; cbn [shortest_from].
  { pose proof (float_of_decimal_exact m e Hb) as H. by destruct (0 <=? e); destruct H. }
  destruct (bool_decide (float_of_decimal false (scaled_floor m e (dp - n)) _ = _)) eqn:E1;
  destruct (bool_decide (float_of_decimal false (scaled_floor m e (dp - n) + 1) _ = _)) eqn:E2;
  rewrite ?bool_decide_eq_true in *; cbn [andb].
  - by destruct (rounds_up _ _ _ _).
  - done.
  - done.
  - by apply IH.
Qed.

(** The finite numbers of type [float64]. *)
Definition finite64 (f : float64) : bool := is_finite f && valid_binary prec64 emax64 f.

Lemma finite64_reparses f : finite64 f = true → reparses f = true.
Proof.
  destruct f as [s|s| |s m e]; try done. unfold finite64. cbn [is_finite valid_binary andb reparses].
  intros Hb. unfold shortest. pose proof (shortest_denotes 17 1 m e (decimal_point m e) Hb) as H.
  destruct (shortest_from _ _ _ _ _) as [mant k].
  pose proof (float_of_decimal_positive _ _ _ _ H) as Hm. rewrite (proj2 (Z.ltb_lt 0 mant) Hm).
  apply bool_decide_eq_true. destruct s; [|done]. rewrite float_of_decimal_opp by done. by rewrite H.
Qed.

Lemma float_of_decimal_scale neg mant k : 0 < mant → 0 <= k →
  float_of_decimal neg (mant * 10 ^ k) 0 = float_of_decimal neg mant k.
Proof.
  intros Hm Hk. pose proof (Z.pow_pos_nonneg 10 k ltac:(lia) Hk).
  unfold float_of_decimal. destruct mant as [|p|p]; try lia.
  destruct (Z.pos p * 10 ^ k) eqn:E; try nia. rewrite (proj2 (Z.leb_le 0 k)) by lia.
  cbn [Z.leb Z.compare]. change (10 ^ 0) with 1. by rewrite Z.mul_1_r.
Qed.

Lemma not_special_digit c s : is_digit c = true → special_float (c :: s) = None.
Proof.
  intros Hc. unfold special_float.
  destruct (is_digit_not c Hc) as (H1 & H2 & _).
  rewrite (proj2 (Ascii.eqb_neq c _) H1), (proj2 (Ascii.eqb_neq c _) H2).
  assert (lower c = c) as Hl.
  { unfold lower, is_digit in *. apply andb_true_iff in Hc as [A B].
    apply Z.leb_le in A, B. destruct (N.leb_spec 65 (N_of_ascii c)); [lia|done]. }
  cbn [map]. rewrite Hl. unfold bytes_equal, bytes_compare. cbn.
  unfold is_digit in Hc. apply andb_true_iff in Hc as [A B]. apply Z.leb_le in A, B.
  rewrite !(proj2 (N.compare_lt_iff (N_of_ascii c) _)) by lia.
  done.
Qed.

Lemma not_special_neg_digit c s : is_digit c = true → special_float ("-"%char :: c :: s) = None.
Proof.
  intros Hc. unfold special_float. change ("-" =c "-") with true. cbn iota.
  assert (lower c = c) as Hl.
  { unfold lower, is_digit in *. apply andb_true_iff in Hc as [A B].
    apply Z.leb_le in A, B. destruct (N.leb_spec 65 (N_of_ascii c)); [lia|done]. }
  cbn [map]. rewrite Hl. unfold bytes_equal, bytes_compare. cbn.
  unfold is_digit in Hc. apply andb_true_iff in Hc as [A B]. apply Z.leb_le in A, B.
  rewrite !(proj2 (N.compare_lt_iff (N_of_ascii c) _)) by lia.
  done.
Qed.

Lemma decimal_shape_head s : decimal_shape s → ∃ c t, s = c :: t ∧ is_digit c = true.
Proof.
  destruct 1 as [a Ha Hn|a b Ha Hn _ _]; destruct Ha as [|c a Hc Ha]; try done.
  all: eexists _, _; split; [reflexivity|done].
Qed.

(** [ParseFloat] recovers the value from the text [AppendFloat] wrote. *)
Lemma parse_format_float f : finite64 f = true → parse_float (format_float f) = Ret f.
Proof.
  intros Hfin%finite64_reparses. revert Hfin.
  destruct f as [s|s| |s m e]; cbn [reparses]; try done; [by destruct s|].
  destruct (shortest m e) as [mant k] eqn:E. intros [Hm Hf]%andb_true_iff.
  apply Z.ltb_lt in Hm. apply bool_decide_eq_true in Hf.
  unfold format_float. rewrite E.
  destruct (decimal_shape_head _ (decimal_text_shape mant k ltac:(lia))) as (c & t & Et & Hc).
  destruct (is_digit_not c Hc) as (H1 & H2 & _).
  assert (∀ neg, float_of_decimal neg (if 0 <=? k then mant * 10 ^ k else mant)
     (- (if 0 <=? k then 0 else - k)) = float_of_decimal neg mant k) as Hs'.
  { intros neg. destruct (Z.leb_spec 0 k); [by apply float_of_decimal_scale|].
    by rewrite Z.opp_involutive. }
  unfold parse_float, read_float. destruct s; cbn [app].
  - rewrite Et, not_special_neg_digit by done. change ("-" =c "-") with true. cbn iota.
    rewrite <- Et, read_mantissa_decimal_text by lia. by rewrite Hs', Hf.
  - rewrite Et, not_special_digit by done.
    rewrite (proj2 (Ascii.eqb_neq c _) H1), (proj2 (Ascii.eqb_neq c _) H2).
    rewrite <- Et, read_mantissa_decimal_text by lia. by rewrite Hs', Hf.
Qed.

(** The text of a finite number, as the scanners of line protocol see it. *)
Lemma format_float_shape f : finite64 f = true →
  ∃ t, decimal_shape t ∧ (format_float f = t ∨ format_float f = "-"%char :: t).
Proof.
  intros Hfin%finite64_reparses. revert Hfin.
  destruct f as [s|s| |s m e]; cbn [reparses]; try done.
  - intros _. exists (bs "0"). split; [by apply shape_int; repeat constructor|].
    destruct s; auto.
  - destruct (shortest m e) as [mant k] eqn:E. intros [Hm _]%andb_true_iff.
    apply Z.ltb_lt in Hm. exists (decimal_text mant k).
    split; [apply decimal_text_shape; lia|]. unfold format_float. rewrite E.
    destruct s; auto.
Qed.

#[local] Open Scope Z_scope.

Abbreviation fexp64 := (fexp prec64 emax64).

(** What rounding may return: no NaN, and canonical when finite. *)
Definition rounded (f : float64) : Prop := is_nan f = false ∧ valid_binary prec64 emax64 f = true.

Lemma Zdigits2_0_or n : 0 <= n → n = 0 ∧ Zdigits2 n = 0 ∨ 0 < n ∧ Zdigits2 n = Z.log2 n + 1.
Proof.
  intros. destruct (Z.eq_dec n 0) as [->|]; [by left|right]. split; [lia|]. apply Zdigits2_log2. lia.
Qed.

Lemma Zdigits2_mono a b : 0 <= a <= b → Zdigits2 a <= Zdigits2 b.
Proof.
  intros. pose proof (Z.log2_le_mono a b ltac:(lia)). pose proof (Z.log2_nonneg b).
  destruct (Zdigits2_0_or a ltac:(lia)) as [[? ->]|[? ->]], (Zdigits2_0_or b ltac:(lia)) as [[? ->]|[? ->]]; lia.
Qed.

Lemma Zdigits2_shift a n : 0 <= n → 0 < a / 2 ^ n → Zdigits2 (a / 2 ^ n) = Zdigits2 a - n.
Proof.
  intros Hn Ha. assert (0 < 2 ^ n) by (apply Z.pow_pos_nonneg; lia).
  assert (0 < a) by (destruct (Z.lt_trichotomy a 0) as [?|[->|?]]; [|by rewrite Z.div_0_l in Ha by lia|lia];
    pose proof (Z.div_lt_upper_bound a (2 ^ n) 0 ltac:(lia) ltac:(lia)); lia).
  rewrite !Zdigits2_log2 by done. rewrite <- Z.shiftr_div_pow2 in * by done.
  rewrite Z.log2_shiftr in * by lia.
  assert (n <= Z.log2 a); [|lia].
  destruct (Z.le_gt_cases n (Z.log2 a)) as [?|Hl]; [done|].
  rewrite Z.shiftr_eq_0 in Ha by lia. lia.
Qed.

(* ------------------------------------------------------------------ *)
(** ** Shifting right *)

Lemma shr_1_m mrs : 0 <= shr_m mrs → shr_m (shr_1 mrs) = shr_m mrs / 2.
Proof.
  destruct mrs as [m r s]. cbn [shr_m]. intros Hm. destruct m as [|p|p]; [done| |lia].
  destruct p as [p|p|]; [| |done]; cbn [shr_1 shr_m].
  - by apply (Z.div_unique _ _ _ 1); lia.
  - by apply (Z.div_unique _ _ _ 0); lia.
Qed.

Lemma iter_shr_m p : ∀ mrs, 0 <= shr_m mrs → shr_m (iter_pos shr_1 p mrs) = shr_m mrs / 2 ^ Zpos p.
Proof.
  induction p as [p IH|p IH|]; intros mrs Hm; cbn [iter_pos].
  - pose proof (shr_1_m mrs Hm) as E.
    assert (0 <= shr_m (shr_1 mrs)) by (rewrite E; apply Z.div_pos; lia).
    rewrite IH; rewrite IH by done; [|apply Z.div_pos; [done|by apply Z.pow_pos_nonneg]].
    rewrite E, !Z.div_div by lia. f_equal. rewrite <- Z.pow_add_r by lia.
    change (2 * 2 ^ (Zpos p + Zpos p)) with (2 ^ 1 * 2 ^ (Zpos p + Zpos p)).
    rewrite <- Z.pow_add_r by lia. f_equal. lia.
  - rewrite IH; rewrite IH by done; [|apply Z.div_pos; [done|by apply Z.pow_pos_nonneg]].
    rewrite !Z.div_div by lia. f_equal. rewrite <- Z.pow_add_r by lia. f_equal. lia.
  - by apply shr_1_m.
Qed.

Lemma shr_record_m m l : shr_m (shr_record_of_loc m l) = m.
Proof. by destruct l as [|[]]. Qed.

(** [shr_fexp] divides by the power of two that it adds to the exponent. *)
Lemma shr_fexp_spec m e l : 0 <= m →
  let n := Z.max 0 (fexp64 (Zdigits2 m + e) - e) in
  shr_m (shr_fexp prec64 emax64 m e l).1 = m / 2 ^ n ∧ (shr_fexp prec64 emax64 m e l).2 = e + n.
Proof.
  intros Hm n. unfold shr_fexp. subst n. destruct (fexp64 _ - e) as [|p|p]; cbn [shr fst snd].
  - rewrite shr_record_m. change (2 ^ Z.max 0 0) with 1. rewrite Z.div_1_r. lia.
  - rewrite iter_shr_m by (by rewrite shr_record_m). rewrite shr_record_m. split; [|lia].
    done.
  - rewrite shr_record_m. rewrite Z.max_l by lia. rewrite Z.div_1_r. lia.
Qed.

Lemma fexp64_spec e : fexp64 e = Z.max (e - 53) (-1074).
Proof. reflexivity. Qed.

Lemma round_nearest_even_spec m l : round_nearest_even m l = m ∨ round_nearest_even m l = m + 1.
Proof. destruct l as [|[]]; cbn; auto. destruct (Z.even m); auto. Qed.

(** Rounding a mantissa with enough digits. *)
Lemma binary_round_aux_rounded s m e l : 0 <= m → e <= fexp64 (Zdigits2 m + e) →
  rounded (binary_round_aux prec64 emax64 s m e l).
Proof.
  intros Hm He. unfold binary_round_aux.
  destruct (shr_fexp prec64 emax64 m e l) as [r1 e1] eqn:E1.
  pose proof (shr_fexp_spec m e l Hm) as [H1 H2]. rewrite E1 in H1, H2. cbn [fst snd] in H1, H2.
  rewrite Z.max_r in H1, H2 by lia. set (n := fexp64 (Zdigits2 m + e) - e) in *.
  assert (0 < 2 ^ n) by (apply Z.pow_pos_nonneg; lia).
  assert (0 <= shr_m r1) as Hm1 by (rewrite H1; by apply Z.div_pos).
  set (m2 := round_nearest_even _ _).
  assert (shr_m r1 <= m2 <= shr_m r1 + 1) as Hm2
    by (unfold m2; destruct (round_nearest_even_spec (shr_m r1) (loc_of_shr_record r1)); lia).
  clearbody m2.
  (* the rounded mantissa is canonical, or has one digit too many *)
  assert (e1 <= fexp64 (Zdigits2 m2 + e1) ∨ m2 = 0) as Hc.
  { destruct (Z.eq_dec m2 0) as [|Hne]; [by right|left].
    destruct (Z.eq_dec (shr_m r1) 0) as [E0|Hp].
    - assert (m2 = 1) as -> by lia. change (Zdigits2 1) with 1. rewrite fexp64_spec.
      assert (Zdigits2 m <= n).
      { destruct (Zdigits2_0_or m Hm) as [[-> ->]|[Hp ->]]; [lia|].
        destruct (Z.le_gt_cases (Z.log2 m + 1) n) as [?|Hl]; [done|].
        assert (2 ^ n <= m) by (etransitivity; [|by apply Z.log2_spec]; apply Z.pow_le_mono_r; lia).
        assert (1 <= m / 2 ^ n) by (apply Z.div_le_lower_bound; lia). lia. }
      unfold n in *. rewrite fexp64_spec in *. lia.
    - pose proof (Zdigits2_mono (shr_m r1) m2 ltac:(lia)) as Hd.
      rewrite H1, Zdigits2_shift in Hd by lia.
      pose proof (fexp_mono (Zdigits2 m + e) (Zdigits2 m2 + e1) ltac:(lia)). lia. }
  destruct (shr_fexp prec64 emax64 m2 e1 loc_Exact) as [r2 e2] eqn:E2.
  pose proof (shr_fexp_spec m2 e1 loc_Exact ltac:(lia)) as [H3 H4]. rewrite E2 in H3, H4.
  cbn [fst snd] in H3, H4. destruct (shr_m r2) as [|p|p] eqn:Er; [done| |].
  - destruct (Z.leb_spec e2 (emax64 - prec64)) as [Hle|]; [|done]. split; [done|].
    cbn [valid_binary]. apply andb_true_iff. split; [|by apply Z.leb_le]. apply Z.eqb_eq.
    destruct Hc as [Hc| ->]; [|by rewrite Z.div_0_l in H3 by (apply Z.pow_nonzero; lia)].
    rewrite Z.max_r in H3, H4 by lia.
    change (Zpos (digits2_pos p)) with (Zdigits2 (Zpos p)). rewrite H3.
    rewrite Zdigits2_shift by lia.
    replace (Zdigits2 m2 - (fexp64 (Zdigits2 m2 + e1) - e1) + e2) with (Zdigits2 m2 + e1) by lia. lia.
  - exfalso. assert (0 <= Z.neg p); [|lia]. rewrite H3. apply Z.div_pos; [lia|].
    apply Z.pow_pos_nonneg; lia.
Qed.

(* ------------------------------------------------------------------ *)
(** ** Decimals *)

Lemma shl_iter p d : Zpos (Pos.iter xO p d) = Zpos p * 2 ^ Zpos d.
Proof.
  induction d as [|d IH] using Pos.peano_ind; [cbn; lia|].
  rewrite Pos.iter_succ. rewrite Pos2Z.inj_succ, Z.pow_succ_r by lia.
  change (Zpos (Pos.iter xO p d)~0) with (2 * Zpos (Pos.iter xO p d)). rewrite IH. lia.
Qed.

Lemma binary_round_rounded s p : rounded (binary_round prec64 emax64 s p 0).
Proof.
  unfold binary_round, shl_align. rewrite Z.add_0_r, Z.sub_0_r.
  change (Zpos (digits2_pos p)) with (Zdigits2 (Zpos p)).
  destruct (fexp64 (Zdigits2 (Zpos p))) as [|d|d] eqn:E.
  - apply binary_round_aux_rounded; [lia|]. by rewrite Z.add_0_r, E.
  - apply binary_round_aux_rounded; [lia|]. by rewrite Z.add_0_r, E.
  - apply binary_round_aux_rounded; [lia|]. rewrite shl_iter.
    rewrite !Zdigits2_log2 in * by nia. rewrite Z.log2_mul_pow2 by lia.
    replace (Zpos d + Z.log2 (Zpos p) + 1 + Z.neg d) with (Z.log2 (Zpos p) + 1) by lia. by rewrite E.
Qed.

Lemma div_rounded s p q : rounded (SFdiv prec64 emax64 (S754_finite s p 0) (S754_finite false q 0)).
Proof.
  cbn [SFdiv]. unfold SFdiv_core_binary. rewrite !Z.add_0_r, Z.sub_0_r.
  set (e' := Z.min _ 0). assert (e' <= 0) as He' by lia. rewrite Z.sub_0_l.
  set (m' := match - e' with Z0 => _ | _ => _ end).
  assert (m' = Zpos p * 2 ^ (- e')) as ->.
  { unfold m'. destruct (- e') as [|x|x] eqn:E; [by rewrite Z.mul_1_r| |lia].
    by rewrite Z.shiftl_mul_pow2 by lia. }
  assert (0 < 2 ^ (- e')) as Hp by (apply Z.pow_pos_nonneg; lia).
  destruct (Z.div_eucl _ _) as [x r] eqn:E.
  assert (x = Zpos p * 2 ^ (- e') / Zpos q) as -> by (unfold Z.div; by rewrite E).
  apply binary_round_aux_rounded; [apply Z.div_pos; lia|].
  transitivity (fexp64 (Zdigits2 (Zpos p) - Zdigits2 (Zpos q))); [lia|]. apply fexp_mono.
  rewrite !(Zdigits2_log2 (Zpos _)) by lia. set (a := Zpos p * 2 ^ (- e')).
  assert (Z.log2 a = - e' + Z.log2 (Zpos p)) as Ea by (unfold a; apply Z.log2_mul_pow2; lia).
  pose proof (Z.log2_spec a ltac:(lia)) as [Ha _]. pose proof (Z.log2_spec (Zpos q) ltac:(lia)) as [_ Hq].
  rewrite <- Z.add_1_r in Hq.
  destruct (Zdigits2_0_or (a / Zpos q) ltac:(apply Z.div_pos; lia)) as [[E0 ->]|[Hx ->]].
  - apply Z.div_small_iff in E0 as [[_ Hlt]|]; [|lia|lia].
    pose proof (Z.log2_le_mono a (Zpos q) ltac:(lia)). lia.
  - enough (Z.log2 a - Z.log2 (Zpos q) <= Z.log2 (a / Zpos q) + 1) by lia.
    pose proof (Z.log2_spec (a / Zpos q) Hx) as [_ Hu]. rewrite <- Z.add_1_r in Hu.
    apply Z.le_ngt. intros Hgt.
    pose proof (Z.log2_nonneg (Zpos q)). pose proof (Z.log2_nonneg (a / Zpos q)).
    assert (a < Zpos q * (a / Zpos q + 1)) by (pose proof (Z.mul_succ_div_gt a (Zpos q) ltac:(lia)); lia).
    assert (a / Zpos q + 1 <= 2 ^ (Z.log2 (a / Zpos q) + 1)) by lia.
    assert (2 ^ (Z.log2 (Zpos q) + 1) * 2 ^ (Z.log2 (a / Zpos q) + 1) <= 2 ^ Z.log2 a).
    { rewrite <- Z.pow_add_r by lia. apply Z.pow_le_mono_r; lia. }
    nia.
Qed.

Lemma float_of_decimal_rounded neg mant k : 0 <= mant → rounded (float_of_decimal neg mant k).
Proof.
  intros Hm. unfold float_of_decimal. destruct mant as [|p|p]; [done| |lia].
  destruct (Z.leb_spec 0 k) as [Hk|Hk].
  - assert (0 < 10 ^ k) by (apply Z.pow_pos_nonneg; lia).
    destruct neg; [destruct (- (Zpos p * 10 ^ k)) as [|x|x] eqn:E|
      destruct (Zpos p * 10 ^ k) as [|x|x] eqn:E]; try lia; apply binary_round_rounded.
  - assert (0 < 10 ^ (- k)) by (apply Z.pow_pos_nonneg; lia).
    destruct (10 ^ (- k)) as [|q|q]; try lia. apply div_rounded.
Qed.

Lemma read_mantissa_nonneg s : ∀ m f d g m' f' g' r, 0 <= m →
  read_mantissa s m f d g = Some (m', f', g', r) → 0 <= m'.
Proof.
  induction s as [|c s IH]; intros m f d g m' f' g' r Hm H; cbn in H; [by simplify_eq|].
  destruct (c =c "."); [destruct d; [by simplify_eq|by eapply IH]|].
  destruct (is_digit c) eqn:Ec; [|by simplify_eq]. eapply IH; [|exact H].
  unfold is_digit in Ec. unfold digit_value. lia.
Qed.

(** What [ParseFloat] makes of a number without a name. *)
Lemma parse_float_finite s f : special_float s = None → parse_float s = Ret f → finite64 f = true.
Proof.
  unfold parse_float. intros ->. destruct (read_float s) as [[[neg mant] k]|] eqn:E; [|done].
  destruct (is_inf _) eqn:Ei; [done|]. intros [= <-].
  assert (0 <= mant) as Hm.
  { unfold read_float in E. destruct (match s with [] => _ | _ => _ end) as [ng t].
    destruct (read_mantissa t 0 0 false false) as [[[[m fr] [|]] rest]|] eqn:Er; [| |done]; cycle 1.
    { by destruct rest. }
    apply read_mantissa_nonneg in Er; [|done]. repeat case_match; by simplify_eq. }
  destruct (float_of_decimal_rounded neg mant k Hm) as [Hn Hv]. unfold finite64. rewrite Hv, andb_true_r.
  by destruct (float_of_decimal neg mant k).
Qed.
