(* ===== verification/Json.v ===== *)
(** * The JSON texts of [encoding/json]: grammar, parser, string literals

    The scanner of [encoding/json] (Go 1.12) accepts the texts of RFC 8259.
    A value keeps its numbers and strings as written, and the text of its
    arrays and objects, which the decoder passes to methods
    [UnmarshalJSON]. *)

From S2P Require Import Prelude GoStd GoUtf8.

Inductive json :=
| JNull
| JBool (b : bool)
| JNumber (lit : bytes)
| JString (lit : bytes)
| JArray (raw : bytes) (elems : list json)
| JObject (raw : bytes) (members : list (bytes * json)).

(** The text of a value; a string is kept without its quotes. *)
Definition raw_text (j : json) : bytes :=
  match j with
  | JNull => bs "null"
  | JBool b => format_bool b
  | JNumber lit => lit
  | JString lit => dquote :: lit ++ [dquote]
  | JArray raw _ | JObject raw _ => raw
  end.

(* ------------------------------------------------------------------ *)
(** ** Characters *)

Definition is_space (c : ascii) : bool := (c =c " ") || (c =c "009") || (c =c "013") || (c =c "010").
Definition is_hex (c : ascii) : bool :=
  is_digit c || in_range 97 102 c || in_range 65 70 c.
Definition is_simple_escape (c : ascii) : bool :=
  (c =c "b") || (c =c "f") || (c =c "n") || (c =c "r") || (c =c "t") || (c =c "/")
  || Ascii.eqb c backslash || Ascii.eqb c dquote.
Definition is_control (c : ascii) : bool := (code c <? 32)%Z.

(* ------------------------------------------------------------------ *)
(** ** Grammar *)

Definition spaces (s : bytes) : Prop := Forall (λ c, is_space c = true) s.

(** The text of a string, between its quotes. *)
Inductive string_lit : bytes → Prop :=
| lit_nil : string_lit []
| lit_plain c s : is_control c = false → c ≠ dquote → c ≠ backslash → string_lit s → string_lit (c :: s)
| lit_escape e s : is_simple_escape e = true → string_lit s → string_lit (backslash :: e :: s)
| lit_unicode h1 h2 h3 h4 s : forallb is_hex [h1; h2; h3; h4] = true → string_lit s →
    string_lit (backslash :: "u"%char :: h1 :: h2 :: h3 :: h4 :: s).

Inductive int_part : bytes → Prop :=
| int_zero : int_part (bs "0")
| int_digits d s : is_digit d = true → d ≠ "0"%char → all_digits s → int_part (d :: s).
Inductive frac_part : bytes → Prop :=
| no_frac : frac_part []
| frac_digits d s : all_digits (d :: s) → frac_part ("."%char :: d :: s).
Inductive exp_part : bytes → Prop :=
| no_exp : exp_part []
| exp_digits e sign d s : e = "e"%char ∨ e = "E"%char → sign = [] ∨ sign = bs "+" ∨ sign = bs "-" →
    all_digits (d :: s) → exp_part (e :: sign ++ d :: s).

Definition number_lit (s : bytes) : Prop :=
  ∃ sign i f e, s = sign ++ i ++ f ++ e ∧ (sign = [] ∨ sign = bs "-") ∧
    int_part i ∧ frac_part f ∧ exp_part e.

(** Values, the elements of an array up to its bracket, and the members of
    an object up to its brace. *)
Inductive json_value : bytes → json → Prop :=
| v_null : json_value (bs "null") JNull
| v_bool b : json_value (format_bool b) (JBool b)
| v_number s : number_lit s → json_value s (JNumber s)
| v_string s : string_lit s → json_value (dquote :: s ++ [dquote]) (JString s)
| v_empty_array a : spaces a → json_value ("["%char :: a ++ bs "]") (JArray ("["%char :: a ++ bs "]") [])
| v_array w l : json_elems w l → json_value ("["%char :: w ++ bs "]") (JArray ("["%char :: w ++ bs "]") l)
| v_empty_object a : spaces a → json_value ("{"%char :: a ++ bs "}") (JObject ("{"%char :: a ++ bs "}") [])
| v_object w l : json_members w l → json_value ("{"%char :: w ++ bs "}") (JObject ("{"%char :: w ++ bs "}") l)
with json_elems : bytes → list json → Prop :=
| elems_one a v b j : spaces a → json_value v j → spaces b → json_elems (a ++ v ++ b) [j]
| elems_more a v b j w l : spaces a → json_value v j → spaces b → json_elems w l →
    json_elems (a ++ v ++ b ++ ","%char :: w) (j :: l)
with json_members : bytes → list (bytes * json) → Prop :=
| members_one a k b c v d j : spaces a → string_lit k → spaces b → spaces c → json_value v j → spaces d →
    json_members (a ++ dquote :: k ++ dquote :: b ++ ":"%char :: c ++ v ++ d) [(k, j)]
| members_more a k b c v d j w l : spaces a → string_lit k → spaces b → spaces c → json_value v j →
    spaces d → json_members w l →
    json_members (a ++ dquote :: k ++ dquote :: b ++ ":"%char :: c ++ v ++ d ++ ","%char :: w) ((k, j) :: l).

(** A whole text. *)
Definition json_text (s : bytes) (j : json) : Prop :=
  ∃ a v b, s = a ++ v ++ b ∧ spaces a ∧ json_value v j ∧ spaces b.

(* ------------------------------------------------------------------ *)
(** ** Parser *)

Fixpoint skip_space (s : bytes) : bytes :=
  match s with c :: t => if is_space c then skip_space t else s | [] => [] end.

(** The text of a string up to its closing quote, and the rest. *)
Fixpoint scan_string (s : bytes) : option (bytes * bytes) :=
  match s with
  | [] => None
  | c :: t =>
      if Ascii.eqb c dquote then Some ([], t)
      else if Ascii.eqb c backslash then
        match t with
        | e :: u =>
            if e =c "u" then
              match u with
              | h1 :: h2 :: h3 :: h4 :: v =>
                  if forallb is_hex [h1; h2; h3; h4]
                  then '(lit, r) ← scan_string v; Some (c :: e :: h1 :: h2 :: h3 :: h4 :: lit, r)
                  else None
              | _ => None
              end
            else if is_simple_escape e then '(lit, r) ← scan_string u; Some (c :: e :: lit, r)
            else None
        | [] => None
        end
      else if is_control c then None
      else '(lit, r) ← scan_string t; Some (c :: lit, r)
  end.

Fixpoint scan_digits (s : bytes) : bytes * bytes :=
  match s with
  | c :: t => if is_digit c then (c :: (scan_digits t).1, (scan_digits t).2) else ([], s)
  | [] => ([], [])
  end.

Definition scan_sign (s : bytes) : bytes * bytes :=
  match s with c :: t => if c =c "-" then ([c], t) else ([], s) | [] => ([], []) end.
Definition scan_int (s : bytes) : option (bytes * bytes) :=
  match s with
  | c :: t => if c =c "0" then Some ([c], t)
              else if is_digit c then Some (c :: (scan_digits t).1, (scan_digits t).2) else None
  | [] => None
  end.
Definition scan_frac (s : bytes) : option (bytes * bytes) :=
  match s with
  | c :: t => if c =c "." then
                match scan_digits t with ([], _) => None | (ds, r) => Some (c :: ds, r) end
              else Some ([], s)
  | [] => Some ([], [])
  end.
Definition scan_exp (s : bytes) : option (bytes * bytes) :=
  match s with
  | c :: t => if (c =c "e") || (c =c "E") then
                let '(sign, u) := match t with
                                  | d :: u => if (d =c "+") || (d =c "-") then ([d], u) else ([], t)
                                  | [] => ([], [])
                                  end in
                match scan_digits u with ([], _) => None | (ds, r) => Some (c :: sign ++ ds, r) end
              else Some ([], s)
  | [] => Some ([], [])
  end.
Definition scan_number (s : bytes) : option (bytes * bytes) :=
  let '(sign, s) := scan_sign s in
  '(i, s) ← scan_int s;
  '(f, s) ← scan_frac s;
  '(e, s) ← scan_exp s;
  Some (sign ++ i ++ f ++ e, s).

(** The text of a literal name, and the rest. *)
Fixpoint strip_prefix (p s : bytes) : option bytes :=
  match p, s with
  | [], _ => Some s
  | c :: p', d :: s' => if Ascii.eqb c d then strip_prefix p' s' else None
  | _ :: _, [] => None
  end.

(** What was read of [s] when [r] is left. *)
Definition taken (s r : bytes) : bytes := take (length s - length r) s.

(** The parser; [2 * length s + 1] turns are enough for [parse_value]
    ([JsonFacts.Parse_iff]). *)
Fixpoint parse_value (fuel : nat) (s : bytes) : option (json * bytes) :=
  match fuel with
  | O => None
  | S n =>
      match s with
      | [] => None
      | c :: t =>
          if Ascii.eqb c dquote then '(lit, r) ← scan_string t; Some (JString lit, r)
          else if c =c "n" then r ← strip_prefix (bs "null") s; Some (JNull, r)
          else if c =c "t" then r ← strip_prefix (bs "true") s; Some (JBool true, r)
          else if c =c "f" then r ← strip_prefix (bs "false") s; Some (JBool false, r)
          else if c =c "[" then
            match strip_prefix (bs "]") (skip_space t) with
            | Some r => Some (JArray (taken s r) [], r)
            | None => '(l, r) ← parse_elems n t; Some (JArray (taken s r) l, r)
            end
          else if c =c "{" then
            match strip_prefix (bs "}") (skip_space t) with
            | Some r => Some (JObject (taken s r) [], r)
            | None => '(l, r) ← parse_members n t; Some (JObject (taken s r) l, r)
            end
          else '(lit, r) ← scan_number s; Some (JNumber lit, r)
      end
  end
with parse_elems (fuel : nat) (s : bytes) : option (list json * bytes) :=
  match fuel with
  | O => None
  | S n =>
      '(j, r) ← parse_value n (skip_space s);
      match skip_space r with
      | c :: r => if c =c "," then '(l, r) ← parse_elems n r; Some (j :: l, r)
                  else if c =c "]" then Some ([j], r) else None
      | [] => None
      end
  end
with parse_members (fuel : nat) (s : bytes) : option (list (bytes * json) * bytes) :=
  match fuel with
  | O => None
  | S n =>
      r ← strip_prefix [dquote] (skip_space s);
      '(k, r) ← scan_string r;
      r ← strip_prefix (bs ":") (skip_space r);
      '(j, r) ← parse_value n (skip_space r);
      match skip_space r with
      | c :: r => if c =c "," then '(l, r) ← parse_members n r; Some ((k, j) :: l, r)
                  else if c =c "}" then Some ([(k, j)], r) else None
      | [] => None
      end
  end.

(** A whole text: nothing but blanks may follow the value. *)
Definition Parse (s : bytes) : option json :=
  '(j, r) ← parse_value (2 * length s + 1) (skip_space s);
  match skip_space r with [] => Some j | _ => None end.

(** JSON text with apostrophes for double quotes. *)
Definition js (s : String.string) : bytes := map (λ c, if c =c "'" then dquote else c) (bs s).

Example parse_small : Parse (js "[ -1.5e3 , {'a' : null} ]") =
  Some (JArray (js "[ -1.5e3 , {'a' : null} ]")
          [JNumber (bs "-1.5e3"); JObject (js "{'a' : null}") [(bs "a", JNull)]]).
Proof. by vm_compute. Qed.

Example parse_bad : map (λ s, Parse (js s)) ["[1,]"; "01"; "'a"; "{'a' 1}"; "nul"; "1 2"; "+1"]%string =
  replicate 7 None.
Proof. by vm_compute. Qed.
