(* ===== verification/JsonFacts.v ===== *)
(** * The parser of JSON accepts the texts of the grammar, and no other *)

From S2P Require Import Prelude GoStd GoStdFacts GoUtf8 Json.

(* ------------------------------------------------------------------ *)
(** ** Blanks and names *)

Definition no_space (s : bytes) : Prop := match s with c :: _ => is_space c = false | [] => True end.

Lemma skip_space_split s : ∃ a, s = a ++ skip_space s ∧ spaces a ∧ no_space (skip_space s).
Proof.
  induction s as [|c s (a & E & Ha & Hn)]; [by (exists []; repeat split; constructor)|]. cbn.
  destruct (is_space c) eqn:Ec; [|exists []; repeat split; [constructor|exact Ec]].
  exists (c :: a). cbn. rewrite <- E. repeat split; [by constructor|done].
Qed.

Lemma skip_space_app a s : spaces a → skip_space (a ++ s) = skip_space s.
Proof. induction 1 as [|c a Hc _ IH]; [done|]. cbn. by rewrite Hc. Qed.

Lemma skip_space_stop s : no_space s → skip_space s = s.
Proof. destruct s as [|c s]; [done|]. cbn. by intros ->. Qed.

Lemma skip_space_all a : spaces a → skip_space a = [].
Proof. intros H. rewrite <- (app_nil_r a). by rewrite skip_space_app. Qed.

Lemma strip_prefix_iff p s r : strip_prefix p s = Some r ↔ s = p ++ r.
Proof.
  revert s. induction p as [|c p IH]; intros s; cbn; [naive_solver|].
  destruct s as [|d s]; [done|]. destruct (Ascii.eqb_spec c d) as [->|Hn]; [|naive_solver].
  rewrite IH. naive_solver.
Qed.

Lemma strip_prefix_app p r : strip_prefix p (p ++ r) = Some r.
Proof. by apply strip_prefix_iff. Qed.

Lemma taken_app v r : taken (v ++ r) r = v.
Proof.
  unfold taken. rewrite length_app. replace (length v + length r - length r) with (length v) by lia.
  by rewrite take_app_length.
Qed.

(* ------------------------------------------------------------------ *)
(** ** Strings *)

Lemma scan_string_sound n : ∀ s lit r, length s ≤ n → scan_string s = Some (lit, r) →
  s = lit ++ dquote :: r ∧ string_lit lit.
Proof.
  induction n as [|n IH]; intros s lit r Hn H; (destruct s as [|c t]; [done|]); [cbn in Hn; lia|].
  cbn [scan_string] in H. cbn in Hn.
  destruct (Ascii.eqb_spec c dquote) as [->|Hq]; [simplify_eq; split; [done|constructor]|].
  destruct (Ascii.eqb_spec c backslash) as [->|Hb].
  - destruct t as [|e u]; [done|]. cbn in Hn. destruct (Ascii.eqb_spec e "u"%char) as [->|He].
    + destruct u as [|h1 [|h2 [|h3 [|h4 v]]]]; try done.
      destruct (forallb _ _) eqn:Eh; [|done].
      destruct (scan_string v) as [[lit' r']|] eqn:Ev; [|done]. injection H as <- <-.
      apply IH in Ev as [-> Hl]; [|cbn in Hn; lia]. split; [done|]. by constructor.
    + destruct (is_simple_escape e) eqn:Ee; [|done].
      destruct (scan_string u) as [[lit' r']|] eqn:Ev; [|done]. injection H as <- <-.
      apply IH in Ev as [-> Hl]; [|lia]. split; [done|]. by constructor.
  - destruct (is_control c) eqn:Ec; [done|].
    destruct (scan_string t) as [[lit' r']|] eqn:Ev; [|done]. injection H as <- <-.
    apply IH in Ev as [-> Hl]; [|lia]. split; [done|]. by constructor.
Qed.

Lemma scan_string_complete lit r : string_lit lit → scan_string (lit ++ dquote :: r) = Some (lit, r).
Proof.
  induction 1 as [|c s Hc Hq Hb _ IH|e s He _ IH|h1 h2 h3 h4 s Hh _ IH]; cbn [app scan_string].
  - by rewrite Ascii.eqb_refl.
  - rewrite (proj2 (Ascii.eqb_neq _ _) Hq), (proj2 (Ascii.eqb_neq _ _) Hb), Hc. by rewrite IH.
  - change (Ascii.eqb backslash dquote) with false. rewrite Ascii.eqb_refl. cbn iota.
    destruct (Ascii.eqb_spec e "u"%char) as [->|]; [done|]. by rewrite He, IH.
  - change (Ascii.eqb backslash dquote) with false. rewrite Ascii.eqb_refl. cbn iota.
    change ("u" =c "u") with true. cbn iota. by rewrite Hh, IH.
Qed.

(* ------------------------------------------------------------------ *)
(** ** Numbers *)

Definition no_digit (s : bytes) : Prop := match s with c :: _ => is_digit c = false | [] => True end.

Lemma scan_digits_sound s d r : scan_digits s = (d, r) → s = d ++ r ∧ all_digits d.
Proof.
  revert d r. induction s as [|c s IH]; intros d r H; cbn in H; [by simplify_eq|].
  destruct (is_digit c) eqn:Ec; [|by simplify_eq].
  destruct (scan_digits s) as [d' r']. injection H as <- <-.
  destruct (IH d' r' eq_refl) as [-> Hd]. split; [done|]. by constructor.
Qed.

Lemma scan_digits_complete d r : all_digits d → no_digit r → scan_digits (d ++ r) = (d, r).
Proof.
  intros Hd Hr. induction Hd as [|c d Hc _ IH]; cbn.
  - destruct r as [|c r]; [done|]. cbn in *. by rewrite Hr.
  - by rewrite Hc, IH.
Qed.

(** What may follow a number. *)
Definition number_end (s : bytes) : Prop :=
  match s with
  | c :: _ => is_digit c = false ∧ c ≠ "."%char ∧ c ≠ "e"%char ∧ c ≠ "E"%char
  | [] => True
  end.

Lemma scan_int_sound s i r : scan_int s = Some (i, r) → s = i ++ r ∧ int_part i.
Proof.
  destruct s as [|c s]; [done|]. cbn [scan_int]. destruct (Ascii.eqb_spec c "0"%char) as [->|Hz].
  - intros [= <- <-]. split; [done|constructor].
  - destruct (is_digit c) eqn:Ec; [|done]. destruct (scan_digits s) as [d r'] eqn:Ed.
    intros [= <- <-]. apply scan_digits_sound in Ed as [-> Hd]. split; [done|]. by constructor.
Qed.

Lemma scan_int_complete i r : int_part i → no_digit r → scan_int (i ++ r) = Some (i, r).
Proof.
  intros [|d s Hd Hz Hs] Hr; [done|]. cbn [app scan_int].
  by rewrite (proj2 (Ascii.eqb_neq _ _) Hz), Hd, scan_digits_complete.
Qed.

Lemma scan_frac_sound s f r : scan_frac s = Some (f, r) → s = f ++ r ∧ frac_part f.
Proof.
  destruct s as [|c s]; cbn [scan_frac]; [intros [= <- <-]; split; [done|constructor]|].
  destruct (Ascii.eqb_spec c "."%char) as [->|]; [|intros [= <- <-]; split; [done|constructor]].
  destruct (scan_digits s) as [[|d ds] r'] eqn:Ed; [done|]. intros [= <- <-].
  apply scan_digits_sound in Ed as [-> Hd]. split; [done|]. by constructor.
Qed.

Lemma scan_frac_complete f r : frac_part f → no_digit r → (match r with c :: _ => c ≠ "."%char | [] => True end) →
  scan_frac (f ++ r) = Some (f, r).
Proof.
  intros [|d s Hd] Hr Hp; cbn [app scan_frac].
  - destruct r as [|c r]; [done|]. cbn. rewrite (proj2 (Ascii.eqb_neq _ _) Hp). done.
  - change ("." =c ".") with true. cbn iota. change (d :: s ++ r) with ((d :: s) ++ r).
    by rewrite scan_digits_complete.
Qed.

Lemma scan_exp_sound s e r : scan_exp s = Some (e, r) → s = e ++ r ∧ exp_part e.
Proof.
  destruct s as [|c s]; cbn [scan_exp]; [intros [= <- <-]; split; [done|constructor]|].
  destruct (_ || _) eqn:Ec; [|intros [= <- <-]; split; [done|constructor]].
  apply orb_prop in Ec. rewrite !Ascii.eqb_eq in Ec.
  destruct (match s with [] => _ | _ => _ end) as [sign u] eqn:Es.
  assert (s = sign ++ u ∧ (sign = [] ∨ sign = bs "+" ∨ sign = bs "-")) as [-> Hsign].
  { destruct s as [|d s]; [simplify_eq; auto|].
    destruct (Ascii.eqb_spec d "+"%char) as [->|]; [cbn in Es; simplify_eq; auto|].
    destruct (Ascii.eqb_spec d "-"%char) as [->|]; cbn in Es; simplify_eq; auto. }
  destruct (scan_digits u) as [[|d ds] r'] eqn:Ed; [done|]. intros [= <- <-].
  apply scan_digits_sound in Ed as [-> Hd]. split; [app_eq|]. by constructor.
Qed.

Lemma scan_exp_complete e r : exp_part e → number_end r → scan_exp (e ++ r) = Some (e, r).
Proof.
  intros [|c sign d s Hc Hsign Hd] Hr.
  - destruct r as [|c r]; [done|]. destruct Hr as (_ & _ & H1 & H2). cbn [app scan_exp].
    by rewrite (proj2 (Ascii.eqb_neq _ _) H1), (proj2 (Ascii.eqb_neq _ _) H2).
  - cbn [app scan_exp]. assert ((c =c "e") || (c =c "E") = true) as -> by (destruct Hc as [-> | ->]; done).
    assert (no_digit r) as Hr' by (destruct r; [done|apply Hr]).
    pose proof (scan_digits_complete (d :: s) r Hd Hr') as Es. cbn [app] in Es.
    apply Forall_cons in Hd as [Hd _].
    destruct Hsign as [->|[->| ->]]; cbn [app bs String.list_ascii_of_string].
    + assert ((d =c "+") || (d =c "-") = false) as -> by (by destruct d as [[] [] [] [] [] [] [] []]).
      by rewrite Es.
    + change ("+" =c "+") with true. cbn [orb]. by rewrite Es.
    + change ("-" =c "-") with true. rewrite orb_true_r. by rewrite Es.
Qed.

Lemma scan_number_sound s lit r : scan_number s = Some (lit, r) → s = lit ++ r ∧ number_lit lit.
Proof.
  unfold scan_number. destruct (scan_sign s) as [sign s1] eqn:E0.
  assert (s = sign ++ s1 ∧ (sign = [] ∨ sign = bs "-")) as [-> Hsign].
  { destruct s as [|c s]; cbn in E0; [simplify_eq; auto|].
    destruct (Ascii.eqb_spec c "-"%char) as [->|]; simplify_eq; auto. }
  destruct (scan_int s1) as [[i s2]|] eqn:E1; [|done]. cbn [mbind option_bind].
  destruct (scan_frac s2) as [[f s3]|] eqn:E2; [|done]. cbn [mbind option_bind].
  destruct (scan_exp s3) as [[e s4]|] eqn:E3; [|done]. cbn [mbind option_bind]. intros [= <- <-].
  apply scan_int_sound in E1 as [-> H1]. apply scan_frac_sound in E2 as [-> H2].
  apply scan_exp_sound in E3 as [-> H3]. split; [app_eq|]. by eexists _, _, _, _.
Qed.

(** Parts of a number begin with no digit. *)
Lemma exp_no_digit e r : exp_part e → no_digit r → no_digit (e ++ r).
Proof. intros [|c sign d s [-> | ->]] ?; done. Qed.
Lemma frac_no_digit f r : frac_part f → no_digit r → no_digit (f ++ r).
Proof. intros [|] ?; done. Qed.

Lemma scan_number_complete lit r : number_lit lit → number_end r → scan_number (lit ++ r) = Some (lit, r).
Proof.
  intros (sign & i & f & e & -> & Hsign & Hi & Hf & He) Hr.
  assert (no_digit r) as Hr' by (destruct r; [done|apply Hr]).
  assert (scan_sign (sign ++ i ++ f ++ e ++ r) = (sign, i ++ f ++ e ++ r)) as Es.
  { destruct Hsign as [-> | ->]; [|done]. destruct Hi as [|d s Hd _ _]; [done|]. cbn.
    assert (d =c "-" = false) as -> by (by destruct d as [[] [] [] [] [] [] [] []]). done. }
  unfold scan_number. rewrite <- !app_assoc, Es.
  rewrite scan_int_complete by (done || by apply frac_no_digit, exp_no_digit). cbn [mbind option_bind].
  rewrite scan_frac_complete; [|done|by apply exp_no_digit|].
  2:{ destruct He as [|c ? ? ? [-> | ->]]; [|done|done]. destruct r; [done|apply Hr]. }
  cbn [mbind option_bind]. by rewrite scan_exp_complete.
Qed.

(* ------------------------------------------------------------------ *)
(** ** Values *)

Lemma spaces_app a b : spaces a → spaces b → spaces (a ++ b).
Proof. intros. by apply Forall_app. Qed.

(** Read a blank run of the goal's text. *)
Ltac split_space s := let a := fresh "a" in let E := fresh "E" in let Ha := fresh "Ha" in
  let Hn := fresh "Hn" in destruct (skip_space_split s) as (a & E & Ha & Hn).

(** What the parsers return with [n] turns of fuel. *)
Definition value_sound (n : nat) : Prop := ∀ s j r, parse_value n s = Some (j, r) →
  ∃ v, s = v ++ r ∧ json_value v j.
Definition elems_sound (n : nat) : Prop := ∀ s l r, parse_elems n s = Some (l, r) →
  ∃ w, s = w ++ bs "]" ++ r ∧ json_elems w l.
Definition members_sound (n : nat) : Prop := ∀ s l r, parse_members n s = Some (l, r) →
  ∃ w, s = w ++ bs "}" ++ r ∧ json_members w l.

Lemma name_sound p s j j' r : json_value p j →
  (r ← strip_prefix p s; Some (j, r)) = Some (j', r) → ∃ v, s = v ++ r ∧ json_value v j'.
Proof.
  intros Hv. destruct (strip_prefix p s) as [r'|] eqn:Es; [|done]. intros [= <- <-].
  apply strip_prefix_iff in Es as ->. by exists p.
Qed.

Lemma taken_brackets (o : ascii) w (c r : bytes) : taken (o :: w ++ c ++ r) r = o :: w ++ c.
Proof. rewrite <- (taken_app (o :: w ++ c) r). f_equal. app_eq. Qed.

(** A pair of brackets around blanks. *)
Lemma brackets_sound (o : ascii) (c t r : bytes) (f : bytes → json) :
  (∀ a, spaces a → json_value (o :: a ++ c) (f (o :: a ++ c))) →
  strip_prefix c (skip_space t) = Some r →
  ∃ v, o :: t = v ++ r ∧ json_value v (f (taken (o :: t) r)).
Proof.
  intros Hf Es. apply strip_prefix_iff in Es. split_space t. rewrite E, Es, taken_brackets.
  exists (o :: a ++ c). split; [app_eq|by apply Hf].
Qed.

Lemma value_sound_S n : elems_sound n → members_sound n → value_sound (S n).
Proof.
  intros IHe IHm [|c t] j r; [done|]. cbn [parse_value].
  destruct (Ascii.eqb_spec c dquote) as [->|_].
  { destruct (scan_string t) as [[lit r']|] eqn:Es; [|done]. intros [= <- <-].
    apply (scan_string_sound (length t)) in Es as [-> Hl]; [|done].
    exists (dquote :: lit ++ [dquote]). split; [app_eq|by constructor]. }
  destruct (c =c "n"); [by apply name_sound, v_null|].
  destruct (c =c "t"); [apply (name_sound _ _ (JBool true)), (v_bool true)|].
  destruct (c =c "f"); [apply (name_sound _ _ (JBool false)), (v_bool false)|].
  destruct (Ascii.eqb_spec c "["%char) as [->|_].
  { destruct (strip_prefix _ _) as [r'|] eqn:Es.
    - intros [= <- <-]. apply (brackets_sound "[" (bs "]") t r' (λ raw, JArray raw [])); [constructor; done|done].
    - destruct (parse_elems n t) as [[l r']|] eqn:Ee; [|done]. intros [= <- <-].
      apply IHe in Ee as (w & -> & Hw). exists ("["%char :: w ++ bs "]").
      split; [app_eq|]. rewrite (taken_brackets "["). by constructor. }
  destruct (Ascii.eqb_spec c "{"%char) as [->|_].
  { destruct (strip_prefix _ _) as [r'|] eqn:Es.
    - intros [= <- <-]. apply (brackets_sound "{" (bs "}") t r' (λ raw, JObject raw [])); [constructor; done|done].
    - destruct (parse_members n t) as [[l r']|] eqn:Ee; [|done]. intros [= <- <-].
      apply IHm in Ee as (w & -> & Hw). exists ("{"%char :: w ++ bs "}").
      split; [app_eq|]. rewrite (taken_brackets "{"). by constructor. }
  destruct (scan_number _) as [[lit r']|] eqn:Es; [|done]. intros [= <- <-].
  apply scan_number_sound in Es as [-> Hl]. eexists. split; [done|by constructor].
Qed.

Lemma elems_sound_S n : value_sound n → elems_sound n → elems_sound (S n).
Proof.
  intros IHv IHe s l r. cbn [parse_elems]. split_space s.
  destruct (parse_value _ _) as [[j r1]|] eqn:Ev; [|done]. cbn [mbind option_bind].
  apply IHv in Ev as (v & Ev & Hv). split_space r1.
  destruct (skip_space r1) as [|c r2]; [done|]. rewrite E, Ev, E0.
  destruct (Ascii.eqb_spec c ","%char) as [->|_].
  + destruct (parse_elems n r2) as [[l' r3]|] eqn:Ee; [|done]. intros [= <- <-].
    apply IHe in Ee as (w & -> & Hw). exists (a ++ v ++ a0 ++ ","%char :: w).
    split; [app_eq|by constructor].
  + destruct (Ascii.eqb_spec c "]"%char) as [->|_]; [|done]. intros [= <- <-].
    exists (a ++ v ++ a0). split; [app_eq|by constructor].
Qed.

Lemma members_sound_S n : value_sound n → members_sound n → members_sound (S n).
Proof.
  intros IHv IHm s l r. cbn [parse_members]. split_space s.
  destruct (strip_prefix _ _) as [r1|] eqn:Eq; [|done]. cbn [mbind option_bind].
  apply strip_prefix_iff in Eq. destruct (scan_string r1) as [[k r2]|] eqn:Ek; [|done]. cbn [mbind option_bind].
  apply (scan_string_sound (length r1)) in Ek as [-> Hk]; [|done]. split_space r2.
  destruct (strip_prefix _ (skip_space r2)) as [r3|] eqn:Ec; [|done]. cbn [mbind option_bind].
  apply strip_prefix_iff in Ec. split_space r3.
  destruct (parse_value _ _) as [[j r4]|] eqn:Ev; [|done]. cbn [mbind option_bind].
  apply IHv in Ev as (v & Ev & Hv). split_space r4.
  destruct (skip_space r4) as [|c r5]; [done|]. rewrite E, Eq, E0, Ec, E1, Ev, E2.
  destruct (Ascii.eqb_spec c ","%char) as [->|_].
  + destruct (parse_members n r5) as [[l' r6]|] eqn:Ee; [|done]. intros [= <- <-].
    apply IHm in Ee as (w & -> & Hw).
    exists (a ++ dquote :: k ++ dquote :: a0 ++ ":"%char :: a1 ++ v ++ a2 ++ ","%char :: w).
    split; [app_eq|by constructor].
  + destruct (Ascii.eqb_spec c "}"%char) as [->|_]; [|done]. intros [= <- <-].
    exists (a ++ dquote :: k ++ dquote :: a0 ++ ":"%char :: a1 ++ v ++ a2). split; [app_eq|by constructor].
Qed.

Lemma parse_sound n : value_sound n ∧ elems_sound n ∧ members_sound n.
Proof.
  induction n as [|n (IHv & IHe & IHm)]; [done|].
  auto using value_sound_S, elems_sound_S, members_sound_S.
Qed.

(* ------------------------------------------------------------------ *)
(** ** Completeness *)

Scheme json_value_mut := Minimality for json_value Sort Prop
with json_elems_mut := Minimality for json_elems Sort Prop
with json_members_mut := Minimality for json_members Sort Prop.
Combined Scheme json_mutind from json_value_mut, json_elems_mut, json_members_mut.

Lemma number_head s : number_lit s → ∃ c t, s = c :: t ∧ (is_digit c = true ∨ c = "-"%char).
Proof.
  intros (sign & i & f & e & -> & [-> | ->] & Hi & _); [|by eexists _, _; split; [done|right]].
  destruct Hi as [|d s Hd _ _]; eexists _, _; (split; [done|]); by left.
Qed.

(** A value begins with no blank and no closing bracket. *)
Lemma value_head v j : json_value v j →
  ∃ c t, v = c :: t ∧ is_space c = false ∧ c ≠ "]"%char ∧ c ≠ "}"%char.
Proof.
  destruct 1 as [|[]|s Hs| | | | |]; try (by eexists _, _).
  destruct (number_head s Hs) as (c & t & -> & [Hc| ->]); [|by eexists _, _].
  exists c, t. by destruct c as [[] [] [] [] [] [] [] []].
Qed.

Lemma value_no_space v j r : json_value v j → no_space (v ++ r).
Proof. intros (c & t & -> & ? & _)%value_head. done. Qed.

Definition value_complete (v : bytes) (j : json) : Prop := ∀ r fuel, number_end r →
  2 * length v + 1 ≤ fuel → parse_value fuel (v ++ r) = Some (j, r).
Definition elems_complete (w : bytes) (l : list json) : Prop := ∀ r fuel,
  2 * length w + 2 ≤ fuel → parse_elems fuel (w ++ bs "]" ++ r) = Some (l, r).
Definition members_complete (w : bytes) (l : list (bytes * json)) : Prop := ∀ r fuel,
  2 * length w + 2 ≤ fuel → parse_members fuel (w ++ bs "}" ++ r) = Some (l, r).

(** What follows a value in the grammar ends a number. *)
Lemma spaces_end b c r : spaces b → number_end (c :: r) → number_end (b ++ c :: r).
Proof. intros [|d b' Hd _] H; [done|]. cbn. by destruct d as [[] [] [] [] [] [] [] []]. Qed.

(** The array and the object are not empty. *)
Lemma elems_head w l r : json_elems w l → strip_prefix (bs "]") (skip_space (w ++ bs "]" ++ r)) = None.
Proof.
  assert (∀ a v j x, spaces a → json_value v j → strip_prefix (bs "]") (skip_space (a ++ v ++ x)) = None) as H.
  { intros a v j x Ha Hv. rewrite skip_space_app by done.
    rewrite skip_space_stop by (by eapply value_no_space).
    destruct (value_head v j Hv) as (c & t & -> & _ & Hc & _). cbn [app strip_prefix bs String.list_ascii_of_string].
    destruct (Ascii.eqb_spec "]" c) as [E|]; [by rewrite E in Hc|done]. }
  intros []; rewrite <- !app_assoc; by eapply H.
Qed.

Lemma members_head w l r : json_members w l → strip_prefix (bs "}") (skip_space (w ++ bs "}" ++ r)) = None.
Proof. intros []; rewrite <- !app_assoc, skip_space_app by done; done. Qed.

Lemma array_complete w l : json_elems w l → elems_complete w l →
  value_complete ("["%char :: w ++ bs "]") (JArray ("["%char :: w ++ bs "]") l).
Proof.
  intros Hw IH r [|n] _ Hn; [cbn in Hn; lia|]. cbn in Hn. rewrite length_app in Hn. cbn in Hn.
  cbn [app parse_value]. change (Ascii.eqb "[" dquote) with false.
  change ("[" =c "n") with false. change ("[" =c "t") with false. change ("[" =c "f") with false.
  change ("[" =c "[") with true. cbn iota. rewrite <- app_assoc.
  rewrite (elems_head _ _ _ Hw), IH by lia. cbn [mbind option_bind]. rewrite (taken_brackets "["). done.
Qed.

Lemma object_complete w l : json_members w l → members_complete w l →
  value_complete ("{"%char :: w ++ bs "}") (JObject ("{"%char :: w ++ bs "}") l).
Proof.
  intros Hw IH r [|n] _ Hn; [cbn in Hn; lia|]. cbn in Hn. rewrite length_app in Hn. cbn in Hn.
  cbn [app parse_value]. change (Ascii.eqb "{" dquote) with false.
  change ("{" =c "n") with false. change ("{" =c "t") with false. change ("{" =c "f") with false.
  change ("{" =c "[") with false. change ("{" =c "{") with true. cbn iota. rewrite <- app_assoc.
  rewrite (members_head _ _ _ Hw), IH by lia. cbn [mbind option_bind]. rewrite (taken_brackets "{"). done.
Qed.

Lemma number_complete s : number_lit s → value_complete s (JNumber s).
Proof.
  intros Hs r [|n] Hr Hn; [lia|]. destruct (number_head s Hs) as (c & t & E & Hc).
  pose proof (scan_number_complete s r Hs Hr) as Hscan. rewrite E in *. cbn [app parse_value] in *.
  assert (Ascii.eqb c dquote = false ∧ c =c "n" = false ∧ c =c "t" = false ∧ c =c "f" = false ∧
    c =c "[" = false ∧ c =c "{" = false) as (-> & -> & -> & -> & -> & ->).
  { destruct Hc as [Hc| ->]; [|done]. by destruct c as [[] [] [] [] [] [] [] []]. }
  by rewrite Hscan.
Qed.

Lemma string_complete s : string_lit s → value_complete (dquote :: s ++ [dquote]) (JString s).
Proof.
  intros Hs r [|n] Hr Hn; [lia|]. cbn [app parse_value]. rewrite Ascii.eqb_refl, <- app_assoc.
  cbn [app]. by rewrite scan_string_complete.
Qed.

Lemma empty_complete a (o c : ascii) (j : json) :
  spaces a → (o = "["%char ∧ c = "]"%char ∧ j = JArray (o :: a ++ [c]) [] ∨
              o = "{"%char ∧ c = "}"%char ∧ j = JObject (o :: a ++ [c]) []) →
  value_complete (o :: a ++ [c]) j.
Proof.
  intros Ha Ho r [|n] Hr Hn; [cbn in Hn; lia|].
  destruct Ho as [(-> & -> & ->)|(-> & -> & ->)]; cbn [app parse_value];
    rewrite <- app_assoc; cbn [app].
  - change (Ascii.eqb "[" dquote) with false.
    change ("[" =c "n") with false. change ("[" =c "t") with false. change ("[" =c "f") with false.
    change ("[" =c "[") with true. cbn iota. rewrite skip_space_app by done.
    change (skip_space ("]"%char :: r)) with ("]"%char :: r).
    change (strip_prefix (bs "]") ("]"%char :: r)) with (Some r). cbn iota.
    pose proof (taken_brackets "[" a ["]"%char] r) as E. cbn [app] in E. by rewrite E.
  - change (Ascii.eqb "{" dquote) with false.
    change ("{" =c "n") with false. change ("{" =c "t") with false. change ("{" =c "f") with false.
    change ("{" =c "[") with false. change ("{" =c "{") with true. cbn iota. rewrite skip_space_app by done.
    change (skip_space ("}"%char :: r)) with ("}"%char :: r).
    change (strip_prefix (bs "}") ("}"%char :: r)) with (Some r). cbn iota.
    pose proof (taken_brackets "{" a ["}"%char] r) as E. cbn [app] in E. by rewrite E.
Qed.

(** The value of an element, up to the byte that ends it. *)
Lemma element_complete a v b j c r n : spaces a → json_value v j → value_complete v j → spaces b →
  number_end (c :: r) → is_space c = false → 2 * length v + 1 ≤ n →
  ∃ r', parse_value n (skip_space (a ++ v ++ b ++ c :: r)) = Some (j, r') ∧ skip_space r' = c :: r.
Proof.
  intros Ha Hv IH Hb Hc Hs Hn. exists (b ++ c :: r). split.
  - rewrite skip_space_app by done. rewrite skip_space_stop by (by eapply value_no_space).
    apply IH; [by apply spaces_end|done].
  - rewrite skip_space_app by done. by rewrite skip_space_stop.
Qed.

(** The key of a member. *)
Lemma member_key a k b r : spaces a → string_lit k → spaces b →
  strip_prefix [dquote] (skip_space (a ++ dquote :: k ++ dquote :: b ++ ":"%char :: r)) =
    Some (k ++ dquote :: b ++ ":"%char :: r) ∧
  scan_string (k ++ dquote :: b ++ ":"%char :: r) = Some (k, b ++ ":"%char :: r) ∧
  strip_prefix (bs ":") (skip_space (b ++ ":"%char :: r)) = Some r.
Proof.
  intros Ha Hk Hb. rewrite !skip_space_app by done. split; [done|].
  split; [by apply scan_string_complete|done].
Qed.

Ltac lens H := repeat progress (rewrite ?length_app in H; cbn [length] in H).

Lemma member_one_complete a k b c v d j : spaces a → string_lit k → spaces b → spaces c →
  json_value v j → value_complete v j → spaces d →
  members_complete (a ++ dquote :: k ++ dquote :: b ++ ":"%char :: c ++ v ++ d) [(k, j)].
Proof.
  intros Ha Hk Hb Hc Hv IHv Hd r [|n] Hn; [lia|].
  lens Hn. cbn [parse_members].
  replace ((a ++ dquote :: k ++ dquote :: b ++ ":"%char :: c ++ v ++ d) ++ bs "}" ++ r)
    with (a ++ dquote :: k ++ dquote :: b ++ ":"%char :: (c ++ v ++ d ++ "}"%char :: r)) by app_eq.
  destruct (member_key a k b (c ++ v ++ d ++ "}"%char :: r) Ha Hk Hb) as (-> & E1 & E2).
  cbn [mbind option_bind]. rewrite E1. cbn [mbind option_bind]. rewrite E2. cbn [mbind option_bind].
  destruct (element_complete c v d j "}" r n Hc Hv IHv Hd) as (r' & E3 & E4); [done|done|lia|].
  rewrite E3. cbn [mbind option_bind]. by rewrite E4.
Qed.

Lemma member_more_complete a k b c v d j w l : spaces a → string_lit k → spaces b → spaces c →
  json_value v j → value_complete v j → spaces d → members_complete w l →
  members_complete (a ++ dquote :: k ++ dquote :: b ++ ":"%char :: c ++ v ++ d ++ ","%char :: w) ((k, j) :: l).
Proof.
  intros Ha Hk Hb Hc Hv IHv Hd IHw r [|n] Hn; [lia|].
  lens Hn. cbn [parse_members].
  set (rest := w ++ bs "}" ++ r).
  replace ((a ++ dquote :: k ++ dquote :: b ++ ":"%char :: c ++ v ++ d ++ ","%char :: w) ++ bs "}" ++ r)
    with (a ++ dquote :: k ++ dquote :: b ++ ":"%char :: (c ++ v ++ d ++ ","%char :: rest))
    by (unfold rest; app_eq).
  destruct (member_key a k b (c ++ v ++ d ++ ","%char :: rest) Ha Hk Hb) as (-> & E1 & E2).
  cbn [mbind option_bind]. rewrite E1. cbn [mbind option_bind]. rewrite E2. cbn [mbind option_bind].
  destruct (element_complete c v d j "," rest n Hc Hv IHv Hd) as (r' & E3 & E4); [done|done|lia|].
  rewrite E3. cbn [mbind option_bind]. rewrite E4. change ("," =c ",") with true. cbn iota.
  unfold rest. by rewrite IHw by lia.
Qed.

Lemma parse_complete :
  (∀ v j, json_value v j → value_complete v j) ∧
  (∀ w l, json_elems w l → elems_complete w l) ∧
  (∀ w l, json_members w l → members_complete w l).
Proof.
  apply (json_mutind value_complete elems_complete members_complete).
  - intros r [|n] _ Hn; [lia|done].
  - intros [] r [|n] _ Hn; cbn in Hn; (lia || done).
  - apply number_complete.
  - apply string_complete.
  - intros a Ha. apply empty_complete; auto.
  - apply array_complete.
  - intros a Ha. apply empty_complete; auto.
  - apply object_complete.
  - intros a v b j Ha Hv IH Hb r [|n] Hn; [lia|]. lens Hn. rewrite <- !app_assoc. cbn [parse_elems].
    destruct (element_complete a v b j "]" r n Ha Hv IH Hb) as (r' & E1 & E2); [done|done|lia|].
    cbn [app bs String.list_ascii_of_string]. rewrite E1. cbn [mbind option_bind]. by rewrite E2.
  - intros a v b j w l Ha Hv IHv Hb Hw IHw r [|n] Hn; [lia|].
    lens Hn. rewrite <- !app_assoc. cbn [parse_elems].
    destruct (element_complete a v b j "," (w ++ bs "]" ++ r) n Ha Hv IHv Hb) as (r' & E1 & E2);
      [done|done|lia|].
    rewrite <- app_comm_cons, E1. cbn [mbind option_bind]. rewrite E2.
    change ("," =c ",") with true. cbn iota. by rewrite IHw by lia.
  - intros. by apply member_one_complete.
  - intros. by apply member_more_complete.
Qed.

(** The parser accepts the texts of the grammar, with their values. *)
Lemma Parse_iff s j : Parse s = Some j ↔ json_text s j.
Proof.
  unfold Parse, json_text. split.
  - destruct (parse_value _ _) as [[j' r]|] eqn:E; [|done]. cbn [mbind option_bind].
    destruct (skip_space r) eqn:Er; [|done]. intros [= <-].
    apply (proj1 (parse_sound _)) in E as (v & Ev & Hv).
    destruct (skip_space_split s) as (a & Es & Ha & _). destruct (skip_space_split r) as (b & Eb & Hb & _).
    rewrite Er, app_nil_r in Eb. subst b. exists a, v, r. by rewrite Es, Ev at 1.
  - intros (a & v & b & -> & Ha & Hv & Hb). rewrite skip_space_app by done.
    rewrite skip_space_stop by (by eapply value_no_space).
    rewrite (proj1 parse_complete v j Hv); [cbn [mbind option_bind]; by rewrite skip_space_all| |].
    + destruct Hb as [|c b Hc _]; [done|]. revert Hc. by destruct c as [[] [] [] [] [] [] [] []].
    + rewrite !length_app. lia.
Qed.

(** A text has one value. *)
Lemma json_text_functional s j j' : json_text s j → json_text s j' → j = j'.
Proof. rewrite <- !Parse_iff. congruence. Qed.

(** The value keeps its text. *)
Lemma json_value_raw v j : json_value v j → raw_text j = v.
Proof. by destruct 1. Qed.
