(* ===== verification/JsonDecode.v ===== *)
(** * [json.Unmarshal] of [encoding/json] (Go 1.12), by reflection

    A Go type is a [gtype], a value of one a [gval]; decoding follows the
    type and changes the value it is given, as the reflective decoder does:
    a member of an object that is repeated is decoded into what the first
    left, and the elements of a slice into those the slice still holds. *)

From S2P Require Import Prelude GoStd GoFloat GoUtf8 Json.

(* ------------------------------------------------------------------ *)
(** ** String literals *)

Definition hex_value (c : ascii) : Z :=
  if is_digit c then digit_value c
  else if in_range 97 102 c then (code c - 87)%Z else (code c - 55)%Z.

(** [getu4]: the character of [\uXXXX]. *)
Definition getu4 (s : bytes) : option (Z * bytes) :=
  match s with
  | b :: u :: h1 :: h2 :: h3 :: h4 :: t =>
      if Ascii.eqb b backslash && (u =c "u") && forallb is_hex [h1; h2; h3; h4] then
        Some (hex_value h1 * 4096 + hex_value h2 * 256 + hex_value h3 * 16 + hex_value h4, t)%Z
      else None
  | _ => None
  end.

Definition simple_escape (e : ascii) : option Z :=
  if e =c "b" then Some 8%Z else if e =c "f" then Some 12%Z else if e =c "n" then Some 10%Z
  else if e =c "r" then Some 13%Z else if e =c "t" then Some 9%Z
  else if (e =c "/") || Ascii.eqb e backslash || Ascii.eqb e dquote then Some (code e) else None.

(** [unquote]: the characters of a literal. Bytes that are no UTF-8, and
    surrogates without their other half, are replaced by [RuneError]. *)
Fixpoint unquote_loop (fuel : nat) (s : bytes) : option (list Z) :=
  match fuel with
  | O => match s with [] => Some [] | _ => None end
  | S n =>
      match s with
      | [] => Some []
      | c :: t =>
          if Ascii.eqb c backslash then
            match getu4 s with
            | Some (rr, u) =>
                if is_surrogate rr then
                  match getu4 u with
                  | Some (rr1, w) =>
                      if (utf16_DecodeRune rr rr1 =? RuneError)%Z
                      then rs ← unquote_loop n u; Some (RuneError :: rs)
                      else rs ← unquote_loop n w; Some (utf16_DecodeRune rr rr1 :: rs)
                  | None => rs ← unquote_loop n u; Some (RuneError :: rs)
                  end
                else rs ← unquote_loop n u; Some (rr :: rs)
            | None =>
                match t with
                | e :: u => r ← simple_escape e; rs ← unquote_loop n u; Some (r :: rs)
                | [] => None
                end
            end
          else if Ascii.eqb c dquote || is_control c then None
          else rs ← unquote_loop n (drop (DecodeRune s).2 s); Some ((DecodeRune s).1 :: rs)
      end
  end.
Definition unquote (lit : bytes) : option bytes := EncodeRunes <$> unquote_loop (length lit) lit.

(* ------------------------------------------------------------------ *)
(** ** Types and values *)

(** The types of the values decoded; [TUnmarshaler] is a type with a method
    [UnmarshalJSON]. *)
Inductive width := W32 | W64.
Inductive gtype :=
| TString | TBool | TFloat64
| TInt (w : width) | TUint (w : width)
| TStringMap
| TPtr (t : gtype)
| TSlice (t : gtype)
| TStruct (fields : list (bytes * gtype))
| TUnmarshaler.

(** A slice is nil or not; behind its elements, up to its capacity, stand
    the [stale] ones a shorter array has left. *)
Inductive gval :=
| GString (s : bytes) | GBool (b : bool) | GFloat (f : float64) | GInt (z : Z)
| GMap (m : option (gmap bytes bytes))
| GPtr (p : option gval)
| GSlice (is_nil : bool) (elems stale : list gval)
| GStruct (fields : list gval)
| GOpaque.

(** The zero value of a type. *)
Fixpoint zero (t : gtype) : gval :=
  match t with
  | TString => GString []
  | TBool => GBool false
  | TFloat64 => GFloat (S754_zero false)
  | TInt _ | TUint _ => GInt 0
  | TStringMap => GMap None
  | TPtr _ => GPtr None
  | TSlice _ => GSlice true [] []
  | TStruct fields => GStruct (map (λ f, zero f.2) fields)
  | TUnmarshaler => GOpaque
  end.

Definition bits (w : width) : Z := match w with W32 => 32 | W64 => 64 end.
Definition in_int (w : width) (n : Z) : bool := (- 2 ^ (bits w - 1) <=? n)%Z && (n <? 2 ^ (bits w - 1))%Z.
Definition in_uint (w : width) (n : Z) : bool := (0 <=? n)%Z && (n <? 2 ^ bits w)%Z.

(* ------------------------------------------------------------------ *)
(** ** Field names *)

Definition upper (b : Z) : Z := (if (97 <=? b) && (b <=? 122) then b - 32 else b)%Z.

(** [equalFold]: a name of the source, in ASCII, against a key of the text,
    up to case; the long s and the Kelvin sign fold to [s] and [k]. *)
Fixpoint equalFold (name key : bytes) : bool :=
  match name, key with
  | [], [] => true
  | c :: name', d :: key' =>
      if (code d <? 128)%Z then (upper (code c) =? upper (code d))%Z && equalFold name' key'
      else
        let folded := if (upper (code c) =? 83)%Z then 383%Z
                      else if (upper (code c) =? 75)%Z then 8490%Z else (-1)%Z in
        match strip_prefix (EncodeRune folded) key with
        | Some key' => (0 <? folded)%Z && equalFold name' key'
        | None => false
        end
  | _, _ => false
  end.

(** The first index of a field that satisfies a test. *)
Fixpoint find_index {A} (f : A → bool) (l : list A) : option nat :=
  match l with
  | [] => None
  | x :: l' => if f x then Some O else S <$> find_index f l'
  end.

(** The field a key names: the one of that name, or the first of that name
    up to case. *)
Definition find_field (fields : list (bytes * gtype)) (key : bytes) : option nat :=
  match find_index (λ f, bytes_equal f.1 key) fields with
  | Some i => Some i
  | None => find_index (λ f, equalFold f.1 key) fields
  end.

(* ------------------------------------------------------------------ *)
(** ** Decoding *)

(** [d.savedError], the first type error, is the state of the decoder: it
    goes on behind one. The error of an [UnmarshalJSON] ends it. *)
Definition dec (A : Type) : Type := option error → outcome (A * option error).
#[export] Instance dec_ret : MRet dec := λ A a saved, Ret (a, saved).
#[export] Instance dec_bind : MBind dec := λ A B f m saved,
  match m saved with Ret (a, saved) => f a saved | Fail e => Fail e | Panic => Panic end.

(** An [UnmarshalTypeError], without the names of the type and the field. *)
Definition type_error (what : bytes) : error := Errorf "json: cannot unmarshal %s into Go value" [what].
Definition save_error {A} (what : bytes) (a : A) : dec A := λ saved,
  Ret (a, match saved with Some e => Some e | None => Some (type_error what) end).

Definition decode_null (t : gtype) (v : gval) : gval :=
  match t with
  | TPtr _ => GPtr None
  | TSlice _ => GSlice true [] []
  | TStringMap => GMap None
  | _ => v
  end.

Definition decode_bool (b : bool) (t : gtype) (v : gval) : dec gval :=
  match t with TBool => mret (GBool b) | _ => save_error (bs "bool") v end.

(** The decoder panics when the scanner has let a bad literal pass. *)
Definition decode_key (lit : bytes) : dec bytes := λ saved,
  match unquote lit with Some s => Ret (s, saved) | None => Panic end.

Definition decode_string (lit : bytes) (t : gtype) (v : gval) : dec gval :=
  s ← decode_key lit;
  match t with TString => mret (GString s) | _ => save_error (bs "string") v end.

Definition decode_number (lit : bytes) (t : gtype) (v : gval) : dec gval :=
  let bad := save_error (bs "number " ++ lit) v in
  match t with
  | TInt w => match parse_int lit with
                 | Ret n => if in_int w n then mret (GInt n) else bad
                 | _ => bad
                 end
  | TUint w => match parse_uint lit with
                  | Ret n => if in_uint w n then mret (GInt n) else bad
                  | _ => bad
                  end
  | TFloat64 => match parse_float lit with Ret f => mret (GFloat f) | _ => bad end
  | _ => save_error (bs "number") v
  end.

Section Decode.
(** The methods [UnmarshalJSON], of the text of the value. *)
Context (UnmarshalJSON : bytes → outcome ()).

Definition decode_unmarshaler (text : bytes) : dec gval := λ saved,
  match UnmarshalJSON text with Ret _ => Ret (GOpaque, saved) | Fail e => Fail e | Panic => Panic end.

(** [d.value]. *)
Fixpoint decode (j : json) : gtype → gval → dec gval :=
  fix into (t : gtype) (v : gval) : dec gval :=
    match t with
    | TUnmarshaler => decode_unmarshaler (raw_text j)
    | TPtr t' =>
        match j with
        | JNull => mret (GPtr None)
        | _ => w ← into t' (match v with GPtr (Some w) => w | _ => zero t' end);
               mret (GPtr (Some w))
        end
    | _ =>
        match j with
        | JNull => mret (decode_null t v)
        | JBool b => decode_bool b t v
        | JNumber lit => decode_number lit t v
        | JString lit => decode_string lit t v
        | JArray _ l =>
            match t with
            | TSlice t' =>
                let held := match v with GSlice _ elems stale => elems ++ stale | _ => [] end in
                vs ← (fix elements (l : list json) (held : list gval) : dec (list gval * list gval) :=
                        match l with
                        | [] => mret ([], held)
                        | j :: l' =>
                            x ← decode j t' (default (zero t') (head held));
                            r ← elements l' (tail held);
                            mret (x :: r.1, r.2)
                        end) l held;
                mret (match l with [] => GSlice false [] [] | _ => GSlice false vs.1 vs.2 end)
            | _ => save_error (bs "array") v
            end
        | JObject _ l =>
            match t with
            | TStruct fields =>
                vs ← (fix members (l : list (bytes * json)) (vs : list gval) : dec (list gval) :=
                        match l with
                        | [] => mret vs
                        | (k, j) :: l' =>
                            key ← decode_key k;
                            match find_field fields key with
                            | None => members l' vs
                            | Some i =>
                                x ← decode j (default TUnmarshaler (snd <$> fields !! i))
                                             (default GOpaque (vs !! i));
                                members l' (<[i := x]> vs)
                            end
                        end) l (match v with GStruct vs => vs | _ => [] end);
                mret (GStruct vs)
            | TStringMap =>
                m ← (fix entries (l : list (bytes * json)) (m : gmap bytes bytes) : dec (gmap bytes bytes) :=
                       match l with
                       | [] => mret m
                       | (k, j) :: l' =>
                           key ← decode_key k;
                           x ← decode j TString (GString []);
                           entries l' (<[key := match x with GString s => s | _ => [] end]> m)
                       end) l (match v with GMap (Some m) => m | _ => ∅ end);
                mret (GMap (Some m))
            | _ => save_error (bs "object") v
            end
        end
    end.

(** [json.Unmarshal] into a new value of a type. *)
Definition Unmarshal (t : gtype) (text : bytes) : outcome gval :=
  match Parse text with
  | None => Fail (Errorf "invalid JSON" [])
  | Some j =>
      match decode j t (zero t) None with
      | Ret (v, None) => Ret v
      | Ret (_, Some e) => Fail e
      | Fail e => Fail e
      | Panic => Panic
      end
  end.
End Decode.

(* ------------------------------------------------------------------ *)
(** ** Reading a value *)

Definition field (t : gtype) (v : gval) (name : String.string) : gval :=
  match t, v with
  | TStruct fields, GStruct vs =>
      default GOpaque (i ← find_index (λ f, bytes_equal f.1 (bs name)) fields; vs !! i)
  | _, _ => GOpaque
  end.
Definition to_string (v : gval) : bytes := match v with GString s => s | _ => [] end.
Definition to_bool (v : gval) : bool := match v with GBool b => b | _ => false end.
Definition to_int (v : gval) : Z := match v with GInt z => z | _ => 0%Z end.
Definition to_float (v : gval) : float64 := match v with GFloat f => f | _ => S754_zero false end.
Definition to_map (v : gval) : option (gmap bytes bytes) := match v with GMap m => m | _ => None end.
Definition to_list {A} (f : gval → A) (v : gval) : list A :=
  match v with GSlice _ elems _ => map f elems | _ => [] end.
Definition to_ptr {A} (f : gval → A) (v : gval) : option A :=
  match v with GPtr (Some w) => Some (f w) | _ => None end.

(* ------------------------------------------------------------------ *)
(** ** Examples *)

Example unquote_pairs : unquote (bs "a\n\u00e9\ud83d\ude00\ud800x") =
  Some (bs "a" ++ ["010"%char] ++ EncodeRune 233 ++ EncodeRune 128512 ++ EncodeRune RuneError ++ bs "x").
Proof. by vm_compute. Qed.

Example decode_example :
  let t := TStruct [(bs "name", TString); (bs "tags", TSlice (TPtr (TStruct [(bs "v", TInt W64)])));
                    (bs "labels", TStringMap)] in
  Unmarshal (λ _, Ret ()) t (js "{'NAME':'x','tags':[{'v':7},null],'other':1,'labels':{'a':'b'}}") =
  Ret (GStruct [GString (bs "x"); GSlice false [GPtr (Some (GStruct [GInt 7])); GPtr None] [];
                GMap (Some {[bs "a" := bs "b"]})]).
Proof. by vm_compute. Qed.

(** A repeated member keeps what the first one left. *)
Example decode_repeated :
  let t := TStruct [(bs "p", TSlice (TStruct [(bs "a", TInt W64); (bs "b", TInt W64)]))] in
  Unmarshal (λ _, Ret ()) t (js "{'p':[{'a':1},{'a':2}],'p':[{'b':3}],'p':[{},{'b':4}]}") =
  Ret (GStruct [GSlice false [GStruct [GInt 1; GInt 3]; GStruct [GInt 2; GInt 4]] []]).
Proof. by vm_compute. Qed.

(** The scanner rejects what is no JSON; a value of another type is an error. *)
Example decode_errors :
  let t := TStruct [(bs "a", TInt W32); (bs "b", TString)] in
  map (λ s, Unmarshal (λ _, Ret ()) t (js s))
    ["{'a':1"; "{'a':1.5}"; "{'a':2147483648}"; "{'b':1,'a':null}"; "[]"]%string =
  [Fail (Errorf "invalid JSON" []); Fail (type_error (bs "number 1.5"));
   Fail (type_error (bs "number 2147483648")); Fail (type_error (bs "number"));
   Fail (type_error (bs "array"))].
Proof. by vm_compute. Qed.
