(* ===== verification/JsonIter.v ===== *)
(** * [json-iterator]: reading and writing [map[string][]string]

    The methods [MarshalJSON] and [UnmarshalJSON] of [HookList] call
    [jsoniter.Marshal] and [jsoniter.Unmarshal] on this type. An [Iterator]
    reads its buffer by position and keeps its first error; a [Stream] is
    the bytes written so far. *)

From S2P Require Import Prelude GoStd GoUtf8.

Module Jsoniter.

(* ------------------------------------------------------------------ *)
(** ** The iterator *)

(** [Iterator.Error]: [io.EOF], which a later error replaces, or another. *)
Inductive ierror := io_EOF | reported (e : error).

(** An iterator over bytes; [tail] is the length of the buffer, and there
    is no reader to load more from. *)
Record Iterator := MkIterator { buf : bytes; head : nat; Error : option ierror }.
Definition ParseBytes (input : bytes) : Iterator := MkIterator input 0 None.

Definition set_head (it : Iterator) (h : nat) : Iterator := MkIterator (buf it) h (Error it).
Definition set_error (it : Iterator) (e : ierror) : Iterator := MkIterator (buf it) (head it) (Some e).

(** A computation on the iterator; an access out of the buffer panics. *)
Definition iter (A : Type) : Type := Iterator → outcome (A * Iterator).
#[export] Instance iter_ret : MRet iter := λ A a it, Ret (a, it).
#[export] Instance iter_bind : MBind iter := λ A B f m it,
  match m it with Ret (a, it) => f a it | Fail e => Fail e | Panic => Panic end.

Definition no_error : iter bool := λ it,
  Ret (match Error it with None => true | Some _ => false end, it).

(** [loadMore], of an iterator without a reader. *)
Definition loadMore (it : Iterator) : Iterator :=
  match Error it with
  | None => MkIterator (buf it) (length (buf it)) (Some io_EOF)
  | Some _ => it
  end.

(** The zero byte stands for the end of the input. *)
Definition nul : ascii := "000"%char.

Definition is_white (c : ascii) : bool :=
  (c =c " ") || (c =c "010") || (c =c "009") || (c =c "013").

(** The next byte that is not blank, and the position behind it. *)
Fixpoint next_from (s : bytes) (i : nat) : option (ascii * nat) :=
  match s with
  | [] => None
  | c :: s' => if is_white c then next_from s' (S i) else Some (c, S i)
  end.
Definition nextToken : iter ascii := λ it,
  match next_from (drop (head it) (buf it)) (head it) with
  | Some (c, h) => Ret (c, set_head it h)
  | None => Ret (nul, loadMore it)
  end.

Definition readByte : iter ascii := λ it,
  if (head it =? length (buf it))%nat then Ret (nul, loadMore it)
  else match buf it !! head it with
       | Some c => Ret (c, set_head it (S (head it)))
       | None => Panic
       end.

(** A byte was read before, so that [head] is not 0. *)
Definition unreadByte : iter () := λ it,
  Ret ((), match Error it with Some _ => it | None => set_head it (head it - 1) end).

(** [buf[i:j]], which panics when [j < i]; [j] is at most [tail]. *)
Definition context (it : Iterator) (n : nat) : outcome bytes :=
  let i := head it - n in
  let j := Nat.min (head it + n) (length (buf it)) in
  if (i <=? j)%nat then Ret (slice (buf it) i j) else Panic.

Definition ReportError (operation : string) (msg : bytes) : iter () := λ it,
  match Error it with
  | Some (reported _) => Ret ((), it)
  | _ =>
      parsing ← context it 10;
      around ← context it 50;
      Ret ((), set_error it (reported (Errorf
        "%s: %s, error found in #%v byte of ...|%s|..., bigger context ...|%s|..."
        [bs operation; msg; format_int (Z.of_nat (head it - (head it - 10))); parsing; around])))
  end.

(** [skipThreeBytes], behind an [n]. *)
Definition skipThreeBytes (b1 b2 b3 : ascii) : iter () :=
  let bad := ReportError "skipThreeBytes" (bs "expect " ++ [b1; b2; b3]) in
  c1 ← readByte;
  if negb (Ascii.eqb c1 b1) then bad else
  c2 ← readByte;
  if negb (Ascii.eqb c2 b2) then bad else
  c3 ← readByte;
  if negb (Ascii.eqb c3 b3) then bad else mret ().

(* ------------------------------------------------------------------ *)
(** ** Strings *)

(** [appendRune]. *)
Definition appendRune (p : bytes) (r : Z) : bytes :=
  let i := (r mod 2 ^ 32)%Z in
  let tail b := chr (Z.lor 128 (Z.land b 63)) in
  let three r := p ++ [chr (Z.lor 224 (Z.shiftr r 12)); tail (Z.shiftr r 6); tail r] in
  if (i <=? 127)%Z then p ++ [chr r]
  else if (i <=? 2047)%Z then p ++ [chr (Z.lor 192 (Z.shiftr r 6)); tail r]
  else if (MaxRune <? i)%Z || ((55296 <=? i)%Z && (i <=? 57343)%Z) then three RuneError
  else if (i <=? 65535)%Z then three r
  else p ++ [chr (Z.lor 240 (Z.shiftr r 18)); tail (Z.shiftr r 12); tail (Z.shiftr r 6); tail r].

(** The loop of [readU4]; [ret] fits, as four digits are read. *)
Fixpoint readU4_loop (i : nat) (ret : Z) : iter Z :=
  match i with
  | O => mret ret
  | S i' =>
      c ← readByte;
      ok ← no_error;
      if negb ok then mret ret
      else if in_range 48 57 c then readU4_loop i' (ret * 16 + (code c - 48))%Z
      else if in_range 97 102 c then readU4_loop i' (ret * 16 + (code c - 97 + 10))%Z
      else if in_range 65 70 c then readU4_loop i' (ret * 16 + (code c - 65 + 10))%Z
      else _ ← ReportError "readU4" (bs "expects 0~9 or a~f, but found " ++ [c]); mret ret
  end.
Definition readU4 : iter Z := readU4_loop 4 0.

(** [readEscapedChar], of a character other than [u]. *)
Definition read_simple_escape (c : ascii) (str : bytes) : iter bytes :=
  if Ascii.eqb c dquote then mret (str ++ [dquote])
  else if Ascii.eqb c backslash then mret (str ++ [backslash])
  else if c =c "/" then mret (str ++ ["/"%char])
  else if c =c "b" then mret (str ++ ["008"%char])
  else if c =c "f" then mret (str ++ ["012"%char])
  else if c =c "n" then mret (str ++ ["010"%char])
  else if c =c "r" then mret (str ++ ["013"%char])
  else if c =c "t" then mret (str ++ ["009"%char])
  else _ ← ReportError "readEscapedChar" (bs "invalid escape char after " ++ [backslash]); mret [].

(** [readEscapedChar]: behind [\u] of a surrogate, the escape of another
    character is read by the same function. *)
Definition readEscapedChar (c : ascii) (str : bytes) : iter bytes :=
  if c <>c "u" then read_simple_escape c str
  else
    r ← readU4;
    if negb (is_surrogate r) then mret (appendRune str r)
    else
      c ← readByte;
      ok ← no_error;
      if negb ok then mret []
      else if negb (Ascii.eqb c backslash) then _ ← unreadByte; mret (appendRune str r)
      else
        c ← readByte;
        ok ← no_error;
        if negb ok then mret []
        else if c <>c "u" then read_simple_escape c (appendRune str r)
        else
          r2 ← readU4;
          ok ← no_error;
          if negb ok then mret []
          else
            let combined := utf16_DecodeRune r r2 in
            if (combined =? RuneError)%Z then mret (appendRune (appendRune str r) r2)
            else mret (appendRune str combined).

(** [readStringSlowPath]: every turn reads a byte or sets the error. *)
Fixpoint slow_path_loop (fuel : nat) (str : bytes) : iter bytes :=
  match fuel with
  | O => λ _, Panic
  | S f =>
      ok ← no_error;
      if negb ok then
        _ ← ReportError "readStringSlowPath" (bs "unexpected end of input"); mret []
      else
        c ← readByte;
        if Ascii.eqb c dquote then mret str
        else if Ascii.eqb c backslash then
          c ← readByte; str ← readEscapedChar c str; slow_path_loop f str
        else slow_path_loop f (str ++ [c])
  end.
Definition readStringSlowPath : iter bytes := λ it,
  slow_path_loop (length (buf it) - head it + 2) [] it.

(** The bytes of a string up to its quote, when no escape and no control
    character comes before. *)
Inductive scanned := closed (n : nat) | control (c : ascii) | slow.
Fixpoint fast_path (s : bytes) (n : nat) : scanned :=
  match s with
  | [] => slow
  | c :: s' =>
      if Ascii.eqb c dquote then closed n
      else if Ascii.eqb c backslash then slow
      else if (code c <? 32)%Z then control c
      else fast_path s' (S n)
  end.

(** A string behind its quote. *)
Definition read_string_body : iter bytes := λ it,
  let rest := drop (head it) (buf it) in
  match fast_path rest 0 with
  | closed n => Ret (take n rest, set_head it (head it + n + 1))
  | control c =>
      (_ ← ReportError "ReadString" (bs "invalid control character found: " ++ format_int (code c));
       mret []) it
  | slow => readStringSlowPath it
  end.

Definition ReadString : iter bytes :=
  c ← nextToken;
  if Ascii.eqb c dquote then read_string_body
  else if c =c "n" then _ ← skipThreeBytes "u"%char "l"%char "l"%char; mret []
  else
    _ ← ReportError "ReadString" (bs "expects " ++ dquote :: bs " or n, but found " ++ [c]); mret [].

(* ------------------------------------------------------------------ *)
(** ** Slices and maps *)

(** The elements of a slice behind the first, and the byte that ends them. *)
Fixpoint slice_loop_fuel (fuel : nat) (c : ascii) (elems : list bytes) : iter (list bytes * ascii) :=
  match fuel with
  | O => λ _, Panic
  | S f =>
      if c =c "," then
        s ← ReadString; c ← nextToken; slice_loop_fuel f c (elems ++ [s])
      else mret (elems, c)
  end.

Definition slice_loop (c : ascii) (elems : list bytes) : iter (list bytes * ascii) := λ it,
  slice_loop_fuel (length (buf it) + 2) c elems it.

(** [sliceDecoder.doDecode] for [[]string]; a nil slice is [None]. *)
Definition slice_doDecode : iter (option (list bytes)) :=
  c ← nextToken;
  if c =c "n" then _ ← skipThreeBytes "u"%char "l"%char "l"%char; mret None
  else if c <>c "[" then
    _ ← ReportError "decode slice" (bs "expect [ or n, but found " ++ [c]); mret None
  else
    c ← nextToken;
    if c =c "]" then mret (Some [])
    else
      _ ← unreadByte;
      s ← ReadString;
      c ← nextToken;
      r ← slice_loop c [s];
      if r.2 <>c "]" then
        _ ← ReportError "decode slice" (bs "expect ], but found " ++ [r.2]); mret (Some r.1)
      else mret (Some r.1).

(** [sliceDecoder.Decode]: an error is prefixed with the type. *)
Definition type_prefix : iter () := λ it,
  Ret ((), match Error it with
           | Some (reported e) => set_error it (reported (Wrapf "%v: %s" [bs "[]string"] e))
           | _ => it
           end).
Definition slice_Decode : iter (option (list bytes)) :=
  v ← slice_doDecode; _ ← type_prefix; mret v.

Abbreviation string_map := (gmap bytes (option (list bytes))).

(** A member behind its brace or comma; [None] when there is no colon. *)
Definition map_member (m : string_map) : iter (option string_map) :=
  key ← ReadString;
  c ← nextToken;
  if c <>c ":" then
    _ ← ReportError "ReadMapCB" (bs "expect : after object field, but found " ++ [c]); mret None
  else elem ← slice_Decode; mret (Some (<[key := elem]> m)).

Fixpoint map_loop_fuel (fuel : nat) (m : string_map) : iter string_map :=
  match fuel with
  | O => λ _, Panic
  | S f =>
      c ← nextToken;
      if c =c "," then
        r ← map_member m;
        match r with Some m => map_loop_fuel f m | None => mret m end
      else if c <>c "}" then
        _ ← ReportError "ReadMapCB" (bs "expect }, but found " ++ [c]); mret m
      else mret m
  end.

Definition map_loop (m : string_map) : iter string_map := λ it,
  map_loop_fuel (length (buf it) + 2) m it.

(** [mapDecoder.Decode] into a map that is not nil; null makes it nil,
    which is an empty map to its readers. *)
Definition map_Decode (m : string_map) : iter string_map :=
  c ← nextToken;
  if c =c "n" then _ ← skipThreeBytes "u"%char "l"%char "l"%char; mret ∅
  else if c <>c "{" then
    _ ← ReportError "ReadMapCB" (bs "expect { or n, but found " ++ [c]); mret m
  else
    c ← nextToken;
    if c =c "}" then mret m
    else if negb (Ascii.eqb c dquote) then
      _ ← ReportError "ReadMapCB" (bs "expect " ++ dquote :: bs " after }, but found " ++ [c]); mret m
    else
      _ ← unreadByte;
      r ← map_member m;
      match r with
      | Some m => map_loop m
      | None => mret m
      end.

(** [frozenConfig.Unmarshal] into an empty map. *)
Definition read_all : iter string_map :=
  m ← map_Decode ∅;
  c ← nextToken;
  if Ascii.eqb c nul then mret m
  else _ ← ReportError "Unmarshal" (bs "there are bytes left after unmarshal"); mret m.
Definition Unmarshal (data : bytes) : outcome string_map :=
  r ← read_all (ParseBytes data);
  match Error r.2 with
  | Some (reported e) => Fail e
  | _ => Ret r.1
  end.

(* ------------------------------------------------------------------ *)
(** ** The stream *)

(** [htmlSafeSet], of a byte below 128. *)
Definition htmlSafe (c : ascii) : bool :=
  (32 <=? code c)%Z && negb (Ascii.eqb c dquote) && negb (Ascii.eqb c backslash)
  && (c <>c "&") && (c <>c "<") && (c <>c ">").

Definition hex (n : Z) : ascii := default nul (bs "0123456789abcdef" !! Z.to_nat n).

(** The text of an unsafe byte below 128. *)
Definition escaped_byte (b : ascii) : bytes :=
  if Ascii.eqb b backslash || Ascii.eqb b dquote then [backslash; b]
  else if b =c "010" then backslash :: bs "n"
  else if b =c "013" then backslash :: bs "r"
  else if b =c "009" then backslash :: bs "t"
  else backslash :: bs "u00" ++ [hex (Z.shiftr (code b) 4); hex (Z.land (code b) 15)].

(** [writeStringSlowPathWithHTMLEscaped]: the bytes from [start] to [i] wait
    to be written; every turn moves [i]. *)
Fixpoint html_slow_loop (fuel : nat) (s : bytes) (start i : nat) (out : bytes) : bytes :=
  match fuel with
  | O => out
  | S f =>
      let flushed := if (start <? i)%nat then out ++ slice s start i else out in
      match drop i s with
      | [] => (if (start <? length s)%nat then out ++ drop start s else out) ++ [dquote]
      | b :: _ =>
          if (code b <? 128)%Z then
            if htmlSafe b then html_slow_loop f s start (S i) out
            else html_slow_loop f s (S i) (S i) (flushed ++ escaped_byte b)
          else
            let '(c, size) := DecodeRune (drop i s) in
            if (c =? RuneError)%Z && (size =? 1)%nat then
              html_slow_loop f s (S i) (S i) (flushed ++ backslash :: bs "ufffd")
            else if (c =? 8232)%Z || (c =? 8233)%Z then
              html_slow_loop f s (i + size) (i + size)
                (flushed ++ backslash :: bs "u202" ++ [hex (Z.land c 15)])
            else html_slow_loop f s start (i + size) out
      end
  end.

(** The first byte of the slow path. *)
Fixpoint html_fast (s : bytes) : nat :=
  match s with
  | c :: s' => if (code c <? 128)%Z && htmlSafe c then S (html_fast s') else 0
  | [] => 0
  end.

Definition WriteStringWithHTMLEscaped (out s : bytes) : bytes :=
  let i := html_fast s in
  let out := (out ++ [dquote]) ++ take i s in
  if (i =? length s)%nat then out ++ [dquote] else html_slow_loop (S (length s)) s i i out.

(** [sliceEncoder.Encode] for [[]string]. *)
Fixpoint slice_encode_loop (out : bytes) (l : list bytes) : bytes :=
  match l with
  | [] => out
  | s :: l' => slice_encode_loop (WriteStringWithHTMLEscaped (out ++ bs ",") s) l'
  end.
Definition slice_Encode (out : bytes) (v : option (list bytes)) : bytes :=
  match v with
  | None => out ++ bs "null"
  | Some [] => out ++ bs "[]"
  | Some (s :: l) => slice_encode_loop (WriteStringWithHTMLEscaped (out ++ bs "[") s) l ++ bs "]"
  end.

(** [mapEncoder.Encode]: the members in the order of the iteration. *)
Fixpoint map_encode_loop (i : nat) (out : bytes) (l : list (bytes * option (list bytes))) : bytes :=
  match l with
  | [] => out
  | (key, elem) :: l' =>
      let out := if (i =? 0)%nat then out else out ++ bs "," in
      map_encode_loop (S i) (slice_Encode (WriteStringWithHTMLEscaped out key ++ bs ":") elem) l'
  end.
Definition map_Encode (out : bytes) (l : list (bytes * option (list bytes))) : bytes :=
  map_encode_loop 0 (out ++ bs "{") l ++ bs "}".

End Jsoniter.
