(* ===== verification/JsonIterFacts.v ===== *)
(** * The iterator of [json-iterator] on any bytes

    A weakest precondition for computations on the iterator, in total
    correctness: a computation returns, without a panic and within its
    fuel. On any input the readers only move forward, and never lose an
    error. *)

From S2P Require Import Prelude GoStd GoUtf8 JsonIter Json JsonFacts JsonDecode.

Import Jsoniter.

(* ------------------------------------------------------------------ *)
(** ** Weakest preconditions *)

Definition wp {A} (m : iter A) (Q : A → Iterator → Prop) (it : Iterator) : Prop :=
  ∃ a it', m it = Ret (a, it') ∧ Q a it'.

Lemma wp_ret {A} (a : A) (Q : A → Iterator → Prop) it : Q a it → wp (mret a) Q it.
Proof. intros H. by exists a, it. Qed.

Lemma wp_bind {A B} (m : iter A) (f : A → iter B) Q it :
  wp m (λ a, wp (f a) Q) it → wp (m ≫= f) Q it.
Proof.
  intros (a & it1 & E & b & it2 & E2 & H). exists b, it2. split; [|done].
  unfold mbind, iter_bind. by rewrite E.
Qed.

Lemma wp_mono {A} (m : iter A) (Q R : A → Iterator → Prop) it :
  (∀ a it, Q a it → R a it) → wp m Q it → wp m R it.
Proof. intros HQR (a & it1 & E & H). exists a, it1. auto. Qed.

(* ------------------------------------------------------------------ *)
(** ** What every reader preserves *)

Definition failed (it : Iterator) : Prop := ∃ e, Error it = Some (reported e).

(** A state reached from [it0]: the position is in the buffer and has not
    moved back, and an error is still there. *)
Definition reached (it0 it : Iterator) : Prop :=
  head it ≤ length (buf it) ∧ buf it = buf it0 ∧ head it0 ≤ head it ∧ (failed it0 → failed it) ∧
  (Error it0 ≠ None → Error it ≠ None).
(** One of which a byte can be unread. *)
Definition moved (it0 it : Iterator) : Prop :=
  reached it0 it ∧ (Error it = None → head it0 < head it).

Lemma moved_reached it0 it : moved it0 it → reached it0 it.
Proof. by intros []. Qed.

Lemma reached_refl it : head it ≤ length (buf it) → reached it it.
Proof. by repeat split. Qed.

Lemma reached_trans it0 it1 it2 : reached it0 it1 → reached it1 it2 → reached it0 it2.
Proof.
  intros (? & E1 & ? & ? & ?) (? & E2 & ? & ? & ?). repeat split; try done; try congruence; eauto; lia.
Qed.

Lemma reached_length it0 it : reached it0 it → length (buf it) = length (buf it0).
Proof. by intros (_ & -> & _). Qed.

Definition good {A} (m : iter A) : Prop := ∀ it0 it, reached it0 it → wp m (λ _, reached it0) it.

Lemma good_ret {A} (a : A) : good (mret a).
Proof. intros it0 it H. by apply wp_ret. Qed.

Lemma good_bind {A B} (m : iter A) (f : A → iter B) : good m → (∀ a, good (f a)) → good (m ≫= f).
Proof. intros Hm Hf it0 it H. apply wp_bind. eapply wp_mono; [|by apply Hm]. intros a it1. apply Hf. Qed.

Lemma good_if {A} (b : bool) (m n : iter A) : good m → good n → good (if b then m else n).
Proof. by destruct b. Qed.

(** A branch taken after a byte was read may unread it. *)
Definition good_moved {A} (m : iter A) : Prop := ∀ it0 it, moved it0 it → wp m (λ _, reached it0) it.

Lemma good_good_moved {A} (m : iter A) : good m → good_moved m.
Proof. intros H it0 it [? _]. by apply H. Qed.

Lemma good_moved_if {A} (b : bool) (m n : iter A) : good_moved m → good_moved n → good_moved (if b then m else n).
Proof. by destruct b. Qed.

(* ------------------------------------------------------------------ *)
(** ** The primitives *)

Lemma next_from_Some s : ∀ i c h, next_from s i = Some (c, h) →
  i < h ∧ h ≤ i + length s ∧ s !! (h - 1 - i) = Some c.
Proof.
  induction s as [|d s IH]; intros i c h; [done|]. cbn [next_from]. destruct (is_white d).
  - intros (? & ? & E)%IH. cbn [length]. repeat split; [lia|lia|].
    replace (h - 1 - i) with (S (h - 1 - S i)) by lia. done.
  - intros [= <- <-]. cbn [length]. repeat split; [lia|lia|]. by replace (S i - 1 - i) with 0 by lia.
Qed.

Lemma reached_loadMore it0 it : reached it0 it → reached it0 (loadMore it).
Proof.
  intros (? & ? & ? & Hf & He). unfold loadMore. destruct (Error it) eqn:E; [by repeat split; rewrite ?E|].
  repeat split; cbn; try done; [lia|]. intros [e Ef]%Hf. congruence.
Qed.

Lemma loadMore_error it : Error (loadMore it) ≠ None.
Proof. unfold loadMore. destruct (Error it) eqn:E; [congruence|done]. Qed.

Lemma set_head_reached it0 it h : reached it0 it → head it ≤ h → h ≤ length (buf it) →
  reached it0 (set_head it h).
Proof. intros (? & ? & ? & ? & ?). repeat split; cbn; try done; lia. Qed.

(** The next byte: it was read, or the input has ended. *)
Lemma nextToken_wp it0 it : reached it0 it →
  wp nextToken (λ c it', moved it0 it' ∧ (head it < head it' ∨ c = nul ∧ Error it' ≠ None)) it.
Proof.
  intros H. unfold wp, nextToken. destruct (next_from _ _) as [[c h]|] eqn:E.
  - apply next_from_Some in E as (? & Hh & _). rewrite length_drop in Hh.
    destruct H as (? & ? & ? & ? & ?). eexists _, _. split; [reflexivity|]. split; [|left; cbn; lia].
    split; [|cbn; lia]. by apply set_head_reached; [|lia|lia].
  - eexists _, _. split; [reflexivity|]. pose proof (loadMore_error it).
    split; [|by right]. split; [by apply reached_loadMore|done].
Qed.

Lemma readByte_wp it0 it : reached it0 it →
  wp readByte (λ c it', moved it0 it' ∧ (head it < head it' ∨ c = nul ∧ Error it' ≠ None)) it.
Proof.
  intros H. unfold wp, readByte. destruct (Nat.eqb_spec (head it) (length (buf it))) as [E|E].
  - eexists _, _. split; [reflexivity|]. pose proof (loadMore_error it).
    split; [|by right]. split; [by apply reached_loadMore|done].
  - destruct H as (? & ? & ? & ? & ?).
    destruct (lookup_lt_is_Some_2 (buf it) (head it)) as [c ->]; [lia|].
    eexists _, _. split; [reflexivity|]. split; [|left; cbn; lia].
    split; [|cbn; lia]. by apply set_head_reached; [|lia|lia].
Qed.

Lemma good_next {B} (f : ascii → iter B) : (∀ c, good_moved (f c)) → good (c ← nextToken; f c).
Proof.
  intros Hf it0 it H. apply wp_bind. eapply wp_mono; [|by apply nextToken_wp]. intros c it1 [? _]. by apply Hf.
Qed.

Lemma good_readByte : good readByte.
Proof. intros it0 it H. eapply wp_mono; [|by apply readByte_wp]. intros c it1 [[? _] _]. done. Qed.

Lemma good_no_error : good no_error.
Proof. intros it0 it H. by eexists _, _. Qed.

Lemma good_unread : good_moved unreadByte.
Proof.
  intros it0 it [(? & ? & ? & Hf & He) Hm]. eexists _, _. split; [reflexivity|].
  destruct (Error it) eqn:E; [by repeat split; rewrite ?E|].
  specialize (Hm eq_refl). repeat split; cbn; try done; [lia|lia|by rewrite E].
Qed.

Lemma good_unread_bind {B} (m : iter B) : good m → good_moved (_ ← unreadByte; m).
Proof.
  intros Hm it0 it H. apply wp_bind. eapply wp_mono; [|by apply good_unread]. intros ? it1. apply Hm.
Qed.

Lemma context_Ret it n : head it ≤ length (buf it) → ∃ b, context it n = Ret b.
Proof. intros. unfold context. rewrite (proj2 (Nat.leb_le _ _)) by lia. by eexists. Qed.

(** A report is an error. *)
Lemma ReportError_wp op msg it0 it : reached it0 it →
  wp (ReportError op msg) (λ _ it', reached it0 it' ∧ failed it') it.
Proof.
  intros H. unfold wp, ReportError. pose proof H as (Hh & ? & ? & ? & ?).
  destruct (context_Ret it 10 Hh) as [b1 ->], (context_Ret it 50 Hh) as [b2 ->].
  cbn [mbind outcome_bind].
  destruct (Error it) as [[|e]|] eqn:E; (eexists _, _; split; [reflexivity|]);
    (split; [|by eexists]); repeat split; cbn; try done; try lia; (intros _; by eexists) || congruence.
Qed.

Lemma good_report {A} op msg (a : A) : good (_ ← ReportError op msg; mret a).
Proof.
  intros it0 it H. apply wp_bind. eapply wp_mono; [|by apply ReportError_wp]. intros ? it1 [? _]. by apply wp_ret.
Qed.

Lemma good_ReportError op msg : good (ReportError op msg).
Proof. intros it0 it H. eapply wp_mono; [|by apply ReportError_wp]. by intros ? it1 []. Qed.

Create HintDb iterator discriminated.
#[export] Hint Resolve good_ret good_if good_moved_if good_next good_readByte good_no_error good_unread_bind
  good_report good_ReportError good_good_moved : iterator.
#[export] Hint Extern 2 (good (mbind _ _)) => (apply good_bind; [|intros ?]) : iterator.

(* ------------------------------------------------------------------ *)
(** ** Strings *)

Lemma good_moved_no_error {B} (f : bool → iter B) :
  (∀ ok, good_moved (f ok)) → good_moved (ok ← no_error; f ok).
Proof. intros Hf it0 it H. apply wp_bind. eexists _, _. split; [reflexivity|]. by apply Hf. Qed.

Lemma good_read {B} (f : ascii → iter B) : (∀ c, good_moved (f c)) → good (c ← readByte; f c).
Proof.
  intros Hf it0 it H. apply wp_bind. eapply wp_mono; [|by apply readByte_wp]. intros c it1 [? _]. by apply Hf.
Qed.

Lemma good_skipThreeBytes b1 b2 b3 : good (skipThreeBytes b1 b2 b3).
Proof. unfold skipThreeBytes. eauto 20 with iterator. Qed.

Lemma good_readU4_loop i : ∀ ret, good (readU4_loop i ret).
Proof. induction i as [|i IH]; intros ret; cbn [readU4_loop]; eauto 20 with iterator. Qed.

Lemma good_simple_escape c str : good (read_simple_escape c str).
Proof. unfold read_simple_escape. eauto 20 with iterator. Qed.
#[export] Hint Resolve good_skipThreeBytes good_readU4_loop good_simple_escape : iterator.

Lemma good_readEscapedChar c str : good (readEscapedChar c str).
Proof.
  unfold readEscapedChar, readU4. apply good_if; [auto with iterator|].
  apply good_bind; [auto with iterator|]. intros r. apply good_if; [auto with iterator|].
  apply good_read. intros c1. apply good_moved_no_error. intros ok.
  repeat apply good_moved_if; eauto 20 with iterator.
Qed.

(** The fuel a loop needs that reads a byte or sets the error in a turn. *)
Definition need (it : Iterator) : nat :=
  match Error it with None => length (buf it) - head it + 2 | Some _ => 1 end.

Lemma need_error it : Error it ≠ None → need it = 1.
Proof. unfold need. by destruct (Error it). Qed.

Lemma need_reached it0 it : reached it0 it → need it ≤ need it0.
Proof.
  intros (? & E & ? & _ & He). unfold need. destruct (Error it0); [|rewrite E; case_match; lia].
  destruct (Error it); [lia|]. by destruct He.
Qed.

Lemma need_read it0 it : reached it0 it → Error it0 = None → head it0 < head it ∨ Error it ≠ None →
  need it < need it0.
Proof.
  intros (Hl & E & ? & _) E0 [Hr|Hr].
  - unfold need. rewrite E in *. rewrite E0. case_match; lia.
  - rewrite (need_error _ Hr). unfold need. rewrite E0. lia.
Qed.

Lemma slow_loop_wp fuel : ∀ str it0 it, reached it0 it → need it ≤ fuel →
  wp (slow_path_loop fuel str) (λ _, reached it0) it.
Proof.
  induction fuel as [|f IH]; intros str it0 it H Hn; [unfold need in Hn; case_match; lia|].
  cbn [slow_path_loop]. apply wp_bind. eexists _, _. split; [reflexivity|].
  destruct (Error it) as [e|] eqn:E; cbn [negb]; [by apply good_report|].
  apply wp_bind. eapply wp_mono; [|apply (readByte_wp it it), reached_refl; apply H].
  cbn beta. intros c it1 [[H1 _] Hr].
  assert (need it1 ≤ f) by (assert (need it1 < need it) by (apply need_read; tauto); lia).
  destruct (Ascii.eqb c dquote); [by apply wp_ret; eapply reached_trans|].
  destruct (Ascii.eqb c backslash); [|by apply IH; [eapply reached_trans|]].
  apply wp_bind. eapply wp_mono; [|apply (good_readByte it1 it1), reached_refl; apply H1]. cbn beta.
  intros c2 it2 H2. apply wp_bind.
  eapply wp_mono; [|apply (good_readEscapedChar c2 str it2 it2), reached_refl; apply H2]. cbn beta.
  intros str' it3 H3. apply need_reached in H2 as ?, H3 as ?.
  apply IH; [|lia]. eapply reached_trans; [exact H|]. eapply reached_trans; [exact H1|].
  by eapply reached_trans.
Qed.

Lemma fast_path_closed s : ∀ n k, fast_path s n = closed k → n ≤ k ∧ s !! (k - n) = Some dquote.
Proof.
  induction s as [|c s IH]; intros n k; [done|]. cbn [fast_path].
  destruct (Ascii.eqb_spec c dquote) as [->|]; [intros [= <-]; by rewrite Nat.sub_diag|].
  destruct (Ascii.eqb c backslash); [done|]. destruct (_ <? _)%Z; [done|].
  intros (? & E)%IH. split; [lia|]. by replace (k - n) with (S (k - S n)) by lia.
Qed.

Lemma good_read_string_body : good read_string_body.
Proof.
  intros it0 it H. unfold wp, read_string_body. destruct (fast_path _ _) as [n|c|] eqn:E.
  - apply fast_path_closed in E as [_ E]. apply lookup_lt_Some in E. rewrite length_drop in E.
    eexists _, _. split; [reflexivity|]. pose proof H as (? & ? & _). apply set_head_reached; [done|lia|lia].
  - by apply good_report.
  - unfold readStringSlowPath. apply slow_loop_wp; [done|]. unfold need. case_match; lia.
Qed.

Lemma good_ReadString : good ReadString.
Proof. unfold ReadString. pose proof good_read_string_body. eauto 20 with iterator. Qed.
#[export] Hint Resolve good_ReadString : iterator.

(* ------------------------------------------------------------------ *)
(** ** Slices and maps *)

Lemma nul_comma c : (c =c ",") = true → c ≠ nul.
Proof. by intros ->%Ascii.eqb_eq. Qed.

Lemma slice_loop_wp fuel : ∀ c elems it0 it, reached it0 it →
  (if c =c "," then length (buf it) - head it + 2 else 1) ≤ fuel →
  wp (slice_loop_fuel fuel c elems) (λ _, reached it0) it.
Proof.
  induction fuel as [|f IH]; intros c elems it0 it H Hn; [by destruct (c =c ","); lia|].
  cbn [slice_loop_fuel]. destruct (c =c ",") eqn:Ec; [|by apply wp_ret].
  apply wp_bind. eapply wp_mono; [|apply (good_ReadString it it), reached_refl; apply H]. cbn beta.
  intros s it1 H1. apply wp_bind. eapply wp_mono; [|apply (nextToken_wp it1 it1), reached_refl; apply H1].
  cbn beta. intros c2 it2 [[H2 _] Hr].
  apply IH; [by do 2 (eapply reached_trans; [eassumption|])|].
  pose proof (reached_length _ _ H1). pose proof (reached_length _ _ H2).
  destruct H1 as (? & _ & ? & _), H2 as (? & _ & ? & _).
  destruct (c2 =c ",") eqn:E2; [|lia]. apply nul_comma in E2. destruct Hr as [Hr|[-> _]]; [lia|done].
Qed.

Lemma good_slice_loop c elems : good (slice_loop c elems).
Proof. intros it0 it H. apply slice_loop_wp; [done|]. destruct (c =c ","); lia. Qed.

Lemma good_slice_doDecode : good slice_doDecode.
Proof. unfold slice_doDecode. pose proof good_slice_loop. eauto 20 with iterator. Qed.

Lemma good_type_prefix : good type_prefix.
Proof.
  intros it0 it (? & ? & ? & Hf & He). eexists _, _. split; [reflexivity|].
  destruct (Error it) as [[|e]|] eqn:E; repeat split; cbn; rewrite ?E; try done. intros _. by eexists.
Qed.

Lemma good_map_member m : good (map_member m).
Proof.
  unfold map_member, slice_Decode. pose proof good_slice_doDecode. pose proof good_type_prefix.
  eauto 20 with iterator.
Qed.

Lemma map_loop_wp fuel : ∀ m it0 it, reached it0 it → length (buf it) - head it + 1 ≤ fuel →
  wp (map_loop_fuel fuel m) (λ _, reached it0) it.
Proof.
  induction fuel as [|f IH]; intros m it0 it H Hn; [lia|]. cbn [map_loop_fuel].
  apply wp_bind. eapply wp_mono; [|apply (nextToken_wp it it), reached_refl; apply H]. cbn beta.
  intros c it1 [[H1 _] Hr]. pose proof (reached_trans _ _ _ H H1) as H01.
  destruct (c =c ",") eqn:Ec; [|destruct (c <>c "}"); [by apply good_report|by apply wp_ret]].
  apply wp_bind. eapply wp_mono; [|apply (good_map_member m it1 it1), reached_refl; apply H1]. cbn beta.
  intros [m'|] it2 H2; [|by apply wp_ret; eapply reached_trans].
  apply nul_comma in Ec. destruct Hr as [Hr|[-> _]]; [|done].
  apply IH; [by eapply reached_trans|].
  pose proof (reached_length _ _ H1). pose proof (reached_length _ _ H2).
  destruct H1 as (? & _ & ? & _), H2 as (? & _ & ? & _). lia.
Qed.

Lemma good_map_loop m : good (map_loop m).
Proof. intros it0 it H. apply map_loop_wp; [done|lia]. Qed.

Lemma good_map_Decode m : good (map_Decode m).
Proof.
  unfold map_Decode. apply good_next. intros c. repeat apply good_moved_if; eauto with iterator.
  apply good_good_moved, good_next. intros c2. repeat apply good_moved_if; eauto with iterator.
  apply good_unread_bind, good_bind; [apply good_map_member|]. intros [m'|]; [apply good_map_loop|].
  auto with iterator.
Qed.

Lemma good_read_all : good read_all.
Proof. unfold read_all. pose proof good_map_Decode. eauto 20 with iterator. Qed.

(** Any input is read to a map or to an error. *)
Lemma Unmarshal_no_panic data : Unmarshal data ≠ Panic.
Proof.
  unfold Unmarshal. destruct (good_read_all (ParseBytes data) (ParseBytes data)) as (m & it & -> & _).
  { apply reached_refl. cbn. lia. }
  cbn [mbind outcome_bind]. by destruct (Error (m, it).2) as [[|e]|].
Qed.

Import Jsoniter.

(* ------------------------------------------------------------------ *)
(** ** Positions *)

(** The iterator stands before [s], without an error; or behind a byte. *)
Definition at_ (s : bytes) (it : Iterator) : Prop :=
  ∃ pre, buf it = pre ++ s ∧ head it = length pre ∧ Error it = None.
Definition after (c : ascii) (s : bytes) (it : Iterator) : Prop :=
  ∃ pre, buf it = pre ++ c :: s ∧ head it = S (length pre) ∧ Error it = None.

Lemma after_at c s it : after c s it → at_ s it.
Proof.
  intros (pre & E & Eh & Ee). exists (pre ++ [c]). rewrite length_app, <- app_assoc. cbn.
  repeat split; [done|lia|done].
Qed.

Lemma at_bounds s it : at_ s it → head it ≤ length (buf it) ∧ length (buf it) - head it = length s.
Proof. intros (pre & -> & -> & _). rewrite length_app. lia. Qed.

Lemma at_reached s it : at_ s it → reached it it.
Proof. intros H. apply reached_refl. by apply (at_bounds s). Qed.

Lemma at_drop s it : at_ s it → drop (head it) (buf it) = s.
Proof. intros (pre & -> & -> & _). apply drop_app_length. Qed.

Lemma at_set s r it : at_ (s ++ r) it → at_ r (set_head it (head it + length s)).
Proof.
  intros (pre & E & Eh & Ee). exists (pre ++ s). cbn. rewrite E, Eh, length_app, app_assoc. done.
Qed.

Lemma is_white_space c : is_white c = is_space c.
Proof.
  unfold is_white, is_space.
  destruct (c =c " "), (c =c "010"), (c =c "009"), (c =c "013"); done.
Qed.

Lemma next_from_skip s : ∀ i, next_from s i =
  match skip_space s with
  | c :: r => Some (c, i + (length s - length r))
  | [] => None
  end.
Proof.
  induction s as [|c s IH]; intros i; [done|]. cbn [next_from skip_space]. rewrite is_white_space.
  destruct (is_space c); [|f_equal; f_equal; cbn [length]; lia].
  rewrite IH. pose proof (skip_space_split s) as (a & E & _).
  destruct (skip_space s) as [|d r]; [done|]. apply (f_equal length) in E. rewrite length_app in E. cbn [length] in *.
  f_equal. f_equal. lia.
Qed.

Lemma nextToken_at t c s Q it : at_ t it → skip_space t = c :: s →
  (∀ it', after c s it' → moved it it' → Q c it') → wp nextToken Q it.
Proof.
  intros H E HQ. destruct (nextToken_wp it it (at_reached _ _ H)) as (d & it' & Ed & Hr & _).
  unfold wp. rewrite Ed. unfold nextToken in Ed. rewrite (at_drop t) in Ed by done.
  rewrite next_from_skip, E in Ed. injection Ed as <- <-.
  eexists _, _. split; [reflexivity|]. apply HQ; [|done].
  pose proof (skip_space_split t) as (a & Et & _). rewrite E in Et.
  destruct H as (pre & Eb & Eh & Ee). exists (pre ++ a). cbn. rewrite Eb, Eh, Et, <- app_assoc, !length_app.
  cbn [length]. repeat split; [lia|done].
Qed.

Lemma nextToken_end t Q it : at_ t it → skip_space t = [] →
  (∀ it', Error it' = Some io_EOF → Q nul it') → wp nextToken Q it.
Proof.
  intros H E HQ. unfold wp, nextToken. rewrite (at_drop t) by done. rewrite next_from_skip, E.
  eexists _, _. split; [reflexivity|]. apply HQ. unfold loadMore. by destruct H as (pre & _ & _ & ->).
Qed.

Lemma readByte_at c s Q it : at_ (c :: s) it → (∀ it', after c s it' → Q c it') → wp readByte Q it.
Proof.
  intros (pre & E & Eh & Ee) HQ. unfold wp, readByte. rewrite E, Eh, length_app. cbn [length].
  rewrite (proj2 (Nat.eqb_neq _ _)) by lia. rewrite list_lookup_middle by done.
  eexists _, _. split; [reflexivity|]. apply HQ. exists pre. done.
Qed.

Lemma unreadByte_after c s Q it : after c s it → (∀ it', at_ (c :: s) it' → Q () it') → wp unreadByte Q it.
Proof.
  intros (pre & E & Eh & Ee) HQ. unfold wp, unreadByte. rewrite Ee.
  eexists _, _. split; [reflexivity|]. apply HQ. exists pre. cbn. rewrite Eh. repeat split; [done|lia|done].
Qed.

Lemma unreadByte_moved c s it0 Q it : after c s it → moved it0 it →
  (∀ it', at_ (c :: s) it' → reached it0 it' → Q () it') → wp unreadByte Q it.
Proof.
  intros Ha Hm HQ. destruct (good_unread it0 it Hm) as ([] & it1 & E & H1). exists (), it1. split; [done|].
  apply HQ; [|done]. by destruct (unreadByte_after c s (λ _, at_ (c :: s)) it Ha) as ([] & it2 & [= <-]%(eq_trans (eq_sym E)) & ?).
Qed.

Lemma no_error_at s Q it : at_ s it → Q true it → wp no_error Q it.
Proof. intros (pre & _ & _ & Ee) HQ. exists true, it. unfold no_error. by rewrite Ee. Qed.

(** The end of a reader that reports an error. *)
Definition fails {A} (it0 : Iterator) : A → Iterator → Prop := λ _ it, reached it0 it ∧ failed it.

Lemma report_fails {A} op msg (a : A) it0 it : reached it0 it →
  wp (_ ← ReportError op msg; mret a) (fails it0) it.
Proof.
  intros H. apply wp_bind. eapply wp_mono; [|by apply ReportError_wp]. intros ? it1 H1. by apply wp_ret.
Qed.

Lemma good_fails {A B} (m : iter A) it0 it (b : B) : good m → fails it0 b it → wp m (fails it0) it.
Proof.
  intros Hm [H Hf]. eapply wp_mono; [|apply (Hm it it), reached_refl; apply H]. cbn beta. intros ? it1 H1.
  split; [by eapply reached_trans|]. by apply H1.
Qed.

Lemma fails_bind {A B} (m : iter A) (f : A → iter B) it0 it : wp m (fails it0) it → (∀ a, good (f a)) →
  wp (m ≫= f) (fails it0) it.
Proof. intros Hm Hf. apply wp_bind. eapply wp_mono; [|exact Hm]. intros a it1. by apply good_fails. Qed.

(** One step of a reader. *)
Ltac next t := apply wp_bind; eapply (nextToken_at t); [eassumption|eassumption|intros ? ? ?].
Ltac read := apply wp_bind; eapply readByte_at; [eassumption|intros ? ?%after_at].
Ltac clean := apply wp_bind; eapply no_error_at; [eassumption|]; cbn [negb].

(* ------------------------------------------------------------------ *)
(** ** [appendRune] *)

Lemma lor_add a n : forallb (λ k, Z.eqb (Z.lor a (Z.of_nat k)) (a + Z.of_nat k)) (List.seq 0 n) = true →
  ∀ z, (0 <= z < Z.of_nat n)%Z → Z.lor a z = (a + z)%Z.
Proof.
  intros H z Hz. rewrite forallb_forall in H. specialize (H (Z.to_nat z)).
  rewrite Z2Nat.id in H by lia. apply Z.eqb_eq, H, in_seq. lia.
Qed.

Lemma appendRune_EncodeRune p r : (0 <= r <= MaxRune)%Z → appendRune p r = p ++ EncodeRune r.
Proof.
  intros Hr. unfold MaxRune in Hr. rune_parts r. unfold appendRune.
  rewrite Z.mod_small by lia. rewrite !Z.shiftr_div_pow2 by lia.
  change (2 ^ 6)%Z with 64%Z. change (2 ^ 12)%Z with 4096%Z. change (2 ^ 18)%Z with 262144%Z.
  change 63%Z with (Z.ones 6). rewrite !Z.land_ones by lia. change (2 ^ 6)%Z with 64%Z.
  pose proof (lor_add 128 64 eq_refl) as L128. pose proof (lor_add 192 32 eq_refl) as L192.
  pose proof (lor_add 224 16 eq_refl) as L224. pose proof (lor_add 240 8 eq_refl) as L240.
  unfold EncodeRune, valid_rune, is_surrogate, MaxRune.
  destruct (Z.leb_spec r 127).
  { rewrite (proj2 (Z.leb_le 0 r)), (proj2 (Z.leb_le r 1114111)), (proj2 (Z.leb_gt 55296 r)) by lia. cbn [andb negb].
    by rewrite (proj2 (Z.ltb_lt r 128)) by lia. }
  destruct (Z.leb_spec r 2047).
  { rewrite (proj2 (Z.leb_le 0 r)), (proj2 (Z.leb_le r 1114111)), (proj2 (Z.leb_gt 55296 r)) by lia. cbn [andb negb].
    rewrite (proj2 (Z.ltb_ge r 128)), (proj2 (Z.ltb_lt r 2048)) by lia. by rewrite L192, L128 by lia. }
  rewrite (proj2 (Z.ltb_ge 1114111 r)) by lia. cbn [orb].
  rewrite (proj2 (Z.leb_le 0 r)), (proj2 (Z.leb_le r 1114111)) by lia. cbn [andb].
  destruct (Z.leb_spec 55296 r), (Z.leb_spec r 57343); cbn [andb negb];
    rewrite ?(proj2 (Z.ltb_lt r 57344)), ?(proj2 (Z.ltb_ge r 57344)) by lia; cbn [negb]; try done;
    rewrite (proj2 (Z.ltb_ge r 128)), (proj2 (Z.ltb_ge r 2048)) by lia.
  all: destruct (Z.leb_spec r 65535);
    rewrite ?(proj2 (Z.ltb_lt r 65536)), ?(proj2 (Z.ltb_ge r 65536)) by lia; try lia.
  all: rewrite ?L224, ?L240, !L128; try lia; done.
Qed.

(* ------------------------------------------------------------------ *)
(** ** String literals *)

(** Four hexadecimal digits and their number. *)
Definition hex4 (hs : bytes) (r : Z) : Prop :=
  ∃ h1 h2 h3 h4, hs = [h1; h2; h3; h4] ∧ forallb is_hex hs = true ∧
    r = (((hex_value h1 * 16 + hex_value h2) * 16 + hex_value h3) * 16 + hex_value h4)%Z.

(** What is read of a literal. The bytes are kept as they are, in UTF-8 or
    not; a surrogate without a second half is replaced, and so is what
    stands behind it, when that is a surrogate. *)
Inductive lit_reads : bytes → bytes → Prop :=
| reads_nil : lit_reads [] []
| reads_plain c l v : is_control c = false → c ≠ dquote → c ≠ backslash → lit_reads l v →
    lit_reads (c :: l) (c :: v)
| reads_escape e r l v : simple_escape e = Some r → lit_reads l v →
    lit_reads (backslash :: e :: l) (chr r :: v)
| reads_unicode hs r l v : hex4 hs r → is_surrogate r = false → lit_reads l v →
    lit_reads (backslash :: "u"%char :: hs ++ l) (EncodeRune r ++ v)
| reads_lone hs r l v : hex4 hs r → is_surrogate r = true → (∀ l', l ≠ backslash :: l') → lit_reads l v →
    lit_reads (backslash :: "u"%char :: hs ++ l) (EncodeRune RuneError ++ v)
| reads_lone_escape hs r e r2 l v : hex4 hs r → is_surrogate r = true → simple_escape e = Some r2 →
    lit_reads l v →
    lit_reads (backslash :: "u"%char :: hs ++ backslash :: e :: l) (EncodeRune RuneError ++ chr r2 :: v)
| reads_pair hs r hs2 r2 l v : hex4 hs r → is_surrogate r = true → hex4 hs2 r2 → lit_reads l v →
    lit_reads (backslash :: "u"%char :: hs ++ backslash :: "u"%char :: hs2 ++ l)
      ((if (utf16_DecodeRune r r2 =? RuneError)%Z then EncodeRune RuneError ++ EncodeRune r2
        else EncodeRune (utf16_DecodeRune r r2)) ++ v).

Lemma hex_value_bounds c : is_hex c = true → (0 <= hex_value c < 16)%Z.
Proof. by destruct c as [[] [] [] [] [] [] [] []]. Qed.

Lemma hex4_range hs r : hex4 hs r → (0 <= r < 65536)%Z.
Proof.
  intros (h1 & h2 & h3 & h4 & -> & H & ->). cbn [forallb] in H. rewrite !andb_true_iff in H.
  destruct H as (?%hex_value_bounds & ?%hex_value_bounds & ?%hex_value_bounds & ?%hex_value_bounds & _). lia.
Qed.

Lemma EncodeRune_surrogate r : is_surrogate r = true → EncodeRune r = EncodeRune RuneError.
Proof. intros H. unfold EncodeRune, valid_rune. rewrite H. by rewrite andb_false_r. Qed.

(** Every literal is read. *)
Lemma lit_reads_total n : ∀ l, length l ≤ n → string_lit l → ∃ v, lit_reads l v.
Proof.
  assert (∀ e, is_simple_escape e = true → ∃ r, simple_escape e = Some r) as He.
  { intros e. destruct e as [[] [] [] [] [] [] [] []]; try done; by eexists. }
  induction n as [|n IH]; intros l Hn H.
  { destruct l; [|cbn in Hn; lia]. eexists. constructor. }
  destruct H as [|c s|e s He' Hs|h1 h2 h3 h4 s Hh Hs].
  - eexists. constructor.
  - destruct (IH s) as [v Hv]; [cbn in Hn; lia|done|]. eexists. by constructor.
  - destruct (IH s) as [v Hv]; [cbn in Hn; lia|done|]. destruct (He e He') as [r Hr]. eexists. by econstructor.
  - cbn in Hn. assert (hex4 [h1; h2; h3; h4] _) as H4 by (eexists _, _, _, _; split; [reflexivity|]; split; [done|reflexivity]).
    set (r := Z.add _ _) in H4. change (backslash :: "u"%char :: h1 :: h2 :: h3 :: h4 :: s) with
      (backslash :: "u"%char :: [h1; h2; h3; h4] ++ s).
    destruct (is_surrogate r) eqn:Er.
    2:{ destruct (IH s) as [v Hv]; [lia|done|]. eexists. by eapply reads_unicode. }
    destruct Hs as [|c s ? ? ? Hs|e s He2 Hs|k1 k2 k3 k4 s Hk Hs].
    + destruct (IH []) as [v Hv]; [cbn; lia|constructor|]. eexists. by eapply reads_lone.
    + destruct (IH (c :: s)) as [v Hv]; [cbn in *; lia|by constructor|]. eexists.
      eapply reads_lone; [done|done| |done]. intros l' [= ]. done.
    + destruct (IH s) as [v Hv]; [cbn in Hn; lia|done|]. destruct (He e He2) as [r2 Hr2].
      eexists. by eapply reads_lone_escape.
    + destruct (IH s) as [v Hv]; [cbn in Hn; lia|done|].
      eexists. eapply (reads_pair _ _ [k1; k2; k3; k4]); [done|done| |done].
      eexists _, _, _, _. split; [reflexivity|]. split; [done|reflexivity].
Qed.

Lemma readU4_digit c s i ret Q it : at_ (c :: s) it → is_hex c = true →
  (∀ it', at_ s it' → wp (readU4_loop i (ret * 16 + hex_value c)) Q it') → wp (readU4_loop (S i) ret) Q it.
Proof.
  intros H Hc HQ. cbn [readU4_loop]. read. clean.
  assert ((in_range 48 57 c = true ∧ hex_value c = code c - 48) ∨
    (in_range 48 57 c = false ∧ in_range 97 102 c = true ∧ hex_value c = code c - 97 + 10) ∨
    (in_range 48 57 c = false ∧ in_range 97 102 c = false ∧ in_range 65 70 c = true ∧ hex_value c = code c - 65 + 10))%Z
    as [[-> E]|[[-> [-> E]]|[-> [-> [-> E]]]]].
  { revert Hc. clear. destruct c as [[] [] [] [] [] [] [] []]; try done; intros _; vm_compute; auto 10. }
  all: rewrite <- E; by apply HQ.
Qed.

Lemma readU4_reads hs r s Q it : hex4 hs r → at_ (hs ++ s) it → (∀ it', at_ s it' → Q r it') →
  wp readU4 Q it.
Proof.
  intros (h1 & h2 & h3 & h4 & -> & Hh & ->) H HQ. cbn [forallb] in Hh. rewrite !andb_true_iff in Hh.
  unfold readU4. cbn [app] in H.
  do 4 (eapply readU4_digit; [eassumption|tauto|]; clear dependent it; intros it H).
  cbn [readU4_loop]. apply wp_ret. by apply HQ.
Qed.

Lemma simple_escape_reads e r str : simple_escape e = Some r →
  read_simple_escape e str = mret (str ++ [chr r]) ∧ (e <>c "u") = true.
Proof. destruct e as [[] [] [] [] [] [] [] []]; try done; by intros [= <-]. Qed.

Lemma slow_escape e s f str Q it : at_ (backslash :: e :: s) it →
  (∀ it', at_ s it' → wp (readEscapedChar e str) (λ str', wp (slow_path_loop f str') Q) it') →
  wp (slow_path_loop (S f) str) Q it.
Proof.
  intros H HQ. cbn [slow_path_loop]. clean. read.
  change (Ascii.eqb backslash dquote) with false. rewrite Ascii.eqb_refl. cbn iota. read.
  apply wp_bind. by apply HQ.
Qed.

(** [readEscapedChar] behind the digits of a surrogate. *)
Lemma readEscapedChar_surrogate hs r c s str Q it : hex4 hs r → is_surrogate r = true → at_ (hs ++ c :: s) it →
  (∀ it', after c s it' →
    wp (if negb (Ascii.eqb c backslash) then _ ← unreadByte; mret (str ++ EncodeRune RuneError)
        else
          c ← readByte;
          ok ← no_error;
          if negb ok then mret []
          else if c <>c "u" then read_simple_escape c (str ++ EncodeRune RuneError)
          else
            r2 ← readU4;
            ok ← no_error;
            if negb ok then mret []
            else
              let combined := utf16_DecodeRune r r2 in
              if (combined =? RuneError)%Z then mret (appendRune (str ++ EncodeRune RuneError) r2)
              else mret (appendRune str combined)) Q it') →
  wp (readEscapedChar "u"%char str) Q it.
Proof.
  intros Hh Hr H HQ. unfold readEscapedChar. cbn [negb Ascii.eqb Bool.eqb].
  apply wp_bind. eapply readU4_reads; [done|done|]. intros it1 H1. rewrite Hr. cbn [negb].
  apply wp_bind. eapply readByte_at; [done|]. intros it2 H2. apply after_at in H2 as H2'. clean.
  assert (appendRune str r = str ++ EncodeRune RuneError) as ->.
  { apply hex4_range in Hh. rewrite appendRune_EncodeRune by (unfold MaxRune; lia).
    by rewrite EncodeRune_surrogate. }
  by apply HQ.
Qed.

Lemma utf16_range r r2 : (0 <= utf16_DecodeRune r r2 <= MaxRune)%Z.
Proof. pose proof (utf16_valid r r2) as H. apply valid_rune_spec in H. unfold MaxRune in *. lia. Qed.

Lemma slow_loop_reads lit v : lit_reads lit v → ∀ fuel str rest Q it,
  at_ (lit ++ dquote :: rest) it → length lit + 1 ≤ fuel → (∀ it', at_ rest it' → Q (str ++ v) it') →
  wp (slow_path_loop fuel str) Q it.
Proof.
  assert (∀ r l, length (backslash :: "u"%char :: r ++ l) = length r + length l + 2) as Hl.
  { intros. cbn. rewrite length_app. lia. }
  induction 1 as [|c l v Hc Hq Hb Hv IH|e r l v He Hv IH|hs r l v Hh Hr Hv IH|hs r l v Hh Hr Hb Hv IH
    |hs r e r2 l v Hh Hr He Hv IH|hs r hs2 r2 l v Hh Hr Hh2 Hv IH];
    intros [|f] str rest Q it H Hf HQ; try (cbn in Hf; lia); cbn [app] in H.
  - cbn [slow_path_loop]. clean. read. rewrite Ascii.eqb_refl. apply wp_ret. rewrite <- (app_nil_r str). auto.
  - cbn [slow_path_loop]. clean. read. char_neq. eapply IH; [done|cbn in Hf; lia|]. intros.
    rewrite <- app_assoc. auto.
  - eapply slow_escape; [done|]. intros it1 H1. destruct (simple_escape_reads e r str He) as [Er Eu].
    unfold readEscapedChar. rewrite Eu, Er. apply wp_ret.
    eapply IH; [done|cbn in Hf; lia|]. intros. rewrite <- app_assoc. auto.
  - eapply slow_escape; [done|]. intros it1 H1. rewrite <- app_assoc in H1.
    unfold readEscapedChar. cbn [negb Ascii.eqb Bool.eqb].
    apply wp_bind. eapply readU4_reads; [done|done|]. intros it2 H2. rewrite Hr. cbn [negb]. apply wp_ret.
    apply hex4_range in Hh as ?. rewrite appendRune_EncodeRune by (unfold MaxRune; lia).
    eapply IH; [done|rewrite Hl in Hf; lia|]. intros. rewrite <- app_assoc. auto.
  - eapply slow_escape; [done|]. intros it1 H1. rewrite <- app_assoc in H1. cbn [app] in H1.
    destruct (l ++ dquote :: rest) as [|c s] eqn:El; [by destruct l|].
    eapply readEscapedChar_surrogate; [done|done|done|]. intros it2 H2.
    assert (Ascii.eqb c backslash = false) as ->.
    { apply Ascii.eqb_neq. intros ->. destruct l as [|d l]; [done|]. injection El as -> _. by eapply Hb. }
    cbn [negb]. apply wp_bind. eapply unreadByte_after; [done|]. intros it3 H3. apply wp_ret. rewrite <- El in H3.
    eapply IH; [done|rewrite Hl in Hf; lia|]. intros. rewrite <- app_assoc. auto.
  - eapply slow_escape; [done|]. intros it1 H1. rewrite <- app_assoc in H1. cbn [app] in H1.
    eapply readEscapedChar_surrogate; [done|done|done|]. intros it2 H2%after_at.
    rewrite Ascii.eqb_refl. cbn [negb]. read. clean.
    destruct (simple_escape_reads e r2 (str ++ EncodeRune RuneError) He) as [-> ->]. apply wp_ret.
    eapply IH; [done|rewrite Hl in Hf; cbn in Hf; lia|]. intros.
    replace (_ ++ v) with (str ++ EncodeRune RuneError ++ chr r2 :: v) by app_eq. auto.
  - eapply slow_escape; [done|]. intros it1 H1. rewrite <- app_assoc in H1. cbn [app] in H1.
    eapply readEscapedChar_surrogate; [exact Hh|done|done|]. intros it2 H2%after_at.
    rewrite Ascii.eqb_refl. cbn [negb]. read. clean. cbn [negb Ascii.eqb Bool.eqb]. rewrite <- app_assoc in *.
    apply wp_bind. eapply readU4_reads; [exact Hh2|eassumption|]. intros it4 H4'. clean.
    apply hex4_range in Hh2 as ?. pose proof (utf16_range r r2). cbn zeta.
    rewrite !appendRune_EncodeRune by (done || (unfold MaxRune; lia)).
    destruct (_ =? _)%Z; apply wp_ret; (eapply IH; [done|rewrite !Hl in Hf; lia|]);
      intros; [rewrite <- !app_assoc|rewrite <- app_assoc]; auto.
Qed.

Lemma fast_path_reads l v : lit_reads l v → ∀ rest n,
  fast_path (l ++ dquote :: rest) n = slow ∨ (fast_path (l ++ dquote :: rest) n = closed (n + length l) ∧ v = l).
Proof.
  induction 1 as [|c l v Hc Hq Hb Hv IH| | | | |]; intros rest n; cbn [app fast_path length]; try by left.
  - right. by rewrite Ascii.eqb_refl, Nat.add_0_r.
  - char_neq. change (code c <? 32)%Z with (is_control c). rewrite Hc.
    destruct (IH rest (S n)) as [->|[-> ->]]; [by left|]. right. split; [f_equal; lia|done].
Qed.

(** [ReadString] of a string, of null, and of another value. *)
Lemma ReadString_lit t l v rest Q it : at_ t it → skip_space t = dquote :: l ++ dquote :: rest → lit_reads l v →
  (∀ it', at_ rest it' → Q v it') → wp ReadString Q it.
Proof.
  intros H E Hl HQ. unfold ReadString. next t. rewrite Ascii.eqb_refl.
  match goal with Ha : after _ _ _ |- _ => apply after_at in Ha; rename Ha into Hat end.
  unfold wp, read_string_body. rewrite (at_drop (l ++ dquote :: rest)) by done.
  destruct (fast_path_reads l v Hl rest 0) as [->|[-> ->]].
  - unfold readStringSlowPath. eapply slow_loop_reads; [done|done| |by intros; apply HQ].
    apply at_bounds in Hat as [_ ->]. rewrite length_app. cbn. lia.
  - cbn [Nat.add]. rewrite take_app_length. eexists _, _. split; [reflexivity|]. apply HQ.
    rewrite <- Nat.add_assoc. replace (length l + 1) with (length (l ++ [dquote])) by (rewrite length_app; done).
    apply at_set. by rewrite <- app_assoc.
Qed.

Lemma skipThreeBytes_at b1 b2 b3 s Q it : at_ (b1 :: b2 :: b3 :: s) it → (∀ it', at_ s it' → Q () it') →
  wp (skipThreeBytes b1 b2 b3) Q it.
Proof.
  intros H HQ. unfold skipThreeBytes. do 3 (read; rewrite Ascii.eqb_refl; cbn [negb]). apply wp_ret. auto.
Qed.

Ltac behind := match goal with H : after _ _ ?it |- context [?it] => apply after_at in H as ? end.

Lemma ReadString_null t rest Q it : at_ t it → skip_space t = bs "null" ++ rest →
  (∀ it', at_ rest it' → Q [] it') → wp ReadString Q it.
Proof.
  intros H E HQ. cbn [app bs String.list_ascii_of_string] in E. unfold ReadString. next t. behind. cbn [Ascii.eqb Bool.eqb dquote].
  apply wp_bind. eapply skipThreeBytes_at; [eassumption|]. intros. apply wp_ret. auto.
Qed.

Lemma ReadString_bad t c rest it : at_ t it → skip_space t = c :: rest → c ≠ dquote → c ≠ "n"%char →
  wp ReadString (fails it) it.
Proof. intros H E Hq Hn. unfold ReadString. next t. char_neq. by apply report_fails, moved_reached. Qed.

(* ------------------------------------------------------------------ *)
(** ** Elements *)

(** A computation that is understood and also good. *)
Lemma wp_good {A} (m : iter A) Q it0 it : good m → reached it0 it → wp m Q it →
  wp m (λ a it', Q a it' ∧ reached it0 it') it.
Proof.
  intros Hm H (a & it1 & E & HQ). destruct (Hm it0 it H) as (a' & it1' & E' & H'). rewrite E in E'.
  injection E' as <- <-. by exists a, it1.
Qed.

Lemma fails_reached {A} (m : iter A) it0 it : reached it0 it → wp m (fails it) it → wp m (fails it0) it.
Proof. intros H. apply wp_mono. intros a it1 [H1 ?]. split; [by eapply reached_trans|done]. Qed.

Lemma length_skip_space s : length (skip_space s) ≤ length s.
Proof. destruct (skip_space_split s) as (a & E & _). rewrite E at 2. rewrite length_app. lia. Qed.

Lemma skip_shorter t s : skip_space t = s → length s ≤ length t.
Proof. intros <-. apply length_skip_space. Qed.

Lemma skip_value a v j rest : spaces a → json_value v j → skip_space (a ++ v ++ rest) = v ++ rest.
Proof. intros. rewrite skip_space_app by done. apply skip_space_stop. by eapply value_no_space. Qed.

Lemma skip_byte b c rest : spaces b → is_space c = false → skip_space (b ++ c :: rest) = c :: rest.
Proof. intros. rewrite skip_space_app by done. by apply skip_space_stop. Qed.

(** An element of a slice: a string, or null, which is the empty string. *)
Definition elem_ok (j : json) : bool := match j with JNull | JString _ => true | _ => false end.
Definition elem_reads (j : json) (s : bytes) : Prop :=
  match j with JNull => s = [] | JString l => lit_reads l s | _ => False end.

(** Other values begin with another character. *)
Lemma other_head v j : json_value v j → elem_ok j = false →
  ∃ c t, v = c :: t ∧ c ≠ dquote ∧ c ≠ "n"%char ∧ (c = "["%char → ∃ raw l, j = JArray raw l) ∧
    (c = "{"%char → ∃ raw l, j = JObject raw l).
Proof.
  destruct 1 as [|b|s Hs| |a ?|w l ?|a ?|w l ?]; intros Hj; try done.
  - destruct b; by eexists _, _.
  - destruct (number_head s Hs) as (c & t & -> & Hc). exists c, t. split; [done|].
    destruct Hc as [Hc| ->]; [|done]. by destruct c as [[] [] [] [] [] [] [] []].
  - eexists _, _. repeat split; try done. intros _. by eexists _, _.
  - eexists _, _. repeat split; try done. intros _. by eexists _, _.
  - eexists _, _. repeat split; try done. intros _. by eexists _, _.
  - eexists _, _. repeat split; try done. intros _. by eexists _, _.
Qed.

Lemma elem_read v j s t rest Q it : json_value v j → elem_reads j s → at_ t it → skip_space t = v ++ rest →
  (∀ it', at_ rest it' → Q s it') → wp ReadString Q it.
Proof.
  destruct 1 as [|b|n Hn|l Hl| | | |]; intros Hj; try done; intros H E HQ.
  - cbn in Hj. subst s. by eapply ReadString_null.
  - eapply ReadString_lit; [done| |exact Hj|done]. rewrite E. cbn [app]. by rewrite <- app_assoc.
Qed.

Lemma elem_bad v j t rest it0 it : json_value v j → elem_ok j = false → at_ t it → skip_space t = v ++ rest →
  reached it0 it → wp ReadString (fails it0) it.
Proof.
  intros Hv Hj H E Hr. destruct (other_head v j Hv Hj) as (c & t' & -> & ? & ? & _).
  apply fails_reached; [done|]. by eapply ReadString_bad.
Qed.

(** The elements up to the bracket. *)
Definition elements (fuel : nat) (acc : list bytes) : iter (list bytes * ascii) :=
  s ← ReadString; c ← nextToken; slice_loop_fuel fuel c (acc ++ [s]).

Lemma elements_S fuel acc : slice_loop_fuel (S fuel) "," acc = elements fuel acc.
Proof. done. Qed.

Ltac shorter E := repeat progress (rewrite ?length_app in *; cbn [length app] in * ); lia.

Lemma elements_read w l : json_elems w l → ∀ fuel acc ss t rest Q it, Forall2 elem_reads l ss → at_ t it →
  skip_space t = skip_space (w ++ "]"%char :: rest) → length t + 2 ≤ fuel →
  (∀ it', at_ rest it' → Q (acc ++ ss, "]"%char) it') → wp (elements fuel acc) Q it.
Proof.
  induction 1 as [a v b j Ha Hv Hb|a v b j w l Ha Hv Hb Hw IH]; intros fuel acc ss t rest Q it Hl H E Hf HQ;
    unfold elements; rewrite <- !app_assoc in E; rewrite (skip_value a v j) in E by done;
    apply Forall2_cons_inv_l in Hl as (s & ss' & Hs & Hl & ->);
    apply wp_bind; (eapply elem_read; [done|done|done|exact E|]); intros it1 H1.
  - apply Forall2_nil_inv_l in Hl as ->. apply wp_bind.
    eapply (nextToken_at _ "]"); [done|by apply skip_byte|]. intros it2 H2%after_at _.
    destruct fuel as [|f]; [lia|]. apply wp_ret. by apply HQ.
  - cbn [app] in H1. apply wp_bind. eapply (nextToken_at _ ","); [done|by apply skip_byte|]. intros it2 H2%after_at _.
    destruct fuel as [|f]; [lia|]. rewrite elements_S. eapply IH; [done|done|done| |].
    + apply skip_shorter in E. shorter E.
    + intros. rewrite <- app_assoc. by apply HQ.
Qed.

Lemma elements_bad_head v j rest fuel acc t it0 it : json_value v j → elem_ok j = false → at_ t it →
  skip_space t = v ++ rest → length t + 2 ≤ fuel → reached it0 it → wp (elements fuel acc) (fails it0) it.
Proof.
  intros Hv Hj H E Hf Hr. unfold elements. apply wp_bind.
  eapply wp_mono; [|eapply (elem_bad v j t rest it it); [done|done|done|done|by eapply at_reached]].
  cbn beta. intros s it1 [H1 Hf1]. apply wp_bind.
  eapply wp_mono; [|apply (nextToken_wp it1 it1), reached_refl; apply H1]. cbn beta. intros c it2 [[H2 _] _].
  assert (reached it it2) as H02 by (by eapply reached_trans).
  eapply wp_mono; [|apply (slice_loop_wp fuel c _ it2 it2)].
  - cbn beta. intros ? it3 H3. split; [|apply H3, H2, Hf1].
    eapply reached_trans; [exact Hr|]. by eapply reached_trans.
  - apply reached_refl. apply H2.
  - apply at_bounds in H as [? El]. pose proof (reached_length _ _ H02).
    destruct H02 as (? & _ & ? & _). destruct (c =c ","); lia.
Qed.

Lemma elem_reads_total v j : json_value v j → elem_ok j = true → ∃ s, elem_reads j s.
Proof. destruct 1; intros ?; try done; [by exists []|]. by eapply lit_reads_total. Qed.

Lemma elements_bad w l : json_elems w l → ∀ fuel acc t rest it0 it, forallb elem_ok l = false → at_ t it →
  skip_space t = skip_space (w ++ "]"%char :: rest) → length t + 2 ≤ fuel → reached it0 it →
  wp (elements fuel acc) (fails it0) it.
Proof.
  induction 1 as [a v b j Ha Hv Hb|a v b j w l Ha Hv Hb Hw IH]; intros fuel acc t rest it0 it Hl H E Hf Hr;
    rewrite <- !app_assoc in E; rewrite (skip_value a v j) in E by done; cbn [forallb] in Hl.
  { rewrite andb_true_r in Hl. by eapply elements_bad_head. }
  destruct (elem_ok j) eqn:Ej; [|by eapply elements_bad_head]. cbn [andb] in Hl.
  destruct (elem_reads_total v j Hv Ej) as [s Hs]. unfold elements. apply wp_bind.
  eapply wp_mono; [|apply (wp_good _ (λ s' it', s' = s ∧ at_ (b ++ ","%char :: w ++ "]"%char :: rest) it') it0)];
    [|apply good_ReadString|done|eapply elem_read; [exact Hv|done|done|exact E|by intros]].
  cbn beta. intros s' it1 [[-> H1] Hr1].
  apply wp_bind. eapply (nextToken_at _ ","); [done|by apply skip_byte|]. intros it2 H2%after_at Hr2%moved_reached.
  destruct fuel as [|f]; [lia|]. rewrite elements_S. eapply IH; [done|done|done| |by eapply reached_trans].
  apply skip_shorter in E. shorter E.
Qed.

(* ------------------------------------------------------------------ *)
(** ** Slices *)

Definition slice_ok (j : json) : bool :=
  match j with JNull => true | JArray _ l => forallb elem_ok l | _ => false end.
Definition slice_reads (j : json) (v : option (list bytes)) : Prop :=
  match j with
  | JNull => v = None
  | JArray _ l => ∃ ss, v = Some ss ∧ Forall2 elem_reads l ss
  | _ => False
  end.

Lemma elems_head_byte w l rest : json_elems w l →
  ∃ c s, skip_space (w ++ rest) = c :: s ∧ c ≠ "]"%char ∧ is_space c = false.
Proof.
  assert (∀ a v j x, spaces a → json_value v j → ∃ c s, skip_space (a ++ v ++ x) = c :: s ∧ c ≠ "]"%char ∧
    is_space c = false) as H.
  { intros a v j x Ha Hv. rewrite (skip_value a v j) by done.
    destruct (value_head v j Hv) as (c & t & -> & ? & ? & _). by exists c, (t ++ x). }
  intros []; rewrite <- !app_assoc; by eapply H.
Qed.

Lemma type_prefix_at {A} s (v : A) (Q : A → Iterator → Prop) it : at_ s it → Q v it → wp (_ ← type_prefix; mret v) Q it.
Proof.
  intros (pre & E & Eh & Ee) HQ. apply wp_bind. eexists _, it. split; [|by apply wp_ret].
  unfold type_prefix. by rewrite Ee.
Qed.

(** The elements behind the bracket, as the decoder reads them. *)
Lemma slice_body {B} (k : list bytes * ascii → iter B) Q it : head it ≤ length (buf it) →
  wp (elements (length (buf it) + 2) []) (λ r, wp (k r) Q) it →
  wp (s ← ReadString; c ← nextToken; r ← slice_loop c [s]; k r) Q it.
Proof.
  intros Hh (r & it3 & E & HQ). unfold elements, mbind, iter_bind in E.
  destruct (good_ReadString it it (reached_refl _ Hh)) as (s & it1 & E1 & H1). rewrite E1 in E.
  destruct (nextToken_wp it it1 H1) as (c & it2 & E2 & [H2 _] & _). rewrite E2 in E.
  apply wp_bind. eexists _, _. split; [exact E1|]. apply wp_bind. eexists _, _. split; [exact E2|].
  apply wp_bind. eexists _, _. split; [|exact HQ]. unfold slice_loop. by rewrite (reached_length _ _ H2).
Qed.

Lemma slice_read v j o t rest Q it : json_value v j → slice_reads j o → at_ t it → skip_space t = v ++ rest →
  (∀ it', at_ rest it' → Q o it') → wp slice_Decode Q it.
Proof.
  intros Hv Hj H E HQ. unfold slice_Decode. apply wp_bind. unfold slice_doDecode.
  destruct Hv as [|b|n Hn|l Hl|a Ha|w l Hw|a Ha|w l Hw]; try done; cbn [slice_reads] in Hj.
  - subst o. cbn [app bs String.list_ascii_of_string] in E. next t. behind. cbn [Ascii.eqb Bool.eqb].
    apply wp_bind. eapply skipThreeBytes_at; [eassumption|]. intros. apply wp_ret. eapply type_prefix_at; eauto.
  - destruct Hj as (ss & -> & ->%Forall2_nil_inv_l). rewrite <- app_comm_cons, <- app_assoc in E.
    next t. behind. cbn [Ascii.eqb Bool.eqb negb]. apply wp_bind.
    eapply (nextToken_at _ "]"); [eassumption|by apply skip_byte|]. intros it2 Hx2%after_at _.
    apply wp_ret. eapply type_prefix_at; [exact Hx2|]. auto.
  - destruct Hj as (ss & -> & Hss). rewrite <- app_comm_cons, <- app_assoc in E.
    next t. behind. cbn [Ascii.eqb Bool.eqb negb].
    destruct (elems_head_byte w l (bs "]" ++ rest) Hw) as (c & s & Es & Hc & Hsp). apply wp_bind.
    eapply (nextToken_at _ c); [eassumption|exact Es|]. intros it2 Hx2 _. char_neq.
    apply wp_bind. eapply unreadByte_after; [done|]. intros it3 Hx3. apply slice_body; [by eapply at_bounds|].
    eapply elements_read; [done|done|done| |apply at_bounds in Hx3; lia|].
    { instantiate (1 := rest). etransitivity; [|symmetry; exact Es]. by apply skip_space_stop. }
    intros it4 Hx4. cbn [snd fst Ascii.eqb Bool.eqb negb app]. apply wp_ret. eapply type_prefix_at; eauto.
Qed.

Lemma slice_bad v j t rest it0 it : json_value v j → slice_ok j = false → at_ t it → skip_space t = v ++ rest →
  reached it0 it → wp slice_Decode (fails it0) it.
Proof.
  intros Hv Hj H E Hr. apply fails_reached; [done|]. unfold slice_Decode.
  apply fails_bind; [|intros o; apply good_bind; [apply good_type_prefix|auto with iterator]].
  unfold slice_doDecode. destruct (elem_ok j) eqn:Ej.
  - destruct Hv as [|b|n Hn|l Hl| | | |]; try done. cbn [app] in E. next t. cbn [Ascii.eqb Bool.eqb negb dquote].
    by apply report_fails, moved_reached.
  - destruct (other_head v j Hv Ej) as (c & t' & -> & _ & Hn & Ha & _). rewrite <- app_comm_cons in E.
    next t. behind. char_neq. destruct (Ascii.eqb_spec c "["%char) as [->|Hc]; cbn [negb]; [|by apply report_fails, moved_reached].
    destruct (Ha eq_refl) as (raw & l & ->). inversion Hv as [| | | |a Ha' Er El|w l' Hw Er El| |]; subst.
    { done. }
    destruct (elems_head_byte w l (bs "]" ++ rest) Hw) as (c & s & Es & Hc & Hsp). apply wp_bind.
    eapply (nextToken_at _ c); [eassumption|by rewrite <- app_assoc|]. intros it2 Hx2 Hr2. char_neq.
    apply wp_bind. eapply unreadByte_moved; [done|done|]. intros it3 Hx3 Hr3.
    apply slice_body; [by eapply at_bounds|].
    eapply (wp_mono _ (fails _)); [intros r it4 Hf4; eapply good_fails; [auto with iterator|exact Hf4]|].
    eapply elements_bad; [done|done|done| |apply at_bounds in Hx3; lia|].
    { instantiate (1 := rest). etransitivity; [|symmetry; exact Es]. by apply skip_space_stop. }
    eapply reached_trans; [by apply moved_reached|done].
Qed.

(* ------------------------------------------------------------------ *)
(** ** Maps *)

Abbreviation member := (bytes * option (list bytes))%type.

(** The members, inserted in turn. *)
Definition insert_all (m : string_map) (l : list member) : string_map :=
  fold_left (λ m kv, <[kv.1 := kv.2]> m) l m.

Definition member_reads (kj : bytes * json) (kv : member) : Prop :=
  lit_reads kj.1 kv.1 ∧ slice_reads kj.2 kv.2.

(** The values a map is read from. *)
Definition map_ok (j : json) : bool :=
  match j with JNull => true | JObject _ l => forallb (λ kj, slice_ok kj.2) l | _ => false end.
Definition map_reads (j : json) (m : string_map) : Prop :=
  match j with
  | JNull => m = ∅
  | JObject _ l => ∃ kvs, Forall2 member_reads l kvs ∧ m = insert_all ∅ kvs
  | _ => False
  end.

(** The key and the colon of a member. *)
Lemma member_key_at a k b x t key it : spaces a → spaces b → lit_reads k key → at_ t it →
  skip_space t = skip_space (a ++ dquote :: k ++ dquote :: b ++ ":"%char :: x) →
  ∀ m Q, (∀ it', at_ x it' → reached it it' →
    wp (elem ← slice_Decode; mret (Some (<[key := elem]> m))) Q it') → wp (map_member m) Q it.
Proof.
  intros Ha Hb Hk H E m Q HQ. rewrite skip_byte in E by done. unfold map_member. apply wp_bind.
  eapply wp_mono; [|eapply (wp_good _ (λ s it', s = key ∧ at_ (b ++ ":"%char :: x) it') it)];
    [|apply good_ReadString|by eapply at_reached|eapply ReadString_lit; [done|exact E|done|by intros]].
  cbn beta. intros s it1 [[-> H1] Hr1]. apply wp_bind.
  eapply (nextToken_at _ ":"); [done|by apply skip_byte|]. intros it2 H2%after_at Hr2%moved_reached.
  cbn [Ascii.eqb Bool.eqb negb]. apply HQ; [done|by eapply reached_trans].
Qed.

Lemma member_read a k b c v j x t key o m Q it : spaces a → spaces b → spaces c → lit_reads k key →
  json_value v j → slice_reads j o → at_ t it →
  skip_space t = skip_space (a ++ dquote :: k ++ dquote :: b ++ ":"%char :: c ++ v ++ x) →
  (∀ it', at_ x it' → reached it it' → Q (Some (<[key := o]> m)) it') → wp (map_member m) Q it.
Proof.
  intros Ha Hb Hc Hk Hv Ho H E HQ. eapply member_key_at; [exact Ha|exact Hb|done|done|exact E|].
  intros it1 H1 Hr1. apply wp_bind.
  eapply wp_mono; [|eapply (wp_good _ (λ o' it', o' = o ∧ at_ x it') it);
    [|done|eapply slice_read; [done|done|done|by eapply skip_value|by intros]]].
  - cbn beta. intros o' it2 [[-> H2] Hr2]. apply wp_ret. auto.
  - apply good_bind; [apply good_slice_doDecode|]. intros. apply good_bind; [apply good_type_prefix|auto with iterator].
Qed.

Lemma member_bad a k b c v j x t m it0 it : spaces a → spaces b → spaces c → string_lit k →
  json_value v j → slice_ok j = false → at_ t it →
  skip_space t = skip_space (a ++ dquote :: k ++ dquote :: b ++ ":"%char :: c ++ v ++ x) →
  reached it0 it → wp (map_member m) (fails it0) it.
Proof.
  intros Ha Hb Hc Hk Hv Hj H E Hr. destruct (lit_reads_total _ k (le_n _) Hk) as [key Hkey].
  eapply member_key_at; [exact Ha|exact Hb|done|done|exact E|].
  intros it1 H1 Hr1. apply fails_bind; [|auto with iterator].
  eapply slice_bad; [done|done|done|by eapply skip_value|by eapply reached_trans].
Qed.

(** The members up to the brace. *)
Definition members (fuel : nat) (m : string_map) : iter string_map :=
  r ← map_member m; match r with Some m => map_loop_fuel fuel m | None => mret m end.

Lemma members_read w l : json_members w l → ∀ fuel m kvs t rest Q it, Forall2 member_reads l kvs → at_ t it →
  skip_space t = skip_space (w ++ "}"%char :: rest) → length t + 2 ≤ fuel →
  (∀ it', at_ rest it' → Q (insert_all m kvs) it') → wp (members fuel m) Q it.
Proof.
  induction 1 as [a k b c v d j Ha Hk Hb Hc Hv Hd|a k b c v d j w l Ha Hk Hb Hc Hv Hd Hw IH];
    intros fuel m kvs t rest Q it Hl H E Hf HQ;
    apply Forall2_cons_inv_l in Hl as ([key o] & kvs' & [Hs Ho] & Hl & ->); cbn [fst snd] in *;
    repeat (rewrite <- ?app_assoc in E; cbn [app] in E);
    unfold members; apply wp_bind;
    (eapply (member_read a k b c v j); [done|done|done|done|done|done|done|exact E|]); intros it1 H1 Hr1;
    (destruct fuel as [|f]; [lia|]); cbn [map_loop_fuel].
  - apply Forall2_nil_inv_l in Hl as ->. apply wp_bind.
    eapply (nextToken_at _ "}"); [done|by apply skip_byte|]. intros it2 H2%after_at _. apply wp_ret. auto.
  - apply wp_bind. eapply (nextToken_at _ ","); [done|by apply skip_byte|]. intros it2 H2%after_at _.
    eapply IH; [done|done|done| |done]. rewrite skip_byte in E by done.
    apply skip_shorter in E. shorter E.
Qed.

Lemma members_bad_rest fuel m t it0 it : at_ t it → length t + 2 ≤ fuel → reached it0 it →
  wp (map_member m) (fails it) it → wp (members fuel m) (fails it0) it.
Proof.
  intros H Hf Hr Hm. unfold members. apply wp_bind. eapply wp_mono; [|exact Hm]. cbn beta.
  intros [m'|] it1 [H1 Hf1]; [|apply wp_ret; split; [by eapply reached_trans|done]].
  eapply wp_mono; [|apply (map_loop_wp fuel m' it1 it1)].
  - cbn beta. intros ? it2 H2. split; [|by apply H2]. eapply reached_trans; [exact Hr|]. by eapply reached_trans.
  - apply reached_refl, H1.
  - apply at_bounds in H as [? El]. pose proof (reached_length _ _ H1). destruct H1 as (? & _ & ? & _). lia.
Qed.

Lemma slice_reads_total v j : json_value v j → slice_ok j = true → ∃ o, slice_reads j o.
Proof.
  intros Hv Hj. destruct j as [| | | |raw l|]; try done; [by exists None|]. cbn [slice_ok] in Hj.
  assert (∀ w, json_elems w l → ∃ ss, Forall2 elem_reads l ss) as Hl.
  { intros w Hw. clear v Hv. revert Hj. induction Hw as [a v b j Ha Hv Hb|a v b j w l Ha Hv Hb Hw IH]; cbn [forallb]; intros [Hj Hl]%andb_prop.
    - destruct (elem_reads_total v j Hv Hj) as [s Hs]. exists [s]. by repeat constructor.
    - destruct (elem_reads_total v j Hv Hj) as [s Hs], (IH Hl) as [ss Hss]. exists (s :: ss). by constructor. }
  inversion Hv as [| | | |a Ha|w l' Hw| |]; subst; [by exists (Some []), []|].
  destruct (Hl w Hw) as [ss Hss]. by exists (Some ss), ss.
Qed.

Lemma members_bad w l : json_members w l → ∀ fuel m t rest it0 it,
  forallb (λ kj, slice_ok kj.2) l = false → at_ t it →
  skip_space t = skip_space (w ++ "}"%char :: rest) → length t + 2 ≤ fuel → reached it0 it →
  wp (members fuel m) (fails it0) it.
Proof.
  induction 1 as [a k b c v d j Ha Hk Hb Hc Hv Hd|a k b c v d j w l Ha Hk Hb Hc Hv Hd Hw IH];
    intros fuel m t rest it0 it Hl H E Hf Hr; cbn [forallb fst snd] in Hl;
    repeat (rewrite <- ?app_assoc in E; cbn [app] in E).
  { rewrite andb_true_r in Hl. eapply members_bad_rest; [done|done|done|].
    eapply (member_bad a k b c v j); [done|done|done|done|done|done|done|exact E|by eapply at_reached]. }
  destruct (slice_ok j) eqn:Ej.
  2:{ eapply members_bad_rest; [done|done|done|].
    eapply (member_bad a k b c v j); [done|done|done|done|done|done|done|exact E|by eapply at_reached]. }
  cbn [andb] in Hl. destruct (slice_reads_total v j Hv Ej) as [o Ho].
  destruct (lit_reads_total _ k (le_n _) Hk) as [key Hkey].
  unfold members. apply wp_bind.
  eapply (member_read a k b c v j); [done|done|done|done|done|done|done|exact E|]. intros it1 H1 Hr1.
  destruct fuel as [|f]; [lia|]. cbn [map_loop_fuel].
  apply wp_bind. eapply (nextToken_at _ ","); [done|by apply skip_byte|]. intros it2 H2%after_at Hr2%moved_reached.
  eapply IH; [done|done|done| |eapply reached_trans; [exact Hr|by eapply reached_trans]].
  rewrite skip_byte in E by done. apply skip_shorter in E. shorter E.
Qed.

(** The members behind the brace, as the decoder reads them. *)
Lemma map_body m Q it : head it ≤ length (buf it) → wp (members (length (buf it) + 2) m) Q it →
  wp (r ← map_member m; match r with Some m => map_loop m | None => mret m end) Q it.
Proof.
  intros Hh (m' & it3 & E & HQ). unfold members, mbind, iter_bind in E.
  destruct (good_map_member m it it (reached_refl _ Hh)) as (r & it1 & E1 & H1). rewrite E1 in E.
  apply wp_bind. eexists _, _. split; [exact E1|]. exists m', it3. split; [|done].
  destruct r as [m1|]; [|done]. unfold map_loop. by rewrite (reached_length _ _ H1).
Qed.

Lemma members_head_byte w l rest : json_members w l → ∃ s, skip_space (w ++ rest) = dquote :: s.
Proof. intros []; rewrite <- !app_assoc; rewrite skip_space_app by done; by eexists. Qed.

Lemma map_read v j m t rest Q it : json_value v j → map_reads j m → at_ t it → skip_space t = v ++ rest →
  (∀ it', at_ rest it' → Q m it') → wp (map_Decode ∅) Q it.
Proof.
  intros Hv Hj H E HQ. unfold map_Decode.
  destruct Hv as [|b|n Hn|l Hl|a Ha|w l Hw|a Ha|w l Hw]; try done; cbn [map_reads] in Hj.
  - subst m. cbn [app bs String.list_ascii_of_string] in E. next t. behind. cbn [Ascii.eqb Bool.eqb].
    apply wp_bind. eapply skipThreeBytes_at; [eassumption|]. intros. apply wp_ret. auto.
  - destruct Hj as (ss & ->%Forall2_nil_inv_l & ->). rewrite <- app_comm_cons, <- app_assoc in E.
    next t. behind. cbn [Ascii.eqb Bool.eqb negb]. apply wp_bind.
    eapply (nextToken_at _ "}"); [eassumption|by apply skip_byte|]. intros it2 Hx2%after_at _.
    apply wp_ret. by apply HQ.
  - destruct Hj as (kvs & Hkvs & ->). rewrite <- app_comm_cons, <- app_assoc in E.
    next t. behind. cbn [Ascii.eqb Bool.eqb negb].
    destruct (members_head_byte w l (bs "}" ++ rest) Hw) as (s & Es). apply wp_bind.
    eapply (nextToken_at _ dquote); [eassumption|exact Es|]. intros it2 Hx2 _.
    cbn [Ascii.eqb Bool.eqb negb dquote].
    apply wp_bind. eapply unreadByte_after; [done|]. intros it3 Hx3. apply map_body; [by eapply at_bounds|].
    eapply members_read; [done|done|done| |apply at_bounds in Hx3; lia|done].
    etransitivity; [|symmetry; exact Es]. by apply skip_space_stop.
Qed.

Lemma map_bad v j t rest it : json_value v j → map_ok j = false → at_ t it → skip_space t = v ++ rest →
  wp (map_Decode ∅) (fails it) it.
Proof.
  intros Hv Hj H E. unfold map_Decode. destruct (elem_ok j) eqn:Ej.
  - destruct Hv as [|b|n Hn|l Hl| | | |]; try done. cbn [app] in E. next t. cbn [Ascii.eqb Bool.eqb negb dquote].
    by apply report_fails, moved_reached.
  - destruct (other_head v j Hv Ej) as (c & t' & -> & _ & Hn & _ & Ho). rewrite <- app_comm_cons in E.
    next t. behind. char_neq.
    destruct (Ascii.eqb_spec c "{"%char) as [->|Hc]; cbn [negb]; [|by apply report_fails, moved_reached].
    destruct (Ho eq_refl) as (raw & l & ->). inversion Hv as [| | | | | |a Ha' Er El|w l' Hw Er El]; subst.
    { done. }
    destruct (members_head_byte w l (bs "}" ++ rest) Hw) as (s & Es). apply wp_bind.
    eapply (nextToken_at _ dquote); [eassumption|by rewrite <- app_assoc|]. intros it2 Hx2 Hr2.
    cbn [Ascii.eqb Bool.eqb negb dquote].
    apply wp_bind. eapply unreadByte_moved; [done|done|]. intros it3 Hx3 Hr3.
    apply map_body; [by eapply at_bounds|].
    eapply members_bad; [done|done|done| |apply at_bounds in Hx3; lia|].
    { instantiate (1 := rest). etransitivity; [|symmetry; exact Es]. by apply skip_space_stop. }
    eapply reached_trans; [by apply moved_reached|done].
Qed.

(* ------------------------------------------------------------------ *)
(** ** Texts *)

Lemma at_start s : at_ s (ParseBytes s).
Proof. by exists []. Qed.

Lemma Unmarshal_reads s j m : json_text s j → map_reads j m → Unmarshal s = Ret m.
Proof.
  intros (a & v & b & -> & Ha & Hv & Hb) Hm. unfold Unmarshal.
  assert (wp read_all (λ m' it, m' = m ∧ Error it = Some io_EOF) (ParseBytes (a ++ v ++ b)))
    as (m' & it & -> & -> & E); [|cbn [mbind outcome_bind snd fst]; by rewrite E].
  unfold read_all. apply wp_bind. eapply map_read; [done|done|apply at_start|by eapply skip_value|].
  intros it1 H1. apply wp_bind. eapply nextToken_end; [done|by apply skip_space_all|]. intros it2 E2.
  rewrite Ascii.eqb_refl. by apply wp_ret.
Qed.

Lemma Unmarshal_rejects s j : json_text s j → map_ok j = false → ∃ e, Unmarshal s = Fail e.
Proof.
  intros (a & v & b & -> & Ha & Hv & Hb) Hm. unfold Unmarshal.
  assert (wp read_all (fails (ParseBytes (a ++ v ++ b))) (ParseBytes (a ++ v ++ b)))
    as (m' & it & -> & _ & e & E); [|cbn [mbind outcome_bind snd fst]; rewrite E; by eexists].
  unfold read_all. apply fails_bind; [|eauto 20 with iterator].
  eapply map_bad; [done|done|apply at_start|by eapply skip_value].
Qed.

Lemma map_reads_total s j : json_text s j → map_ok j = true → ∃ m, map_reads j m.
Proof.
  intros (a0 & v & b0 & _ & _ & Hv & _) Hj. destruct j as [| | | | |raw l]; try done; [by exists ∅|].
  assert (∀ w, json_members w l → ∃ kvs, Forall2 member_reads l kvs) as Hl.
  { intros w Hw. clear v Hv. revert Hj. cbn [map_ok].
    assert (∀ k v j, string_lit k → json_value v j → slice_ok j = true → ∃ kv, member_reads (k, j) kv) as H1.
    { intros k v j Hk Hv Hj. destruct (slice_reads_total v j Hv Hj) as [o Ho].
      destruct (lit_reads_total _ k (le_n _) Hk) as [key Hkey]. by exists (key, o). }
    induction Hw as [a k b c v d j Ha Hk Hb Hc Hv Hd|a k b c v d j w l Ha Hk Hb Hc Hv Hd Hw IH];
      cbn [forallb fst snd]; intros [Hj Hl]%andb_prop; destruct (H1 k v j Hk Hv Hj) as [kv Hkv].
    - exists [kv]. constructor; [exact Hkv|constructor].
    - destruct (IH Hl) as [kvs Hkvs]. exists (kv :: kvs). by constructor. }
  inversion Hv as [| | | | | |a' Ha|w l' Hw]; subst; [by exists ∅, []|].
  destruct (Hl w Hw) as [kvs Hkvs]. by exists (insert_all ∅ kvs), kvs.
Qed.
