(* ===== verification/JsonDecodeFacts.v ===== *)
(** * Decoding gives values of the type, and never panics *)

From S2P Require Import Prelude GoStd GoStdFacts GoFloat GoFloatFacts GoUtf8 Json JsonFacts.
From S2P Require Import JsonDecode.

(* ------------------------------------------------------------------ *)
(** ** Literals of strings *)

Lemma hex_value_range c : is_hex c = true → (0 <= hex_value c < 16)%Z.
Proof.
  unfold is_hex, hex_value, is_digit, in_range, digit_value, code. rewrite !orb_true_iff, !andb_true_iff.
  intros H. repeat case_match; lia.
Qed.

Lemma getu4_Some s r t : getu4 s = Some (r, t) → (0 <= r < 65536)%Z ∧
  ∃ h1 h2 h3 h4, s = backslash :: "u"%char :: h1 :: h2 :: h3 :: h4 :: t ∧
    forallb is_hex [h1; h2; h3; h4] = true.
Proof.
  destruct s as [|b [|u [|h1 [|h2 [|h3 [|h4 s]]]]]]; try done. cbn [getu4].
  destruct (Ascii.eqb_spec b backslash) as [->|]; [|done].
  destruct (Ascii.eqb_spec u "u"%char) as [->|]; [|done].
  destruct (forallb _ _) eqn:Eh; [|done]. cbn [andb]. intros [= <- <-]. split; [|by eexists _, _, _, _].
  cbn in Eh. rewrite !andb_true_iff in Eh. destruct Eh as (H1 & H2 & H3 & H4 & _).
  apply hex_value_range in H1, H2, H3, H4. lia.
Qed.

Lemma not_surrogate r : (0 <= r < 65536)%Z → is_surrogate r = false → valid_rune r = true.
Proof. unfold is_surrogate. intros ? ?. apply valid_rune_spec. unfold MaxRune. lia. Qed.

Lemma simple_escape_valid e r : simple_escape e = Some r → valid_rune r = true.
Proof.
  unfold simple_escape. intros. apply valid_rune_spec. unfold MaxRune.
  pose proof (code_range e). repeat case_match; simplify_eq; lia.
Qed.

(** What [unquote] returns is in UTF-8. *)
Lemma unquote_loop_valid n : ∀ s rs, unquote_loop n s = Some rs → Forall (λ r, valid_rune r = true) rs.
Proof.
  assert (∀ r (o : option (list Z)) rs, valid_rune r = true → (rs ← o; Some (r :: rs)) = Some rs →
    (∀ rs', o = Some rs' → Forall (λ r, valid_rune r = true) rs') → Forall (λ r, valid_rune r = true) rs) as Hcons.
  { intros r [rs'|] rs Hr; [|done]. intros [= <-] H. constructor; [done|by apply H]. }
  induction n as [|n IH]; intros s rs; cbn [unquote_loop].
  { destruct s; [|done]. intros [= <-]. constructor. }
  destruct s as [|c t]; [intros [= <-]; constructor|].
  destruct (Ascii.eqb c backslash).
  - destruct (getu4 (c :: t)) as [[rr u]|] eqn:Eg.
    + apply getu4_Some in Eg as [Hr _]. destruct (is_surrogate rr) eqn:Es.
      * destruct (getu4 u) as [[rr1 w]|]; [destruct (_ =? _)%Z|]; intros H; (eapply Hcons; [|exact H|eauto]);
          apply utf16_valid || done.
      * intros H. eapply Hcons; [|exact H|eauto]. by apply not_surrogate.
    + destruct t as [|e u]; [done|]. destruct (simple_escape e) as [r|] eqn:Ee; [|done].
      intros H. eapply Hcons; [|exact H|eauto]. by eapply simple_escape_valid.
  - destruct (_ || _); [done|]. intros H. eapply Hcons; [|exact H|eauto]. apply DecodeRune_valid.
Qed.

Lemma unquote_utf8 lit s : unquote lit = Some s → utf8 s.
Proof.
  unfold unquote. destruct (unquote_loop _ _) as [rs|] eqn:E; [|done]. intros [= <-].
  exists rs. split; [by eapply unquote_loop_valid|done].
Qed.

(** The bytes of a character behind its first are above 127. *)
Lemma DecodeRune_tail c s : Forall (λ c, 128 <= code c)%Z (take ((DecodeRune (c :: s)).2 - 1) s).
Proof.
  cbn [DecodeRune]. destruct (code c <? 128)%Z; [constructor|].
  destruct (first_info (code c)) as [[[size lo] hi]|] eqn:E; [|constructor].
  assert (128 <= lo)%Z as Hlo by (unfold first_info in E; repeat case_match; simplify_eq; lia).
  destruct s as [|c1 s2]; [constructor|]. destruct (in_range lo hi c1) eqn:E1; [|constructor].
  unfold in_range in E1. destruct (size =? 2)%nat; [repeat constructor; lia|].
  destruct s2 as [|c2 s3]; [constructor|]. unfold is_cont. destruct (in_range 128 191 c2) eqn:E2; [|constructor].
  unfold in_range in E2. destruct (size =? 3)%nat; [repeat constructor; lia|].
  destruct s3 as [|c3 s4]; [constructor|]. destruct (in_range 128 191 c3) eqn:E3; [|constructor].
  unfold in_range in E3. repeat constructor; lia.
Qed.

Lemma string_lit_drop k : ∀ s, string_lit s → Forall (λ c, 128 <= code c)%Z (take k s) → string_lit (drop k s).
Proof.
  induction k as [|k IH]; intros s Hs Hk; [done|]. destruct s as [|c s]; [done|].
  cbn in *. apply Forall_cons in Hk as [Hc Hk]. apply IH; [|done].
  inversion Hs as [|? ? _ _ _ ?|? ? _ ?|? ? ? ? ? _ ?]; subst; [done| |]; change (code backslash) with 92%Z in Hc; lia.
Qed.

(** Every literal of the grammar is unquoted. *)
Lemma unquote_loop_Some n : ∀ s, length s ≤ n → string_lit s → ∃ rs, unquote_loop n s = Some rs.
Proof.
  induction n as [|n IH]; intros s Hn Hs; (destruct s as [|c t]; [by eexists|]); [cbn in Hn; lia|].
  cbn [length] in Hn. cbn [unquote_loop].
  inversion Hs as [|? ? Hc Hq Hb Ht|e u He Hu|h1 h2 h3 h4 u Hh Hu]; subst.
  - rewrite (proj2 (Ascii.eqb_neq _ _) Hb), (proj2 (Ascii.eqb_neq _ _) Hq), Hc. cbn [orb].
    pose proof (DecodeRune_size c t) as [Hsz _]. pose proof (DecodeRune_tail c t) as Htail.
    destruct (DecodeRune (c :: t)) as [r [|k]]; cbn [fst snd] in *; [lia|].
    rewrite Nat.sub_succ, Nat.sub_0_r in Htail. cbn [drop].
    destruct (IH (drop k t)) as [rs ->]; [rewrite length_drop; lia|by apply string_lit_drop|by eexists].
  - rewrite Ascii.eqb_refl. assert (getu4 (backslash :: e :: u) = None) as ->.
    { destruct u as [|? [|? [|? [|? ?]]]]; try done. cbn [getu4]. destruct (Ascii.eqb_spec e "u"%char) as [->|]; [done|].
      by rewrite andb_false_r. }
    assert (∃ r, simple_escape e = Some r) as [r ->].
    { unfold is_simple_escape, simple_escape in *. repeat case_match; try by eexists.
      cbn in *. congruence. }
    cbn in Hn. destruct (IH u) as [rs Hrs]; [lia|done|]. cbn [mbind option_bind]. rewrite Hrs. by eexists.
  - rewrite Ascii.eqb_refl. cbn [length] in Hn. destruct (getu4 _) as [[rr w]|] eqn:Eg.
    2:{ cbn [getu4] in Eg. rewrite Hh, Ascii.eqb_refl in Eg. done. }
    apply getu4_Some in Eg as (_ & ? & ? & ? & ? & [= <- <- <- <- <-] & _).
    destruct (IH u) as [rs Hrs]; [lia|done|]. destruct (is_surrogate rr); [|rewrite Hrs; by eexists].
    destruct (getu4 u) as [[rr1 w]|] eqn:Eg; [|rewrite Hrs; by eexists].
    apply getu4_Some in Eg as (_ & ? & ? & ? & ? & -> & _).
    assert (string_lit w) as Hw by (by inversion Hu; subst).
    cbn in Hn. destruct (IH w) as [rs' Hrs']; [lia|done|].
    destruct (_ =? _)%Z; [rewrite Hrs|rewrite Hrs']; by eexists.
Qed.

Lemma unquote_Some lit : string_lit lit → ∃ s, unquote lit = Some s ∧ utf8 s.
Proof.
  intros Hl. destruct (unquote_loop_Some (length lit) lit) as [rs Hrs]; [done|done|].
  exists (EncodeRunes rs). unfold unquote. rewrite Hrs. split; [done|]. exists rs.
  split; [by eapply unquote_loop_valid|done].
Qed.

(* ------------------------------------------------------------------ *)
(** ** Typed values *)

(** The values of a type. *)
Inductive has_type : gtype → gval → Prop :=
| ty_string s : utf8 s → has_type TString (GString s)
| ty_bool b : has_type TBool (GBool b)
| ty_float f : finite64 f = true → has_type TFloat64 (GFloat f)
| ty_int w n : in_int w n = true → has_type (TInt w) (GInt n)
| ty_uint w n : in_uint w n = true → has_type (TUint w) (GInt n)
| ty_nil_map : has_type TStringMap (GMap None)
| ty_map m : map_Forall (λ k v, utf8 k ∧ utf8 v) m → has_type TStringMap (GMap (Some m))
| ty_nil t : has_type (TPtr t) (GPtr None)
| ty_ptr t v : has_type t v → has_type (TPtr t) (GPtr (Some v))
| ty_slice t b vs stale : Forall (has_type t) vs → Forall (has_type t) stale → has_type (TSlice t) (GSlice b vs stale)
| ty_struct fields vs : Forall2 (λ f v, has_type f.2 v) fields vs → has_type (TStruct fields) (GStruct vs)
| ty_opaque : has_type TUnmarshaler GOpaque.
#[export] Hint Constructors has_type : go.

(** Induction on types, through the fields of structs. *)
Fixpoint gtype_fields_ind (P : gtype → Prop)
  (Hs : P TString) (Hb : P TBool) (Hf : P TFloat64) (Hi : ∀ w, P (TInt w)) (Hu : ∀ w, P (TUint w))
  (Hm : P TStringMap) (Hp : ∀ t, P t → P (TPtr t)) (Hsl : ∀ t, P t → P (TSlice t))
  (Hst : ∀ fields, Forall (λ f, P f.2) fields → P (TStruct fields)) (Ho : P TUnmarshaler) (t : gtype) : P t :=
  let IH := gtype_fields_ind P Hs Hb Hf Hi Hu Hm Hp Hsl Hst Ho in
  match t with
  | TString => Hs | TBool => Hb | TFloat64 => Hf | TInt w => Hi w | TUint w => Hu w
  | TStringMap => Hm | TPtr t => Hp t (IH t) | TSlice t => Hsl t (IH t)
  | TStruct fields =>
      Hst fields ((fix all (l : list (bytes * gtype)) : Forall (λ f, P f.2) l :=
                     match l with [] => Forall_nil_2 _ | f :: l' => Forall_cons_2 _ _ _ (IH f.2) (all l') end) fields)
  | TUnmarshaler => Ho
  end.

Lemma utf8_nil : utf8 [].
Proof. by exists []. Qed.

Lemma zero_typed t : has_type t (zero t).
Proof.
  induction t as [| | |[]|[]| | | |fields IH|] using gtype_fields_ind; cbn [zero]; try by constructor.
  - constructor. apply utf8_nil.
  - constructor. induction IH as [|f l Hf _ IHl]; cbn [map]; by constructor.
Qed.

Lemma find_index_Some {A} (f : A → bool) l i : find_index f l = Some i → ∃ x, l !! i = Some x ∧ f x = true.
Proof.
  revert i. induction l as [|x l IH]; intros i; [done|]. cbn. destruct (f x) eqn:E; [intros [= <-]; by exists x|].
  destruct (find_index f l) as [k|]; [|done]. intros [= <-]. by apply IH.
Qed.

Lemma find_field_Some fields key i : find_field fields key = Some i → ∃ f, fields !! i = Some f.
Proof.
  unfold find_field. destruct (find_index (λ f, bytes_equal f.1 key) fields) as [k|] eqn:E.
  - intros [= <-]. apply find_index_Some in E as (f & ? & _). by exists f.
  - intros (f & ? & _)%find_index_Some. by exists f.
Qed.

(* ------------------------------------------------------------------ *)
(** ** Decoding is typed *)

(** A decoder that returns values of a property, or fails; it does not
    panic. *)
Definition dec_ok {A} (P : A → Prop) (m : dec A) : Prop := ∀ saved,
  match m saved with Ret (a, _) => P a | Fail _ => True | Panic => False end.

Lemma dec_ok_ret {A} (P : A → Prop) (a : A) : P a → dec_ok P (mret a).
Proof. by intros H saved. Qed.

Lemma dec_ok_save {A} (P : A → Prop) what (a : A) : P a → dec_ok P (save_error what a).
Proof. by intros H saved. Qed.

Lemma dec_ok_bind {A B} (P : A → Prop) (Q : B → Prop) (m : dec A) (f : A → dec B) :
  dec_ok P m → (∀ a, P a → dec_ok Q (f a)) → dec_ok Q (a ← m; f a).
Proof.
  intros Hm Hf saved. specialize (Hm saved). unfold mbind, dec_bind.
  destruct (m saved) as [[a saved']|e|]; [|done|done]. by apply Hf.
Qed.
#[export] Hint Resolve dec_ok_ret dec_ok_save : go.

Lemma decode_key_ok lit : string_lit lit → dec_ok utf8 (decode_key lit).
Proof. intros (s & E & Hs)%unquote_Some saved. unfold decode_key. by rewrite E. Qed.

(** The loops of the decoder. *)
Section Loops.
Context (U : bytes → outcome ()) (U_safe : ∀ text, U text ≠ Panic).

Section Elems.
Context (t : gtype).
Fixpoint decode_elems (l : list json) (held : list gval) : dec (list gval * list gval) :=
  match l with
  | [] => mret ([], held)
  | j :: l' =>
      x ← decode U j t (default (zero t) (head held));
      r ← decode_elems l' (tail held);
      mret (x :: r.1, r.2)
  end.
End Elems.

Section Members.
Context (fields : list (bytes * gtype)).
Fixpoint decode_members (l : list (bytes * json)) (vs : list gval)
  : dec (list gval) :=
  match l with
  | [] => mret vs
  | (k, j) :: l' =>
      key ← decode_key k;
      match find_field fields key with
      | None => decode_members l' vs
      | Some i =>
          x ← decode U j (default TUnmarshaler (snd <$> fields !! i)) (default GOpaque (vs !! i));
          decode_members l' (<[i := x]> vs)
      end
  end.
End Members.

Fixpoint decode_entries (l : list (bytes * json)) (m : gmap bytes bytes) : dec (gmap bytes bytes) :=
  match l with
  | [] => mret m
  | (k, j) :: l' =>
      key ← decode_key k;
      x ← decode U j TString (GString []);
      decode_entries l' (<[key := match x with GString s => s | _ => [] end]> m)
  end.

Lemma decode_array raw l t v : decode U (JArray raw l) (TSlice t) v =
  (vs ← decode_elems t l (match v with GSlice _ elems stale => elems ++ stale | _ => [] end);
   mret (match l with [] => GSlice false [] [] | _ => GSlice false vs.1 vs.2 end)).
Proof. done. Qed.

Lemma decode_struct raw l fields v : decode U (JObject raw l) (TStruct fields) v =
  (vs ← decode_members fields l (match v with GStruct vs => vs | _ => [] end); mret (GStruct vs)).
Proof. done. Qed.

Lemma decode_map raw l v : decode U (JObject raw l) TStringMap v =
  (m ← decode_entries l (match v with GMap (Some m) => m | _ => ∅ end); mret (GMap (Some m))).
Proof. done. Qed.

(** A pointer is allocated, unless it is there or the value is null. *)
Lemma decode_ptr j t v : j ≠ JNull → decode U j (TPtr t) v =
  (w ← decode U j t (match v with GPtr (Some w) => w | _ => zero t end); mret (GPtr (Some w))).
Proof. by destruct j. Qed.

(** What is proved of a value, for every type. *)
Definition decodes (j : json) : Prop := ∀ t v, has_type t v → dec_ok (has_type t) (decode U j t v).

Lemma decode_elems_ok t l : Forall decodes l → ∀ held, Forall (has_type t) held →
  dec_ok (λ r, Forall (has_type t) r.1 ∧ Forall (has_type t) r.2) (decode_elems t l held).
Proof.
  induction 1 as [|j l Hj _ IH]; intros held Hh; cbn [decode_elems]; [apply dec_ok_ret; by split; [constructor|]|].
  eapply dec_ok_bind; [apply Hj|].
  - destruct Hh; [apply zero_typed|done].
  - intros x Hx. eapply dec_ok_bind; [apply IH; by destruct Hh|]. intros [vs rest] [H1 H2].
    apply dec_ok_ret. split; [by constructor|done].
Qed.

Lemma decode_members_ok fields l : Forall (λ kj, string_lit kj.1 ∧ decodes kj.2) l →
  ∀ vs, Forall2 (λ f v, has_type f.2 v) fields vs →
  dec_ok (Forall2 (λ f v, has_type f.2 v) fields) (decode_members fields l vs).
Proof.
  induction 1 as [|[k j] l [Hk Hj] _ IH]; intros vs Hvs; cbn [decode_members]; [by apply dec_ok_ret|].
  eapply dec_ok_bind; [by apply decode_key_ok|]. intros key _.
  destruct (find_field fields key) as [i|] eqn:Ei; [|by apply IH].
  apply find_field_Some in Ei as [f Hf]. destruct (Forall2_lookup_l _ _ _ _ _ Hvs Hf) as (v & Hv & Htv).
  rewrite Hf, Hv. cbn [fmap option_fmap option_map default]. eapply dec_ok_bind; [by apply Hj|].
  intros x Hx. apply IH. rewrite <- (list_insert_id fields i f Hf). by apply Forall2_insert.
Qed.

Lemma decode_entries_ok l : Forall (λ kj, string_lit kj.1 ∧ decodes kj.2) l →
  ∀ m, map_Forall (λ k v, utf8 k ∧ utf8 v) m →
  dec_ok (map_Forall (λ k v, utf8 k ∧ utf8 v)) (decode_entries l m).
Proof.
  induction 1 as [|[k j] l [Hk Hj] _ IH]; intros m Hm; cbn [decode_entries]; [by apply dec_ok_ret|].
  eapply dec_ok_bind; [by apply decode_key_ok|]. intros key Hkey.
  eapply dec_ok_bind; [apply Hj; constructor; apply utf8_nil|].
  intros x Hx. apply IH. inversion Hx; subst. by apply map_Forall_insert_2.
Qed.

Lemma special_number s : number_lit s → special_float s = None.
Proof.
  intros (sign & i & f & e & -> & Hsign & Hi & _).
  assert (∃ d t, i ++ f ++ e = d :: t ∧ is_digit d = true) as (d & t & -> & Hd).
  { destruct Hi as [|d s Hd _ _]; by eexists _, _. }
  destruct Hsign as [-> | ->]; [by apply not_special_digit|by apply not_special_neg_digit].
Qed.

Lemma decode_number_ok s t v : number_lit s → has_type t v → dec_ok (has_type t) (decode_number s t v).
Proof.
  intros Hs Hv. unfold decode_number. destruct t; try (by apply dec_ok_save).
  - destruct (parse_float s) as [f| |] eqn:E; try (by apply dec_ok_save). apply dec_ok_ret. constructor.
    eapply parse_float_finite; [|exact E]. by apply special_number.
  - destruct (parse_int s) as [n| |]; try (by apply dec_ok_save).
    destruct (in_int w n) eqn:E; [apply dec_ok_ret; by constructor|by apply dec_ok_save].
  - destruct (parse_uint s) as [n| |]; try (by apply dec_ok_save).
    destruct (in_uint w n) eqn:E; [apply dec_ok_ret; by constructor|by apply dec_ok_save].
Qed.

Lemma decode_scalar_ok j t v : (∀ t', t ≠ TPtr t') → t ≠ TUnmarshaler →
  match j with
  | JNull | JBool _ => True
  | JNumber s => number_lit s
  | JString s => string_lit s
  | _ => False
  end → has_type t v → dec_ok (has_type t) (decode U j t v).
Proof.
  intros Hp Hu Hj Hv. destruct j as [|b|s|s| |]; try done.
  - assert (decode U JNull t v = mret (decode_null t v)) as -> by (destruct t; naive_solver).
    apply dec_ok_ret. destruct t; try done; by constructor.
  - assert (decode U (JBool b) t v = decode_bool b t v) as -> by (destruct t; naive_solver).
    unfold decode_bool. destruct t; try (by apply dec_ok_save). apply dec_ok_ret. constructor.
  - assert (decode U (JNumber s) t v = decode_number s t v) as -> by (destruct t; naive_solver).
    by apply decode_number_ok.
  - assert (decode U (JString s) t v = decode_string s t v) as -> by (destruct t; naive_solver).
    unfold decode_string. eapply dec_ok_bind; [by apply decode_key_ok|]. intros x Hx.
    destruct t; try (by apply dec_ok_save). apply dec_ok_ret. by constructor.
Qed.

Lemma decode_array_ok raw l : Forall decodes l → ∀ t v, (∀ t', t ≠ TPtr t') → t ≠ TUnmarshaler →
  has_type t v → dec_ok (has_type t) (decode U (JArray raw l) t v).
Proof.
  intros Hl t v Hp Hu Hv. destruct t; try (by apply dec_ok_save); try (by destruct (Hp t)).
  rewrite decode_array. eapply dec_ok_bind; [by apply decode_elems_ok; [|inversion Hv; subst; apply Forall_app]|].
  intros r [H1 H2]. apply dec_ok_ret. destruct l; by constructor.
Qed.

Lemma decode_object_ok raw l : Forall (λ kj, string_lit kj.1 ∧ decodes kj.2) l →
  ∀ t v, (∀ t', t ≠ TPtr t') → t ≠ TUnmarshaler →
  has_type t v → dec_ok (has_type t) (decode U (JObject raw l) t v).
Proof.
  intros Hl t v Hp Hu Hv. destruct t; try (by apply dec_ok_save); try (by destruct (Hp t)).
  - rewrite decode_map. eapply dec_ok_bind; [by apply decode_entries_ok; [|inversion Hv; subst]|].
    intros r Hr. apply dec_ok_ret. by constructor.
  - rewrite decode_struct. eapply dec_ok_bind; [by apply decode_members_ok; [|inversion Hv; subst]|].
    intros r Hr. apply dec_ok_ret. by constructor.
Qed.

(** Through pointers and methods, for every value. *)
Lemma decodes_any j : (∀ t v, (∀ t', t ≠ TPtr t') → t ≠ TUnmarshaler → has_type t v →
  dec_ok (has_type t) (decode U j t v)) → decodes j.
Proof.
  intros H t. induction t as [| | | | | |t IH| | |]; intros v Hv; try (by apply H).
  - assert (j = JNull ∨ j ≠ JNull) as [-> | Hj] by (destruct j; auto).
    { apply dec_ok_ret. constructor. }
    rewrite decode_ptr by done. eapply dec_ok_bind; [apply IH|].
    + inversion Hv; subst; [apply zero_typed|done].
    + intros w Hw. apply dec_ok_ret. by constructor.
  - assert (decode U j TUnmarshaler v = decode_unmarshaler U (raw_text j)) as -> by (by destruct j).
    intros saved. unfold decode_unmarshaler. specialize (U_safe (raw_text j)).
    destruct (U (raw_text j)); [constructor|done|done].
Qed.

Lemma decode_ok :
  (∀ w j, json_value w j → decodes j) ∧ (∀ w l, json_elems w l → Forall decodes l) ∧
  (∀ w l, json_members w l → Forall (λ kj, string_lit kj.1 ∧ decodes kj.2) l).
Proof.
  apply (json_mutind (λ _, decodes) (λ _, Forall decodes) (λ _, Forall (λ kj, string_lit kj.1 ∧ decodes kj.2)));
    intros; try (by constructor); try (apply decodes_any; intros).
  1-4: by apply decode_scalar_ok.
  all: (apply decode_array_ok || apply decode_object_ok); done || constructor.
Qed.

(** [Unmarshal] does not panic, and returns a value of the type. *)
Lemma Unmarshal_typed t s : match Unmarshal U t s with Ret v => has_type t v | Fail _ => True | Panic => False end.
Proof.
  unfold Unmarshal. destruct (Parse s) as [j|] eqn:E; [|done].
  apply Parse_iff in E as (a & w & b & _ & _ & Hj & _).
  pose proof (proj1 decode_ok w j Hj t (zero t) (zero_typed t) None) as H.
  by destruct (decode U j t (zero t) None) as [[v [e|]]|e|].
Qed.
End Loops.

(* ------------------------------------------------------------------ *)
(** ** Text *)

Definition hex_digit (n : Z) : ascii := if (n <? 10)%Z then chr (48 + n) else chr (87 + n).

Definition quote_byte (c : ascii) : bytes :=
  if Ascii.eqb c dquote || Ascii.eqb c backslash then [backslash; c]
  else if is_control c then backslash :: bs "u00" ++ [hex_digit (code c / 16); hex_digit (code c mod 16)]
  else [c].

(** The literal of a string. *)
Definition quote (s : bytes) : bytes := concat (map quote_byte s).

Definition mk_array (l : list json) : json :=
  JArray ("["%char :: join (bs ",") (map raw_text l) ++ bs "]") l.
Definition member_text (kj : bytes * json) : bytes := dquote :: kj.1 ++ dquote :: ":"%char :: raw_text kj.2.
Definition mk_object (l : list (bytes * json)) : json :=
  JObject ("{"%char :: join (bs ",") (map member_text l) ++ bs "}") l.

Fixpoint to_json (t : gtype) (v : gval) : json :=
  match t, v with
  | TString, GString s => JString (quote s)
  | TBool, GBool b => JBool b
  | TFloat64, GFloat f => JNumber (format_float f)
  | TInt _, GInt n | TUint _, GInt n => JNumber (format_int n)
  | TStringMap, GMap (Some m) =>
      mk_object (map (λ kv, (quote kv.1, JString (quote kv.2))) (map_to_list m))
  | TPtr t', GPtr (Some w) => to_json t' w
  | TSlice t', GSlice false vs _ => mk_array (map (to_json t') vs)
  | TStruct fields, GStruct vs => mk_object (zip_with (λ f v, (quote f.1, to_json f.2 v)) fields vs)
  | _, _ => JNull
  end.

(** Values without stale elements, whose slices are nil or not, whose
    pointers point to structs, and without values decoded by methods. *)
Inductive plain : gtype → gval → Prop :=
| pl_string s : utf8 s → plain TString (GString s)
| pl_bool b : plain TBool (GBool b)
| pl_float f : finite64 f = true → plain TFloat64 (GFloat f)
| pl_int w n : in_int w n = true → plain (TInt w) (GInt n)
| pl_uint w n : in_uint w n = true → plain (TUint w) (GInt n)
| pl_nil_map : plain TStringMap (GMap None)
| pl_map m : map_Forall (λ k v, utf8 k ∧ utf8 v) m → plain TStringMap (GMap (Some m))
| pl_nil_ptr t : plain (TPtr t) (GPtr None)
| pl_ptr fields v : plain (TStruct fields) v → plain (TPtr (TStruct fields)) (GPtr (Some v))
| pl_nil t : plain (TSlice t) (GSlice true [] [])
| pl_slice t vs : Forall (plain t) vs → plain (TSlice t) (GSlice false vs [])
| pl_struct fields vs : Forall2 (λ f v, plain f.2 v) fields vs → plain (TStruct fields) (GStruct vs).
#[export] Hint Constructors plain : go.

(** Types whose fields have different names, in ASCII. *)
Fixpoint type_ok (t : gtype) : bool :=
  match t with
  | TPtr t | TSlice t => type_ok t
  | TStruct fields =>
      bool_decide (NoDup fields.*1) && forallb (λ f, forallb (λ c, (code c <? 128)%Z) f.1) fields
      && forallb (λ f, type_ok f.2) fields
  | _ => true
  end.

(* ------------------------------------------------------------------ *)
(** ** Strings *)

Lemma ascii_utf8 s : Forall (λ c, code c < 128)%Z s → utf8 s.
Proof.
  intros H. exists (map code s). split.
  - apply Forall_map. eapply Forall_impl; [exact H|]. intros c Hc. apply valid_rune_spec. unfold MaxRune.
    pose proof (code_range c). lia.
  - induction H as [|c s Hc _ IH]; [done|]. cbn [map]. rewrite EncodeRunes_cons, <- IH, EncodeRune_ascii.
    + by rewrite chr_code.
    + pose proof (code_range c). lia.
Qed.

Lemma quote_app a b : quote (a ++ b) = quote a ++ quote b.
Proof. unfold quote. by rewrite map_app, concat_app. Qed.

Lemma quote_byte_high c : (128 <= code c)%Z → quote_byte c = [c].
Proof.
  intros Hc. unfold quote_byte, is_control. rewrite (proj2 (Z.ltb_ge _ _)) by lia.
  destruct (Ascii.eqb_spec c dquote) as [->|]; [by vm_compute in Hc|].
  destruct (Ascii.eqb_spec c backslash) as [->|]; [by vm_compute in Hc|]. done.
Qed.

Lemma quote_high s : Forall (λ c, 128 <= code c)%Z s → quote s = s.
Proof.
  induction 1 as [|c s Hc _ IH]; [done|]. change (quote (c :: s)) with (quote_byte c ++ quote s).
  by rewrite quote_byte_high, IH.
Qed.

Lemma hex_digit_value n : (0 <= n < 16)%Z → hex_value (hex_digit n) = n ∧ is_hex (hex_digit n) = true.
Proof.
  intros Hn. assert (n = 0 ∨ n = 1 ∨ n = 2 ∨ n = 3 ∨ n = 4 ∨ n = 5 ∨ n = 6 ∨ n = 7 ∨ n = 8 ∨ n = 9 ∨
    n = 10 ∨ n = 11 ∨ n = 12 ∨ n = 13 ∨ n = 14 ∨ n = 15)%Z as H by lia.
  repeat destruct H as [->|H]; try done. by subst n.
Qed.

Lemma quote_lit s : string_lit (quote s).
Proof.
  induction s as [|c s IH]; [constructor|]. change (quote (c :: s)) with (quote_byte c ++ quote s).
  unfold quote_byte. destruct (Ascii.eqb_spec c dquote) as [->|Hq]; [by constructor|].
  destruct (Ascii.eqb_spec c backslash) as [->|Hb]; [by constructor|]. cbn [orb].
  destruct (is_control c) eqn:Ec; [|by constructor].
  unfold is_control in Ec. apply Z.ltb_lt in Ec. pose proof (code_range c).
  pose proof (Z.div_mod (code c) 16 ltac:(lia)). pose proof (Z.mod_pos_bound (code c) 16 ltac:(lia)).
  destruct (hex_digit_value (code c / 16)) as [_ X1]; [lia|].
  destruct (hex_digit_value (code c mod 16)) as [_ X2]; [lia|].
  cbn [bs String.list_ascii_of_string app]. constructor; [|done]. cbn [forallb]. by rewrite X1, X2.
Qed.

(** The three forms of a byte below 128. *)
Lemma unquote_quote_byte c q n : (code c < 128)%Z → length (quote_byte c) + length q ≤ S n →
  unquote_loop (S n) (quote_byte c ++ q) = (rs ← unquote_loop n q; Some (code c :: rs)).
Proof.
  intros Hc Hn. unfold quote_byte in *. destruct (Ascii.eqb_spec c dquote) as [->|Hq].
  { cbn [orb app unquote_loop]. rewrite Ascii.eqb_refl. by destruct q as [|? [|? [|? [|? ?]]]]. }
  destruct (Ascii.eqb_spec c backslash) as [->|Hb].
  { cbn [orb app unquote_loop]. rewrite Ascii.eqb_refl. by destruct q as [|? [|? [|? [|? ?]]]]. }
  cbn [orb] in *. destruct (is_control c) eqn:Ec.
  - unfold is_control in Ec. apply Z.ltb_lt in Ec. pose proof (code_range c).
    pose proof (Z.div_mod (code c) 16 ltac:(lia)). pose proof (Z.mod_pos_bound (code c) 16 ltac:(lia)).
    destruct (hex_digit_value (code c / 16)) as [V1 X1]; [lia|].
    destruct (hex_digit_value (code c mod 16)) as [V2 X2]; [lia|].
    cbn [bs String.list_ascii_of_string app unquote_loop]. rewrite Ascii.eqb_refl.
    cbn [getu4]. rewrite Ascii.eqb_refl. change ("u" =c "u") with true. cbn [forallb]. rewrite X1, X2.
    change (is_hex "0") with true. cbn [andb]. rewrite V1, V2. change (hex_value "0") with 0%Z.
    replace (0 * 4096 + 0 * 256 + code c / 16 * 16 + code c mod 16)%Z with (code c) by lia.
    assert (is_surrogate (code c) = false) as -> by (unfold is_surrogate; lia). done.
  - cbn [app unquote_loop]. rewrite (proj2 (Ascii.eqb_neq _ _) Hb), (proj2 (Ascii.eqb_neq _ _) Hq), Ec.
    cbn [orb]. assert (DecodeRune (c :: q) = (code c, 1)) as ->; [|done].
    cbn [DecodeRune]. by rewrite (proj2 (Z.ltb_lt _ _)).
Qed.

Lemma unquote_loop_quote rs : Forall (λ r, valid_rune r = true) rs → ∀ n,
  length (quote (EncodeRunes rs)) ≤ n → unquote_loop n (quote (EncodeRunes rs)) = Some rs.
Proof.
  induction 1 as [|r rs Hr Hrs IH]; intros n Hn; [by destruct n|].
  rewrite EncodeRunes_cons, quote_app in *. rewrite length_app in Hn.
  destruct (Z.lt_ge_cases r 128) as [Hl|Hh].
  - assert (0 <= r)%Z by (apply valid_rune_spec in Hr; lia).
    rewrite EncodeRune_ascii in * by lia. change (quote [chr r]) with (quote_byte (chr r) ++ []) in *.
    rewrite app_nil_r in *.
    assert (1 ≤ length (quote_byte (chr r))) by (unfold quote_byte; repeat case_match; cbn; lia).
    destruct n as [|n]; [lia|]. rewrite unquote_quote_byte by (rewrite ?code_chr; lia).
    rewrite IH by lia. cbn. by rewrite code_chr by lia.
  - pose proof (EncodeRune_high r Hr Hh) as Hhigh. rewrite quote_high in * by done.
    pose proof (DecodeRune_EncodeRune r (quote (EncodeRunes rs)) Hr) as Hd.
    destruct (EncodeRune r) as [|c w] eqn:E; [by destruct (EncodeRune_nonempty r)|].
    apply Forall_cons in Hhigh as [Hc _]. destruct n as [|n]; [cbn in Hn; lia|].
    cbn [app unquote_loop] in *. rewrite Hd.
    assert (Ascii.eqb c backslash = false ∧ Ascii.eqb c dquote || is_control c = false) as [-> ->].
    { unfold is_control. destruct (Ascii.eqb_spec c backslash) as [->|]; [by vm_compute in Hc|].
      destruct (Ascii.eqb_spec c dquote) as [->|]; [by vm_compute in Hc|]. cbn. lia. }
    cbn [fst snd length drop]. rewrite drop_app_length. rewrite IH; [done|]. cbn in Hn. lia.
Qed.

Lemma unquote_quote s : utf8 s → unquote (quote s) = Some s.
Proof. intros (rs & Hrs & ->). unfold unquote. by rewrite unquote_loop_quote. Qed.

(* ------------------------------------------------------------------ *)
(** ** Numbers *)

Lemma digits_head n : (0 < n)%Z → ∃ d s, digits n = d :: s ∧ d ≠ "0"%char ∧ is_digit d = true ∧ all_digits s.
Proof.
  intros Hn. assert (0 <= n)%Z as Hn' by lia. revert Hn. revert n Hn'. apply (digits_ind (λ n, 0 < n → _)%Z); intros n Hn.
  - intros Hp. rewrite digits_small by done. exists (digit n), []. repeat split; [|by apply is_digit_digit|constructor].
    intros E. apply (f_equal digit_value) in E. rewrite digit_value_digit in E by done. cbv in E. lia.
  - intros IH _. rewrite digits_large by done. destruct IH as (d & s & -> & H1 & H2 & H3).
    { apply Z.div_str_pos. lia. }
    exists d, (s ++ [digit (n mod 10)]). repeat split; try done. apply Forall_app. split; [done|].
    repeat constructor. apply is_digit_digit, Z.mod_pos_bound. lia.
Qed.

Lemma digits_int_part n : (0 <= n)%Z → int_part (digits n).
Proof.
  intros Hn. destruct (Z.eq_dec n 0) as [->|]; [constructor|].
  destruct (digits_head n) as (d & s & -> & ? & ? & ?); [lia|]. by constructor.
Qed.

Lemma format_int_lit n : number_lit (format_int n).
Proof.
  unfold format_int. destruct (Z.ltb_spec n 0).
  - exists (bs "-"), (digits (- n)), [], []. rewrite !app_nil_r. repeat split; auto; [|constructor..].
    apply digits_int_part. lia.
  - exists [], (digits n), [], []. rewrite !app_nil_r. repeat split; auto; [|constructor..].
    by apply digits_int_part.
Qed.

Lemma decimal_text_parts mant k : (0 < mant)%Z → ∃ i f, decimal_text mant k = i ++ f ∧ int_part i ∧ frac_part f.
Proof.
  intros Hm. destruct (digits_head mant Hm) as (d & s & E & Hd0 & Hd & Hs). unfold decimal_text. rewrite E.
  assert (all_digits (d :: s)) as Hds by by constructor.
  destruct (Z.leb_spec 0 k).
  { exists ((d :: s) ++ zeros k), []. rewrite app_nil_r. repeat split; [|constructor].
    cbn [app]. constructor; [done|done|]. apply Forall_app. auto using zeros_digits. }
  destruct (Z.leb_spec (Z.of_nat (length (d :: s))) (- k)).
  - set (z := zeros _). assert (all_digits z) as Hz by apply zeros_digits. clearbody z.
    exists (bs "0"), ("."%char :: z ++ d :: s). repeat split; [constructor|].
    destruct z as [|c z]; [by constructor|]. cbn [app]. constructor. change (c :: z ++ d :: s) with ((c :: z) ++ d :: s).
    by apply Forall_app.
  - set (p := Z.to_nat _). assert (0 < p < length (d :: s)) as Hp by lia.
    exists (take p (d :: s)), ("."%char :: drop p (d :: s)). repeat split.
    + destruct p as [|p]; [lia|]. cbn [take]. constructor; [done|done|]. by apply Forall_take.
    + destruct (drop p (d :: s)) as [|c z] eqn:Ed; [apply (f_equal length) in Ed; rewrite length_drop in Ed; cbn in *; lia|].
      constructor. rewrite <- Ed. by apply Forall_drop.
Qed.

Lemma format_float_lit f : finite64 f = true → number_lit (format_float f).
Proof.
  intros Hfin%finite64_reparses. revert Hfin. destruct f as [s|s| |s m e]; cbn [reparses]; try done.
  - intros _. destruct s; [exists (bs "-"), (bs "0"), [], []|exists [], (bs "0"), [], []];
      repeat split; auto; constructor.
  - destruct (shortest m e) as [mant k] eqn:E. intros [Hm _]%andb_true_iff. apply Z.ltb_lt in Hm.
    cbn [format_float]. rewrite E. destruct (decimal_text_parts mant k Hm) as (i & f & -> & Hi & Hf).
    exists (if s then bs "-" else []), i, f, []. rewrite app_nil_r.
    repeat split; auto; [by destruct s; auto..|constructor].
Qed.

(* ------------------------------------------------------------------ *)
(** ** The text is in the grammar *)

Definition self_value (j : json) : Prop := json_value (raw_text j) j.

Lemma mk_array_value l : Forall self_value l → self_value (mk_array l).
Proof.
  intros Hl. unfold self_value, mk_array. cbn [raw_text].
  destruct Hl as [|j l Hj Hl]; [apply (v_empty_array []); constructor|]. constructor.
  revert j Hj. induction Hl as [|k l Hk _ IH]; intros j Hj.
  - replace (join (bs ",") (map raw_text [j])) with ([] ++ raw_text j ++ []) by (cbn; by rewrite app_nil_r).
    by constructor; [constructor| |constructor].
  - change (join (bs ",") (map raw_text (j :: k :: l)))
      with ([] ++ raw_text j ++ [] ++ ","%char :: join (bs ",") (map raw_text (k :: l))).
    constructor; [constructor|done|constructor|by apply IH].
Qed.

Lemma mk_object_value l : Forall (λ kj, string_lit kj.1 ∧ self_value kj.2) l → self_value (mk_object l).
Proof.
  intros Hl. unfold self_value, mk_object. cbn [raw_text].
  destruct Hl as [|kj l Hj Hl]; [apply (v_empty_object []); constructor|]. constructor.
  revert kj Hj. induction Hl as [|kj' l Hk _ IH]; intros [k j] [Hlit Hj].
  - replace (join (bs ",") (map member_text [(k, j)]))
      with ([] ++ dquote :: k ++ dquote :: [] ++ ":"%char :: [] ++ raw_text j ++ [])
      by (cbn; unfold member_text; cbn; by rewrite app_nil_r).
    constructor; done || constructor.
  - assert (join (bs ",") (map member_text ((k, j) :: kj' :: l)) =
      [] ++ dquote :: k ++ dquote :: [] ++ ":"%char :: [] ++ raw_text j ++ [] ++
      ","%char :: join (bs ",") (map member_text (kj' :: l))) as ->.
    { cbn [map join]. unfold member_text at 1. cbn [fst snd bs String.list_ascii_of_string]. app_eq. }
    constructor; try done; try constructor. by apply IH.
Qed.

Lemma to_json_value t : ∀ v, plain t v → self_value (to_json t v).
Proof.
  induction t as [| | | | | |t IH|t IH|fields IH|] using gtype_fields_ind; intros v Hv;
    inversion Hv; subst; cbn [to_json]; try by constructor.
  - constructor. apply quote_lit.
  - constructor. by apply format_float_lit.
  - constructor. apply format_int_lit.
  - constructor. apply format_int_lit.
  - apply mk_object_value. apply Forall_map, Forall_forall. intros [k x] _. split; [apply quote_lit|].
    constructor. apply quote_lit.
  - by apply IH.
  - apply mk_array_value. apply Forall_map. by eapply Forall_impl.
  - apply mk_object_value. clear Hv.
    match goal with H : Forall2 _ _ _ |- _ => induction H as [|f v fields vs Hfv _ IHf] end; [constructor|].
    apply Forall_cons in IH as [Hf IH]. cbn [zip_with]. constructor; [|by apply IHf].
    split; [apply quote_lit|by apply Hf].
Qed.

(* ------------------------------------------------------------------ *)
(** ** The text decodes to the value *)

Section Decode.
Context (U : bytes → outcome ()).

(** From the zero value. *)
Definition restores (t : gtype) (v : gval) : Prop :=
  ∀ saved, decode U (to_json t v) t (zero t) saved = Ret (v, saved).

Lemma decode_quote s saved : utf8 s → decode_key (quote s) saved = Ret (s, saved).
Proof. intros Hs. unfold decode_key. by rewrite unquote_quote. Qed.

Lemma decode_elems_restores t vs : Forall (restores t) vs → ∀ saved,
  decode_elems U t (map (to_json t) vs) [] saved = Ret ((vs, []), saved).
Proof.
  induction 1 as [|v vs Hv _ IH]; intros saved; [done|]. cbn [map decode_elems head default tail].
  unfold mbind, dec_bind at 1. rewrite Hv. unfold dec_bind. by rewrite IH.
Qed.

Lemma find_index_first {A} (f : A → bool) l x r : Forall (λ y, f y = false) l → f x = true →
  find_index f (l ++ x :: r) = Some (length l).
Proof. intros Hl Hx. induction Hl as [|y l Hy _ IH]; cbn; [by rewrite Hx|]. by rewrite Hy, IH. Qed.

Lemma decode_members_restores f2 vs2 : Forall2 (λ f v, utf8 f.1 ∧ restores f.2 v) f2 vs2 →
  ∀ f1 vs1 saved, NoDup (f1 ++ f2).*1 → length f1 = length vs1 →
  decode_members U (f1 ++ f2) (zip_with (λ f v, (quote f.1, to_json f.2 v)) f2 vs2)
    (vs1 ++ map (λ f, zero f.2) f2) saved = Ret (vs1 ++ vs2, saved).
Proof.
  induction 1 as [|f v f2 vs2 [Hf Hv] _ IH]; intros f1 vs1 saved Hnd Hlen.
  { by rewrite !app_nil_r. }
  cbn [zip_with map decode_members].
  unfold mbind, dec_bind at 1. rewrite decode_quote by done.
  assert (find_field (f1 ++ f :: f2) f.1 = Some (length f1)) as ->.
  { unfold find_field. rewrite find_index_first; [done| |by apply bytes_equal_true].
    apply Forall_forall. intros g Hg. destruct (bytes_equal g.1 f.1) eqn:E; [|done].
    apply bytes_equal_true in E. rewrite fmap_app in Hnd. apply NoDup_app in Hnd as (_ & Hn & _).
    exfalso. apply (Hn g.1); [by apply list_elem_of_fmap_2|]. rewrite E. left. }
  rewrite lookup_app_r, Nat.sub_diag by done. cbn [lookup list_lookup fmap option_fmap option_map default].
  rewrite Hlen, lookup_app_r, Nat.sub_diag by done. cbn [lookup list_lookup default].
  unfold dec_bind at 1. rewrite Hv.
  replace (<[length vs1:=v]> (vs1 ++ zero f.2 :: map (λ f, zero f.2) f2))
    with ((vs1 ++ [v]) ++ map (λ f, zero f.2) f2).
  2:{ rewrite <- (Nat.add_0_r (length vs1)), insert_app_r, <- app_assoc. done. }
  replace (f1 ++ f :: f2) with ((f1 ++ [f]) ++ f2) in * by app_eq.
  rewrite IH; [by rewrite <- app_assoc|done|]. rewrite !length_app, Hlen. done.
Qed.

Lemma decode_entries_restores l : Forall (λ kv, utf8 kv.1 ∧ utf8 kv.2) l → NoDup l.*1 → ∀ m saved,
  decode_entries U (map (λ kv, (quote kv.1, JString (quote kv.2))) l) m saved = Ret (list_to_map l ∪ m, saved).
Proof.
  induction 1 as [|[k x] l [Hk Hx] _ IH]; intros Hnd m saved; cbn [map decode_entries fst snd].
  { by rewrite list_to_map_nil, map_empty_union. }
  cbn [fst snd] in *. apply NoDup_cons in Hnd as [Hn Hnd].
  unfold mbind, dec_bind at 1. rewrite decode_quote by done. unfold dec_bind at 1.
  assert (decode U (JString (quote x)) TString (GString []) saved = Ret (GString x, saved)) as ->.
  { cbn [decode]. unfold decode_string, mbind, dec_bind. by rewrite decode_quote. }
  rewrite IH by done. do 2 f_equal. rewrite list_to_map_cons.
  rewrite <- insert_union_r by (by apply not_elem_of_list_to_map_1). apply insert_union_l.
Qed.

Lemma to_json_not_null fields v : plain (TStruct fields) v → to_json (TStruct fields) v ≠ JNull.
Proof. by inversion 1. Qed.

Lemma to_json_restores t : type_ok t = true → ∀ v, plain t v → restores t v.
Proof.
  induction t as [| | |w|w| |t IH|t IH|fields IH|] using gtype_fields_ind; intros Ht v Hv saved;
    inversion Hv; subst; try done.
  - cbn [to_json decode]. unfold decode_string, mbind, dec_bind. by rewrite decode_quote.
  - cbn [to_json decode]. unfold decode_number. by rewrite parse_format_float.
  - match goal with H : in_int _ _ = true |- _ => rename H into Hn end.
    cbn [to_json decode]. unfold decode_number. rewrite parse_int_format_int; [by rewrite Hn|].
    unfold in_int in Hn. unfold in_i64, two63. destruct w; cbn [bits] in Hn; lia.
  - match goal with H : in_uint _ _ = true |- _ => rename H into Hn end.
    cbn [to_json decode]. unfold decode_number. rewrite parse_uint_format_int; [by rewrite Hn|].
    unfold in_uint in Hn. unfold two64. destruct w; cbn [bits] in Hn; lia.
  - cbn [to_json zero]. unfold mk_object. rewrite decode_map. unfold mbind, dec_bind at 1.
    rewrite decode_entries_restores; [by rewrite map_union_empty, list_to_map_to_list| |apply NoDup_fst_map_to_list].
    apply Forall_forall. intros [k x] Hin%elem_of_map_to_list.
    match goal with H : map_Forall _ _ |- _ => exact (H k x Hin) end.
  - match goal with H : plain (TStruct _) _ |- _ => rename H into Hw end.
    match type of Hw with plain (TStruct ?f) ?w =>
      change (to_json (TPtr (TStruct f)) (GPtr (Some w))) with (to_json (TStruct f) w);
      change (zero (TPtr (TStruct f))) with (GPtr None) end.
    rewrite decode_ptr by (by apply to_json_not_null). unfold mbind, dec_bind at 1.
    by rewrite IH.
  - cbn [to_json zero]. unfold mk_array. rewrite decode_array. unfold mbind, dec_bind at 1. cbn [app].
    rewrite decode_elems_restores; [by destruct vs|].
    match goal with H : Forall (plain t) _ |- _ => eapply Forall_impl; [exact H|] end. by apply IH.
  - match goal with H : Forall2 _ _ _ |- _ => rename H into Hvs end.
    cbn [to_json zero]. unfold mk_object. rewrite decode_struct. unfold mbind, dec_bind at 1.
    cbn [type_ok] in Ht. rewrite !andb_true_iff, bool_decide_eq_true, !forallb_forall in Ht.
    destruct Ht as [[Hnd Hascii] Hok].
    rewrite (decode_members_restores fields vs) with (f1 := []) (vs1 := []); [done| |done|done].
    apply Forall2_same_length_lookup. split; [by eapply Forall2_length|]. intros i f v Hf Hvi.
    pose proof (list_elem_of_lookup_2 _ _ _ Hf) as Hin. split.
    + apply ascii_utf8, Forall_forall. intros c Hc.
      pose proof (Hascii f (proj1 (list_elem_of_In _ _) Hin)) as Hall. rewrite forallb_forall in Hall.
      apply Z.ltb_lt, Hall. by apply list_elem_of_In.
    + rewrite Forall_forall in IH. apply IH; [done|by apply Hok, list_elem_of_In|].
      by eapply (Forall2_lookup_lr _ _ _ _ _ _ Hvs).
Qed.

(** [Unmarshal] reads a value from its text. *)
Lemma Unmarshal_to_json t v : type_ok t = true → plain t v → Unmarshal U t (raw_text (to_json t v)) = Ret v.
Proof.
  intros Ht Hv. unfold Unmarshal. rewrite (proj2 (Parse_iff _ (to_json t v))).
  - by rewrite to_json_restores.
  - exists [], (raw_text (to_json t v)), []. rewrite app_nil_r.
    repeat split; [constructor|by apply to_json_value|constructor].
Qed.
End Decode.
