(* ===== verification/GoTime.v ===== *)
(** * Package [time]: instants, truncation and [time.ParseDuration] *)

From S2P Require Import Prelude GoStd GoFloat.

#[local] Open Scope Z_scope.

(* ------------------------------------------------------------------ *)
(** ** Instants *)

(** A [time.Time] without its location: seconds since January 1, year 1 as
    an [int64], and nanoseconds within the second. *)
Record Time := MkTime { t_sec : Z; t_nsec : Z }.

#[export] Instance Time_eq_dec : EqDecision Time.
Proof. solve_decision. Defined.

Definition time_wf (t : Time) : Prop := in_i64 (t_sec t) ∧ 0 <= t_nsec t < 1000000000.

Definition unixToInternal : Z := 62135596800.
Definition zeroTime : Time := MkTime 0 0.

(** [time.Unix(sec, nsec)]. *)
Definition Unix (sec nsec : Z) : Time :=
  if (nsec <? 0) || (1000000000 <=? nsec) then
    let n := Z.quot nsec 1000000000 in
    let sec := i64 (sec + n) in
    let nsec := nsec - n * 1000000000 in
    if nsec <? 0 then MkTime (i64 (sec - 1 + unixToInternal)) (nsec + 1000000000)
    else MkTime (i64 (sec + unixToInternal)) nsec
  else MkTime (i64 (sec + unixToInternal)) nsec.

Definition IsZero (t : Time) : bool := (t_sec t =? 0) && (t_nsec t =? 0).

Definition Before (t u : Time) : bool :=
  (t_sec t <? t_sec u) || ((t_sec t =? t_sec u) && (t_nsec t <? t_nsec u)).
Definition After (t u : Time) : bool := Before u t.

Definition UnixNano (t : Time) : Z :=
  i64 (i64 (t_sec t - unixToInternal) * 1000000000 + t_nsec t).

(** The instant in nanoseconds since January 1, year 1. *)
Definition abs_nano (t : Time) : Z := t_sec t * 1000000000 + t_nsec t.

(** [t.Add(d)]. *)
Definition Add (t : Time) (d : Z) : Time :=
  let dsec := Z.quot d 1000000000 in
  let nsec := t_nsec t + Z.rem d 1000000000 in
  if 1000000000 <=? nsec then MkTime (i64 (t_sec t + (dsec + 1))) (nsec - 1000000000)
  else if nsec <? 0 then MkTime (i64 (t_sec t + (dsec - 1))) (nsec + 1000000000)
  else MkTime (i64 (t_sec t + dsec)) nsec.

(** [t.Truncate(d)]: towards the zero time's multiples of [d]. *)
Definition Truncate (t : Time) (d : Z) : Time :=
  if d <=? 0 then t else Add t (- (abs_nano t mod d)).

(** [t.Round(d)]: to the nearest of these multiples, half up; doubling the
    remainder wraps as a [uint64]. *)
Definition lessThanHalf (x y : Z) : bool := u64 (u64 x + u64 x) <? u64 y.
Definition Round (t : Time) (d : Z) : Time :=
  if d <=? 0 then t
  else let r := abs_nano t mod d in
       if lessThanHalf r d then Add t (- r) else Add t (d - r).

Definition Nanosecond : Z := 1.
Definition Microsecond : Z := 1000.
Definition Millisecond : Z := 1000000.
Definition Second : Z := 1000000000.
Definition Minute : Z := 60000000000.
Definition Hour : Z := 3600000000000.

(* ------------------------------------------------------------------ *)
(** ** [time.ParseDuration] *)

Definition invalid_duration (orig : bytes) : error := Errorf "time: invalid duration %s" [orig].

(** [leadingInt]; [None] is overflow. *)
Fixpoint leadingInt (s : bytes) (x : Z) : option (Z * bytes) :=
  match s with
  | c :: s' =>
      if is_digit c then
        if (two63 - 1) / 10 <? x then None
        else let x' := i64 (x * 10 + digit_value c) in
             if x' <? 0 then None else leadingInt s' x'
      else Some (x, s)
  | [] => Some (x, [])
  end.

(** [leadingFraction]: the value, the scale as a [float64], the rest. *)
Fixpoint leadingFraction (s : bytes) (x : Z) (scale : float64) (overflow : bool)
  : Z * float64 * bytes :=
  match s with
  | c :: s' =>
      if is_digit c then
        if overflow then leadingFraction s' x scale true
        else if (two63 - 1) / 10 <? x then leadingFraction s' x scale true
        else let y := i64 (x * 10 + digit_value c) in
             if y <? 0 then leadingFraction s' x scale true
             else leadingFraction s' y
                    (SFmul prec64 emax64 scale (binary_normalize prec64 emax64 10 0 false)) false
      else (x, scale, s)
  | [] => (x, scale, [])
  end.

Definition float_of_int (z : Z) : float64 := binary_normalize prec64 emax64 z 0 false.

(** [int64(f)] for a finite [f] in range: truncation towards zero. *)
Definition int_of_float (f : float64) : Z :=
  match f with
  | S754_finite s m e =>
      let a := if 0 <=? e then Zpos m * 2 ^ e else Zpos m / 2 ^ (- e) in
      if s then - a else a
  | _ => 0
  end.

Definition unitMap (u : bytes) : option Z :=
  if bytes_equal u (bs "ns") then Some Nanosecond
  else if bytes_equal u (bs "us") then Some Microsecond
  else if bytes_equal u (["194"; "181"; "s"]%char) then Some Microsecond
  else if bytes_equal u (["206"; "188"; "s"]%char) then Some Microsecond
  else if bytes_equal u (bs "ms") then Some Millisecond
  else if bytes_equal u (bs "s") then Some Second
  else if bytes_equal u (bs "m") then Some Minute
  else if bytes_equal u (bs "h") then Some Hour
  else None.

(** The unit runs up to the next digit or point. *)
Fixpoint take_unit (s : bytes) : bytes * bytes :=
  match s with
  | c :: s' => if (c =c ".") || is_digit c then ([], s)
               else let '(u, r) := take_unit s' in (c :: u, r)
  | [] => ([], [])
  end.

(** The loop of [ParseDuration]: one number and one unit per turn, so
    [length s] turns are enough. *)
Fixpoint duration_loop (fuel : nat) (orig s : bytes) (d : Z) : outcome Z :=
  match fuel with
  | O => Ret d
  | S fuel' =>
      match s with
      | [] => Ret d
      | c :: _ =>
          if negb ((c =c ".") || is_digit c) then Fail (invalid_duration orig) else
          match leadingInt s 0 with
          | None => Fail (invalid_duration orig)
          | Some (v, s1) =>
              let pre := negb (length s =? length s1)%nat in
              let '(f, scale, post, s2) :=
                match s1 with
                | p :: s1' =>
                    if p =c "." then
                      let '(f, scale, s2) := leadingFraction s1' 0 (float_of_int 1) false in
                      (f, scale, negb (length s1' =? length s2)%nat, s2)
                    else (0, float_of_int 1, false, s1)
                | [] => (0, float_of_int 1, false, s1)
                end in
              if negb pre && negb post then Fail (invalid_duration orig) else
              let '(u, s3) := take_unit s2 in
              match u with
              | [] => Fail (Errorf "time: missing unit in duration %s" [orig])
              | _ =>
                  match unitMap u with
                  | None => Fail (Errorf "time: unknown unit %s in duration %s" [u; orig])
                  | Some unit =>
                      if (two63 - 1) / unit <? v then Fail (invalid_duration orig) else
                      let v1 := v * unit in
                      let v2 := if 0 <? f then
                                  i64 (v1 + int_of_float (SFmul prec64 emax64 (float_of_int f)
                                         (SFdiv prec64 emax64 (float_of_int unit) scale)))
                                else v1 in
                      if v2 <? 0 then Fail (invalid_duration orig) else
                      let d' := i64 (d + v2) in
                      if d' <? 0 then Fail (invalid_duration orig)
                      else duration_loop fuel' orig s3 d'
                  end
              end
          end
      end
  end.

Definition ParseDuration (orig : bytes) : outcome Z :=
  let '(neg, s) :=
    match orig with
    | c :: s' => if (c =c "-") || (c =c "+") then (c =c "-", s') else (false, orig)
    | [] => (false, [])
    end in
  if bytes_equal s (bs "0") then Ret 0
  else match s with
       | [] => Fail (invalid_duration orig)
       | _ => d ← duration_loop (S (length s)) orig s 0; Ret (if neg then - d else d)
       end.

Example ParseDuration_examples :
  map ParseDuration (map bs ["1s"; "1ns"; "1u"; "1h30m"; "1.5h"; "1"; "10s"; "-2ms"]%string) =
  [Ret 1000000000; Ret 1; Fail (Errorf "time: unknown unit %s in duration %s" [bs "u"; bs "1u"]);
   Ret 5400000000000; Ret 5400000000000;
   Fail (Errorf "time: missing unit in duration %s" [bs "1"]); Ret 10000000000; Ret (-2000000)].
Proof. by vm_compute. Qed.

(* ------------------------------------------------------------------ *)
(** ** Facts *)

(** A whole number of seconds that fits in an [int64]. *)
Lemma Unix_seconds s : in_i64 s → in_i64 (s + unixToInternal) →
  Unix s 0 = MkTime (s + unixToInternal) 0.
Proof. intros. unfold Unix. cbn. by rewrite i64_id. Qed.

Lemma UnixNano_spec t : in_i64 (t_sec t - unixToInternal) →
  in_i64 ((t_sec t - unixToInternal) * 1000000000 + t_nsec t) →
  UnixNano t = (t_sec t - unixToInternal) * 1000000000 + t_nsec t.
Proof. intros H1 H2. unfold UnixNano. by rewrite (i64_id _ H1), (i64_id _ H2). Qed.

(** [Unix(0, n)] splits [n] nanoseconds into whole seconds and the rest. *)
Lemma Unix_nano n : in_i64 n →
  Unix 0 n = MkTime (n / 1000000000 + unixToInternal) (n mod 1000000000).
Proof.
  intros Hn. unfold in_i64, two63 in Hn.
  pose proof (Z.div_mod n 1000000000 ltac:(lia)).
  pose proof (Z.mod_pos_bound n 1000000000 ltac:(lia)).
  assert (∀ z, -9300000000 - unixToInternal <= z <= 9300000000 + unixToInternal → in_i64 z) as Hi
    by (unfold in_i64, two63, unixToInternal; lia).
  unfold Unix. destruct (Z.ltb_spec n 0); cbn [orb].
  - pose proof (Z.quot_rem' n 1000000000).
    pose proof (Z.rem_bound_pos_neg n 1000000000 ltac:(lia) ltac:(lia)).
    generalize dependent (Z.quot n 1000000000). intros q Hq.
    generalize dependent (Z.rem n 1000000000). intros r Hq Hr.
    rewrite (i64_id (0 + q)) by (apply Hi; unfold unixToInternal; lia).
    destruct (Z.ltb_spec (n - q * 1000000000) 0);
      (rewrite i64_id by (apply Hi; unfold unixToInternal; lia)); f_equal; lia.
  - destruct (Z.leb_spec 1000000000 n).
    + rewrite Z.quot_div_nonneg by lia. rewrite (i64_id (0 + _)) by (apply Hi; unfold unixToInternal; lia).
      destruct (Z.ltb_spec (n - n / 1000000000 * 1000000000) 0); [lia|].
      rewrite i64_id by (apply Hi; unfold unixToInternal; lia). f_equal; lia.
    + rewrite Z.div_small, Z.mod_small by lia. by rewrite i64_id by (apply Hi; unfold unixToInternal; lia).
Qed.

(** The nanosecond clock of [Unix(0, n)] reads [n]. *)
Lemma UnixNano_Unix_nano n : in_i64 n → UnixNano (Unix 0 n) = n.
Proof.
  intros Hn. rewrite Unix_nano by done. unfold in_i64, two63 in Hn.
  pose proof (Z.div_mod n 1000000000 ltac:(lia)).
  pose proof (Z.mod_pos_bound n 1000000000 ltac:(lia)).
  rewrite UnixNano_spec; cbn [t_sec t_nsec]; unfold in_i64, two63, unixToInternal in *; lia.
Qed.

(** Within the range of [int64] nanoseconds, instants are their clocks. *)
Lemma Unix_nano_UnixNano t : time_wf t →
  in_i64 ((t_sec t - unixToInternal) * 1000000000 + t_nsec t) → Unix 0 (UnixNano t) = t.
Proof.
  intros [Hw Hr] Hi. destruct t as [s n]. cbn [t_sec t_nsec] in *.
  rewrite UnixNano_spec; cbn [t_sec t_nsec];
    [|unfold in_i64, two63, unixToInternal in *; lia|done].
  rewrite Unix_nano by done. rewrite Z.div_add_l, Z.div_small by lia.
  rewrite (Z.add_comm _ n), Z.mod_add, Z.mod_small by lia. f_equal. lia.
Qed.
