(* ===== verification/ModelsTime.v ===== *)
(** * [models/time.go] and the precision table of [models/points.go] *)

From S2P Require Import Prelude GoStd GoTime.

#[local] Open Scope Z_scope.

(** [GetPrecisionMultiplier]: nanoseconds in a unit of the precision. *)
Definition GetPrecisionMultiplier (precision : bytes) : Z :=
  if bytes_equal precision (bs "u") then Microsecond
  else if bytes_equal precision (bs "ms") then Millisecond
  else if bytes_equal precision (bs "s") then Second
  else if bytes_equal precision (bs "m") then Minute
  else if bytes_equal precision (bs "h") then Hour
  else Nanosecond.

Definition MinNanoTime : Z := - two63 + 2.
Definition MaxNanoTime : Z := two63 - 1 - 1.

Definition minNanoTime : Time := Unix 0 MinNanoTime.
Definition maxNanoTime : Time := Unix 0 MaxNanoTime.

Definition ErrTimeOutOfRange : error :=
  Errorf "time outside range %d - %d" [format_int MinNanoTime; format_int MaxNanoTime].

(** [CheckTime]: [None] is a nil error. *)
Definition CheckTime (t : Time) : option error :=
  if Before t minNanoTime || After t maxNanoTime then Some ErrTimeOutOfRange else None.

(** [safeSignedMult]: the product as an [int64], and whether it is exact. *)
Definition safeSignedMult (a b : Z) : Z * bool :=
  if (a =? 0) || (b =? 0) || (a =? 1) || (b =? 1) then (i64 (a * b), true)
  else if (a =? MinNanoTime) || (b =? MaxNanoTime) then (0, false)
  else let c := i64 (a * b) in (c, i64 (Z.quot c b) =? a).

(** [SafeCalcTime]. *)
Definition SafeCalcTime (timestamp : Z) (precision : bytes) : outcome Time :=
  let mult := GetPrecisionMultiplier precision in
  let '(t, ok) := safeSignedMult timestamp mult in
  if ok then
    let tme := Unix 0 t in
    match CheckTime tme with Some e => Fail e | None => Ret tme end
  else Fail ErrTimeOutOfRange.

(* ------------------------------------------------------------------ *)
(** ** Facts *)

Lemma multiplier_pos p : 1 <= GetPrecisionMultiplier p <= 3600000000000.
Proof.
  unfold GetPrecisionMultiplier, Microsecond, Millisecond, Second, Minute, Hour, Nanosecond.
  repeat match goal with |- context [if ?b then _ else _] => destruct b end; lia.
Qed.

(** The overflow test of [safeSignedMult], for the multipliers in use. *)
Lemma safeSignedMult_exact a b : in_i64 a → 1 <= b <= 3600000000000 → in_i64 (a * b) →
  (b = 1 ∨ a ≠ MinNanoTime) → safeSignedMult a b = (a * b, true).
Proof.
  intros Ha Hb Hab Hne. unfold safeSignedMult. rewrite i64_id by done.
  destruct (_ || _) eqn:E; [done|]. rewrite !orb_false_iff, !Z.eqb_neq in E.
  rewrite (proj2 (Z.eqb_neq a MinNanoTime)) by naive_solver.
  rewrite (proj2 (Z.eqb_neq b MaxNanoTime)) by (unfold MaxNanoTime, two63; lia).
  cbn [orb]. rewrite Z.quot_mul by lia. rewrite i64_id by done. by rewrite Z.eqb_refl.
Qed.

(** A wrapped product divides back to something smaller than [a]. *)
Lemma safeSignedMult_overflow a b : in_i64 a → 1 <= b <= 3600000000000 →
  ¬ in_i64 (a * b) → (safeSignedMult a b).2 = false.
Proof.
  intros Ha Hb Hab. unfold safeSignedMult.
  destruct (Z.eqb_spec a 0) as [->|]; [by rewrite Z.mul_0_l in Hab|].
  destruct (Z.eqb_spec b 0); [lia|].
  destruct (Z.eqb_spec a 1) as [->|]; [exfalso; apply Hab; unfold in_i64, two63; lia|].
  destruct (Z.eqb_spec b 1) as [->|]; [by rewrite Z.mul_1_r in Hab|]. cbn [orb].
  destruct (_ || _); [done|]. cbn [snd]. apply Z.eqb_neq. intros E.
  pose proof (i64_range (a * b)) as Hc. set (c := i64 (a * b)) in *.
  pose proof (Z.quot_rem' c b) as Hq.
  assert (in_i64 (Z.quot c b)) as Hqi.
  { unfold in_i64, two63 in *. pose proof (Z.rem_bound_abs c b ltac:(lia)). nia. }
  rewrite (i64_id _ Hqi) in E. rewrite E in Hq.
  pose proof (Z.rem_bound_abs c b ltac:(lia)) as Hr.
  assert (∃ k, c = a * b + k * two64) as [k Hk].
  { unfold c, i64, two63, two64. 
    exists (- ((a * b + 9223372036854775808) / 18446744073709551616)).
    pose proof (Z.div_mod (a * b + 9223372036854775808) 18446744073709551616). lia. }
  assert (k = 0) as -> by (unfold two64 in *; lia).
  apply Hab. replace (a * b) with c by lia. done.
Qed.

Lemma CheckTime_range t n : in_i64 n → t = Unix 0 n →
  CheckTime t = None ↔ MinNanoTime <= n <= MaxNanoTime.
Proof.
  intros Hn ->. unfold CheckTime, minNanoTime, maxNanoTime, After.
  assert (∀ a b, in_i64 a → in_i64 b → Before (Unix 0 a) (Unix 0 b) = (a <? b)) as HB.
  { intros a b Ha Hb. rewrite !Unix_nano by done. unfold Before. cbn [t_sec t_nsec].
    pose proof (Z.div_mod a 1000000000). pose proof (Z.mod_pos_bound a 1000000000).
    pose proof (Z.div_mod b 1000000000). pose proof (Z.mod_pos_bound b 1000000000).
    destruct (Z.ltb_spec a b); [apply orb_true_iff|apply orb_false_iff];
    rewrite ?andb_true_iff, ?andb_false_iff, ?Z.ltb_lt, ?Z.eqb_eq, ?Z.ltb_ge, ?Z.eqb_neq; lia. }
  rewrite !HB by (done || (unfold in_i64, MinNanoTime, MaxNanoTime, two63; lia)).
  destruct (Z.ltb_spec n MinNanoTime); destruct (Z.ltb_spec MaxNanoTime n); cbn; split; done || lia.
Qed.
