(* ===== verification/Scan.v ===== *)
(** * The scanners of [models/points.go]

    A scanner reads [buf] from position [i].  Its loop is a recursion on the
    unread suffix [drop i buf]: the head of the suffix is [buf[i]], the byte
    before it ([prev]) is [buf[i-1]].  [Panic] is an index out of range. *)

From S2P Require Import Prelude GoStd GoFloat Escape.

Definition ErrInvalidNumber : error := Errorf "invalid number" [].
Definition ErrInvalidPoint : error := Errorf "point is invalid" [].

(** The states of the scanner of a point. *)
Inductive scan_state := tagKeyState | tagValueState | fieldsState | noState.

#[export] Instance scan_state_eq_dec : EqDecision scan_state.
Proof. solve_decision. Defined.

(** [buf[i-1]]. *)
Definition prev_at (buf : bytes) (i : nat) : option ascii :=
  match i with O => None | S j => buf !! j end.

Definition is_escape (c : option ascii) : bool :=
  match c with Some d => Ascii.eqb d backslash | None => false end.

(* ------------------------------------------------------------------ *)
(** ** Positions *)

Fixpoint skip_loop (rest : bytes) (i : nat) : nat :=
  match rest with
  | c :: rest' =>
      if (c <>c " ") && (c <>c "009") && (c <>c "000") then i else skip_loop rest' (S i)
  | [] => i
  end.
Definition skipWhitespace (buf : bytes) (i : nat) : nat := skip_loop (drop i buf) i.

(** The loop of [scanTo]. *)
Fixpoint scan_to_loop (stop : ascii) (prev : option ascii) (rest : bytes) (i : nat) : nat :=
  match rest with
  | [] => i
  | c :: rest' =>
      if Ascii.eqb c stop && negb (is_escape prev) then i
      else scan_to_loop stop (Some c) rest' (S i)
  end.
Definition scanTo (buf : bytes) (i : nat) (stop : ascii) : nat * bytes :=
  let j := scan_to_loop stop (prev_at buf i) (drop i buf) i in (j, slice buf i j).

(** The loop of [scanToSpaceOr] after the first byte. *)
Fixpoint scan_space_loop (stop : ascii) (prev : ascii) (rest : bytes) (i : nat) : outcome nat :=
  match rest with
  | [] => if Ascii.eqb prev backslash then Panic else Ret i
  | c :: rest' =>
      if Ascii.eqb prev backslash then scan_space_loop stop c rest' (S i)
      else if Ascii.eqb c stop || (c =c " ") then Ret i
      else scan_space_loop stop c rest' (S i)
  end.
Definition scanToSpaceOr (buf : bytes) (i : nat) (stop : ascii) : outcome (nat * bytes) :=
  match drop i buf with
  | [] => Panic
  | c :: rest =>
      if Ascii.eqb c stop || (c =c " ") then Ret (i, [])
      else j ← scan_space_loop stop c rest (S i); Ret (j, slice buf i j)
  end.

(** The loop of [scanTagValue], which is called at positions [i > 0] only. *)
Fixpoint scan_tag_value_loop (prev : option ascii) (rest : bytes) (i : nat) : nat :=
  match rest with
  | [] => i
  | c :: rest' =>
      if (c =c ",") && negb (is_escape prev) then i
      else scan_tag_value_loop (Some c) rest' (S i)
  end.
Definition scanTagValue (buf : bytes) (i : nat) : nat * bytes :=
  let j := scan_tag_value_loop (prev_at buf i) (drop i buf) i in
  (j, if (length buf <? j)%nat then [] else slice buf i j).

(** The loop of [scanFieldValue]. *)
Fixpoint scan_field_value_loop (quoted : bool) (rest : bytes) (i : nat) : nat :=
  match rest with
  | [] => i
  | c :: rest' =>
      let plain := if Ascii.eqb c dquote then scan_field_value_loop (negb quoted) rest' (S i)
                   else if (c =c ",") && negb quoted then i
                   else scan_field_value_loop quoted rest' (S i) in
      if Ascii.eqb c backslash then
        match rest' with
        | d :: rest'' => if Ascii.eqb d dquote || Ascii.eqb d backslash
                         then scan_field_value_loop quoted rest'' (S (S i))
                         else plain
        | [] => plain
        end
      else plain
  end.
Definition scanFieldValue (buf : bytes) (i : nat) : nat * bytes :=
  let j := scan_field_value_loop false (drop i buf) i in (j, slice buf i j).

(** The loop of [scanLine]. *)
Fixpoint scan_line_loop (quoted fields : bool) (equals commas : nat) (rest : bytes) (i : nat)
  : nat :=
  match rest with
  | [] => i
  | c :: rest' =>
      let plain :=
        let fields := fields || (c =c " ") in
        if fields && negb quoted && (c =c "=") then
          scan_line_loop quoted fields (S equals) commas rest' (S i)
        else if fields && negb quoted && (c =c ",") then
          scan_line_loop quoted fields equals (S commas) rest' (S i)
        else if fields && Ascii.eqb c dquote && (commas <? equals)%nat then
          scan_line_loop (negb quoted) fields equals commas rest' (S i)
        else if (c =c "010") && negb quoted then i
        else scan_line_loop quoted fields equals commas rest' (S i) in
      if Ascii.eqb c backslash then
        match rest' with
        | _ :: (_ :: _) as rest'' => scan_line_loop quoted fields equals commas rest'' (S (S i))
        | _ => plain
        end
      else plain
  end.
Definition scanLine (buf : bytes) (i : nat) : nat * bytes :=
  let j := scan_line_loop false false 0 0 (drop i buf) i in (j, slice buf i j).

(* ------------------------------------------------------------------ *)
(** ** Measurement and tags *)

(** The loop of [scanMeasurement] after the first byte: the next state, the
    position and the error, which a caller that wants the name only drops. *)
Fixpoint scan_measurement_loop (prev : ascii) (rest : bytes) (i : nat)
  : scan_state * nat * option error :=
  match rest with
  | [] => (noState, i, Some (Errorf "missing fields" []))
  | c :: rest' =>
      if Ascii.eqb prev backslash then scan_measurement_loop c rest' (S i)
      else if c =c "," then (tagKeyState, S i, None)
      else if c =c " " then (fieldsState, i, None)
      else scan_measurement_loop c rest' (S i)
  end.
Definition scanMeasurement (buf : bytes) (i : nat) : scan_state * nat * option error :=
  match drop i buf with
  | [] => (noState, i, Some (Errorf "missing measurement" []))
  | c :: rest =>
      if c =c "," then (noState, i, Some (Errorf "missing measurement" []))
      else scan_measurement_loop c rest (S i)
  end.

Fixpoint scan_tags_key_loop (prev : ascii) (rest : bytes) (i : nat) : outcome nat :=
  match rest with
  | [] => Fail (Errorf "missing tag value" [])
  | c :: rest' =>
      if ((c =c " ") || (c =c ",")) && negb (Ascii.eqb prev backslash) then
        Fail (Errorf "missing tag value" [])
      else if (c =c "=") && negb (Ascii.eqb prev backslash) then Ret (S i)
      else scan_tags_key_loop c rest' (S i)
  end.
Definition scanTagsKey (buf : bytes) (i : nat) : outcome nat :=
  match drop i buf with
  | [] => Fail (Errorf "missing tag key" [])
  | c :: rest =>
      if (c =c " ") || (c =c ",") || (c =c "=") then Fail (Errorf "missing tag key" [])
      else scan_tags_key_loop c rest (S i)
  end.

Fixpoint scan_tags_value_loop (prev : ascii) (rest : bytes) (i : nat)
  : outcome (scan_state * nat) :=
  match rest with
  | [] => Fail (Errorf "missing fields" [])
  | c :: rest' =>
      if (c =c "=") && negb (Ascii.eqb prev backslash) then Fail (Errorf "invalid tag format" [])
      else if (c =c ",") && negb (Ascii.eqb prev backslash) then Ret (tagKeyState, S i)
      else if (c =c " ") && negb (Ascii.eqb prev backslash) then Ret (fieldsState, i)
      else scan_tags_value_loop c rest' (S i)
  end.
Definition scanTagsValue (buf : bytes) (i : nat) : outcome (scan_state * nat) :=
  match drop i buf with
  | [] => Fail (Errorf "missing tag value" [])
  | c :: rest =>
      if (c =c ",") || (c =c " ") then Fail (Errorf "missing tag value" [])
      else scan_tags_value_loop c rest (S i)
  end.

(** [indices[n] = v]: out of range is a panic. *)
Definition set_index (indices : list nat) (n v : nat) : outcome (list nat) :=
  if (n <? length indices)%nat then Ret (<[n:=v]> indices) else Panic.

(** The loop of [scanTags].  Every turn but the last reads at least one
    byte, so [length buf + 2] turns are enough. *)
Fixpoint scan_tags_loop (fuel : nat) (buf : bytes) (state : scan_state) (i commas : nat)
  (indices : list nat) : outcome (nat * nat * list nat) :=
  match fuel with
  | O => Fail (Errorf "out of fuel" [])
  | S fuel' =>
      match state with
      | tagKeyState =>
          let indices := if (length indices <=? commas)%nat
                         then indices ++ replicate (length indices) 0 else indices in
          indices ← set_index indices commas i;
          i ← scanTagsKey buf i;
          scan_tags_loop fuel' buf tagValueState i (S commas) indices
      | tagValueState =>
          '(state, i) ← scanTagsValue buf i;
          scan_tags_loop fuel' buf state i commas indices
      | fieldsState =>
          indices ← set_index indices commas (S i);
          Ret (i, commas, indices)
      | noState => Fail (Errorf "out of fuel" [])
      end
  end.
Definition scanTags (buf : bytes) (i : nat) (indices : list nat)
  : outcome (nat * nat * list nat) :=
  scan_tags_loop (length buf + 2) buf tagKeyState i 0 indices.

(** [less]: compares the tag names at two indices. *)
Definition less (buf : bytes) (indices : list nat) (i j : nat) : bool :=
  let a := (scanTo buf (nth i indices 0) "=").2 in
  let b := (scanTo buf (nth j indices 0) "=").2 in
  bytes_ltb a b.

Definition swap (l : list nat) (i j : nat) : list nat :=
  <[i := nth j l 0]> (<[j := nth i l 0]> l).

(** The inner loop of [insertionSort], from [j] down to [l]. *)
Fixpoint sink (l : nat) (buf : bytes) (indices : list nat) (j : nat) : list nat :=
  match j with
  | O => indices
  | S j' => if (l <? j)%nat && less buf indices j j' then sink l buf (swap indices j j') j'
            else indices
  end.
Definition insertionSort (l r : nat) (buf : bytes) (indices : list nat) : list nat :=
  foldl (λ ix i, sink l buf ix i) indices (seq (S l) (r - S l)).

(** The verdict of the first pass over adjacent tags. *)
Inductive order_verdict := tags_sorted | tags_unsorted | tags_duplicate.

Fixpoint check_order (buf : bytes) (indices : list nat) (j n : nat) : order_verdict :=
  match n with
  | O => tags_sorted
  | S n' =>
      let at_ k := nth k indices 0 in
      let left := (scanTo (slice buf (at_ j) (at_ (j + 1) - 1)) 0 "=").2 in
      let right := (scanTo (slice buf (at_ (j + 1)) (at_ (j + 2) - 1)) 0 "=").2 in
      match bytes_compare left right with
      | Gt => tags_unsorted
      | Eq => tags_duplicate
      | Lt => check_order buf indices (S j) n'
      end
  end.

(** The second pass, over the sorted indices. *)
Fixpoint has_duplicate (buf : bytes) (indices : list nat) (j n : nat) : bool :=
  match n with
  | O => false
  | S n' =>
      let left := (scanTo (drop (nth j indices 0) buf) 0 "=").2 in
      let right := (scanTo (drop (nth (j + 1) indices 0) buf) 0 "=").2 in
      bytes_equal left right || has_duplicate buf indices (S j) n'
  end.

(** [b := make([]byte, n)] filled by consecutive copies of [parts]. *)
Definition copy_into (n : nat) (parts : bytes) : bytes :=
  take n (parts ++ replicate n "000"%char).

Fixpoint rebuild_tags (buf : bytes) (indices : list nat) : outcome bytes :=
  match indices with
  | [] => Ret []
  | i :: indices' =>
      '(_, v) ← scanToSpaceOr buf i ",";
      rest ← rebuild_tags buf indices';
      Ret (","%char :: v ++ rest)
  end.

(** [scanKey]: the end of the key in [buf] and the key, with its tags sorted. *)
Definition scanKey (buf : bytes) (i : nat) : outcome (nat * bytes) :=
  let start := skipWhitespace buf i in
  let '(state, i, err) := scanMeasurement buf start in
  match err with
  | Some e => Fail e
  | None =>
      '(i, commas, indices) ←
        match state with
        | tagKeyState => scanTags buf i (replicate 100 0)
        | _ => Ret (i, 0, replicate 100 0)
        end;
      match check_order buf indices 0 (commas - 1) with
      | tags_duplicate => Fail (Errorf "duplicate tags" [])
      | tags_unsorted =>
          if (0 <? commas)%nat then
            let measurement := slice buf start (nth 0 indices 0 - 1) in
            let indices := insertionSort 0 commas buf (take commas indices) in
            tail ← rebuild_tags buf indices;
            let b := copy_into (i - start) (measurement ++ tail) in
            if has_duplicate buf indices 0 (commas - 1) then Fail (Errorf "duplicate tags" [])
            else Ret (i, b)
          else Ret (i, slice buf start i)
      | tags_sorted => Ret (i, slice buf start i)
      end
  end.
