(* ===== verification/ScanFields.v ===== *)
(** * Scanning fields and timestamps ([models/points.go]) *)

From S2P Require Import Prelude GoStd GoFloat Escape Scan.

Definition isNumeric (b : ascii) : bool := is_digit b || (b =c ".").

Definition maxInt64Digits : nat := 19.
Definition minInt64Digits : nat := 20.
Definition maxUint64Digits : nat := 20.
Definition maxFloat64Digits : nat := 25.
Definition minFloat64Digits : nat := 27.

(** The flags of the loop of [scanNumber]. *)
Record number_flags := NumberFlags {
  isInt : bool; isUnsigned : bool; decimal : bool; scientific : bool
}.
Definition no_flags : number_flags := NumberFlags false false false false.

(** The loop of [scanNumber]; [after_start] is [i > start]. *)
Fixpoint scan_number_loop (after_start : bool) (prev : option ascii) (rest : bytes) (i : nat)
  (f : number_flags) : outcome (nat * number_flags) :=
  match rest with
  | [] => Ret (i, f)
  | c :: rest' =>
      if (c =c ",") || (c =c " ") then Ret (i, f)
      else if (c =c "i") && after_start && negb (isInt f || isUnsigned f) then
        scan_number_loop true (Some c) rest' (S i)
          (NumberFlags true (isUnsigned f) (decimal f) (scientific f))
      else if (c =c "u") && after_start && negb (isInt f || isUnsigned f) then
        scan_number_loop true (Some c) rest' (S i)
          (NumberFlags (isInt f) true (decimal f) (scientific f))
      else if (c =c ".") && decimal f then Fail ErrInvalidNumber
      else
        let f := if c =c "." then NumberFlags (isInt f) (isUnsigned f) true (scientific f) else f in
        if after_start && ((c =c "e") || (c =c "E")) then
          scan_number_loop true (Some c) rest' (S i)
            (NumberFlags (isInt f) (isUnsigned f) (decimal f) true)
        else if ((c =c "+") || (c =c "-")) &&
                match prev with Some p => (p =c "e") || (p =c "E") | None => false end then
          scan_number_loop true (Some c) rest' (S i) f
        else if (2 <=? length rest')%nat && ((c =c "N") || (c =c "n")) then Fail ErrInvalidNumber
        else if negb (isNumeric c) then Fail ErrInvalidNumber
        else scan_number_loop true (Some c) rest' (S i) f
  end.

(** The checks of [scanNumber] after its loop, on [text = buf[start:i]]. *)
Definition check_number (enableUint64Support : bool) (text : bytes) (f : number_flags)
  : option error :=
  let body := take (length text - 1) text in
  let last_is c := match last text with Some d => Ascii.eqb d c | None => false end in
  let negative := match text with c :: _ => c =c "-" | [] => false end in
  let numericDigits :=
    (Z.of_nat (length text) - (if isInt f then 1 else 0) - (if decimal f then 1 else 0)
     - (if negative then 1 else 0))%Z in
  if (isInt f || isUnsigned f) && (decimal f || scientific f) then Some ErrInvalidNumber
  else if (numericDigits =? 0)%Z then Some ErrInvalidNumber
  else if isInt f then
    if negb (last_is "i"%char) then Some ErrInvalidNumber
    else if (maxInt64Digits <=? length body)%nat || (minInt64Digits <=? length body)%nat then
      match parse_int body with
      | Fail e => Some (Wrapf "unable to parse integer %s: %s" [body] e)
      | _ => None
      end
    else None
  else if isUnsigned f then
    if negb enableUint64Support then Some ErrInvalidNumber
    else if negb (last_is "u"%char) then Some ErrInvalidNumber
    else if negative then Some ErrInvalidNumber
    else if (maxUint64Digits <=? length body)%nat then
      match parse_uint body with
      | Fail e => Some (Wrapf "unable to parse unsigned %s: %s" [body] e)
      | _ => None
      end
    else None
  else if scientific f || (maxFloat64Digits <=? length text)%nat
          || (minFloat64Digits <=? length text)%nat then
    match parse_float text with
    | Fail _ => Some (Errorf "invalid float" [])
    | _ => None
    end
  else None.

(** [scanNumber], for the value of the package variable [enableUint64Support]. *)
Definition scanNumber (enableUint64Support : bool) (buf : bytes) (i : nat) : outcome nat :=
  match drop i buf with
  | [] => Panic
  | c :: rest =>
      '(j, f) ←
        (if c =c "-" then
           match rest with
           | [] => Fail ErrInvalidNumber
           | _ => scan_number_loop true (Some c) rest (S i) no_flags
           end
         else scan_number_loop false (prev_at buf i) (c :: rest) i no_flags);
      match check_number enableUint64Support (slice buf i j) f with
      | Some e => Fail e
      | None => Ret j
      end
  end.

Fixpoint scan_word_loop (rest : bytes) (i : nat) : nat :=
  match rest with
  | [] => i
  | c :: rest' => if (c =c ",") || (c =c " ") then i else scan_word_loop rest' (S i)
  end.

(** [scanBoolean]; the scanners drop the returned slice. *)
Definition scanBoolean (buf : bytes) (i : nat) : outcome nat :=
  match drop i buf with
  | [] => Panic
  | c :: rest =>
      let invalid := Fail (Errorf "invalid boolean" []) in
      if (c <>c "t") && (c <>c "f") && (c <>c "T") && (c <>c "F") then invalid
      else
        let j := scan_word_loop rest (S i) in
        let text := slice buf i j in
        if (j - i =? 1)%nat then Ret j
        else if ((c =c "t") || (c =c "T")) && negb (j - i =? 4)%nat then invalid
        else if ((c =c "f") || (c =c "F")) && negb (j - i =? 5)%nat then invalid
        else
          let valid :=
            if c =c "t" then bytes_equal text (bs "true")
            else if c =c "f" then bytes_equal text (bs "false")
            else if c =c "T" then bytes_equal text (bs "TRUE") || bytes_equal text (bs "True")
            else bytes_equal text (bs "FALSE") || bytes_equal text (bs "False") in
          if valid then Ret j else invalid
  end.

(** [buf[i-1] == c && buf[i-2] != '\\']; [None] is an index out of range. *)
Definition bare_before (buf : bytes) (i : nat) (c : ascii) : option bool :=
  match prev_at buf i with
  | None => None
  | Some p =>
      if Ascii.eqb p c then
        match prev_at buf (i - 1) with
        | None => None
        | Some q => Some (negb (Ascii.eqb q backslash))
        end
      else Some false
  end.

(** What the loop of [scanFields] does at an unquoted [=] that is followed by
    a value: the position after a number or boolean, [None] for a quote. *)
Definition scan_value (enableUint64Support : bool) (buf : bytes) (i : nat)
  : outcome (option nat) :=
  match bare_before buf i " " with
  | None => Panic
  | Some true => Fail (Errorf "missing field key" [])
  | Some false =>
      match bare_before buf i "," with
      | None => Panic
      | Some true => Fail (Errorf "missing field key" [])
      | Some false =>
          match buf !! (i + 1) with
          | None => Fail (Errorf "missing field value" [])
          | Some d =>
              if (d =c ",") || (d =c " ") then Fail (Errorf "missing field value" [])
              else if isNumeric d || (d =c "-") || (d =c "N") || (d =c "n") then
                Some <$> scanNumber enableUint64Support buf (i + 1)
              else if negb (Ascii.eqb d dquote) then Some <$> scanBoolean buf (i + 1)
              else Ret None
          end
      end
  end.

(** The loop of [scanFields]; every turn moves [i] forward. *)
Fixpoint scan_fields_loop (fuel : nat) (enableUint64Support : bool) (buf : bytes) (i : nat)
  (quoted : bool) (equals commas : nat) : outcome (nat * bool * nat * nat) :=
  match fuel with
  | O => Fail (Errorf "out of fuel" [])
  | S fuel' =>
      let again := scan_fields_loop fuel' enableUint64Support buf in
      match buf !! i with
      | None => Ret (i, quoted, equals, commas)
      | Some c =>
          if Ascii.eqb c backslash && (i + 1 <? length buf)%nat then
            again (i + 2) quoted equals commas
          else if Ascii.eqb c dquote && (commas <? equals)%nat then
            again (i + 1) (negb quoted) equals commas
          else
            let rest equals :=
              let commas := if (c =c ",") && negb quoted then S commas else commas in
              if (c =c " ") && negb quoted then Ret (i, quoted, equals, commas)
              else again (i + 1) quoted equals commas in
            if (c =c "=") && negb quoted then
              v ← scan_value enableUint64Support buf i;
              match v with
              | Some j => again j quoted (S equals) commas
              | None => rest (S equals)
              end
            else rest equals
      end
  end.

Definition scanFields (enableUint64Support : bool) (buf : bytes) (i : nat)
  : outcome (nat * bytes) :=
  let start := skipWhitespace buf i in
  '(i, quoted, equals, commas) ←
    scan_fields_loop (S (length buf)) enableUint64Support buf start false 0 0;
  if (quoted : bool) then Fail (Errorf "unbalanced quotes" [])
  else if (equals =? 0)%nat || negb (commas =? equals - 1)%nat then
    Fail (Errorf "invalid field format" [])
  else Ret (i, slice buf start i).

(** The loop of [scanTime]; [first] is [i == start]. *)
Fixpoint scan_time_loop (first : bool) (rest : bytes) (i : nat) : outcome nat :=
  match rest with
  | [] => Ret i
  | c :: rest' =>
      if (c =c "010") || (c =c " ") then Ret i
      else if first && (c =c "-") then scan_time_loop false rest' (S i)
      else if negb (is_digit c) then Fail (Errorf "bad timestamp" [])
      else scan_time_loop false rest' (S i)
  end.
Definition scanTime (buf : bytes) (i : nat) : outcome (nat * bytes) :=
  let start := skipWhitespace buf i in
  j ← scan_time_loop true (drop start buf) start;
  Ret (j, slice buf start j).
