(* ===== verification/ScanFacts.v ===== *)
(** * The scanners on escaped text

    A word is [guarded] by a class of bytes when every byte of the class,
    and no other, stands behind a backslash: what [esc] makes of a word
    without backslashes.  Each scanner runs over a guarded word up to the
    first byte it stops at. *)

From S2P Require Import Prelude GoStd Escape EscapeFacts GoFloat Scan GoStdFacts GoFloatFacts.
From S2P Require Import ScanFields.

Inductive guarded (P : ascii → bool) : bytes → Prop :=
| guarded_nil : guarded P []
| guarded_plain c w : P c = false → c ≠ backslash → guarded P w → guarded P (c :: w)
| guarded_pair c w : c ≠ backslash → guarded P w → guarded P (backslash :: c :: w).
#[export] Hint Constructors guarded : go.

Lemma esc_guarded P s : P backslash = false → backslash ∉ s → guarded P (esc P s).
Proof.
  intros HP. induction s as [|c s IH]; cbn; [constructor|].
  rewrite not_elem_of_cons. intros [Hc Hs].
  destruct (P c) eqn:E; [apply guarded_pair|apply guarded_plain]; auto.
Qed.

Lemma guarded_weaken (P Q : ascii → bool) w : (∀ c, Q c = true → P c = true) → guarded P w → guarded Q w.
Proof.
  intros H. induction 1 as [|c w Hc Hb _ IH|c w Hb _ IH];
    [constructor|apply guarded_plain|apply guarded_pair]; auto.
  destruct (Q c) eqn:E; [|done]. apply H in E. congruence.
Qed.

Lemma guarded_all (P : ascii → bool) w : backslash ∉ w → Forall (λ c, P c = false) w → guarded P w.
Proof.
  intros Hb H. induction H as [|c w Hc _ IH]; [constructor|].
  apply not_elem_of_cons in Hb as [? ?]. constructor; auto.
Qed.

Lemma guarded_app P v w : guarded P v → guarded P w → guarded P (v ++ w).
Proof.
  intros Hv Hw. induction Hv; cbn; [done|apply guarded_plain|apply guarded_pair]; auto.
Qed.

(** A guarded word does not begin with a byte of the class. *)
Lemma guarded_head P c w : guarded P (c :: w) → P c = true → c = backslash.
Proof. inversion 1; subst; [congruence|done]. Qed.

(** The end of a text: nothing, or one of the bytes of a test. *)
Definition ends_at (stop : ascii → bool) (rest : bytes) : Prop :=
  match rest with [] => True | c :: _ => stop c = true end.

(** Split on the shape of a guarded word, evaluating the tests. *)
Ltac guarded_ind H :=
  let IH := fresh "IH" in
  induction H as [|?c ?w ?Hc ?Hb _ IH|?c ?w ?Hb _ IH].

Section Scanners.
Context (P : ascii → bool).

Lemma scan_to_guarded stop w : P stop = true → stop ≠ backslash → guarded P w →
  ∀ prev rest i, is_escape prev = false → ends_at (λ c, Ascii.eqb c stop) rest →
  scan_to_loop stop prev (w ++ rest) i = i + length w.
Proof.
  intros Hs Hn Hw.
  induction Hw as [|c w Hc Hb _ IH|c w Hb _ IH]; intros prev rest i Hp Hr.
  - destruct rest as [|d rest]; cbn in *; [lia|]. rewrite Hr, Hp. cbn. lia.
  - cbn. destruct (Ascii.eqb_spec c stop) as [->|]; [congruence|]. cbn.
    rewrite IH; [lia| |done]. cbn. by apply Ascii.eqb_neq.
  - cbn. rewrite (proj2 (Ascii.eqb_neq backslash stop)) by done. cbn.
    rewrite Ascii.eqb_refl, andb_false_r.
    rewrite IH; [lia| |done]. cbn. by apply Ascii.eqb_neq.
Qed.

Lemma scan_measurement_guarded w : P "," = true → P " " = true → guarded P w →
  ∀ prev rest i, prev ≠ backslash →
  scan_measurement_loop prev (w ++ rest) i =
  scan_measurement_loop "000" rest (i + length w).
Proof.
  intros H1 H2 Hw.
  assert (∀ prev c rest i, prev ≠ backslash →
    scan_measurement_loop prev (c :: rest) i = scan_measurement_loop "000" (c :: rest) i) as Hany.
  { intros prev c rest i Hp. cbn. rewrite (proj2 (Ascii.eqb_neq prev backslash)) by done. done. }
  induction Hw as [|c w Hc Hb _ IH|c w Hb _ IH]; intros prev rest i Hp.
  - cbn [app length]. rewrite Nat.add_0_r. destruct rest; [done|]. by apply Hany.
  - cbn. rewrite (proj2 (Ascii.eqb_neq prev backslash)) by done.
    destruct (Ascii.eqb_spec c ","%char) as [->|]; [congruence|].
    destruct (Ascii.eqb_spec c " "%char) as [->|]; [congruence|].
    rewrite IH by done. f_equal. lia.
  - cbn [app scan_measurement_loop]. rewrite (proj2 (Ascii.eqb_neq prev backslash)) by done.
    change (backslash =c ",") with false. change (backslash =c " ") with false.
    rewrite Ascii.eqb_refl. rewrite IH by done. f_equal. cbn. lia.
Qed.

Lemma scan_tags_key_guarded w : P "," = true → P " " = true → P "=" = true → guarded P w →
  ∀ prev rest i, prev ≠ backslash →
  scan_tags_key_loop prev (w ++ "="%char :: rest) i = Ret (S (i + length w)).
Proof.
  intros H1 H2 H3 Hw.
  induction Hw as [|c w Hc Hb _ IH|c w Hb _ IH]; intros prev rest i Hp.
  - cbn. rewrite (proj2 (Ascii.eqb_neq prev backslash)) by done. cbn. do 2 f_equal. lia.
  - cbn. destruct (Ascii.eqb_spec c " "%char) as [->|]; [congruence|].
    destruct (Ascii.eqb_spec c ","%char) as [->|]; [congruence|].
    destruct (Ascii.eqb_spec c "="%char) as [->|]; [congruence|]. cbn.
    rewrite IH by done. do 2 f_equal. lia.
  - cbn [app scan_tags_key_loop].
    change (backslash =c ",") with false. change (backslash =c " ") with false.
    change (backslash =c "=") with false. rewrite Ascii.eqb_refl. cbn [negb andb orb].
    rewrite !andb_false_r. rewrite IH by done. do 2 f_equal. cbn. lia.
Qed.

Lemma scan_tags_value_guarded w : P "," = true → P " " = true → P "=" = true → guarded P w →
  ∀ prev rest i, prev ≠ backslash →
  scan_tags_value_loop prev (w ++ rest) i =
  match rest with
  | [] => Fail (Errorf "missing fields" [])
  | _ => scan_tags_value_loop "000" rest (i + length w)
  end.
Proof.
  intros H1 H2 H3 Hw.
  induction Hw as [|c w Hc Hb _ IH|c w Hb _ IH]; intros prev rest i Hp.
  - cbn [app length]. rewrite Nat.add_0_r. destruct rest as [|d rest]; [done|]. cbn.
    rewrite (proj2 (Ascii.eqb_neq prev backslash)) by done. done.
  - cbn [app scan_tags_value_loop]. destruct (Ascii.eqb_spec c "="%char) as [->|]; [congruence|].
    destruct (Ascii.eqb_spec c ","%char) as [->|]; [congruence|].
    destruct (Ascii.eqb_spec c " "%char) as [->|]; [congruence|]. cbn [andb].
    rewrite IH by done. destruct rest; [done|]. f_equal. cbn. lia.
  - cbn [app scan_tags_value_loop].
    change (backslash =c ",") with false. change (backslash =c " ") with false.
    change (backslash =c "=") with false. rewrite Ascii.eqb_refl. cbn [negb andb].
    rewrite !andb_false_r. rewrite IH by done. destruct rest; [done|]. f_equal. cbn. lia.
Qed.
End Scanners.

(** [scanTagValue] stops where [scanTo] does at a comma. *)
Lemma scan_tag_value_scan_to prev rest i :
  scan_tag_value_loop prev rest i = scan_to_loop "," prev rest i.
Proof.
  revert prev i. induction rest as [|c rest IH]; intros; [done|]. cbn. by rewrite IH.
Qed.

(* ------------------------------------------------------------------ *)
(** ** Reading at a position *)

Lemma prev_at_app pre c rest :
  prev_at (pre ++ c :: rest) (length pre + 1) = Some c.
Proof.
  rewrite Nat.add_1_r. cbn. rewrite lookup_app_r by lia. by rewrite Nat.sub_diag.
Qed.

Lemma prev_at_last pre x rest i : i = length (pre ++ [x]) → prev_at (pre ++ x :: rest) i = Some x.
Proof. intros ->. rewrite length_app. apply prev_at_app. Qed.

Lemma lookup_mid {A} (pre : list A) c rest i : i = length pre → (pre ++ c :: rest) !! i = Some c.
Proof. intros ->. rewrite lookup_app_r by lia. by rewrite Nat.sub_diag. Qed.

Lemma lookup_after {A} (pre w : list A) c rest i : i = length pre + length w →
  (pre ++ w ++ c :: rest) !! i = Some c.
Proof. intros ->. rewrite app_assoc. apply lookup_mid. by rewrite length_app. Qed.

Lemma drop_pre {A} (pre rest : list A) i : i = length pre → drop i (pre ++ rest) = rest.
Proof. intros ->. by rewrite drop_app_length. Qed.

(** [scanTo] from a position after [pre], over a guarded word. *)
Lemma scanTo_guarded (P : ascii → bool) pre w rest stop i : P stop = true → stop ≠ backslash → guarded P w →
  i = length pre → is_escape (last pre) = false → ends_at (λ c, Ascii.eqb c stop) rest →
  scanTo (pre ++ w ++ rest) i stop = (i + length w, w).
Proof.
  intros Hs Hn Hw -> Hp Hr. unfold scanTo.
  rewrite drop_app_length, (scan_to_guarded P) ; try done.
  - f_equal. by apply slice_app.
  - destruct pre as [|x pre] using rev_ind; [done|]. rewrite last_snoc in Hp.
    rewrite length_app, <- app_assoc. cbn [app length]. by rewrite prev_at_app.
Qed.

Lemma scanTagValue_guarded (P : ascii → bool) pre w rest i : P ","%char = true → guarded P w →
  i = length pre → is_escape (last pre) = false → ends_at (λ c, c =c ",") rest →
  scanTagValue (pre ++ w ++ rest) i = (i + length w, w).
Proof.
  intros Hs Hw -> Hp Hr. unfold scanTagValue. rewrite scan_tag_value_scan_to.
  pose proof (scanTo_guarded P pre w rest "," (length pre) Hs ltac:(done) Hw eq_refl Hp Hr) as H.
  unfold scanTo in H. injection H as H1 H2. rewrite H2, H1. f_equal.
  rewrite !length_app. destruct (Nat.ltb_spec (length pre + (length w + length rest))
    (length pre + length w)); [lia|done].
Qed.

Lemma scanMeasurement_guarded (P : ascii → bool) w rest : P ","%char = true → P " "%char = true → guarded P w → w ≠ [] →
  scanMeasurement (w ++ rest) 0 = scan_measurement_loop "000" rest (length w).
Proof.
  intros H1 H2 Hw Hn. destruct w as [|c w]; [done|].
  unfold scanMeasurement. rewrite drop_0. cbn [app].
  destruct (Ascii.eqb_spec c ","%char) as [->|Hc].
  { by apply guarded_head in Hw. }
  inversion Hw as [|? ? Hc' Hb Hw'|d w' Hb Hw']; subst.
  - rewrite (scan_measurement_guarded P) by done. done.
  - cbn [app scan_measurement_loop]. rewrite Ascii.eqb_refl.
    rewrite (scan_measurement_guarded P) by done. done.
Qed.

Lemma scanTagsKey_guarded (P : ascii → bool) pre w rest i : P ","%char = true → P " "%char = true → P "="%char = true →
  guarded P w → w ≠ [] → i = length pre →
  scanTagsKey (pre ++ w ++ "="%char :: rest) i = Ret (S (i + length w)).
Proof.
  intros H1 H2 H3 Hw Hn ->. unfold scanTagsKey. rewrite drop_app_length.
  destruct w as [|c w]; [done|]. cbn [app].
  assert ((c =c " ") || (c =c ",") || (c =c "=") = false) as ->.
  { destruct (Ascii.eqb_spec c " "%char) as [->|]; [by apply guarded_head in Hw|].
    destruct (Ascii.eqb_spec c ","%char) as [->|]; [by apply guarded_head in Hw|].
    destruct (Ascii.eqb_spec c "="%char) as [->|]; [by apply guarded_head in Hw|]. done. }
  inversion Hw as [|? ? Hc' Hb Hw'|d w' Hb Hw']; subst.
  - rewrite (scan_tags_key_guarded P) by done. do 2 f_equal. cbn. lia.
  - cbn [app scan_tags_key_loop]. rewrite Ascii.eqb_refl. cbn [negb]. rewrite !andb_false_r.
    rewrite (scan_tags_key_guarded P) by done. do 2 f_equal. cbn. lia.
Qed.

Lemma scanTagsValue_guarded (P : ascii → bool) pre w rest i : P ","%char = true → P " "%char = true → P "="%char = true →
  guarded P w → w ≠ [] → i = length pre →
  scanTagsValue (pre ++ w ++ rest) i =
  match rest with
  | [] => Fail (Errorf "missing fields" [])
  | _ => scan_tags_value_loop "000" rest (i + length w)
  end.
Proof.
  intros H1 H2 H3 Hw Hn ->. unfold scanTagsValue. rewrite drop_app_length.
  destruct w as [|d w]; [done|]. cbn [app].
  assert ((d =c ",") || (d =c " ") = false) as ->.
  { destruct (Ascii.eqb_spec d ","%char) as [->|]; [by apply guarded_head in Hw|].
    destruct (Ascii.eqb_spec d " "%char) as [->|]; [by apply guarded_head in Hw|]. done. }
  inversion Hw as [|? ? Hc' Hb Hw'|e w' Hb Hw']; subst.
  - rewrite (scan_tags_value_guarded P) by done. destruct rest; [done|]. f_equal. cbn. lia.
  - cbn [app scan_tags_value_loop]. rewrite Ascii.eqb_refl. cbn [negb]. rewrite !andb_false_r.
    rewrite (scan_tags_value_guarded P) by done. destruct rest; [done|].
    cbn [length]. by rewrite !Nat.add_succ_r.
Qed.

(* ------------------------------------------------------------------ *)
(** ** Progress: the fuel of [scanFields] never runs out *)

Lemma scan_number_loop_ge rest : ∀ b prev i f j g,
  scan_number_loop b prev rest i f = Ret (j, g) → i ≤ j ≤ i + length rest.
Proof.
  induction rest as [|c rest IH]; intros b prev i f j g; cbn.
  { intros [= <- _]. lia. }
  repeat match goal with
  | |- context [if ?b then _ else _] => destruct b
  end; first [intros [= <- _]; lia | discriminate | intros H%IH; lia].
Qed.

Lemma scanNumber_ge sup buf i j : scanNumber sup buf i = Ret j → i ≤ j ≤ length buf.
Proof.
  unfold scanNumber. destruct (drop i buf) as [|c rest] eqn:E; [done|].
  assert (length buf - i = S (length rest)) as Hl by (by rewrite <- length_drop, E).
  intros H. assert (∃ k g, i ≤ k ≤ length buf ∧ match check_number sup (slice buf i k) g with
    | Some e => Fail e | None => Ret k end = Ret j) as (k & g & Hk & H').
  { destruct (c =c "-").
    - destruct rest as [|d rest]; [done|].
      destruct (scan_number_loop true (Some c) (d :: rest) (S i) no_flags) as [[k g]| |] eqn:En;
        cbn in H; try done. apply scan_number_loop_ge in En. exists k, g. split; [cbn in *; lia|done].
    - destruct (scan_number_loop false (prev_at buf i) (c :: rest) i no_flags) as [[k g]| |] eqn:En;
        cbn in H; try done. apply scan_number_loop_ge in En. exists k, g. split; [cbn in *; lia|done]. }
  destruct (check_number _ _ _); [done|]. injection H' as <-. done.
Qed.

Lemma scan_word_loop_ge rest i : i ≤ scan_word_loop rest i ≤ i + length rest.
Proof.
  revert i. induction rest as [|c rest IH]; intros i; cbn; [lia|].
  destruct ((c =c ",") || (c =c " ")); [lia|]. specialize (IH (S i)). lia.
Qed.

Lemma scanBoolean_ge buf i j : scanBoolean buf i = Ret j → i ≤ j ≤ length buf.
Proof.
  unfold scanBoolean. destruct (drop i buf) as [|c rest] eqn:E; [done|].
  assert (length buf - i = S (length rest)) as Hl by (by rewrite <- length_drop, E).
  pose proof (scan_word_loop_ge rest (S i)).
  repeat match goal with |- context [if ?b then _ else _] => destruct b end;
    try done; intros [= <-]; lia.
Qed.

Lemma scan_value_ge sup buf i j : scan_value sup buf i = Ret (Some j) → i < j.
Proof.
  unfold scan_value. destruct (bare_before buf i " ") as [[]|]; try done.
  destruct (bare_before buf i ",") as [[]|]; try done.
  destruct (buf !! (i + 1)) as [d|]; [|done].
  destruct ((d =c ",") || (d =c " ")); [done|].
  destruct (isNumeric d || _ || _ || _).
  { destruct (scanNumber sup buf (i + 1)) eqn:E; cbn; intros; simplify_eq.
    apply scanNumber_ge in E. lia. }
  destruct (negb _); [|done].
  destruct (scanBoolean buf (i + 1)) eqn:E; cbn; intros; simplify_eq.
  apply scanBoolean_ge in E. lia.
Qed.

Section Loop.
Context (sup : bool) (buf : bytes).

Lemma scan_fields_enough f : ∀ g i q e c, length buf - i < f → length buf - i < g →
  scan_fields_loop f sup buf i q e c = scan_fields_loop g sup buf i q e c.
Proof.
  induction f as [|f IH]; intros [|g] i q e c Hf Hg; try lia. cbn [scan_fields_loop].
  destruct (buf !! i) as [x|] eqn:Ex; [|done]. apply lookup_lt_Some in Ex.
  destruct (Ascii.eqb x backslash && _); [apply IH; lia|].
  destruct (Ascii.eqb x dquote && _); [apply IH; lia|].
  destruct (scan_value sup buf i) as [[j|]| |] eqn:Ev; cbn [mbind outcome_bind];
    [apply scan_value_ge in Ev| | |];
    repeat match goal with |- context [if ?b then _ else _] => destruct b end;
    done || (apply IH; lia).
Qed.

(** The loop, with the fuel it needs. *)
Definition fields_from (i : nat) (q : bool) (e c : nat) : outcome (nat * bool * nat * nat) :=
  scan_fields_loop (S (length buf - i)) sup buf i q e c.
Arguments fields_from : simpl never.

Lemma fields_again f i q e c : length buf - i < f →
  scan_fields_loop f sup buf i q e c = fields_from i q e c.
Proof. intros. apply scan_fields_enough; lia. Qed.

Lemma fields_pair i q e c d : buf !! i = Some backslash → buf !! (i + 1) = Some d →
  fields_from i q e c = fields_from (i + 2) q e c.
Proof.
  intros H1 H2. pose proof (lookup_lt_Some _ _ _ H1). pose proof (lookup_lt_Some _ _ _ H2).
  unfold fields_from at 1. cbn [scan_fields_loop]. rewrite H1, Ascii.eqb_refl.
  rewrite (proj2 (Nat.ltb_lt _ _)) by done. apply fields_again. lia.
Qed.

Lemma fields_plain i q e c d : buf !! i = Some d → d ≠ backslash → key_class d = false →
  fields_from i q e c = fields_from (i + 1) q e c.
Proof.
  intros H1 Hb Hk. pose proof (lookup_lt_Some _ _ _ H1).
  unfold key_class in Hk. rewrite !orb_false_iff in Hk. destruct Hk as [[[K1 K2] K3] K4].
  unfold fields_from at 1. cbn [scan_fields_loop]. rewrite H1, K1, K2, K3, K4.
  rewrite (proj2 (Ascii.eqb_neq d backslash)) by done. cbn [andb]. apply fields_again. lia.
Qed.

(** Inside quotes only the backslash and the quote count. *)
Lemma fields_quoted i e c d : buf !! i = Some d → d ≠ backslash → d ≠ dquote →
  fields_from i true e c = fields_from (i + 1) true e c.
Proof.
  intros H1 Hb Hk. pose proof (lookup_lt_Some _ _ _ H1).
  unfold fields_from at 1. cbn [scan_fields_loop]. rewrite H1.
  rewrite (proj2 (Ascii.eqb_neq d backslash)), (proj2 (Ascii.eqb_neq d dquote)) by done.
  cbn [andb negb]. rewrite !andb_false_r. apply fields_again. lia.
Qed.

Lemma fields_quote i q e c : buf !! i = Some dquote → c < e →
  fields_from i q e c = fields_from (i + 1) (negb q) e c.
Proof.
  intros H1 Hc. pose proof (lookup_lt_Some _ _ _ H1).
  unfold fields_from at 1. cbn [scan_fields_loop]. rewrite H1.
  change (Ascii.eqb dquote backslash) with false. cbn [andb].
  rewrite Ascii.eqb_refl, (proj2 (Nat.ltb_lt _ _)) by done. apply fields_again. lia.
Qed.

Lemma fields_comma i e c : buf !! i = Some ","%char →
  fields_from i false e c = fields_from (i + 1) false e (S c).
Proof.
  intros H1. pose proof (lookup_lt_Some _ _ _ H1).
  unfold fields_from at 1. cbn [scan_fields_loop]. rewrite H1.
  change (Ascii.eqb "," backslash) with false. change (Ascii.eqb "," dquote) with false.
  cbn [andb negb]. change ("," =c "=") with false. change ("," =c ",") with true.
  change ("," =c " ") with false. cbn [andb]. apply fields_again. lia.
Qed.

Lemma fields_blank i e c : buf !! i = Some " "%char →
  fields_from i false e c = Ret (i, false, e, c).
Proof.
  intros H1. pose proof (lookup_lt_Some _ _ _ H1).
  unfold fields_from at 1. cbn [scan_fields_loop]. by rewrite H1.
Qed.

Lemma fields_equal i e c v : buf !! i = Some "="%char → scan_value sup buf i = Ret v →
  fields_from i false e c =
  match v with
  | Some j => fields_from j false (S e) c
  | None => fields_from (i + 1) false (S e) c
  end.
Proof.
  intros H1 Hv. pose proof (lookup_lt_Some _ _ _ H1).
  unfold fields_from at 1. cbn [scan_fields_loop]. rewrite H1.
  change (Ascii.eqb "=" backslash) with false. change (Ascii.eqb "=" dquote) with false.
  cbn [andb negb]. change ("=" =c "=") with true. change ("=" =c ",") with false.
  change ("=" =c " ") with false. cbn [andb]. rewrite Hv. cbn [mbind outcome_bind].
  destruct v as [j|]; apply fields_again; [apply scan_value_ge in Hv|]; lia.
Qed.
End Loop.

(* ------------------------------------------------------------------ *)
(** ** Runs over words *)

(** [buf !! i] inside [pre ++ w ++ rest], by computation on the lengths. *)
Ltac at_pos :=
  first [ rewrite lookup_mid; [done|]; rewrite ?length_app; cbn [length]; lia
        | rewrite lookup_app_r by (rewrite ?length_app; cbn [length]; lia) ].

Lemma fields_guarded sup w : guarded key_class w → ∀ pre rest q e c, rest ≠ [] →
  fields_from sup (pre ++ w ++ rest) (length pre) q e c =
  fields_from sup (pre ++ w ++ rest) (length pre + length w) q e c.
Proof.
  induction 1 as [|x w Hx Hb _ IH|x w Hb _ IH]; intros pre rest q e c Hr.
  - cbn. by rewrite Nat.add_0_r.
  - erewrite fields_plain; [|by apply lookup_mid|done|done].
    specialize (IH (pre ++ [x]) rest q e c Hr). rewrite <- !app_assoc in IH.
    rewrite !length_app in IH. cbn [app length] in IH |- *. rewrite IH. f_equal. lia.
  - erewrite fields_pair; [|by apply lookup_mid|].
    2:{ cbn [app]. change (backslash :: x :: w ++ rest) with ([backslash] ++ x :: w ++ rest).
        rewrite app_assoc. apply lookup_mid. rewrite length_app. done. }
    specialize (IH (pre ++ [backslash; x]) rest q e c Hr). rewrite <- !app_assoc in IH.
    rewrite !length_app in IH. cbn [app length] in IH |- *. rewrite IH. f_equal. lia.
Qed.

(** The body of a string, up to its closing quote. *)
Lemma fields_string_body sup s : ∀ pre rest e c,
  fields_from sup (pre ++ esc str_class s ++ dquote :: rest) (length pre) true e c =
  fields_from sup (pre ++ esc str_class s ++ dquote :: rest)
    (length pre + length (esc str_class s)) true e c.
Proof.
  induction s as [|x s IH]; intros pre rest e c.
  { cbn. by rewrite Nat.add_0_r. }
  cbn [esc]. destruct (str_class x) eqn:Ex; cbn [app length].
  - erewrite fields_pair; [|by apply lookup_mid|].
    2:{ change (backslash :: x :: esc str_class s ++ dquote :: rest)
          with ([backslash] ++ x :: esc str_class s ++ dquote :: rest).
        rewrite app_assoc. apply lookup_mid. rewrite length_app. done. }
    specialize (IH (pre ++ [backslash; x]) rest e c). rewrite <- !app_assoc in IH.
    rewrite !length_app in IH. cbn [app length] in IH |- *. rewrite IH. f_equal. lia.
  - unfold str_class in Ex. apply orb_false_iff in Ex as [E1%Ascii.eqb_neq E2%Ascii.eqb_neq].
    erewrite fields_quoted; [|by apply lookup_mid|done|done].
    specialize (IH (pre ++ [x]) rest e c). rewrite <- !app_assoc in IH.
    rewrite !length_app in IH. cbn [app length] in IH |- *. rewrite IH. f_equal. lia.
Qed.

(** The byte before an [=] is not a bare separator. *)
Lemma bare_before_guarded w x : guarded key_class w → key_class x = true → w ≠ [] →
  ∀ pre rest, bare_before (pre ++ w ++ rest) (length pre + length w) x = Some false.
Proof.
  intros Hw Hx. induction Hw as [|y w Hy Hb _ IH|y w Hb _ IH]; intros Hn pre rest; [done| |].
  - destruct w as [|z w].
    + unfold bare_before. cbn [app length]. rewrite prev_at_app.
      destruct (Ascii.eqb_spec y x); [congruence|done].
    + specialize (IH ltac:(done) (pre ++ [y]) rest). rewrite <- !app_assoc, !length_app in IH.
      cbn [app length] in IH |- *. rewrite <- IH. f_equal. lia.
  - destruct w as [|z w].
    + unfold bare_before. cbn [app length].
      replace (pre ++ backslash :: y :: rest) with ((pre ++ [backslash]) ++ y :: rest) by app_eq.
      replace (length pre + 2) with (length (pre ++ [backslash]) + 1) by (rewrite length_app; cbn; lia).
      rewrite prev_at_app. destruct (Ascii.eqb y x); [|done].
      replace (length (pre ++ [backslash]) + 1 - 1) with (length pre + 1) by (rewrite length_app; cbn; lia).
      rewrite <- app_assoc. cbn [app]. by rewrite prev_at_app.
    + specialize (IH ltac:(done) (pre ++ [backslash; y]) rest). rewrite <- !app_assoc, !length_app in IH.
      cbn [app length] in IH |- *. rewrite <- IH. f_equal. lia.
Qed.

(* ------------------------------------------------------------------ *)
(** ** Numbers and booleans *)

Lemma digit_cases (Q : ascii → Prop) : Forall Q (bs "0123456789") →
  ∀ c, is_digit c = true → Q c.
Proof.
  intros HQ c Hc. rewrite Forall_forall in HQ. apply HQ.
  apply has_byte_spec. destruct c as [[] [] [] [] [] [] [] []]; done.
Qed.

(** The end of a number or word: a comma or a blank. *)
Definition sep (c : ascii) : Prop := c = ","%char ∨ c = " "%char.

Lemma scan_number_digits d : all_digits d → ∀ b prev rest i f, d ≠ [] →
  match rest with c :: _ => c ≠ "+"%char ∧ c ≠ "-"%char | [] => True end →
  scan_number_loop b prev (d ++ rest) i f = scan_number_loop true None rest (i + length d) f.
Proof.
  assert (∀ b p q c r i f, c ≠ "+"%char → c ≠ "-"%char →
    scan_number_loop b p (c :: r) i f = scan_number_loop b q (c :: r) i f) as Hprev.
  { intros b p q c r i f H1 H2. cbn [scan_number_loop]. char_neq. done. }
  assert (∀ b p c r i f, is_digit c = true →
    scan_number_loop b p (c :: r) i f = scan_number_loop true (Some c) r (S i) f) as Hstep.
  { intros b p c r i [] Hc. revert c Hc. apply digit_cases. repeat constructor;
    cbn; by rewrite ?andb_false_r. }
  induction 1 as [|c d Hc _ IH]; intros b prev rest i f Hn Hr; [done|].
  cbn [app]. rewrite Hstep by done. destruct d as [|e d].
  - cbn [app length]. rewrite Nat.add_1_r. destruct rest as [|x rest]; [done|].
    destruct Hr. by apply Hprev.
  - rewrite IH by done. f_equal. cbn. lia.
Qed.

Lemma scan_number_sep c rest i f : sep c → scan_number_loop true None (c :: rest) i f = Ret (i, f).
Proof. by intros [-> | ->]. Qed.

Lemma sep_not_sign c : sep c → c ≠ "+"%char ∧ c ≠ "-"%char.
Proof. by intros [-> | ->]. Qed.

(** [scanNumber] reads a text when its loop and its checks accept it. *)
Lemma scanNumber_text sup pre w c rest f i : sep c → w ≠ [] → i = length pre →
  (∃ d, d ≠ [] ∧ all_digits (take 1 d) ∧ (w = d ∨ w = "-"%char :: d) ∧
    ∀ b prev j, scan_number_loop b prev (d ++ c :: rest) j no_flags = Ret (j + length d, f)) →
  check_number sup w f = None →
  scanNumber sup (pre ++ w ++ c :: rest) i = Ret (i + length w).
Proof.
  intros Hc Hw -> (d & Hd & Hd1 & Hs & Hl) Hk. unfold scanNumber. rewrite drop_app_length.
  assert (slice (pre ++ w ++ c :: rest) (length pre) (length pre + length w) = w) as Hsl
    by (by apply slice_app).
  destruct d as [|x d]; [done|]. cbn in Hd1. inversion Hd1 as [|? ? Hx _]; subst.
  destruct (is_digit_not x Hx) as (Hx1 & _).
  destruct Hs as [-> | ->]; cbn [app].
  - rewrite (proj2 (Ascii.eqb_neq x "-"%char)) by done.
    change (x :: d ++ c :: rest) with ((x :: d) ++ c :: rest).
    rewrite Hl. cbn [mbind outcome_bind]. rewrite Hsl, Hk. done.
  - change ("-" =c "-") with true. cbn iota.
    change (x :: d ++ c :: rest) with ((x :: d) ++ c :: rest) in *.
    change ("-"%char :: (x :: d) ++ c :: rest) with (("-"%char :: x :: d) ++ c :: rest).
    rewrite Hl. cbn [mbind outcome_bind].
    replace (S (length pre) + length (x :: d)) with (length pre + length ("-"%char :: x :: d))
      by (cbn; lia).
    rewrite Hsl, Hk. done.
Qed.

(** [scanNumber] accepts a suffixed integer. *)
Lemma check_number_int sup w : w ≠ [] → all_digits w ∨ (∃ d, w = "-"%char :: d ∧ d ≠ [] ∧ all_digits d) →
  returns (parse_int w) = true →
  check_number sup (w ++ bs "i") (NumberFlags true false false false) = None.
Proof.
  intros Hn Hw Hp. unfold check_number. cbn [isInt isUnsigned decimal scientific].
  cbn [orb andb]. cbn [bs String.list_ascii_of_string].
  rewrite last_snoc, length_app. cbn [length]. rewrite Nat.add_sub, take_app_length.
  match goal with |- context [Z.eqb ?a 0] => assert (Z.eqb a 0 = false) as -> end.
  { apply Z.eqb_neq. destruct w as [|x w]; [done|]. cbn [app length].
    destruct (x =c "-") eqn:E; [|lia]. apply Ascii.eqb_eq in E as ->.
    destruct Hw as [Ha|(d & [= ->] & Hd & _)].
    - by inversion Ha.
    - destruct d; [done|]. cbn. lia. }
  rewrite Ascii.eqb_refl. cbn [negb].
  destruct (_ || _); [|done]. by destruct (parse_int w).
Qed.

Lemma format_int_sign z : in_i64 z →
  (format_int z = digits z ∧ (0 <= z)%Z) ∨ (format_int z = "-"%char :: digits (- z) ∧ (0 < - z)%Z).
Proof. intros _. unfold format_int. destruct (Z.ltb_spec z 0); [right|left]; (split; [done|lia]). Qed.

Lemma take1_all_digits d : all_digits d → all_digits (take 1 d).
Proof. destruct 1; repeat constructor; done. Qed.

Lemma scanNumber_int sup pre z c rest i : sep c → in_i64 z → i = length pre →
  scanNumber sup (pre ++ (format_int z ++ bs "i") ++ c :: rest) i
  = Ret (i + length (format_int z ++ bs "i")).
Proof.
  intros Hc Hz ->.
  apply (scanNumber_text _ _ _ _ _ (NumberFlags true false false false)); try done.
  - by destruct (format_int z).
  - assert (∃ d, d ≠ [] ∧ all_digits d ∧ (format_int z = d ∨ format_int z = "-"%char :: d))
      as (d & Hd & Ha & Hs).
    { destruct (format_int_sign z Hz) as [[E ?]|[E ?]]; rewrite E;
        [exists (digits z)|exists (digits (- z))]; (split; [apply digits_nonempty; lia|split; [apply digits_are_digits; lia|auto]]). }
    exists (d ++ bs "i"). split; [by destruct d|]. split.
    { destruct d; [done|]. cbn. inversion Ha; subst. by repeat constructor. }
    split; [destruct Hs as [-> | ->]; auto|].
    intros b prev j. rewrite <- app_assoc. rewrite (scan_number_digits d) by done.
    cbn [bs String.list_ascii_of_string app].
    transitivity (scan_number_loop true (Some "i"%char) (c :: rest) (S (j + length d))
      (NumberFlags true false false false)); [done|].
    rewrite length_app. cbn. replace (S (j + length d)) with (j + (length d + 1)) by lia.
    by destruct Hc as [-> | ->].
  - apply check_number_int.
    + destruct (format_int_sign z Hz) as [[-> ?]|[-> ?]]; [apply digits_nonempty; lia|done].
    + destruct (format_int_sign z Hz) as [[-> ?]|[-> ?]]; [left; apply digits_are_digits; lia|].
      right. exists (digits (- z)). split; [done|]. split; [apply digits_nonempty|apply digits_are_digits]; lia.
    + by rewrite parse_int_format_int.
Qed.

Lemma scanNumber_uint pre z c rest i : sep c → (0 <= z < two64)%Z → i = length pre →
  scanNumber true (pre ++ (format_int z ++ bs "u") ++ c :: rest) i
  = Ret (i + length (format_int z ++ bs "u")).
Proof.
  intros Hc Hz ->.
  assert (format_int z = digits z) as E by (unfold format_int; destruct (Z.ltb_spec z 0); [lia|done]).
  assert (digits z ≠ []) as Hn by (apply digits_nonempty; lia).
  assert (all_digits (digits z)) as Ha by (apply digits_are_digits; lia).
  apply (scanNumber_text _ _ _ _ _ (NumberFlags false true false false)); try done.
  - by destruct (format_int z).
  - exists (digits z ++ bs "u"). split; [by destruct (digits z)|]. split.
    { destruct (digits z); [done|]. inversion Ha; subst. by repeat constructor. }
    split; [left; by rewrite E|].
    intros b prev j. rewrite <- app_assoc. rewrite (scan_number_digits (digits z)) by done.
    cbn [bs String.list_ascii_of_string app].
    transitivity (scan_number_loop true (Some "u"%char) (c :: rest) (S (j + length (digits z)))
      (NumberFlags false true false false)); [done|].
    rewrite length_app. cbn. replace (S (j + length (digits z))) with (j + (length (digits z) + 1)) by lia.
    by destruct Hc as [-> | ->].
  - unfold check_number. cbn [isInt isUnsigned decimal scientific orb andb negb].
    cbn [bs String.list_ascii_of_string]. rewrite last_snoc, length_app. cbn [length].
    rewrite Nat.add_sub, take_app_length, Ascii.eqb_refl. cbn [negb].
    assert (match format_int z ++ ["u"%char] with c :: _ => c =c "-" | [] => false end = false) as ->.
    { rewrite E. destruct (digits z) as [|x d]; [done|]. cbn. inversion Ha; subst.
      apply Ascii.eqb_neq. apply is_digit_not. done. }
    match goal with |- context [Z.eqb ?a 0] => assert (Z.eqb a 0 = false) as -> end.
    { apply Z.eqb_neq. rewrite E. destruct (digits z); [done|]. cbn. lia. }
    destruct (_ <=? _)%nat; [|done]. by rewrite parse_uint_format_int.
Qed.

Lemma scanNumber_float sup pre f c rest i : sep c → finite64 f = true → i = length pre →
  scanNumber sup (pre ++ format_float f ++ c :: rest) i = Ret (i + length (format_float f)).
Proof.
  intros Hc Hf ->. destruct (format_float_shape f Hf) as (t & Ht & Hs).
  set (frac := has_byte t ".").
  apply (scanNumber_text _ _ _ _ _ (NumberFlags false false frac false)); try done.
  - destruct Ht, Hs as [-> | ->]; try done. by destruct a.
  - exists t. destruct Ht as [a Ha Hn|a b Ha Hn Hb Hbn].
    + split; [done|]. split; [by apply take1_all_digits|]. split; [done|]. intros b prev j.
      rewrite (scan_number_digits a) by (try done; by apply sep_not_sign).
      assert (frac = false) as ->.
      { apply has_byte_false. intros Hin. apply (proj1 (Forall_forall _ _) Ha) in Hin. done. }
      by apply scan_number_sep.
    + split; [by destruct a|]. split.
      { destruct a; [done|]. inversion Ha; subst. by repeat constructor. }
      split; [done|]. intros x prev j. rewrite <- app_assoc. cbn [app].
      rewrite (scan_number_digits a) by done.
      assert (frac = true) as ->.
      { apply has_byte_spec. apply elem_of_app. right. by left. }
      transitivity (scan_number_loop true (Some "."%char) (b ++ c :: rest) (S (j + length a))
        (NumberFlags false false true false)).
      { cbn. by rewrite ?andb_false_r. }
      rewrite (scan_number_digits b) by (try done; by apply sep_not_sign).
      rewrite scan_number_sep by done. rewrite length_app. cbn. repeat f_equal. lia.
  - unfold check_number. cbn [isInt isUnsigned decimal scientific orb andb negb].
    match goal with |- context [Z.eqb ?a 0] => assert (Z.eqb a 0 = false) as -> end.
    { apply Z.eqb_neq. unfold frac. destruct Ht as [a Ha Hn|a b Ha Hn Hb Hbn].
      - destruct a as [|y a]; [done|]. inversion Ha; subst.
        destruct (is_digit_not y) as (Hy & _); [done|].
        assert (has_byte (y :: a) "." = false) as ->.
        { apply has_byte_false. intros Hin. apply (proj1 (Forall_forall _ _) Ha) in Hin. done. }
        destruct Hs as [-> | ->]; [rewrite (proj2 (Ascii.eqb_neq y "-"%char)) by done|]; cbn; lia.
      - destruct a as [|y a], b as [|y' b]; try done. inversion Ha; subst.
        destruct (is_digit_not y) as (Hy & _); [done|].
        destruct Hs as [-> | ->]; cbn [app]; [rewrite (proj2 (Ascii.eqb_neq y "-"%char)) by done|];
          cbn; rewrite length_app; destruct (has_byte _ _); cbn; lia. }
    destruct (_ || _); [|done]. by rewrite parse_format_float.
Qed.

Lemma scanBoolean_bool pre b c rest i : sep c → i = length pre →
  scanBoolean (pre ++ format_bool b ++ c :: rest) i = Ret (i + length (format_bool b)).
Proof.
  intros Hc ->. unfold scanBoolean. rewrite drop_app_length.
  assert (∀ w, scan_word_loop (w ++ c :: rest) = λ i, scan_word_loop (w ++ c :: rest) i) as _ by done.
  assert (slice (pre ++ format_bool b ++ c :: rest) (length pre)
    (length pre + length (format_bool b)) = format_bool b) as Hsl by by apply slice_app.
  destruct b; cbn [format_bool bs String.list_ascii_of_string app] in *;
    cbn [scan_word_loop]; cbn -[slice scan_word_loop].
  all: destruct Hc as [-> | ->]; cbn -[slice] in *.
  all: match type of Hsl with slice ?b ?i ?j = ?w =>
         match goal with |- context [slice b i ?k] => replace k with j by lia end; rewrite Hsl;
         match goal with |- context [(?k - i)%nat] => replace (k - i)%nat with (length w) by (cbn; lia) end
       end; cbn; f_equal; lia.
Qed.
