(* ===== verification/Tags.v ===== *)
(** * Tags and series keys ([models/points.go]) *)

From S2P Require Import Prelude GoStd Escape Scan.

Record Tag := MkTag { Key : bytes; Value : bytes }.

#[export] Instance Tag_eq_dec : EqDecision Tag.
Proof. solve_decision. Defined.

Abbreviation Tags := (list Tag).

(** [Tags.Less]: the order of [sort.Sort]. *)
Definition tag_ltb (a b : Tag) : bool := bytes_ltb (Key a) (Key b).

(** [Tag.Size], [Tags.Size]. *)
Definition tag_size (t : Tag) : nat := length (Key t) + length (Value t).
Definition Size (a : Tags) : nat := foldl (λ total t, total + tag_size t) 0 a.

(** [NewTags], for one order in which the runtime visits the map. *)
Definition NewTags_in (visit : list (bytes * bytes)) : Tags :=
  match visit with
  | [] => []
  | _ => sort tag_ltb (map (λ kv, MkTag kv.1 kv.2) visit)
  end.

Definition NewTags (m : gmap bytes bytes) : Tags := NewTags_in (map_to_list m).

Definition Keys (a : Tags) : list bytes := map Key a.
Definition Values (a : Tags) : list bytes := map Value a.

Definition tag_equal (a b : Tag) : bool :=
  bytes_equal (Key a) (Key b) && bytes_equal (Value a) (Value b).

(** [Tags.Equal]. *)
Fixpoint equal_tags (a other : Tags) : bool :=
  match a, other with
  | [], [] => true
  | t :: a', u :: other' => tag_equal t u && equal_tags a' other'
  | _, _ => false
  end.
Definition Equal (a other : Tags) : bool :=
  if negb (length a =? length other)%nat then false else equal_tags a other.

(** [CompareTags]: keys and values in turn, then the lengths. *)
Fixpoint CompareTags (a b : Tags) : comparison :=
  match a, b with
  | t :: a', u :: b' =>
      match bytes_compare (Key t) (Key u) with
      | Eq => match bytes_compare (Value t) (Value u) with
              | Eq => CompareTags a' b'
              | c => c
              end
      | c => c
      end
  | [], [] => Eq
  | [], _ :: _ => Lt
  | _ :: _, [] => Gt
  end.

(** [Tags.Get]: the first tag of that key; nil is [None]. *)
Fixpoint Get (a : Tags) (key : bytes) : option bytes :=
  match a with
  | [] => None
  | t :: a' => if bytes_equal (Key t) key then Some (Value t) else Get a' key
  end.

Definition GetString (a : Tags) (key : bytes) : bytes := default [] (Get a key).

(** [Tags.Set]: replaces the first tag of that key, or appends and sorts. *)
Fixpoint replace_tag (a : Tags) (key value : bytes) : option Tags :=
  match a with
  | [] => None
  | t :: a' => if bytes_equal (Key t) key then Some (MkTag (Key t) value :: a')
               else (t ::.) <$> replace_tag a' key value
  end.
Definition Set_ (a : Tags) (key value : bytes) : Tags :=
  match replace_tag a key value with
  | Some a' => a'
  | None => sort tag_ltb (a ++ [MkTag key value])
  end.

(** [Tags.Delete]. *)
Fixpoint Delete (a : Tags) (key : bytes) : Tags :=
  match a with
  | [] => []
  | t :: a' => if bytes_equal (Key t) key then a' else t :: Delete a' key
  end.

(** [Tags.Map]: a later tag of the same key overwrites. *)
Definition Map (a : Tags) : gmap bytes bytes :=
  foldl (λ m t, <[Key t := Value t]> m) ∅ a.

(** [Tags.Merge]. *)
Definition Merge (a : Tags) (other : gmap bytes bytes) : Tags :=
  let merged := Map a in
  let merged := foldl (λ m kv, <[kv.1 := kv.2]> m) merged (map_to_list other) in
  NewTags merged.

(* ------------------------------------------------------------------ *)
(** ** Series keys *)

Definition needs_escape_tag (t : Tag) : bool :=
  existsb (λ c, Models.has_code (Key t) c || Models.has_code (Value t) c) Models.tagEscapeCodes.
Definition needsEscape (a : Tags) : bool := existsb needs_escape_tag a.

Definition escape_tag_pair (t : Tag) : Tag :=
  MkTag (Models.escapeTag (Key t)) (Models.escapeTag (Value t)).

(** The bytes one escaped tag adds to the key: none for an empty value. *)
Definition tag_text (t : Tag) : bytes :=
  match Value t with
  | [] => []
  | v => ","%char :: Key t ++ "="%char :: v
  end.

(** [AppendHashKey]: the escaped tags, and the size reserved for them. *)
Definition escaped_tags (a : Tags) : Tags :=
  if needsEscape a then map escape_tag_pair a else a.
Definition hash_key_size (a : Tags) : nat :=
  let escaped := escaped_tags a in
  Size escaped + (length escaped + length escaped * 2).
Definition AppendHashKey (dst : bytes) (a : Tags) : bytes :=
  match a with
  | [] => dst
  | _ => dst ++ concat (map tag_text (escaped_tags a))
  end.
Definition HashKey (a : Tags) : bytes := AppendHashKey [] a.

(** [AppendMakeKey], [MakeKey]. *)
Definition AppendMakeKey (dst name : bytes) (tags : Tags) : bytes :=
  AppendHashKey (dst ++ Models.EscapeMeasurement (Models.unescapeMeasurement name)) tags.
Definition MakeKey (name : bytes) (tags : Tags) : bytes := AppendMakeKey [] name tags.

(* ------------------------------------------------------------------ *)
(** ** Reading a series key *)

(** The loop of [walkTags].  A turn reads at least the [=] of a tag, so
    [length buf + 1] turns are enough.  [fn] returns the caller's new state
    and whether to go on. *)
Fixpoint walk_tags_loop {A} (fuel : nat) (hasEscape : bool) (buf : bytes)
  (fn : A → bytes → bytes → A * bool) (i : nat) (acc : A) : A :=
  match fuel with
  | O => acc
  | S fuel' =>
      if (length buf <=? i)%nat then acc
      else
        let '(i, key) := scanTo buf i "=" in
        let '(i, value) := scanTagValue buf (i + 1) in
        match value with
        | [] => walk_tags_loop fuel' hasEscape buf fn i acc
        | _ =>
            let '(acc, go_on) :=
              if hasEscape then fn acc (Models.unescapeTag key) (Models.unescapeTag value)
              else fn acc key value in
            if (go_on : bool) then walk_tags_loop fuel' hasEscape buf fn (i + 1) acc else acc
        end
  end.

Definition walkTags {A} (buf : bytes) (fn : A → bytes → bytes → A * bool) (acc : A) : A :=
  match buf with
  | [] => acc
  | _ =>
      let '(pos, name) := scanTo buf 0 "," in
      match name with
      | [] => acc
      | _ => walk_tags_loop (length buf + 1) (has_byte buf backslash) buf fn (pos + 1) acc
      end
  end.

(** [parseTags]: the tags of a key, in order. *)
Definition parseTags (buf : bytes) : Tags :=
  walkTags buf (λ acc key value, (acc ++ [MkTag key value], true)) [].

(** [ParseKeyBytes]: the error of [scanMeasurement] is ignored. *)
Definition ParseKeyBytes (buf : bytes) : bytes * Tags :=
  let '(state, i, _) := scanMeasurement buf 0 in
  match state with
  | tagKeyState => (Models.unescapeMeasurement (take (i - 1) buf), parseTags buf)
  | _ => (Models.unescapeMeasurement (take i buf), [])
  end.

Definition ParseName (buf : bytes) : bytes :=
  let '(state, i, _) := scanMeasurement buf 0 in
  match state with
  | tagKeyState => Models.unescapeMeasurement (take (i - 1) buf)
  | _ => Models.unescapeMeasurement (take i buf)
  end.
