(* ===== verification/TagsFacts.v ===== *)
(** * Series keys are read back: lemmas on [Tags] and [scanKey] *)

From S2P Require Import Prelude GoStd GoStdFacts Escape EscapeFacts GoFloat Scan ScanFacts Tags.

(* ------------------------------------------------------------------ *)
(** ** The text of a key *)

(** A tag that line protocol carries: no empty part, no backslash. *)
Definition clean (s : bytes) : Prop := s ≠ [] ∧ backslash ∉ s.
Definition clean_tag (t : Tag) : Prop := clean (Key t) ∧ clean (Value t).

(** A tag as it stands in a key. *)
Definition guarded_tag (t : Tag) : Prop :=
  (guarded tag_class (Key t) ∧ Key t ≠ []) ∧ (guarded tag_class (Value t) ∧ Value t ≠ []).

Definition pair_text (t : Tag) : bytes := Key t ++ "="%char :: Value t.

Lemma tag_text_pair t : Value t ≠ [] → tag_text t = ","%char :: pair_text t.
Proof. unfold tag_text, pair_text. by destruct (Value t). Qed.

Lemma tag_class_backslash : tag_class backslash = false. Proof. done. Qed.
Lemma meas_class_backslash : meas_class backslash = false. Proof. done. Qed.
Lemma key_class_backslash : key_class backslash = false. Proof. done. Qed.
#[export] Hint Resolve tag_class_backslash meas_class_backslash key_class_backslash : go.

Lemma escape_tag_guarded t : clean_tag t → guarded_tag (escape_tag_pair t).
Proof.
  intros [[Hk Hkb] [Hv Hvb]]. unfold guarded_tag, escape_tag_pair. cbn [Key Value].
  rewrite !escapeTag_spec. repeat split; try (by apply esc_guarded);
    by intros ?%esc_nil_inv.
Qed.

(** Tags that need no escape are their own escapes. *)
Lemma needs_escape_tag_false t : needs_escape_tag t = false → escape_tag_pair t = t.
Proof.
  destruct t as [k v]. unfold needs_escape_tag, escape_tag_pair, Models.has_code.
  cbn -[Models.escapeTag]. rewrite !escapeTag_spec, !orb_false_iff, !has_byte_false.
  intros ((? & ?) & (? & ?) & (? & ?) & _).
  rewrite !esc_id; [done|..]; apply Forall_forall; intros c Hc;
    unfold tag_class; rewrite !orb_false_iff, !Ascii.eqb_neq; repeat split; by intros ->.
Qed.

Lemma escaped_tags_map a : escaped_tags a = map escape_tag_pair a.
Proof.
  unfold escaped_tags, needsEscape. destruct (existsb needs_escape_tag a) eqn:E; [done|].
  induction a as [|t a IH]; [done|]. cbn in *. apply orb_false_iff in E as [E1 E2].
  by rewrite needs_escape_tag_false, <- IH.
Qed.

Lemma HashKey_text a : AppendHashKey [] a = concat (map tag_text (map escape_tag_pair a)).
Proof. destruct a as [|t a]; [done|]. unfold AppendHashKey. by rewrite escaped_tags_map. Qed.

Lemma MakeKey_text name tags : backslash ∉ name →
  MakeKey name tags =
  esc meas_class name ++ concat (map tag_text (map escape_tag_pair tags)).
Proof.
  intros Hn. unfold MakeKey, AppendMakeKey. cbn [app]. autorewrite with esc.
  rewrite unesc_id by done. destruct tags as [|t tags]; [by rewrite app_nil_r|].
  unfold AppendHashKey. by rewrite escaped_tags_map.
Qed.

(** What stands behind the name in a key begins with a comma. *)
Lemma tags_text_ends a rest : Forall guarded_tag a → ends_at (λ c, c =c ",") rest →
  ends_at (λ c, c =c ",") (concat (map tag_text a) ++ rest).
Proof.
  intros Ha Hr. destruct Ha as [|t a [_ [_ Hv]] _]; [done|].
  cbn. rewrite tag_text_pair by done. done.
Qed.

(* ------------------------------------------------------------------ *)
(** ** [walkTags] and [parseTags] *)

Lemma last_guarded P w d : guarded P w → d ≠ backslash → is_escape (last (d :: w)) = false.
Proof.
  intros Hw Hd. revert d Hd.
  induction Hw as [|c w Hc Hb _ IH|c w Hb _ IH]; intros d Hd.
  - cbn. by apply Ascii.eqb_neq.
  - rewrite last_cons_cons. by apply IH.
  - rewrite !last_cons_cons. by apply IH.
Qed.

Lemma walk_tags_text {A} (fn : A → bytes → bytes → A * bool) (h : bool) : ∀ (a : Tags) fuel (pre : bytes) acc,
  Forall guarded_tag a → length a < fuel → is_escape (last pre) = false →
  (∀ t acc, t ∈ a → (fn acc (if h then Models.unescapeTag (Key t) else Key t)
                       (if h then Models.unescapeTag (Value t) else Value t)).2 = true) →
  walk_tags_loop fuel h (pre ++ concat (map tag_text a)) fn
    (length pre + match a with [] => 0 | _ => 1 end) acc
  = foldl (λ acc t, (fn acc (if h then Models.unescapeTag (Key t) else Key t)
                       (if h then Models.unescapeTag (Value t) else Value t)).1) acc a.
Proof.
  induction a as [|t a IH]; intros fuel pre acc Ha Hf Hp Hfn; (destruct fuel as [|fuel]; [cbn in *; lia|]).
  { cbn. rewrite app_nil_r, Nat.add_0_r, Nat.leb_refl. done. }
  apply Forall_cons in Ha as [[[Hk Hkn] [Hv Hvn]] Ha].
  cbn [map concat]. rewrite tag_text_pair by done. unfold pair_text.
  replace (pre ++ _) with ((pre ++ [","%char]) ++ Key t ++ "="%char :: Value t ++ concat (map tag_text a))
    by app_eq.
  cbn [walk_tags_loop].
  destruct (Nat.leb_spec (length ((pre ++ [","%char]) ++ Key t ++ "="%char :: Value t ++ concat (map tag_text a)))
    (length pre + 1)) as [Hl|_].
  { rewrite !length_app in Hl. cbn in Hl. destruct (Key t); cbn in *; [done|lia]. }
  rewrite (scanTo_guarded tag_class _ (Key t)) by
    (rewrite ?length_app, ?last_snoc; done).
  replace ((pre ++ [","%char]) ++ Key t ++ "="%char :: Value t ++ concat (map tag_text a))
    with ((pre ++ ","%char :: Key t ++ ["="%char]) ++ Value t ++ concat (map tag_text a))
    by app_eq.
  rewrite (scanTagValue_guarded tag_class); [|done|done| | |].
  2:{ rewrite !length_app. cbn. rewrite length_app. cbn. lia. }
  2:{ rewrite last_app_cons. change (","%char :: Key t ++ ["="%char]) with ((","%char :: Key t) ++ ["="%char]).
      by rewrite last_snoc. }
  2:{ rewrite <- (app_nil_r (concat _)). by apply tags_text_ends. }
  destruct (Value t) as [|v0 v] eqn:Ev; [done|]. rewrite <- Ev in *.
  replace (if h then fn acc (Models.unescapeTag (Key t)) (Models.unescapeTag (Value t))
           else fn acc (Key t) (Value t))
    with (fn acc (if h then Models.unescapeTag (Key t) else Key t)
             (if h then Models.unescapeTag (Value t) else Value t)) by (by destruct h).
  pose proof (Hfn t acc ltac:(by left)) as Hgo.
  destruct (fn acc _ _) as [acc' go_on] eqn:E. cbn in Hgo. subst go_on.
  cbn [foldl]. rewrite E. cbn [fst].
  destruct a as [|u a].
  { cbn [map concat foldl]. rewrite !app_nil_r. destruct fuel as [|fuel]; [cbn in Hf; lia|].
    cbn [walk_tags_loop]. destruct (Nat.leb_spec (length ((pre ++ ","%char :: Key t ++ ["="%char]) ++ Value t))
      (length pre + 1 + length (Key t) + 1 + length (Value t) + 1)) as [_|Hl]; [done|].
    rewrite !length_app in Hl. cbn in Hl. rewrite length_app in Hl. cbn in Hl. lia. }
  rewrite <- (IH fuel ((pre ++ ","%char :: Key t ++ ["="%char]) ++ Value t)).
  - f_equal; [app_eq|].
    rewrite !length_app. cbn. rewrite length_app. cbn. lia.
  - done.
  - cbn in Hf |- *. lia.
  - replace ((pre ++ ","%char :: Key t ++ ["="%char]) ++ Value t)
      with ((pre ++ ","%char :: Key t) ++ "="%char :: Value t)
      by app_eq.
    rewrite last_app_cons. by apply (last_guarded tag_class).
  - intros x acc'' Hx. apply Hfn. by right.
Qed.

Lemma tags_text_length a : Forall guarded_tag a → 4 * length a ≤ length (concat (map tag_text a)).
Proof.
  induction 1 as [|t a [[_ Hk] [_ Hv]] _ IH]; cbn [map concat length]; [lia|].
  rewrite length_app, tag_text_pair by done. unfold pair_text. cbn. rewrite length_app. cbn.
  destruct (Key t), (Value t); cbn; try done. lia.
Qed.

(** [walkTags] visits the tags of a key, unescaped, in order. *)
Lemma walkTags_MakeKey {A} (fn : A → bytes → bytes → A * bool) acc name tags :
  clean name → Forall clean_tag tags →
  (∀ t acc, t ∈ tags → (fn acc (Key t) (Value t)).2 = true) →
  walkTags (MakeKey name tags) fn acc = foldl (λ acc t, (fn acc (Key t) (Value t)).1) acc tags.
Proof.
  intros [Hn Hnb] Ht Hfn. rewrite MakeKey_text by done. unfold walkTags.
  remember (map escape_tag_pair tags) as ts eqn:Ets.
  assert (Forall guarded_tag ts) as Hts.
  { rewrite Ets. apply Forall_map. eapply Forall_impl; [exact Ht|]. apply escape_tag_guarded. }
  assert (guarded meas_class (esc meas_class name)) as Hg by (apply esc_guarded; done).
  destruct (esc meas_class name ++ concat (map tag_text ts)) as [|c0 s0] eqn:E0.
  { apply app_eq_nil in E0 as [E0 _]. by apply esc_nil_inv in E0. }
  rewrite <- E0. clear c0 s0 E0.
  pose proof (scanTo_guarded meas_class [] (esc meas_class name) (concat (map tag_text ts)) "," 0
    ltac:(done) ltac:(done) Hg eq_refl eq_refl) as Hscan.
  cbn [app] in Hscan. rewrite Hscan.
  2:{ rewrite <- (app_nil_r (concat _)). by apply tags_text_ends. }
  destruct (esc meas_class name) as [|n0 n] eqn:En; [by apply esc_nil_inv in En|].
  rewrite <- En in *. clear Hscan.
  assert (∀ t, t ∈ tags → ∀ s, (s = Key t ∨ s = Value t) →
     (if has_byte (esc meas_class name ++ concat (map tag_text ts)) backslash
      then Models.unescapeTag (esc tag_class s) else esc tag_class s) = s) as Hun.
  { intros t Hin s Hs. destruct (has_byte _ _) eqn:Eb.
    { rewrite unescapeTag_spec. by apply unesc_esc. }
    apply has_byte_false in Eb. rewrite not_elem_of_app in Eb. destruct Eb as [_ Eb].
    rewrite esc_id; [done|]. apply Forall_forall. intros c Hc.
    destruct (tag_class c) eqn:Ec; [exfalso|done]. apply Eb.
    assert (backslash ∈ esc tag_class s) as Hb.
    { clear -Hc Ec. induction s as [|d s IH]; [by apply elem_of_nil in Hc|].
      cbn. apply elem_of_cons in Hc as [<-|Hc]; [rewrite Ec; by left|].
      destruct (tag_class d); repeat right; by apply IH. }
    apply list_elem_of_In, in_concat.
    exists (tag_text (escape_tag_pair t)). split.
    { rewrite Ets. apply in_map, in_map. by apply list_elem_of_In. }
    rewrite tag_text_pair.
    2:{ apply (escape_tag_guarded t). rewrite Forall_forall in Ht. by apply Ht. }
    apply list_elem_of_In. unfold pair_text, escape_tag_pair. cbn [Key Value].
    rewrite !escapeTag_spec, elem_of_cons, elem_of_app, elem_of_cons.
    destruct Hs as [-> | ->]; auto. }
  destruct (decide (ts = [])) as [->|Hne].
  { destruct tags; [|done]. cbn [map concat foldl]. rewrite app_nil_r. cbn [walk_tags_loop Nat.add].
    rewrite Nat.add_1_r. cbn [walk_tags_loop].
    destruct (Nat.leb_spec (length (esc meas_class name)) (S (length (esc meas_class name)))); [done|lia]. }
  replace (0 + length (esc meas_class name) + 1)
    with (length (esc meas_class name) + match ts with [] => 0 | _ => 1 end)
    by (destruct ts; [done|lia]).
  set (h := has_byte _ _) in *. clearbody h.
  assert (∀ t, t ∈ tags →
    (if h then Models.unescapeTag (Key (escape_tag_pair t)) else Key (escape_tag_pair t)) = Key t ∧
    (if h then Models.unescapeTag (Value (escape_tag_pair t)) else Value (escape_tag_pair t)) = Value t)
    as Hun'.
  { intros t Hin. unfold escape_tag_pair. cbn [Key Value]. rewrite !escapeTag_spec.
    split; apply (Hun t); auto. }
  rewrite walk_tags_text; [|done| | |].
  - clear -Hun' Ets. subst ts. revert acc Hun'. induction tags as [|t tags IH]; intros acc Hun; [done|].
    cbn [map foldl]. destruct (Hun t ltac:(by left)) as [-> ->]. apply IH.
    intros x Hx. apply Hun. by right.
  - rewrite length_app. pose proof (tags_text_length ts Hts). lia.
  - pose proof (last_guarded meas_class _ "000"%char Hg ltac:(done)) as Hl.
    rewrite En in Hl |- *. by rewrite last_cons_cons in Hl.
  - intros t' acc' Hin. rewrite Ets in Hin.
    apply list_elem_of_In, in_map_iff in Hin as (t & <- & Hin%list_elem_of_In).
    destruct (Hun' t Hin) as [-> ->]. by apply Hfn.
Qed.

(** [parseTags] recovers the tags of a key. *)
Lemma parseTags_MakeKey name tags : clean name → Forall clean_tag tags →
  parseTags (MakeKey name tags) = tags.
Proof.
  intros Hn Ht. unfold parseTags. rewrite walkTags_MakeKey by done. cbn [fst].
  assert (∀ acc, foldl (λ acc t, acc ++ [MkTag (Key t) (Value t)]) acc tags = acc ++ tags) as ->.
  { clear. induction tags as [|[k v] tags IH]; intros acc; cbn; [by rewrite app_nil_r|].
    by rewrite IH, <- app_assoc. }
  done.
Qed.

(* ------------------------------------------------------------------ *)
(** ** [NewTags] and [Map] *)

Lemma tag_ltb_trans x y z : tag_ltb x y = true → tag_ltb y z = true → tag_ltb x z = true.
Proof. unfold tag_ltb. rewrite !bytes_ltb_lt. eauto with go. Qed.

Lemma tag_ltb_irrefl x : tag_ltb x x = false.
Proof. unfold tag_ltb. rewrite bytes_ltb_nlt. auto with go. Qed.

(** Distinct keys are comparable. *)
Lemma visit_comparable (visit : list (bytes * bytes)) : NoDup visit.*1 →
  ForallOrdPairs (λ x y, tag_ltb x y = true ∨ tag_ltb y x = true)
    (map (λ kv, MkTag kv.1 kv.2) visit).
Proof.
  induction visit as [|[k v] visit IH]; cbn; [constructor|].
  intros [Hk Hnd]%NoDup_cons. constructor; [|by apply IH].
  apply Forall_map, Forall_forall. intros [k' v'] Hin. cbn. unfold tag_ltb. cbn.
  rewrite !bytes_ltb_lt.
  destruct (bytes_lt_total k k') as [?|[->|?]]; auto.
  exfalso. apply Hk, list_elem_of_fmap. by exists (k', v').
Qed.

Lemma NewTags_in_sorted visit : NoDup visit.*1 →
  increasing tag_ltb (NewTags_in visit) ∧ NewTags_in visit ≡ₚ map (λ kv, MkTag kv.1 kv.2) visit.
Proof.
  intros Hnd. unfold NewTags_in. destruct visit as [|kv visit]; [split; [constructor|done]|].
  split; [|apply sort_perm]. apply sort_increasing; [apply tag_ltb_trans|].
  by apply visit_comparable.
Qed.

Lemma increasing_keys a : increasing tag_ltb a → StronglySorted bytes_lt (map Key a).
Proof.
  unfold increasing. induction 1 as [|t a _ IH Ht]; cbn; constructor; [done|].
  apply Forall_map. eapply Forall_impl; [exact Ht|]. intros u. apply bytes_ltb_lt.
Qed.

Lemma Map_lookup_perm (a : Tags) m : (∀ t, t ∈ a ↔ m !! Key t = Some (Value t)) →
  NoDup (map Key a) → Map a = m.
Proof.
  intros Hm Hnd. unfold Map.
  assert (∀ acc : gmap bytes bytes, foldl (λ m t, <[Key t := Value t]> m) acc a =
    (list_to_map (map (λ t, (Key t, Value t)) a) : gmap bytes bytes) ∪ acc) as Hfold.
  { clear Hm. induction a as [|t a IH]; intros acc; cbn.
    - by rewrite (left_id_L ∅ (∪)).
    - cbn [map] in Hnd. apply NoDup_cons in Hnd as [Ht Hnd]. rewrite IH by done.
      rewrite <- insert_union_l. symmetry. apply insert_union_r.
      apply not_elem_of_list_to_map_1. rewrite <- list_fmap_compose. exact Ht. }
  rewrite Hfold, (right_id_L ∅ (∪)). apply map_eq. intros k. apply option_eq. intros v.
  rewrite <- elem_of_list_to_map by (rewrite <- list_fmap_compose; done).
  split.
  - intros (t & [= -> ->] & Ht)%list_elem_of_fmap. by apply Hm.
  - intros Hk. apply list_elem_of_fmap. exists (MkTag k v). split; [done|]. by apply Hm.
Qed.

Lemma NewTags_elem m t : t ∈ NewTags m ↔ m !! Key t = Some (Value t).
Proof.
  unfold NewTags. rewrite (proj2 (NewTags_in_sorted _ (NoDup_fst_map_to_list m))).
  rewrite <- elem_of_map_to_list. split.
  - intros ([k v] & -> & H)%list_elem_of_fmap. done.
  - intros H. apply list_elem_of_fmap. eexists. split; [|exact H]. by destruct t.
Qed.

Lemma NewTags_keys m : StronglySorted bytes_lt (map Key (NewTags m)).
Proof. apply increasing_keys, NewTags_in_sorted, NoDup_fst_map_to_list. Qed.

Lemma sorted_NoDup (l : list bytes) : StronglySorted bytes_lt l → NoDup l.
Proof.
  induction 1 as [|x l _ IH Hx]; constructor; [|done]. intros Hin.
  rewrite Forall_forall in Hx. apply Hx in Hin. by apply bytes_lt_irrefl in Hin.
Qed.

Lemma Map_NewTags m : Map (NewTags m) = m.
Proof.
  apply Map_lookup_perm; [apply NewTags_elem|]. apply sorted_NoDup, NewTags_keys.
Qed.

Lemma length_NewTags m : length (NewTags m) = size m.
Proof.
  unfold NewTags. rewrite (proj2 (NewTags_in_sorted _ (NoDup_fst_map_to_list m))).
  by rewrite length_map, length_map_to_list.
Qed.

(* ------------------------------------------------------------------ *)
(** ** Tags as maps *)

Lemma Map_elem a k v : NoDup (map Key a) → Map a !! k = Some v ↔ MkTag k v ∈ a.
Proof.
  intros Hnd.
  rewrite (Map_lookup_perm a (list_to_map (map (λ t, (Key t, Value t)) a))); [|intros t|done].
  - rewrite <- elem_of_list_to_map by (rewrite <- list_fmap_compose; exact Hnd).
    rewrite list_elem_of_fmap. split; [|intros; by exists (MkTag k v)].
    by intros ([k' v'] & [= -> ->] & H).
  - rewrite <- elem_of_list_to_map by (rewrite <- list_fmap_compose; exact Hnd).
    rewrite list_elem_of_fmap. split; [intros; by exists t|].
    destruct t as [k' v']. cbn. by intros ([] & [= -> ->] & H).
Qed.

Lemma increasing_NoDup a : increasing tag_ltb a → NoDup (map Key a).
Proof. intros H. by apply sorted_NoDup, increasing_keys. Qed.

Lemma Get_elem a k v : NoDup (map Key a) → Get a k = Some v ↔ MkTag k v ∈ a.
Proof.
  induction a as [|[k' v'] a IH]; intros Hnd; cbn [Get Key Value].
  { split; [done|by intros ?%elem_of_nil]. }
  cbn [map Key] in Hnd. apply NoDup_cons in Hnd as [Hk Hnd]. rewrite elem_of_cons.
  destruct (bytes_equal k' k) eqn:E.
  - apply bytes_equal_true in E as ->. split; [intros [= ->]; by left|].
    intros [[= ->]|Hin]; [done|]. exfalso. apply Hk, list_elem_of_fmap. by exists (MkTag k v).
  - apply bytes_equal_false in E. rewrite IH by done. split; [by right|]. intros [[= ? ?]|?]; congruence.
Qed.

Lemma Get_Map a k : NoDup (map Key a) → Get a k = Map a !! k.
Proof. intros H. apply option_eq. intros v. by rewrite Get_elem, Map_elem. Qed.

Lemma replace_tag_Some a k v a' : replace_tag a k v = Some a' →
  map Key a' = map Key a ∧ k ∈ map Key a ∧
  (NoDup (map Key a) → ∀ j w, MkTag j w ∈ a' ↔ (if decide (j = k) then w = v else MkTag j w ∈ a)).
Proof.
  revert a'. induction a as [|[k0 v0] a IH]; intros a'; cbn [replace_tag Key]; [done|].
  destruct (bytes_equal k0 k) eqn:E.
  - apply bytes_equal_true in E as ->. intros [= <-]. split; [done|]. split; [by left|].
    cbn [map Key]. intros [Hk Hnd]%NoDup_cons j w. rewrite !elem_of_cons.
    assert (∀ w, MkTag k w ∉ a) as Hna.
    { intros w' Hin. apply Hk, list_elem_of_fmap. by exists (MkTag k w'). }
    destruct (decide (j = k)) as [->|Hj].
    + split; [intros [[= ->]|Hin]; [done|by destruct (Hna w)]|intros ->; by left].
    + rewrite elem_of_cons. split; (intros [[= ? ?]|?]; [congruence|by right]).
  - apply bytes_equal_false in E. destruct (replace_tag a k v) as [a1|] eqn:Er; cbn; [|done].
    intros [= <-]. destruct (IH a1 eq_refl) as (H1 & H2 & H3). cbn [map Key].
    split; [by f_equal|]. split; [by right|]. intros [Hk Hnd]%NoDup_cons j w.
    rewrite !elem_of_cons, H3 by done. destruct (decide (j = k)) as [->|Hj]; [|by rewrite elem_of_cons].
    split; [intros [[= ? ?]|?]; congruence|by right].
Qed.

Lemma replace_tag_None a k v : replace_tag a k v = None → k ∉ map Key a.
Proof.
  induction a as [|[k0 v0] a IH]; cbn [replace_tag Key map]; [by intros _ ?%elem_of_nil|].
  destruct (bytes_equal k0 k) eqn:E; [done|]. apply bytes_equal_false in E.
  destruct (replace_tag a k v); [done|]. intros _. rewrite not_elem_of_cons.
  split; [congruence|by apply IH].
Qed.

Lemma keys_comparable a : NoDup (map Key a) →
  ForallOrdPairs (λ x y, tag_ltb x y = true ∨ tag_ltb y x = true) a.
Proof.
  intros H. assert (a = map (λ kv, MkTag kv.1 kv.2) (map (λ t, (Key t, Value t)) a)) as ->.
  { rewrite map_map. rewrite <- (map_id a) at 1. apply map_ext. by intros []. }
  apply visit_comparable. rewrite <- list_fmap_compose. exact H.
Qed.

Lemma increasing_iff a : increasing tag_ltb a ↔ StronglySorted bytes_lt (map Key a).
Proof.
  split; [apply increasing_keys|]. unfold increasing.
  induction a as [|t a IH]; intros H; [constructor|]. cbn [map] in H. inversion H as [|? ? Hs Hf]; subst.
  constructor; [by apply IH|]. apply (proj1 (Forall_map _ _ _)) in Hf. eapply Forall_impl; [exact Hf|].
  intros u Hu. by apply bytes_ltb_lt.
Qed.

Lemma Set_spec a k v : increasing tag_ltb a →
  increasing tag_ltb (Set_ a k v) ∧ Map (Set_ a k v) = <[k := v]> (Map a).
Proof.
  intros Ha. pose proof (increasing_NoDup a Ha) as Hnd. unfold Set_.
  destruct (replace_tag a k v) as [a'|] eqn:E.
  - destruct (replace_tag_Some a k v a' E) as (Hk & _ & Hel).
    split; [apply increasing_iff; rewrite Hk; by apply increasing_keys|].
    apply map_eq. intros j. apply option_eq. intros w.
    rewrite Map_elem by by rewrite Hk. rewrite Hel by done.
    destruct (decide (j = k)) as [->|Hj].
    + rewrite lookup_insert_eq. naive_solver.
    + rewrite lookup_insert_ne by done. by rewrite Map_elem.
  - apply replace_tag_None in E.
    assert (NoDup (map Key (a ++ [MkTag k v]))) as Hnd'.
    { rewrite map_app. cbn [map Key]. apply NoDup_app. split; [done|]. split.
      - intros x Hx Hin. apply list_elem_of_singleton in Hin as ->. done.
      - apply NoDup_singleton. }
    split; [apply sort_increasing; [apply tag_ltb_trans|by apply keys_comparable]|].
    assert (NoDup (map Key (sort tag_ltb (a ++ [MkTag k v])))) as Hnd''.
    { change (NoDup (Key <$> sort tag_ltb (a ++ [MkTag k v]))). by rewrite sort_perm. }
    apply map_eq. intros j. apply option_eq. intros w.
    rewrite Map_elem by done. rewrite sort_perm, elem_of_app, list_elem_of_singleton.
    destruct (decide (j = k)) as [->|Hj].
    + rewrite lookup_insert_eq. split; [|intros [= ->]; by right].
      intros [Hin|[= ->]]; [|done]. exfalso. apply E, list_elem_of_fmap. by exists (MkTag k w).
    + rewrite lookup_insert_ne by done. rewrite Map_elem by done. naive_solver.
Qed.

Lemma Delete_sublist a k : Delete a k `sublist_of` a.
Proof.
  induction a as [|t a IH]; cbn; [done|]. destruct (bytes_equal _ _); [by constructor|].
  by apply sublist_skip.
Qed.

Lemma Delete_elem a k j w : NoDup (map Key a) →
  MkTag j w ∈ Delete a k ↔ j ≠ k ∧ MkTag j w ∈ a.
Proof.
  induction a as [|[k0 v0] a IH]; intros Hnd; cbn [Delete Key].
  { rewrite elem_of_nil. naive_solver. }
  cbn [map Key] in Hnd. apply NoDup_cons in Hnd as [Hk Hnd].
  destruct (bytes_equal k0 k) eqn:E.
  - apply bytes_equal_true in E as ->. rewrite elem_of_cons. split; [|naive_solver].
    intros Hin. split; [|by right]. intros ->. apply Hk, list_elem_of_fmap. by exists (MkTag k w).
  - apply bytes_equal_false in E. rewrite !elem_of_cons, IH by done. naive_solver.
Qed.

Lemma Delete_spec a k : increasing tag_ltb a →
  increasing tag_ltb (Delete a k) ∧ Map (Delete a k) = delete k (Map a).
Proof.
  intros Ha. pose proof (increasing_NoDup a Ha) as Hnd.
  assert (increasing tag_ltb (Delete a k)) as Hd.
  { clear Hnd. unfold increasing in *. induction Ha as [|t a Hs IH Hf]; cbn; [constructor|].
    destruct (bytes_equal _ _); [done|]. constructor; [done|].
    apply Forall_forall. intros x Hx. rewrite Forall_forall in Hf. apply Hf.
    eapply elem_of_submseteq; [exact Hx|]. apply sublist_submseteq, Delete_sublist. }
  split; [done|]. apply map_eq. intros j. apply option_eq. intros w.
  rewrite Map_elem by by apply increasing_NoDup. rewrite Delete_elem by done.
  rewrite lookup_delete_Some, Map_elem by done. naive_solver.
Qed.

Lemma Merge_spec a m : increasing tag_ltb (Merge a m) ∧ Map (Merge a m) = m ∪ Map a.
Proof.
  unfold Merge. split; [apply NewTags_in_sorted, NoDup_fst_map_to_list|]. rewrite Map_NewTags.
  assert (∀ (l : list (bytes * bytes)) (acc : gmap bytes bytes), NoDup l.*1 →
    foldl (λ m kv, <[kv.1 := kv.2]> m) acc l = (list_to_map l : gmap bytes bytes) ∪ acc) as H.
  { induction l as [|[k v] l IH]; intros acc Hnd; [cbn; by rewrite (left_id_L ∅ (∪))|].
    cbn in Hnd |- *. apply NoDup_cons in Hnd as [Hk Hnd]. rewrite IH by done.
    rewrite <- insert_union_l. symmetry. apply insert_union_r. by apply not_elem_of_list_to_map_1. }
  rewrite H by apply NoDup_fst_map_to_list. by rewrite list_to_map_to_list.
Qed.
