(* ===== verification/ScanKeyFacts.v ===== *)
(** * [scanKey] returns the keys that [MakeKey] writes *)

From S2P Require Import Prelude GoStd Escape EscapeFacts GoFloat Scan ScanFacts Tags TagsFacts.

(* ------------------------------------------------------------------ *)
(** ** The positions [scanTags] records *)

(** Where each tag starts, and one past the byte that ends the last one. *)
Fixpoint tag_starts (p : nat) (a : Tags) : list nat :=
  match a with
  | [] => [p]
  | t :: a' => p :: tag_starts (p + length (pair_text t) + 1) a'
  end.

Lemma length_tag_starts p a : length (tag_starts p a) = S (length a).
Proof. revert p. induction a as [|t a IH]; intros p; cbn; [done|]. by rewrite IH. Qed.

(** The tags between their separators: [text] ends at a blank. *)
Definition tags_body (a : Tags) (rest : bytes) : bytes :=
  match a with
  | [] => " "%char :: rest
  | t :: a' => pair_text t ++ concat (map tag_text a') ++ " "%char :: rest
  end.

Lemma tags_body_cons t u a rest : Value u ≠ [] →
  tags_body (t :: u :: a) rest = pair_text t ++ ","%char :: tags_body (u :: a) rest.
Proof. intros Hu. cbn [tags_body map concat]. rewrite tag_text_pair by done. app_eq. Qed.

Lemma set_index_ok indices n v : n < length indices → set_index indices n v = Ret (<[n:=v]> indices).
Proof. intros. unfold set_index. by rewrite (proj2 (Nat.ltb_lt _ _)). Qed.

(** Two turns of the loop read one tag. *)
Lemma scan_tags_turn fuel pre t rest k indices : guarded_tag t → k < length indices →
  scan_tags_loop (S (S fuel)) (pre ++ pair_text t ++ rest) tagKeyState (length pre) k indices =
  match rest with
  | [] => Fail (Errorf "missing fields" [])
  | _ => st ← scan_tags_value_loop "000" rest (length pre + length (pair_text t));
         scan_tags_loop fuel (pre ++ pair_text t ++ rest) st.1 st.2 (S k) (<[k:=length pre]> indices)
  end.
Proof.
  intros [[Hkg Hkn] [Hvg Hvn]] Hk. unfold pair_text. rewrite length_app. cbn [length].
  rewrite <- app_assoc. cbn [app scan_tags_loop]. destruct (Nat.leb_spec (length indices) k); [lia|].
  rewrite set_index_ok by lia. cbn [mbind outcome_bind].
  rewrite (scanTagsKey_guarded tag_class) by done. cbn [mbind outcome_bind].
  replace (pre ++ Key t ++ "="%char :: Value t ++ rest)
    with ((pre ++ Key t ++ ["="%char]) ++ Value t ++ rest) by app_eq.
  rewrite (scanTagsValue_guarded tag_class); [|done..|rewrite !length_app; cbn; lia].
  destruct rest as [|c rest]; [done|].
  replace (S (length pre + length (Key t)) + length (Value t))
    with (length pre + (length (Key t) + S (length (Value t)))) by lia.
  by destruct (scan_tags_value_loop _ _ _) as [[state i]|e|].
Qed.

(** A comma behind a tag: the next tag is read. *)
Lemma scan_tags_comma fuel pre t rest k indices : guarded_tag t → k < length indices →
  scan_tags_loop (S (S fuel)) (pre ++ pair_text t ++ ","%char :: rest) tagKeyState (length pre) k indices =
  scan_tags_loop fuel ((pre ++ pair_text t ++ [","%char]) ++ rest) tagKeyState
    (length (pre ++ pair_text t ++ [","%char])) (S k) (<[k:=length pre]> indices).
Proof.
  intros Ht Hk. rewrite scan_tags_turn by done. cbn [scan_tags_value_loop].
  change ("," =c "=") with false. change ("," =c ",") with true.
  change (Ascii.eqb "000" backslash) with false. cbn [andb negb mbind outcome_bind fst snd].
  f_equal; [app_eq|]. rewrite !length_app. cbn. lia.
Qed.

(** A blank behind a tag: the end is recorded. *)
Lemma scan_tags_blank fuel pre t rest k indices : guarded_tag t → k < length indices →
  scan_tags_loop (S (S (S fuel))) (pre ++ pair_text t ++ " "%char :: rest) tagKeyState (length pre) k indices =
  (indices ← set_index (<[k:=length pre]> indices) (S k) (S (length pre + length (pair_text t)));
   Ret (length pre + length (pair_text t), S k, indices)).
Proof.
  intros Ht Hk. rewrite scan_tags_turn by done. cbn [scan_tags_value_loop].
  change (" " =c "=") with false. change (" " =c ",") with false. change (" " =c " ") with true.
  change (Ascii.eqb "000" backslash) with false. by cbn [andb negb mbind outcome_bind fst snd scan_tags_loop].
Qed.

Lemma scan_tags_text a : ∀ fuel pre rest k indices,
  a ≠ [] → Forall guarded_tag a → k + length a < length indices → 2 * length a < fuel →
  scan_tags_loop fuel (pre ++ tags_body a rest) tagKeyState (length pre) k indices =
  Ret (length pre + length (tags_body a []) - 1, k + length a,
       list_inserts k (tag_starts (length pre) a) indices).
Proof.
  induction a as [|t a IH]; intros fuel pre rest k indices Hne Ha Hk Hf; [done|]. clear Hne.
  apply Forall_cons in Ha as [Ht Ha]. cbn [length] in Hk, Hf.
  destruct fuel as [|[|fuel]]; [lia..|]. destruct a as [|u a].
  - destruct fuel as [|fuel]; [cbn in Hf; lia|]. cbn [tags_body map concat app length].
    rewrite scan_tags_blank by (done || lia).
    rewrite set_index_ok by (rewrite length_insert; cbn in Hk; lia).
    cbn [mbind outcome_bind tag_starts list_inserts].
    rewrite list_insert_insert_ne by lia. rewrite length_app. cbn [length].
    apply f_equal, f_equal2; [apply f_equal2; lia|]. by rewrite !Nat.add_1_r.
  - pose proof Ha as [[_ [_ Huv]] _]%Forall_cons. rewrite !tags_body_cons by done.
    rewrite scan_tags_comma by (done || lia).
    rewrite IH; [|done|done|rewrite length_insert; cbn in *; lia|cbn in *; lia].
    rewrite !length_app. cbn [length]. rewrite Nat.add_assoc.
    change (tag_starts (length pre) (t :: u :: a))
      with (length pre :: tag_starts (length pre + length (pair_text t) + 1) (u :: a)).
    cbn [list_inserts]. rewrite list_insert_inserts_lt by lia.
    apply f_equal, f_equal2; [apply f_equal2; lia|done].
Qed.

(** The [j]-th tag stands at its recorded position. *)
Lemma tags_body_at a : ∀ pre rest j t,
  Forall guarded_tag a → a !! j = Some t →
  ∃ p c k, nth j (tag_starts (length pre) a) 0 = p ∧
    nth (j + 1) (tag_starts (length pre) a) 0 = p + length (pair_text t) + 1 ∧
    drop p (pre ++ tags_body a rest) = pair_text t ++ c :: k.
Proof.
  induction a as [|t a IH]; intros pre rest j u Ha Hj; [done|].
  apply Forall_cons in Ha as [Ht Ha]. destruct j as [|j].
  - injection Hj as <-. exists (length pre).
    assert (nth (0 + 1) (tag_starts (length pre) (t :: a)) 0 = length pre + length (pair_text t) + 1)
      as -> by (destruct a; done).
    rewrite drop_app_length. destruct a as [|u a].
    + by eexists _, _.
    + apply Forall_cons in Ha as [[_ [_ Hu]] _]. rewrite tags_body_cons by done. by eexists _, _.
  - cbn in Hj. destruct a as [|u' a]; [done|].
    pose proof Ha as [[_ [_ Hu']] _]%Forall_cons. rewrite tags_body_cons by done.
    destruct (IH (pre ++ pair_text t ++ [","%char]) rest j u Ha Hj) as (p & c & k & H1 & H2 & H3).
    assert (length (pre ++ pair_text t ++ [","%char]) = length pre + length (pair_text t) + 1) as El
      by (rewrite !length_app; cbn; lia).
    rewrite El in *. exists p, c, k. split; [exact H1|]. split; [exact H2|].
    rewrite <- H3. f_equal. app_eq.
Qed.

(* ------------------------------------------------------------------ *)
(** ** The order check *)

Lemma scanTo_pair t rest : guarded_tag t → (scanTo (pair_text t ++ rest) 0 "=").2 = Key t.
Proof.
  intros [[Hk _] _].
  pose proof (scanTo_guarded tag_class [] (Key t) ("="%char :: Value t ++ rest) "=" 0
    ltac:(done) ltac:(done) Hk eq_refl eq_refl eq_refl) as H. cbn [app] in H.
  unfold pair_text. rewrite <- app_assoc. cbn [app]. by rewrite H.
Qed.

Lemma check_order_sorted a pre rest indices m j :
  Forall guarded_tag a → StronglySorted bytes_lt (map Key a) →
  (∀ i, i ≤ length a → nth i indices 0 = nth i (tag_starts (length pre) a) 0) →
  j + m < length a →
  check_order (pre ++ tags_body a rest) indices j m = tags_sorted.
Proof.
  intros Ha Hs Hi. revert j. induction m as [|m IH]; intros j Hj; [done|].
  cbn [check_order].
  destruct (lookup_lt_is_Some_2 a j ltac:(lia)) as [t Ht].
  destruct (lookup_lt_is_Some_2 a (j + 1) ltac:(lia)) as [u Hu].
  destruct (tags_body_at a pre rest j t Ha Ht) as (p & c & k & Hp & Hp1 & Hd).
  destruct (tags_body_at a pre rest (j + 1) u Ha Hu) as (q & d & l & Hq & Hq1 & He).
  rewrite !Hi by lia. replace (j + 2) with (j + 1 + 1) by lia.
  rewrite Hp, Hq1, Hq. rewrite Hq in Hp1. rewrite Hp1.
  assert (∀ x c k, slice (pre ++ tags_body a rest) x (x + length (pair_text k) + 1 - 1) =
    take (length (pair_text k)) (drop x (pre ++ tags_body a rest)) ∧ c = c :> nat) as Hsl.
  { intros x c' k'. unfold slice. split; [|done]. f_equal. lia. }
  rewrite Hp1 in He. rewrite (proj1 (Hsl p 0 t)), (proj1 (Hsl _ 0 u)), Hd, He, !take_app_length.
  rewrite <- (app_nil_r (pair_text t)), <- (app_nil_r (pair_text u)), !scanTo_pair.
  2,3: rewrite Forall_forall in Ha; apply Ha; by eapply list_elem_of_lookup_2.
  assert (bytes_lt (Key t) (Key u)) as Hlt.
  { clear -Hs Ht Hu. revert a Hs Ht Hu. induction j as [|j IH]; intros a Hs Ht Hu.
    - destruct a as [|x [|y a]]; try done. cbn in *. simplify_eq.
      inversion Hs as [|? ? _ Hf]; subst. by inversion Hf.
    - destruct a as [|x a]; [done|]. inversion Hs; subst. eauto. }
  rewrite Hlt. apply IH. lia.
Qed.

(* ------------------------------------------------------------------ *)
(** ** [scanKey] *)

(** A key that the scanner does not take for leading blanks. *)
Definition starts_plain (s : bytes) : Prop :=
  match s with [] => True | c :: _ => c ≠ "009"%char ∧ c ≠ "000"%char end.

Lemma skipWhitespace_plain c rest : c ≠ " "%char → c ≠ "009"%char → c ≠ "000"%char →
  skipWhitespace (c :: rest) 0 = 0.
Proof. intros. unfold skipWhitespace. cbn. by char_neq. Qed.

Lemma esc_head P c s : P c = true ∨ esc P (c :: s) = c :: esc P s.
Proof. cbn. destruct (P c); auto. Qed.

Lemma skipWhitespace_key name rest : clean name → starts_plain name →
  skipWhitespace (esc meas_class name ++ rest) 0 = 0.
Proof.
  intros [Hn _] Hs. destruct name as [|c name]; [done|]. cbn.
  destruct (meas_class c) eqn:E; [by apply skipWhitespace_plain|].
  destruct Hs. cbn. apply skipWhitespace_plain; try done. by intros ->.
Qed.

Lemma escaped_guarded tags : Forall clean_tag tags → Forall guarded_tag (map escape_tag_pair tags).
Proof. intros Ht. apply Forall_map. eapply Forall_impl; [exact Ht|]. apply escape_tag_guarded. Qed.

Lemma scanKey_MakeKey name tags rest :
  clean name → starts_plain name → Forall clean_tag tags →
  StronglySorted bytes_lt (map Key (map escape_tag_pair tags)) → length tags < 100 →
  scanKey (MakeKey name tags ++ " "%char :: rest) 0 =
  Ret (length (MakeKey name tags), MakeKey name tags).
Proof.
  intros Hn Hpl Ht Hs Hlen. destruct (Hn) as [Hne Hnb].
  rewrite MakeKey_text by done. set (w := esc meas_class name).
  assert (guarded meas_class w) as Hg by by apply esc_guarded.
  assert (w ≠ []) as Hw by by intros ?%esc_nil_inv.
  remember (map escape_tag_pair tags) as ts eqn:Ets.
  assert (Forall guarded_tag ts) as Hts by (subst ts; by apply escaped_guarded).
  assert (length ts = length tags) as Hl by (subst ts; apply length_map).
  assert (∀ r, skipWhitespace (w ++ r) 0 = 0) as Hskip by (intros; by apply skipWhitespace_key).
  clearbody w. unfold scanKey. rewrite <- app_assoc, Hskip.
  rewrite (scanMeasurement_guarded meas_class) by done.
  destruct ts as [|t ts].
  - cbn [map concat app scan_measurement_loop]. change (Ascii.eqb "000" backslash) with false.
    cbn. unfold slice. by rewrite !app_nil_r, drop_0, ?Nat.sub_0_r, take_app_length.
  - pose proof Hts as [[_ [_ Hv]] _]%Forall_cons.
    assert (concat (map tag_text (t :: ts)) ++ " "%char :: rest
            = ","%char :: tags_body (t :: ts) rest) as E.
    { cbn [map concat]. rewrite tag_text_pair by done. cbn [tags_body]. app_eq. }
    rewrite E. cbn [scan_measurement_loop]. change ("," =c ",") with true.
    change (Ascii.eqb "000" backslash) with false. cbn iota.
    replace (w ++ ","%char :: tags_body (t :: ts) rest)
      with ((w ++ [","%char]) ++ tags_body (t :: ts) rest) by app_eq.
    replace (S (length w)) with (length (w ++ [","%char])) by (rewrite length_app; cbn; lia).
    unfold scanTags.
    rewrite scan_tags_text; [|done|done|rewrite length_replicate; lia|].
    2:{ rewrite !length_app. pose proof (tags_text_length _ Hts) as H4.
        apply (f_equal length) in E. rewrite length_app in E. cbn [length] in E, H4 |- *. lia. }
    cbn [mbind outcome_bind].
    rewrite (check_order_sorted (t :: ts)); [|done|done| |cbn [length]; lia].
    2:{ intros i Hi. rewrite !nth_lookup, list_lookup_inserts.
        - by rewrite Nat.sub_0_r.
        - rewrite length_tag_starts. lia.
        - rewrite length_replicate. lia. }
    assert (length (w ++ [","%char]) + length (tags_body (t :: ts) []) - 1
            = length (w ++ concat (map tag_text (t :: ts)))) as ->.
    { rewrite !length_app. cbn [map concat tags_body]. rewrite tag_text_pair by done.
      rewrite !length_app. cbn. lia. }
    f_equal. f_equal. unfold slice. rewrite drop_0, Nat.sub_0_r.
    replace ((w ++ [","%char]) ++ tags_body (t :: ts) rest)
      with ((w ++ concat (map tag_text (t :: ts))) ++ " "%char :: rest)
      by (rewrite <- app_assoc, E; app_eq).
    by rewrite take_app_length.
Qed.

(* ------------------------------------------------------------------ *)
(** ** The end of the index array *)

(** When the tags fill the array exactly, the index of the end is out of
    range: the array grows at the next tag only. *)
Lemma scan_tags_full a : ∀ fuel pre rest k indices,
  a ≠ [] → Forall guarded_tag a → k + length a = length indices → 2 * length a < fuel →
  scan_tags_loop fuel (pre ++ tags_body a rest) tagKeyState (length pre) k indices = Panic.
Proof.
  induction a as [|t a IH]; intros fuel pre rest k indices Hne Ha Hk Hf; [done|]. clear Hne.
  apply Forall_cons in Ha as [Ht Ha]. cbn [length] in Hk, Hf.
  destruct fuel as [|[|fuel]]; [lia..|]. destruct a as [|u a].
  - destruct fuel as [|fuel]; [cbn in Hf; lia|]. cbn [tags_body map concat app].
    rewrite scan_tags_blank by (done || lia). unfold set_index. rewrite length_insert.
    by rewrite (proj2 (Nat.ltb_ge _ _)) by (cbn in Hk; lia).
  - pose proof Ha as [[_ [_ Huv]] _]%Forall_cons. rewrite tags_body_cons by done.
    rewrite scan_tags_comma by (done || lia).
    apply IH; [done|done|rewrite length_insert; cbn in *; lia|cbn in *; lia].
Qed.

(** A key whose tags cannot be scanned cannot be scanned. *)
Lemma scanKey_stuck name body : clean name → starts_plain name →
  let w := esc meas_class name ++ [","%char] in
  (∀ e, scanTags (w ++ body) (length w) (replicate 100 0) = Fail e → scanKey (w ++ body) 0 = Fail e) ∧
  (scanTags (w ++ body) (length w) (replicate 100 0) = Panic → scanKey (w ++ body) 0 = Panic).
Proof.
  intros [Hne Hnb] Hpl w. subst w.
  assert (esc meas_class name ≠ []) as Hw by by intros ?%esc_nil_inv.
  assert (scanMeasurement ((esc meas_class name ++ [","%char]) ++ body) 0 =
          (tagKeyState, length (esc meas_class name ++ [","%char]), None)) as Hm.
  { rewrite <- app_assoc. cbn [app].
    rewrite (scanMeasurement_guarded meas_class) by (done || by apply esc_guarded).
    cbn [scan_measurement_loop]. change ("," =c ",") with true.
    change (Ascii.eqb "000" backslash) with false. cbn iota. rewrite length_app. cbn.
    by rewrite Nat.add_1_r. }
  assert (skipWhitespace ((esc meas_class name ++ [","%char]) ++ body) 0 = 0) as Hs
    by (rewrite <- app_assoc; by apply skipWhitespace_key).
  unfold scanKey. rewrite Hs, Hm.
  by split; [intros e|]; intros ->.
Qed.

Lemma MakeKey_tags name t tags rest : clean name → Forall clean_tag (t :: tags) →
  let ts := map escape_tag_pair tags in
  MakeKey name (t :: tags) ++ rest =
  (esc meas_class name ++ [","%char]) ++ pair_text (escape_tag_pair t) ++ concat (map tag_text ts) ++ rest.
Proof.
  intros [_ Hn] Ht. rewrite MakeKey_text by done. cbn [map concat].
  apply Forall_cons in Ht as [Ht _]. destruct (escape_tag_guarded t Ht) as [_ [_ Hv]].
  rewrite tag_text_pair by done. app_eq.
Qed.

Lemma scanKey_full name tags rest :
  clean name → starts_plain name → Forall clean_tag tags → length tags = 100 →
  scanKey (MakeKey name tags ++ " "%char :: rest) 0 = Panic.
Proof.
  intros Hn Hpl Ht Hlen. destruct tags as [|t tags]; [done|].
  pose proof (escaped_guarded _ Ht) as Hts. rewrite MakeKey_tags by done.
  apply (scanKey_stuck name); [done..|]. unfold scanTags.
  apply (scan_tags_full (map escape_tag_pair (t :: tags))); [done|done| |].
  - by rewrite length_replicate, length_map.
  - rewrite !length_app. pose proof (tags_text_length _ Hts) as H4. cbn [map concat length] in *.
    rewrite tag_text_pair, !length_app in H4; [cbn [length] in *; lia|].
    by apply Forall_cons in Hts as [[_ [_ ?]] _].
Qed.

(* ------------------------------------------------------------------ *)
(** ** A key that ends its line *)

Lemma scan_tags_cut a : ∀ fuel pre t k indices,
  Forall guarded_tag (t :: a) → k + length a < length indices → 2 * length a + 1 < fuel →
  scan_tags_loop fuel (pre ++ pair_text t ++ concat (map tag_text a)) tagKeyState (length pre) k indices
  = Fail (Errorf "missing fields" []).
Proof.
  induction a as [|u a IH]; intros fuel pre t k indices Ha Hk Hf; apply Forall_cons in Ha as [Ht Ha];
    (destruct fuel as [|[|fuel]]; [cbn in Hf; lia..|]); cbn [length] in *.
  - by rewrite scan_tags_turn by (done || lia).
  - pose proof Ha as [[_ [_ Huv]] _]%Forall_cons. cbn [map concat]. rewrite tag_text_pair by done.
    cbn [app]. rewrite scan_tags_comma by (done || lia).
    apply IH; [done|rewrite length_insert; lia|lia].
Qed.

Lemma scanKey_cut name tags : clean name → starts_plain name → Forall clean_tag tags → tags ≠ [] →
  length tags ≤ 100 → scanKey (MakeKey name tags) 0 = Fail (Errorf "missing fields" []).
Proof.
  intros Hn Hpl Ht Hne Hlen. destruct tags as [|t tags]; [done|].
  pose proof (escaped_guarded _ Ht) as Hts.
  rewrite <- (app_nil_r (MakeKey _ _)), MakeKey_tags by done.
  apply (scanKey_stuck name); [done..|]. unfold scanTags. rewrite app_nil_r.
  apply scan_tags_cut; [done|rewrite length_replicate, length_map; cbn in Hlen; lia|].
  rewrite !length_app. apply Forall_cons in Hts as [_ Hts].
  pose proof (tags_text_length (map escape_tag_pair tags) Hts) as H4. unfold pair_text. rewrite length_app. cbn [length]. lia.
Qed.
