(* ===== verification/Point.v ===== *)
(** * Points and their fields ([models/points.go], [models/inline_fnv.go]) *)

From S2P Require Import Prelude GoStd GoFloat GoTime ModelsTime Escape Scan ScanFields Tags.

Definition ErrPointMustHaveAField : error := Errorf "point without fields is unsupported" [].
Definition MaxKeyLength : nat := Z.to_nat 65535.
Arguments MaxKeyLength : simpl never.

(** The dynamic types that [appendField] tells apart ([float32] is left
    out); [VOther] carries the [fmt.Sprintf("%v", v)] text of any other. *)
Inductive int_kind := kint | kint8 | kint16 | kint32 | kint64.
Inductive uint_kind := kuint | kuint8 | kuint16 | kuint32 | kuint64.
Inductive value :=
| VFloat (f : float64)
| VInt (kind : int_kind) (z : Z)
| VUint (kind : uint_kind) (z : Z)
| VString (s : bytes)
| VBool (b : bool)
| VBytes (b : bytes)
| VNil
| VOther (text : bytes).

#[export] Instance int_kind_eq_dec : EqDecision int_kind.
Proof. solve_decision. Defined.
#[export] Instance uint_kind_eq_dec : EqDecision uint_kind.
Proof. solve_decision. Defined.
#[export] Instance value_eq_dec : EqDecision value.
Proof. solve_decision. Defined.

(** A [Fields] map, as the sequence of entries one iteration visits; the
    keys of a map are distinct. *)
Abbreviation Fields := (list (bytes * value)).
Definition fields_wf (fs : Fields) : Prop := NoDup fs.*1.

(* ------------------------------------------------------------------ *)
(** ** Text of the fields *)

Definition value_text (v : value) : bytes :=
  match v with
  | VFloat f => format_float f
  | VInt _ z => format_int z ++ bs "i"
  | VString s => dquote :: Models.EscapeStringField s ++ [dquote]
  | VBool b => format_bool b
  | VUint kuint64 z => format_int z ++ bs "u"
  | VUint _ z => format_int (i64 z) ++ bs "i"
  | VBytes b => b
  | VNil => []
  | VOther text => dquote :: Models.EscapeStringField text ++ [dquote]
  end.

Definition appendField (b k : bytes) (v : value) : bytes :=
  b ++ PkgEscape.String k ++ ["="%char] ++ value_text v.

(** [p[k]]. *)
Fixpoint field_lookup (fs : Fields) (k : bytes) : value :=
  match fs with
  | [] => VNil
  | (k', v) :: fs' => if bytes_equal k' k then v else field_lookup fs' k
  end.

Fixpoint marshal_loop (fs : Fields) (first : bool) (keys : list bytes) (b : bytes) : bytes :=
  match keys with
  | [] => b
  | k :: keys' =>
      let b := if first then b else b ++ [","%char] in
      marshal_loop fs false keys' (appendField b k (field_lookup fs k))
  end.

(** [Fields.MarshalBinary]: the fields by increasing key. *)
Definition MarshalFields (fs : Fields) : bytes :=
  marshal_loop fs true (sort bytes_ltb fs.*1) [].

(* ------------------------------------------------------------------ *)
(** ** Construction *)

Record point := MkPoint { p_key : bytes; p_fields : bytes; p_time : Time }.

#[export] Instance point_eq_dec : EqDecision point.
Proof. solve_decision. Defined.

Definition seriesKeySize (key field : bytes) : nat := length key + 4 + length field.

Definition max_key_error (sz : nat) : error :=
  Errorf "max key length exceeded: %v > %v"
    [format_int (Z.of_nat sz); format_int (Z.of_nat MaxKeyLength)].

(** The checks of [pointKey] on one field. *)
Definition check_field (kv : bytes * value) : option error :=
  let '(key, v) := kv in
  let bad_value :=
    match v with
    | VFloat f =>
        if is_inf f then Some (Errorf "+/-Inf is an unsupported value for field %s" [key])
        else if is_nan f then Some (Errorf "NaN is an unsupported value for field %s" [key])
        else None
    | _ => None
    end in
  match bad_value with
  | Some e => Some e
  | None => match key with
            | [] => Some (Errorf "all fields must have non-empty names" [])
            | _ => None
            end
  end.

(** The first error of a loop over the fields. *)
Fixpoint first_error {A} (check : A → option error) (l : list A) : option error :=
  match l with
  | [] => None
  | x :: l' => match check x with Some e => Some e | None => first_error check l' end
  end.

Definition check_size (key : bytes) (kv : bytes * value) : option error :=
  let sz := seriesKeySize key kv.1 in
  if (MaxKeyLength <? sz)%nat then Some (max_key_error sz) else None.

Definition pointKey (measurement : bytes) (tags : Tags) (fields : Fields) (t : Time)
  : outcome bytes :=
  match fields with
  | [] => Fail ErrPointMustHaveAField
  | _ =>
      match (if negb (IsZero t) then CheckTime t else None) with
      | Some e => Fail e
      | None =>
          match first_error check_field fields with
          | Some e => Fail e
          | None =>
              let key := MakeKey measurement tags in
              match first_error (check_size key) fields with
              | Some e => Fail e
              | None => Ret key
              end
          end
      end
  end.

Definition NewPoint (name : bytes) (tags : Tags) (fields : Fields) (t : Time) : outcome point :=
  key ← pointKey name tags fields t;
  Ret (MkPoint key (MarshalFields fields) t).

(* ------------------------------------------------------------------ *)
(** ** Methods *)

(** [Name]: [escape.Unescape] of the key up to the first bare comma. *)
Definition Name (p : point) : bytes := PkgEscape.Unescape (scanTo (p_key p) 0 ",").2.

Definition point_tags (p : point) : Tags := parseTags (p_key p).

Definition SetName (p : point) (name : bytes) : point :=
  MkPoint (MakeKey name (point_tags p)) (p_fields p) (p_time p).

Definition SetTags (p : point) (tags : Tags) : point :=
  MkPoint (MakeKey (Name p) tags) (p_fields p) (p_time p).

Definition AddTag (p : point) (key value : bytes) : point :=
  SetTags p (sort tag_ltb (point_tags p ++ [MkTag key value])).

(** [HasTag]: the walk stops at the first tag of that key. *)
Definition HasTag (p : point) (tag : bytes) : bool :=
  match p_key p with
  | [] => false
  | _ => walkTags (p_key p)
           (λ exists_ key _, if bytes_equal tag key then (true, false) else (exists_, true)) false
  end.

Definition SetTime (p : point) (t : Time) : point := MkPoint (p_key p) (p_fields p) t.

Definition SetPrecision (p : point) (precision : bytes) : point :=
  if bytes_equal precision (bs "n") then p
  else if bytes_equal precision (bs "u") then SetTime p (Truncate (p_time p) Microsecond)
  else if bytes_equal precision (bs "ms") then SetTime p (Truncate (p_time p) Millisecond)
  else if bytes_equal precision (bs "s") then SetTime p (Truncate (p_time p) Second)
  else if bytes_equal precision (bs "m") then SetTime p (Truncate (p_time p) Minute)
  else if bytes_equal precision (bs "h") then SetTime p (Truncate (p_time p) Hour)
  else p.

(** [Round], of the time. *)
Definition point_Round (p : point) (d : Z) : point := SetTime p (Round (p_time p) d).

Definition point_UnixNano (p : point) : Z := UnixNano (p_time p).

(** [String]. *)
Definition point_String (p : point) : bytes :=
  if IsZero (p_time p) then p_key p ++ bs " " ++ p_fields p
  else p_key p ++ bs " " ++ p_fields p ++ bs " " ++ format_int (point_UnixNano p).

(** [AppendString]. *)
Definition AppendString (p : point) (buf : bytes) : bytes :=
  let buf := buf ++ p_key p in
  let buf := buf ++ [" "%char] in
  let buf := buf ++ p_fields p in
  if negb (IsZero (p_time p)) then
    let buf := buf ++ [" "%char] in
    buf ++ format_int (point_UnixNano p)
  else buf.

(** [for t > 9 { digits++; t /= 10 }]: an [int64] has at most 19 digits. *)
Fixpoint count_digits (fuel : nat) (t : Z) (digits : nat) : nat :=
  match fuel with
  | O => digits
  | S fuel' => if (9 <? t)%Z then count_digits fuel' (Z.quot t 10) (S digits) else digits
  end.

(** [StringSize]. *)
Definition StringSize (p : point) : nat :=
  let size := length (p_key p) + length (p_fields p) + 1 in
  if negb (IsZero (p_time p)) then
    let t := point_UnixNano p in
    let '(digits, t) := if (t <? 0)%Z then (2, i64 (- t)) else (1, t) in
    let digits := count_digits 20 t digits in
    size + (digits + 1)
  else size.

(** [PrecisionString]. *)
Definition PrecisionString (p : point) (precision : bytes) : bytes :=
  if IsZero (p_time p) then p_key p ++ bs " " ++ p_fields p
  else p_key p ++ bs " " ++ p_fields p ++ bs " "
         ++ format_int (Z.quot (point_UnixNano p) (GetPrecisionMultiplier precision)).

(** [RoundedString]. *)
Definition RoundedString (p : point) (d : Z) : bytes :=
  if IsZero (p_time p) then p_key p ++ bs " " ++ p_fields p
  else p_key p ++ bs " " ++ p_fields p ++ bs " " ++ format_int (UnixNano (Round (p_time p) d)).

(** [InlineFNV64a] and [HashID]. *)
Definition prime64 : Z := 1099511628211.
Definition offset64 : Z := 14695981039346656037.
Definition NewInlineFNV64a : Z := offset64.
Definition fnv_Write (s : Z) (data : bytes) : Z :=
  foldl (λ hash c, u64 (Z.lxor hash (Z.of_N (N_of_ascii c)) * prime64)) s data.
Definition HashID (p : point) : Z := fnv_Write NewInlineFNV64a (p_key p).

(** The loop of [Split]: every turn moves [cur] forward. *)
Fixpoint split_loop (fuel : nat) (p : point) (size : Z) (start cur : nat) (points : list point)
  : list point * nat :=
  match fuel with
  | O => (points, start)
  | S fuel' =>
      if (cur <? length (p_fields p))%nat then
        let '(end_, _) := scanTo (p_fields p) cur "=" in
        let '(end_, _) := scanFieldValue (p_fields p) (end_ + 1) in
        if (start <? cur)%nat && (size <? Z.of_nat end_ - Z.of_nat start)%Z then
          split_loop fuel' p size cur (end_ + 1)
            (points ++ [MkPoint (p_key p) (slice (p_fields p) start (cur - 1)) (p_time p)])
        else split_loop fuel' p size start (end_ + 1) points
      else (points, start)
  end.

(** [Split]. *)
Definition Split (p : point) (size : Z) : list point :=
  if IsZero (p_time p) || (Z.of_nat (StringSize p) <=? size)%Z then [p]
  else
    let size := (size - Z.of_nat (length (p_key p) + length (format_int (point_UnixNano p)) + 2))%Z in
    let '(points, start) := split_loop (length (p_fields p)) p size 0 0 [] in
    points ++ [MkPoint (p_key p) (drop start (p_fields p)) (p_time p)].

(* ------------------------------------------------------------------ *)
(** ** Iterating over the fields *)

Inductive FieldType := Integer | Float | Boolean | StringT | Empty | Unsigned.

(** The part of [fieldIterator] that [Next] sets. *)
Record iter := MkIter {
  it_end : nat; it_key : bytes; it_valueBuf : bytes; it_fieldType : FieldType
}.

Definition number_start (c : ascii) : bool := has_byte (bs "0123456789-.nNiIu") c.

(** The end of [Next]: the type of the field, from the text of its value. *)
Definition classify (end_ : nat) (key valueBuf : bytes) : iter :=
  match valueBuf with
  | [] => MkIter end_ key valueBuf Empty
  | c :: _ =>
      if Ascii.eqb c dquote then MkIter end_ key valueBuf StringT
      else if number_start c then
        let body := take (length valueBuf - 1) valueBuf in
        match last valueBuf with
        | Some d => if d =c "i" then MkIter end_ key body Integer
                    else if d =c "u" then MkIter end_ key body Unsigned
                    else MkIter end_ key valueBuf Float
        | None => MkIter end_ key valueBuf Float
        end
      else MkIter end_ key valueBuf Boolean
  end.

(** [Next], from the end of the previous field; [None] is false. *)
Definition Next (fields : bytes) (start : nat) : option iter :=
  if (length fields <=? start)%nat then None
  else
    let '(end_, key) := scanTo fields start "=" in
    let key := if PkgEscape.IsEscaped key then PkgEscape.AppendUnescaped [] key else key in
    let '(end_, valueBuf) := scanFieldValue fields (end_ + 1) in
    Some (classify (end_ + 1) key valueBuf).

(** [StringValue]: [valueBuf[1:len-1]], unescaped. *)
Definition StringValue (it : iter) : outcome bytes :=
  if (length (it_valueBuf it) <? 2)%nat then Panic
  else Ret (Models.unescapeStringField (slice (it_valueBuf it) 1 (length (it_valueBuf it) - 1))).

Definition wrap_error {A} (format : string) (arg : bytes) (m : outcome A) : outcome A :=
  match m with Fail e => Fail (Wrapf format [arg] e) | _ => m end.

Definition IntegerValue (it : iter) : outcome Z :=
  wrap_error "unable to parse integer value %q: %v" (it_valueBuf it) (parse_int (it_valueBuf it)).
Definition UnsignedValue (it : iter) : outcome Z :=
  wrap_error "unable to parse unsigned value %q: %v" (it_valueBuf it) (parse_uint (it_valueBuf it)).
Definition BooleanValue (it : iter) : outcome bool :=
  wrap_error "unable to parse bool value %q: %v" (it_valueBuf it) (parse_bool (it_valueBuf it)).
Definition FloatValue (it : iter) : outcome float64 :=
  wrap_error "unable to parse floating point value %q: %v" (it_valueBuf it)
    (parse_float (it_valueBuf it)).

(** The value of the current field; no value for an empty one. *)
Definition field_value (it : iter) : outcome (option value) :=
  let fail {A} (m : outcome A) := wrap_error "unable to unmarshal field %s: %s" (it_key it) m in
  match it_fieldType it with
  | Float => v ← fail (FloatValue it); Ret (Some (VFloat v))
  | Integer => v ← fail (IntegerValue it); Ret (Some (VInt kint64 v))
  | Unsigned => v ← fail (UnsignedValue it); Ret (Some (VUint kuint64 v))
  | StringT => v ← StringValue it; Ret (Some (VString v))
  | Boolean => v ← fail (BooleanValue it); Ret (Some (VBool v))
  | Empty => Ret None
  end.

(** The loop of [unmarshalBinary], which collects the assignments to the
    map; every turn moves the iterator forward. *)
Fixpoint unmarshal_loop (fuel : nat) (fields : bytes) (start : nat) : outcome Fields :=
  match fuel with
  | O => Ret []
  | S fuel' =>
      match Next fields start with
      | None => Ret []
      | Some it =>
          match it_key it with
          | [] => unmarshal_loop fuel' fields (it_end it)
          | key =>
              v ← field_value it;
              rest ← unmarshal_loop fuel' fields (it_end it);
              Ret (match v with Some v => (key, v) :: rest | None => rest end)
          end
      end
  end.

(** [Fields]: the assignments made to the map, in order. *)
Definition point_Fields (p : point) : outcome Fields :=
  unmarshal_loop (S (length (p_fields p))) (p_fields p) 0.
