(* ===== verification/PointCodec.v ===== *)
(** * The binary form of points ([MarshalBinary], [UnmarshalBinary] and
    [NewPointFromBytes] of [models/points.go]) *)

From S2P Require Import Prelude GoStd GoFloat GoTime ModelsTime Escape Scan ScanFields Tags.
From S2P Require Import Point.

#[local] Open Scope Z_scope.

(* ------------------------------------------------------------------ *)
(** ** [encoding/binary], big-endian *)

Definition byte_of (z : Z) : ascii := ascii_of_N (Z.to_N (z mod 256)).
Definition byte_value (c : ascii) : Z := Z.of_N (N_of_ascii c).

(** The low [n] bytes of an integer, most significant first. *)
Fixpoint be_bytes (n : nat) (z : Z) : bytes :=
  match n with
  | O => []
  | S n' => byte_of (z / 256 ^ Z.of_nat n') :: be_bytes n' z
  end.

(** The integer of a sequence of bytes. *)
Definition be_value (b : bytes) : Z := foldl (λ acc c, acc * 256 + byte_value c) 0 b.

(** Reading an unsigned integer of [n] bytes as a signed one. *)
Definition signed (n : nat) (z : Z) : Z :=
  if z <? 2 ^ (8 * Z.of_nat n - 1) then z else z - 2 ^ (8 * Z.of_nat n).

(* ------------------------------------------------------------------ *)
(** ** [time.Time] *)

Definition timeBinaryVersion : ascii := "001".

(** [Time.MarshalBinary]; the offset of the location, in seconds east of
    UTC, or [None] for UTC itself, is not kept in a [Time]. *)
Definition time_MarshalBinary (zone : option Z) (t : Time) : outcome bytes :=
  offsetMin ← match zone with
              | None => Ret (-1)
              | Some offset =>
                  if negb (Z.rem offset 60 =? 0) then
                    Fail (Errorf "Time.MarshalBinary: zone offset has fractional minute" [])
                  else
                    let offset := Z.quot offset 60 in
                    if (offset <? -32768) || (offset =? -1) || (32767 <? offset) then
                      Fail (Errorf "Time.MarshalBinary: unexpected zone offset" [])
                    else Ret offset
              end;
  Ret (timeBinaryVersion :: be_bytes 8 (t_sec t) ++ be_bytes 4 (t_nsec t) ++ be_bytes 2 offsetMin).

(** A time of its fields [wall] and [ext]: the high bit of [wall] says that
    the seconds, since 1885, are in [wall] too. *)
Definition time_of_wall (wall ext : Z) : Time :=
  if two63 <=? wall then MkTime (59453308800 + (wall - two63) / 2 ^ 30) (wall mod 2 ^ 30)
  else MkTime ext (wall mod 2 ^ 30).

(** [Time.UnmarshalBinary], without the location. *)
Definition time_UnmarshalBinary (data : bytes) : outcome Time :=
  match data with
  | [] => Fail (Errorf "Time.UnmarshalBinary: no data" [])
  | version :: buf =>
      if negb (Ascii.eqb version timeBinaryVersion) then
        Fail (Errorf "Time.UnmarshalBinary: unsupported version" [])
      else if negb (length data =? 15)%nat then
        Fail (Errorf "Time.UnmarshalBinary: invalid length" [])
      else
        let sec := signed 8 (be_value (take 8 buf)) in
        let nsec := signed 4 (be_value (take 4 (drop 8 buf))) in
        Ret (time_of_wall (u64 nsec) sec)
  end.

(* ------------------------------------------------------------------ *)
(** ** Points *)

Definition ErrShortBuffer : error := Errorf "short buffer" [].

Definition point_MarshalBinary (zone : option Z) (p : point) : outcome bytes :=
  match p_fields p with
  | [] => Fail ErrPointMustHaveAField
  | _ :: _ =>
      tb ← time_MarshalBinary zone (p_time p);
      Ret (be_bytes 4 (Z.of_nat (length (p_key p))) ++ p_key p
           ++ be_bytes 4 (Z.of_nat (length (p_fields p))) ++ p_fields p ++ tb)
  end.

(** A length of four bytes, the bytes it counts, and the rest. *)
Definition read_block (b : bytes) : outcome (bytes * bytes) :=
  if (length b <? 4)%nat then Fail ErrShortBuffer
  else
    let n := be_value (take 4 b) in
    let b := drop 4 b in
    if Z.of_nat (length b) <? n then Fail ErrShortBuffer
    else Ret (take (Z.to_nat n) b, drop (Z.to_nat n) b).

(** [UnmarshalBinary], into a new point. *)
Definition point_UnmarshalBinary (b : bytes) : outcome point :=
  kb ← read_block b;
  fb ← read_block kb.2;
  t ← time_UnmarshalBinary fb.2;
  Ret (MkPoint kb.1 fb.1 t).

(** The value of a field, when reading it can fail. *)
Definition check_value (it : iter) : outcome unit :=
  let fail {A} (m : outcome A) := wrap_error "unable to unmarshal field %s: %s" (it_key it) m in
  match it_fieldType it with
  | Float => _ ← fail (FloatValue it); Ret ()
  | Integer => _ ← fail (IntegerValue it); Ret ()
  | Unsigned => _ ← fail (UnsignedValue it); Ret ()
  | StringT => Ret ()
  | Boolean => _ ← fail (BooleanValue it); Ret ()
  | Empty => Ret ()
  end.

(** The loop of [NewPointFromBytes] over the fields. *)
Fixpoint check_fields_loop (fuel : nat) (fields : bytes) (start : nat) (hasField : bool)
  : outcome bool :=
  match fuel with
  | O => Ret hasField
  | S fuel' =>
      match Next fields start with
      | None => Ret hasField
      | Some it =>
          match it_key it with
          | [] => check_fields_loop fuel' fields (it_end it) hasField
          | _ :: _ => _ ← check_value it; check_fields_loop fuel' fields (it_end it) true
          end
      end
  end.

Definition NewPointFromBytes (b : bytes) : outcome point :=
  p ← point_UnmarshalBinary b;
  hasField ← check_fields_loop (S (length (p_fields p))) (p_fields p) 0 false;
  if hasField : bool then Ret p else Fail ErrPointMustHaveAField.

(* ------------------------------------------------------------------ *)
(** ** Facts on the coding of integers *)

Lemma byte_value_of z : byte_value (byte_of z) = z mod 256.
Proof.
  unfold byte_value, byte_of. pose proof (Z.mod_pos_bound z 256).
  rewrite N_ascii_embedding by lia. lia.
Qed.

Lemma length_be_bytes n z : length (be_bytes n z) = n.
Proof. induction n; cbn; congruence. Qed.

Lemma be_bytes_value n : ∀ z acc,
  foldl (λ acc c, acc * 256 + byte_value c) acc (be_bytes n z)
  = acc * 256 ^ Z.of_nat n + z mod 256 ^ Z.of_nat n.
Proof.
  induction n as [|n IH]; intros z acc; cbn [be_bytes foldl].
  - rewrite Z.mod_1_r. lia.
  - rewrite IH, byte_value_of, Nat2Z.inj_succ, Z.pow_succ_r by lia.
    set (m := 256 ^ Z.of_nat n). assert (0 < m) as Hm by (apply Z.pow_pos_nonneg; lia).
    rewrite (Z.mul_comm 256 m), Z.rem_mul_r by lia. lia.
Qed.

Lemma be_value_bytes n z : be_value (be_bytes n z) = z mod 256 ^ Z.of_nat n.
Proof. unfold be_value. by rewrite be_bytes_value. Qed.

Lemma signed_mod n z : (0 < n)%nat → - 2 ^ (8 * Z.of_nat n - 1) <= z < 2 ^ (8 * Z.of_nat n - 1) →
  signed n (z mod 256 ^ Z.of_nat n) = z.
Proof.
  intros Hn Hz. unfold signed. change 256 with (2 ^ 8). rewrite <- Z.pow_mul_r by lia.
  set (k := 8 * Z.of_nat n) in *. assert (2 ^ k = 2 * 2 ^ (k - 1)) as E.
  { rewrite <- Z.pow_succ_r by lia. f_equal. lia. }
  assert (0 < 2 ^ (k - 1)) by (apply Z.pow_pos_nonneg; lia).
  destruct (Z.leb_spec 0 z).
  - rewrite Z.mod_small by lia. by rewrite (proj2 (Z.ltb_lt _ _)) by lia.
  - replace (z mod 2 ^ k) with (z + 2 ^ k).
    + rewrite (proj2 (Z.ltb_ge _ _)); lia.
    + apply (Z.mod_unique z (2 ^ k) (-1)); lia.
Qed.
