(* ===== verification/Parse.v ===== *)
(** * Parsing points ([models/points.go]) *)

From S2P Require Import Prelude GoStd GoFloat GoTime ModelsTime Escape Scan ScanFields Tags.
From S2P Require Import Point.

(** [walkFields]: [fn] returns the caller's new state and whether to go on. *)
Fixpoint walk_fields_loop {A} (fuel : nat) (buf : bytes) (fn : A → bytes → bytes → A * bool)
  (acc : A) : A * option error :=
  match fuel with
  | O => (acc, None)
  | S fuel' =>
      match buf with
      | [] => (acc, None)
      | _ =>
          let '(i, key) := scanTo buf 0 "=" in
          if (length buf <? i + 2)%nat then
            (acc, Some (Errorf "invalid value: field-key=%s" [key]))
          else
            let buf := drop (i + 1) buf in
            let '(i, val) := scanFieldValue buf 0 in
            let buf := drop i buf in
            let '(acc, go_on) := fn acc key val in
            if (go_on : bool) then walk_fields_loop fuel' (drop 1 buf) fn acc else (acc, None)
      end
  end.
Definition walkFields {A} (buf : bytes) (fn : A → bytes → bytes → A * bool) (acc : A)
  : A * option error :=
  walk_fields_loop (S (length buf)) buf fn acc.

Section Parse.
(** The package variable [enableUint64Support]. *)
Context (enableUint64Support : bool).

(** [parsePoint]. *)
Definition parsePoint (buf : bytes) (defaultTime : Time) (precision : bytes) : outcome point :=
  '(pos, key) ← scanKey buf 0;
  if (length key =? 0)%nat then Fail (Errorf "missing measurement" [])
  else if (MaxKeyLength <? length key)%nat then Fail (max_key_error (length key))
  else
    '(pos, fields) ← scanFields enableUint64Support buf pos;
    if (length fields =? 0)%nat then Fail (Errorf "missing fields" [])
    else
      let '(maxKeyErr, err) :=
        walkFields fields
          (λ acc k _, let sz := seriesKeySize key k in
                      if (MaxKeyLength <? sz)%nat then (Some (max_key_error sz), false)
                      else (acc, true)) None in
      match err, maxKeyErr with
      | Some e, _ => Fail e
      | None, Some e => Fail e
      | None, None =>
          '(pos, ts) ← scanTime buf pos;
          if (length ts =? 0)%nat then
            Ret (SetPrecision (MkPoint key fields defaultTime) precision)
          else
            ts ← parse_int ts;
            t ← SafeCalcTime ts precision;
            if forallb (λ c, c =c " ") (drop pos buf) then Ret (MkPoint key fields t)
            else Fail ErrInvalidPoint
      end.

(** The loop of [ParsePointsWithPrecision]: the points, and the lines that
    failed with their errors.  Every turn moves [pos] forward. *)
Fixpoint parse_points_loop (fuel : nat) (buf : bytes) (defaultTime : Time) (precision : bytes)
  (pos : nat) : outcome (list point * list (bytes * error)) :=
  match fuel with
  | O => Ret ([], [])
  | S fuel' =>
      if (length buf <=? pos)%nat then Ret ([], [])
      else
        let '(pos, block) := scanLine buf pos in
        let again := parse_points_loop fuel' buf defaultTime precision (pos + 1) in
        let start := skipWhitespace block 0 in
        match block !! start with
        | None => again
        | Some c =>
            if c =c "#" then again
            else
              let block := match last block with
                           | Some d => if d =c "010" then take (length block - 1) block else block
                           | None => block
                           end in
              let line := drop start block in
              match parsePoint line defaultTime precision with
              | Panic => Panic
              | Fail e =>
                  '(points, failed) ← again;
                  Ret (points, (line, e) :: failed)
              | Ret pt =>
                  '(points, failed) ← again;
                  Ret (pt :: points, failed)
              end
        end
  end.

(** [ParsePointsWithPrecision]: the returned error is nil when no line failed. *)
Definition ParsePointsWithPrecision (buf : bytes) (defaultTime : Time) (precision : bytes)
  : outcome (list point * list (bytes * error)) :=
  parse_points_loop (S (length buf)) buf defaultTime precision 0.

(** [ParsePoints], at the time [now]. *)
Definition ParsePoints (buf : bytes) (now : Time) : outcome (list point * list (bytes * error)) :=
  ParsePointsWithPrecision buf now (bs "n").
End Parse.

Example parse_unsorted :
  ParsePointsWithPrecision false
    (bs "cpu,region=w\ x,host=a v=1i,u=2.5,s=t 1500000000" ++ ["010"%char] ++ bs "# c")
    zeroTime (bs "s") =
  Ret ([MkPoint (bs "cpu,host=a,region=w\ x") (bs "v=1i,u=2.5,s=t") (Unix 1500000000 0)], []).
Proof. by vm_compute. Qed.
