(* ===== verification/FieldsFacts.v ===== *)
(** * Fields are read back: [MarshalFields], [scanFields], [walkFields] and [Fields] *)

From S2P Require Import Prelude GoStd GoStdFacts GoFloat GoFloatFacts GoTime Escape.
From S2P Require Import EscapeFacts Scan ScanFacts ScanFields Tags TagsFacts.
From S2P Require Import Point Parse.

(* ------------------------------------------------------------------ *)
(** ** The text of the fields *)

(** The values whose text reads back; an unsigned 64-bit one needs the
    reader's support. *)
Definition wire_ok (sup : bool) (v : value) : Prop :=
  match v with
  | VFloat f => finite64 f = true
  | VInt _ z => in_i64 z
  | VUint kuint64 z => (0 <= z < two64)%Z ∧ sup = true
  | VUint _ _ | VString _ | VBool _ | VOther _ => True
  | VBytes _ | VNil => False
  end.

(** What a value becomes on the way: integers are [int64], others strings. *)
Definition wire_value (v : value) : value :=
  match v with
  | VInt _ z => VInt kint64 z
  | VUint kuint64 z => VUint kuint64 z
  | VUint _ z => VInt kint64 (i64 z)
  | VOther s => VString s
  | v => v
  end.

Definition field_text (kv : bytes * value) : bytes :=
  esc key_class kv.1 ++ "="%char :: value_text kv.2.

Definition fields_text (fs : Fields) : bytes := join (bs ",") (map field_text fs).

Lemma fields_text_cons kv kv' fs :
  fields_text (kv :: kv' :: fs) = field_text kv ++ ","%char :: fields_text (kv' :: fs).
Proof. done. Qed.

Lemma appendField_text b k v : appendField b k v = b ++ field_text (k, v).
Proof. unfold appendField, field_text. by rewrite escape_String_spec. Qed.

(** The fields by increasing key. *)
Definition sorted_fields (fs : Fields) : Fields :=
  map (λ k, (k, field_lookup fs k)) (sort bytes_ltb fs.*1).

Lemma MarshalFields_text fs : MarshalFields fs = fields_text (sorted_fields fs).
Proof.
  unfold MarshalFields, sorted_fields. generalize (sort bytes_ltb fs.*1) as keys. intros keys.
  assert (∀ first b, marshal_loop fs first keys b =
    b ++ match keys with
         | [] => []
         | _ => (if first then [] else bs ",") ++
                fields_text (map (λ k, (k, field_lookup fs k)) keys)
         end) as H.
  { induction keys as [|k keys IH]; intros first b; [by cbn; rewrite app_nil_r|].
    cbn [marshal_loop]. rewrite IH, appendField_text.
    destruct keys as [|k' keys]; destruct first; cbn [map];
      unfold fields_text; cbn [map join bs String.list_ascii_of_string]; rewrite ?app_nil_r; app_eq. }
  rewrite H. by destruct keys.
Qed.

(** A field that can be written and read back. *)
Definition wire_field (sup : bool) (kv : bytes * value) : Prop :=
  clean kv.1 ∧ wire_ok sup kv.2.

(* ------------------------------------------------------------------ *)
(** ** Shape of a value *)

(** The body of a value that is not quoted. *)
Definition bare (c : ascii) : bool :=
  key_class c || Ascii.eqb c backslash || (c =c "010").

Lemma digits_bare d : all_digits d → Forall (λ c, bare c = false) d.
Proof.
  intros H. eapply Forall_impl; [exact H|]. intros c. apply (digit_cases (λ c, bare c = false)).
  by repeat constructor.
Qed.

Lemma format_int_bare z : Forall (λ c, bare c = false) (format_int z).
Proof.
  unfold format_int. destruct (Z.ltb_spec z 0); [constructor; [done|]|];
    apply digits_bare, digits_are_digits; lia.
Qed.

Lemma format_float_bare f : finite64 f = true → Forall (λ c, bare c = false) (format_float f).
Proof.
  intros Hf. destruct (format_float_shape f Hf) as (t & Ht & Hs).
  assert (Forall (λ c, bare c = false) t) as H.
  { destruct Ht as [a Ha _|a b Ha _ Hb _]; [by apply digits_bare|].
    apply Forall_app. split; [by apply digits_bare|].
    constructor; [done|]. by apply digits_bare. }
  destruct Hs as [-> | ->]; [done|]. by constructor.
Qed.

(** A value is a bare word that the scanners of numbers and booleans accept,
    or a quoted string. *)
Inductive value_shape (w : bytes) : Prop :=
| shape_bare : w ≠ [] → Forall (λ c, bare c = false) w → value_shape w
| shape_quoted s : w = dquote :: esc str_class s ++ [dquote] → value_shape w.

Lemma value_text_shape sup v : wire_ok sup v → value_shape (value_text v).
Proof.
  destruct v as [f|k z|k z|s|b|b| |s]; cbn [wire_ok value_text]; intros H; try done.
  - apply shape_bare; [|by apply format_float_bare].
    destruct (format_float_shape f H) as (t & Ht & [-> | ->]); [|done]. by destruct Ht as [[]|[]].
  - apply shape_bare; [by destruct (format_int z)|].
    apply Forall_app. split; [apply format_int_bare|by repeat constructor].
  - assert (∀ z c, bare c = false → value_shape (format_int z ++ [c])) as Hz.
    { intros z' c Hc. apply shape_bare; [by destruct (format_int z')|].
      apply Forall_app. split; [apply format_int_bare|by repeat constructor]. }
    destruct k; by apply Hz.
  - apply (shape_quoted _ s). by rewrite EscapeStringField_spec.
  - apply shape_bare; [by destruct b|]. destruct b; by repeat constructor.
  - apply (shape_quoted _ s). by rewrite EscapeStringField_spec.
Qed.

Lemma value_text_nonempty sup v : wire_ok sup v → value_text v ≠ [].
Proof. intros H. by destruct (value_text_shape sup v H) as [|s ->]. Qed.

(* ------------------------------------------------------------------ *)
(** ** [scanFields] *)

(** [scan_value] at the [=] before a value. *)
Lemma scan_value_text sup pre k v c rest i : clean k → wire_ok sup v → sep c →
  i = length pre + length (esc key_class k) →
  scan_value sup (pre ++ esc key_class k ++ "="%char :: value_text v ++ c :: rest) i =
  Ret (match v with
       | VString _ | VOther _ => None
       | _ => Some (i + 1 + length (value_text v))
       end).
Proof.
  intros [Hk Hkb] Hv Hc ->. unfold scan_value.
  assert (guarded key_class (esc key_class k)) as Hg by by apply esc_guarded.
  assert (esc key_class k ≠ []) as Hn by by intros ?%esc_nil_inv.
  rewrite !bare_before_guarded by done.
  set (w := esc key_class k) in *. clearbody w.
  replace (pre ++ w ++ "="%char :: value_text v ++ c :: rest)
    with ((pre ++ w ++ ["="%char]) ++ value_text v ++ c :: rest) by app_eq.
  assert (length pre + length w + 1 = length (pre ++ w ++ ["="%char])) as ->.
  { rewrite !length_app. cbn. lia. }
  destruct (value_text v) as [|d t] eqn:E; [by apply value_text_nonempty in Hv|].
  cbn [app]. rewrite lookup_mid by done. rewrite app_comm_cons, <- E.
  destruct v as [f|kd z|kd z|s|b|b| |s]; cbn [wire_ok value_text] in *; try done.
  - rewrite scanNumber_float by done.
    destruct (format_float_shape f Hv) as (u & Hu & Hs).
    apply decimal_shape_head in Hu as (x & u' & -> & Hx).
    assert (d = x ∨ d = "-"%char) as Hd by (rewrite E in Hs; destruct Hs; simplify_eq; auto).
    destruct Hd as [-> | ->]; [|done].
    unfold isNumeric. rewrite Hx. destruct (is_digit_not x Hx) as (_ & _ & H1 & H2 & _).
    char_neq. done.
  - rewrite scanNumber_int by done.
    assert (is_digit d = true ∨ d = "-"%char) as Hd.
    { pose proof (format_int_chars z) as Hf. destruct (format_int z) as [|y q] eqn:Eq; cbn in E.
      - unfold format_int in Eq. destruct (Z.ltb_spec z 0); [done|].
        by apply digits_nonempty in Eq.
      - inversion Hf; subst. injection E as -> _. done. }
    destruct Hd as [Hd | ->]; [|done].
    unfold isNumeric. rewrite Hd. destruct (is_digit_not d Hd) as (_ & _ & H1 & H2 & _).
    char_neq. done.
  - assert (∀ y x, format_int y ++ [x] = d :: t → (is_digit d = true ∨ d = "-"%char)) as Hd.
    { clear. intros y x E. pose proof (format_int_chars y) as Hf.
      destruct (format_int y) as [|y' q] eqn:Eq; cbn in E.
      - unfold format_int in Eq. destruct (Z.ltb_spec y 0); [done|].
        by apply digits_nonempty in Eq.
      - inversion Hf; subst. injection E as -> _. done. }
    assert (is_digit d = true ∨ d = "-"%char) as Hd' by (destruct kd; by eapply Hd).
    assert ((d =c ",") || (d =c " ") = false ∧
            (isNumeric d || (d =c "-") || (d =c "N") || (d =c "n")) = true) as [-> ->].
    { destruct Hd' as [Hd' | ->]; [|done]. unfold isNumeric. rewrite Hd'.
      destruct (is_digit_not d Hd') as (_ & _ & H1 & H2 & _). char_neq. done. }
    destruct kd; try (rewrite scanNumber_int; [done|done|apply i64_range|done]).
    destruct Hv as [Hz ->]. by rewrite scanNumber_uint.
  - injection E as <- _. done.
  - rewrite scanBoolean_bool by done. destruct b; by injection E as <- _.
  - injection E as <- _. done.
Qed.

Lemma scan_one_field sup pre kv c rest n : wire_field sup kv → sep c →
  fields_from sup (pre ++ field_text kv ++ c :: rest) (length pre) false n n =
  fields_from sup (pre ++ field_text kv ++ c :: rest) (length pre + length (field_text kv))
    false (S n) n.
Proof.
  destruct kv as [k v]. intros [Hk Hv] Hc. cbn [fst snd] in *.
  unfold field_text. cbn [fst snd]. rewrite <- app_assoc. cbn [app].
  assert (guarded key_class (esc key_class k)) as Hg by (apply esc_guarded; [done|apply Hk]).
  rewrite fields_guarded by done.
  erewrite fields_equal; [| |by eapply scan_value_text].
  2:{ by apply lookup_after. }
  assert (∀ s, value_text v = dquote :: Models.EscapeStringField s ++ [dquote] →
    fields_from sup (pre ++ esc key_class k ++ "="%char :: value_text v ++ c :: rest)
      (length pre + length (esc key_class k) + 1) false (S n) n =
    fields_from sup (pre ++ esc key_class k ++ "="%char :: value_text v ++ c :: rest)
      (length pre + length (esc key_class k ++ "="%char :: value_text v)) false (S n) n) as Hstr.
  { intros s ->. rewrite EscapeStringField_spec. cbn [app].
    set (w := esc key_class k). clearbody w.
    rewrite fields_quote; [| |lia].
    2:{ replace (pre ++ w ++ "="%char :: dquote :: (esc str_class s ++ [dquote]) ++ c :: rest)
          with ((pre ++ w ++ ["="%char]) ++ dquote :: (esc str_class s ++ [dquote]) ++ c :: rest) by app_eq.
        apply lookup_mid. rewrite !length_app. cbn. lia. }
    replace (pre ++ w ++ "="%char :: dquote :: (esc str_class s ++ [dquote]) ++ c :: rest)
      with ((pre ++ w ++ ["="%char; dquote]) ++ esc str_class s ++ dquote :: c :: rest) by app_eq.
    replace (length pre + length w + 1 + 1) with (length (pre ++ w ++ ["="%char; dquote]))
      by (rewrite !length_app; cbn; lia).
    cbn [negb]. rewrite fields_string_body.
    rewrite fields_quote; [| |lia].
    2:{ by apply lookup_after. }
    cbn [negb]. f_equal. rewrite !length_app. cbn. rewrite length_app. cbn. lia. }
  destruct v as [f|kd z|kd z|s|b|b| |s]; cbn [wire_ok] in Hv; try done;
    try (by apply (Hstr s)); f_equal; rewrite length_app; cbn [length]; lia.
Qed.

Lemma scan_many_fields sup fs : ∀ pre rest n, Forall (wire_field sup) fs → fs ≠ [] →
  fields_from sup (pre ++ fields_text fs ++ " "%char :: rest) (length pre) false n n =
  Ret (length pre + length (fields_text fs), false, n + length fs, n + length fs - 1).
Proof.
  induction fs as [|kv fs IH]; intros pre rest n Hfs Hne; [done|]. clear Hne.
  apply Forall_cons in Hfs as [Hkv Hfs]. destruct fs as [|kv' fs].
  - cbn [fields_text map join]. unfold fields_text. cbn [map join].
    rewrite scan_one_field by (done || by right).
    rewrite fields_blank by (by apply lookup_after).
    cbn [length]. pair_lia.
  - rewrite fields_text_cons, <- app_assoc. cbn [app].
    rewrite scan_one_field by (done || by left).
    rewrite fields_comma by (by apply lookup_after).
    specialize (IH (pre ++ field_text kv ++ [","%char]) rest (S n) Hfs ltac:(done)).
    replace (pre ++ field_text kv ++ ","%char :: fields_text (kv' :: fs) ++ " "%char :: rest)
      with ((pre ++ field_text kv ++ [","%char]) ++ fields_text (kv' :: fs) ++ " "%char :: rest) by app_eq.
    replace (length pre + length (field_text kv) + 1) with (length (pre ++ field_text kv ++ [","%char]))
      by (rewrite !length_app; cbn; lia).
    rewrite IH. rewrite !length_app. cbn [length]. rewrite ?length_app.
    cbn [length]. pair_lia.
Qed.

(** The first key does not begin with what [skipWhitespace] skips. *)
Definition fields_start_plain (fs : Fields) : Prop :=
  match fs with (c :: _, _) :: _ => c ≠ "009"%char ∧ c ≠ "000"%char | _ => True end.

Lemma skip_loop_stop rest i : (match rest with c :: _ => c ≠ " "%char ∧ c ≠ "009"%char ∧ c ≠ "000"%char
  | [] => True end) → skip_loop rest i = i.
Proof. destruct rest as [|c rest]; [done|]. intros (? & ? & ?). cbn. by char_neq. Qed.

Lemma skipWhitespace_one pre rest i : i = length pre →
  (match rest with c :: _ => c ≠ " "%char ∧ c ≠ "009"%char ∧ c ≠ "000"%char | [] => True end) →
  skipWhitespace (pre ++ " "%char :: rest) i = i + 1.
Proof.
  intros -> H. unfold skipWhitespace. rewrite drop_app_length. cbn [skip_loop].
  change (" " <>c " ") with false. cbn [andb]. rewrite skip_loop_stop by done. lia.
Qed.

Lemma fields_text_head sup fs : Forall (wire_field sup) fs → fields_start_plain fs → fs ≠ [] →
  ∃ c s, fields_text fs = c :: s ∧ c ≠ " "%char ∧ c ≠ "009"%char ∧ c ≠ "000"%char.
Proof.
  destruct fs as [|[k v] fs]; [done|]. intros [[[Hk Hkb] _] _]%Forall_cons Hp _. cbn [fst snd] in *.
  destruct k as [|c k]; [done|]. destruct Hp as [H1 H2].
  assert (∃ s, fields_text ((c :: k, v) :: fs) = esc key_class (c :: k) ++ s) as [s ->].
  { destruct fs as [|kv fs]; [by eexists|].
    rewrite fields_text_cons. unfold field_text at 1. rewrite <- app_assoc. by eexists. }
  cbn [esc app]. destruct (key_class c) eqn:E; cbn [app].
  - exists backslash, (c :: esc key_class k ++ s). done.
  - eexists c, _. repeat split; try done. by intros ->.
Qed.

(** [scanFields] reads the fields of a line. *)
Lemma scanFields_text sup pre fs rest i : i = length pre →
  Forall (wire_field sup) fs → fs ≠ [] → fields_start_plain fs →
  scanFields sup (pre ++ " "%char :: fields_text fs ++ " "%char :: rest) i =
  Ret (i + 1 + length (fields_text fs), fields_text fs).
Proof.
  intros -> Hfs Hne Hp. destruct (fields_text_head sup fs Hfs Hp Hne) as (c & s & E & Hc).
  unfold scanFields. rewrite skipWhitespace_one by (done || by rewrite E).
  replace (pre ++ " "%char :: fields_text fs ++ " "%char :: rest)
    with ((pre ++ [" "%char]) ++ fields_text fs ++ " "%char :: rest) by app_eq.
  replace (length pre + 1) with (length (pre ++ [" "%char])) by (rewrite length_app; cbn; lia).
  rewrite fields_again by lia. rewrite scan_many_fields by done. cbn [mbind outcome_bind].
  destruct fs as [|kv fs]; [done|]. cbn [length]. rewrite Nat.eqb_refl. cbn [orb negb Nat.eqb Nat.add].
  do 2 f_equal. by apply slice_app.
Qed.

(* ------------------------------------------------------------------ *)
(** ** [scanFieldValue], [walkFields] *)

Lemma scan_field_value_bare w : Forall (λ c, bare c = false) w → ∀ rest i,
  scan_field_value_loop false (w ++ rest) i = scan_field_value_loop false rest (i + length w).
Proof.
  induction 1 as [|c w Hc _ IH]; intros rest i; cbn [app length]; [by rewrite Nat.add_0_r|].
  unfold bare, key_class in Hc. rewrite !orb_false_iff in Hc.
  destruct Hc as [[[[[H1 H2] H3] H4] H5] H6].
  cbn [scan_field_value_loop]. rewrite H1, H2, H5. cbn [andb]. rewrite IH. f_equal. lia.
Qed.

Lemma scan_field_value_string s : ∀ rest i,
  scan_field_value_loop true (esc str_class s ++ dquote :: rest) i =
  scan_field_value_loop false rest (i + length (esc str_class s) + 1).
Proof.
  induction s as [|c s IH]; intros rest i.
  - cbn [esc app length scan_field_value_loop]. rewrite Ascii.eqb_refl.
    change (Ascii.eqb dquote backslash) with false. cbn [negb]. f_equal. lia.
  - cbn [esc]. destruct (str_class c) eqn:E; cbn [app length scan_field_value_loop].
    + rewrite Ascii.eqb_refl. unfold str_class in E. rewrite E. rewrite IH. f_equal. lia.
    + unfold str_class in E. apply orb_false_iff in E as [E1 E2]. rewrite E1, E2.
      cbn [negb]. rewrite andb_false_r. rewrite IH. f_equal. lia.
Qed.

Lemma scanFieldValue_text sup pre v rest i : wire_ok sup v → i = length pre →
  ends_at (λ c, c =c ",") rest →
  scanFieldValue (pre ++ value_text v ++ rest) i = (i + length (value_text v), value_text v).
Proof.
  intros Hv -> Hr. unfold scanFieldValue. rewrite drop_app_length.
  assert (scan_field_value_loop false (value_text v ++ rest) (length pre)
          = length pre + length (value_text v)) as ->.
  { assert (∀ i, scan_field_value_loop false rest i = i) as Hstop.
    { intros i. destruct rest as [|c rest]; [done|]. cbn in Hr. apply Ascii.eqb_eq in Hr as ->. done. }
    destruct (value_text_shape sup v Hv) as [_ Hb|s E].
    - by rewrite scan_field_value_bare, Hstop.
    - rewrite E. cbn [app scan_field_value_loop]. rewrite <- app_assoc. cbn [app].
      change (Ascii.eqb dquote backslash) with false. rewrite Ascii.eqb_refl. cbn [negb].
      rewrite scan_field_value_string, Hstop. cbn. rewrite length_app. cbn. lia. }
  f_equal. by apply slice_app.
Qed.

Lemma scan_key_text kv rest : clean kv.1 →
  scanTo (field_text kv ++ rest) 0 "=" =
  (length (esc key_class kv.1), esc key_class kv.1).
Proof.
  intros [_ Hb]. unfold field_text. rewrite <- app_assoc. cbn [app].
  apply (scanTo_guarded key_class []); try done. by apply esc_guarded.
Qed.

(** The raw key and value that [walkFields] hands out. *)
Lemma walkFields_text {A} sup (fn : A → bytes → bytes → A * bool) fs : ∀ acc,
  Forall (wire_field sup) fs →
  (∀ kv acc, kv ∈ fs → (fn acc (esc key_class kv.1) (value_text kv.2)).2 = true) →
  walkFields (fields_text fs) fn acc =
  (foldl (λ acc kv, (fn acc (esc key_class kv.1) (value_text kv.2)).1) acc fs, None).
Proof.
  intros acc Hfs Hfn. unfold walkFields.
  assert (∀ fuel acc, length (fields_text fs) < fuel →
    walk_fields_loop fuel (fields_text fs) fn acc =
    (foldl (λ acc kv, (fn acc (esc key_class kv.1) (value_text kv.2)).1) acc fs, None)) as H;
    [|by apply H; lia].
  clear acc. induction Hfs as [|kv fs [Hk Hv] Hfs IH]; intros fuel acc Hfuel.
  { destruct fuel; [cbn in Hfuel; lia|done]. }
  destruct fuel as [|fuel]; [lia|].
  set (rest := match fs with [] => [] | _ => ","%char :: fields_text fs end).
  assert (fields_text (kv :: fs) = field_text kv ++ rest) as E.
  { destruct fs; [|done]. subst rest. unfold fields_text. cbn. by rewrite app_nil_r. }
  rewrite E in *. cbn [walk_fields_loop].
  assert (length (field_text kv) = length (esc key_class kv.1) + 1 + length (value_text kv.2)) as Hl.
  { unfold field_text. rewrite length_app. cbn. lia. }
  pose proof (value_text_nonempty sup _ Hv) as Hvn.
  rewrite scan_key_text by done.
  destruct (field_text kv ++ rest) as [|x t] eqn:Et.
  { apply (f_equal length) in Et. rewrite length_app in Et. cbn in Et. lia. }
  rewrite <- Et in *. clear x t Et.
  destruct (Nat.ltb_spec (length (field_text kv ++ rest)) (length (esc key_class kv.1) + 2)) as [Hlt|_].
  { rewrite length_app in Hlt. destruct (value_text kv.2); [done|cbn in Hl; lia]. }
  assert (drop (length (esc key_class kv.1) + 1) (field_text kv ++ rest) = value_text kv.2 ++ rest) as ->.
  { unfold field_text.
    replace ((esc key_class kv.1 ++ "="%char :: value_text kv.2) ++ rest)
      with ((esc key_class kv.1 ++ ["="%char]) ++ value_text kv.2 ++ rest) by app_eq.
    apply drop_pre. rewrite length_app. done. }
  pose proof (scanFieldValue_text sup [] kv.2 rest 0 Hv eq_refl) as Hs. cbn [app] in Hs.
  rewrite Hs by (subst rest; by destruct fs).
  pose proof (Hfn kv acc ltac:(by left)) as Hgo.
  destruct (fn acc _ _) as [acc' go_on] eqn:Ef. cbn [snd] in Hgo. subst go_on.
  cbn [Nat.add]. rewrite drop_app_length. cbn [foldl]. rewrite Ef. cbn [fst].
  subst rest. destruct fs as [|kv' fs].
  - cbn. destruct fuel; [|done]. rewrite app_nil_r in Hfuel. rewrite Hl in Hfuel. lia.
  - cbn [drop]. rewrite drop_0. apply IH; [intros; apply Hfn; by right|].
    rewrite length_app in Hfuel. cbn [length] in Hfuel. lia.
Qed.

(* ------------------------------------------------------------------ *)
(** ** [Fields] *)

Lemma number_start_int z t c : format_int z = c :: t → number_start c = true ∧ c ≠ dquote.
Proof.
  intros E. pose proof (format_int_chars z) as H. rewrite E in H.
  inversion H as [|? ? [Hc | ->] _]; subst; [|done].
  revert c Hc E H. intros c Hc _ _. revert c Hc.
  apply (digit_cases (λ c, number_start c = true ∧ c ≠ dquote)). by repeat constructor.
Qed.

Lemma classify_int en key z c : c = "i"%char ∨ c = "u"%char →
  classify en key (format_int z ++ [c]) =
  MkIter en key (format_int z) (if c =c "i" then Integer else Unsigned).
Proof.
  intros Hc. destruct (format_int z) as [|d t] eqn:E.
  { unfold format_int in E. destruct (Z.ltb_spec z 0); [done|]. by apply digits_nonempty in E. }
  destruct (number_start_int z t d E) as [H1 H2]. unfold classify. cbn [app].
  rewrite H1. char_neq. rewrite app_comm_cons, last_snoc, length_app. cbn [length].
  rewrite Nat.add_sub. change (S (length t)) with (length (d :: t)). rewrite take_app_length.
  by destruct Hc as [-> | ->].
Qed.

Lemma classify_float en key f : finite64 f = true →
  classify en key (format_float f) = MkIter en key (format_float f) Float.
Proof.
  intros Hf. destruct (format_float_shape f Hf) as (t & Ht & Hs).
  assert (∃ u x, format_float f = u ++ [x] ∧ is_digit x = true) as (u & x & Hx & Hd).
  { assert (∃ u x, t = u ++ [x] ∧ is_digit x = true) as (u & x & -> & Hx).
    { assert (∀ a, all_digits a → a ≠ [] → ∃ u x, a = u ++ [x] ∧ is_digit x = true) as H.
      { intros a Ha Hn. destruct a as [|x u] using rev_ind; [done|]. exists u, x. split; [done|].
        apply Forall_app in Ha as [_ Ha]. by inversion Ha. }
      destruct Ht as [a Ha Hn|a b Ha Hn Hb Hbn]; [by apply H|].
      destruct (H b Hb Hbn) as (u & x & -> & Hx). exists (a ++ "."%char :: u), x.
      split; [app_eq|done]. }
    destruct Hs as [-> | ->]; [by eexists _, _|]. by exists ("-"%char :: u), x. }
  assert (∃ c s, format_float f = c :: s ∧ number_start c = true ∧ c ≠ dquote) as (c & s & Ec & H1 & H2).
  { apply decimal_shape_head in Ht as (c & s & -> & Hc).
    destruct Hs as [-> | ->]; [|by eexists _, _]. eexists c, s. split; [done|].
    revert c Hc Hx. intros c Hc _. revert c Hc.
    apply (digit_cases (λ c, number_start c = true ∧ c ≠ dquote)). by repeat constructor. }
  unfold classify. rewrite Ec. rewrite H1. char_neq. rewrite <- Ec, Hx, last_snoc.
  assert (x ≠ "i"%char ∧ x ≠ "u"%char) as [H3 H4].
  { revert x Hd Hx. intros x Hd _. revert x Hd.
    apply (digit_cases (λ c, c ≠ "i"%char ∧ c ≠ "u"%char)). by repeat constructor. }
  by char_neq.
Qed.

(** The type and value [Next] finds in the text of a value. *)
Lemma classify_value sup en key v : wire_ok sup v →
  it_end (classify en key (value_text v)) = en ∧
  it_key (classify en key (value_text v)) = key ∧
  field_value (classify en key (value_text v)) = Ret (Some (wire_value v)).
Proof.
  intros Hv.
  assert (∀ s, let it := classify en key (dquote :: Models.EscapeStringField s ++ [dquote]) in
    it_end it = en ∧ it_key it = key ∧ field_value it = Ret (Some (VString s))) as Hstr.
  { intros s. unfold classify. rewrite Ascii.eqb_refl. cbn [it_end it_key]. repeat split.
    unfold field_value. cbn [it_fieldType]. unfold StringValue. cbn [it_valueBuf].
    rewrite EscapeStringField_spec. cbn [length]. rewrite length_app. cbn [length].
    destruct (Nat.ltb_spec (S (length (esc str_class s) + 1)) 2); [lia|].
    change (dquote :: esc str_class s ++ [dquote]) with ([dquote] ++ esc str_class s ++ [dquote]).
    rewrite slice_app by (cbn; lia). rewrite unescapeStringField_spec.
    cbn [mbind outcome_bind]. by rewrite unesc_esc_full. }
  assert (∀ z, in_i64 z → let it := classify en key (format_int z ++ bs "i") in
    it_end it = en ∧ it_key it = key ∧ field_value it = Ret (Some (VInt kint64 z))) as Hint.
  { intros z Hz. cbn [bs String.list_ascii_of_string]. rewrite classify_int by auto. cbn [it_end it_key].
    repeat split. unfold field_value, IntegerValue. cbn [it_fieldType it_valueBuf].
    change ("i" =c "i") with true. cbn iota. by rewrite parse_int_format_int. }
  destruct v as [f|kd z|kd z|s|b|b| |s]; cbn [value_text wire_value wire_ok] in *; try done; auto.
  - rewrite classify_float by done. cbn [it_end it_key]. repeat split.
    unfold field_value, FloatValue. cbn [it_fieldType it_valueBuf]. by rewrite parse_format_float.
  - destruct kd; try (apply Hint, i64_range). destruct Hv as [Hz _].
    cbn [bs String.list_ascii_of_string]. rewrite classify_int by auto. cbn [it_end it_key].
    repeat split. unfold field_value, UnsignedValue. cbn [it_fieldType it_valueBuf].
    change ("u" =c "i") with false. cbn iota. by rewrite parse_uint_format_int.
  - destruct b; by vm_compute.
Qed.

Lemma Next_text sup pre kv rest : wire_field sup kv → is_escape (last pre) = false →
  ends_at (λ c, c =c ",") rest →
  ∃ it, Next (pre ++ field_text kv ++ rest) (length pre) = Some it ∧
    it_end it = length pre + length (field_text kv) + 1 ∧ it_key it = kv.1 ∧
    field_value it = Ret (Some (wire_value kv.2)).
Proof.
  intros [[Hk Hkb] Hv] Hp Hr. unfold Next.
  assert (length (field_text kv) = length (esc key_class kv.1) + 1 + length (value_text kv.2)) as Hl.
  { unfold field_text. rewrite length_app. cbn. lia. }
  destruct (Nat.leb_spec (length (pre ++ field_text kv ++ rest)) (length pre)) as [Hle|_].
  { rewrite !length_app in Hle. lia. }
  unfold field_text in *.
  replace (pre ++ (esc key_class kv.1 ++ "="%char :: value_text kv.2) ++ rest)
    with (pre ++ esc key_class kv.1 ++ "="%char :: value_text kv.2 ++ rest) by app_eq.
  rewrite (scanTo_guarded key_class) by (done || by apply esc_guarded).
  replace (pre ++ esc key_class kv.1 ++ "="%char :: value_text kv.2 ++ rest)
    with ((pre ++ esc key_class kv.1 ++ ["="%char]) ++ value_text kv.2 ++ rest) by app_eq.
  rewrite (scanFieldValue_text sup) by (try done; rewrite !length_app; cbn; lia).
  assert ((if PkgEscape.IsEscaped (esc key_class kv.1)
           then PkgEscape.AppendUnescaped [] (esc key_class kv.1) else esc key_class kv.1) = kv.1) as ->.
  { destruct (PkgEscape.IsEscaped _) eqn:E.
    - rewrite AppendUnescaped_spec. cbn. by apply unesc_esc.
    - rewrite <- (IsEscaped_spec _ E) at 1. by apply unesc_esc. }
  eexists. split; [reflexivity|].
  destruct (classify_value sup (length (pre ++ esc key_class kv.1 ++ ["="%char])
    + length (value_text kv.2) + 1) kv.1 kv.2 Hv) as (H1 & H2 & H3).
  replace (length pre + length (esc key_class kv.1) + 1)
    with (length (pre ++ esc key_class kv.1 ++ ["="%char])) by (rewrite !length_app; cbn; lia).
  repeat split; try done. rewrite H1, !length_app. cbn. lia.
Qed.

(** [Fields] recovers the fields from their text. *)
Lemma unmarshal_text sup fs : ∀ fuel pre, Forall (wire_field sup) fs → length fs < fuel →
  is_escape (last pre) = false →
  unmarshal_loop fuel (pre ++ fields_text fs) (length pre) =
  Ret (map (λ kv, (kv.1, wire_value kv.2)) fs).
Proof.
  induction fs as [|kv fs IH]; intros fuel pre Hfs Hf Hp; (destruct fuel as [|fuel]; [cbn in Hf; lia|]).
  { cbn. unfold Next. rewrite app_nil_r, Nat.leb_refl. done. }
  apply Forall_cons in Hfs as [Hkv Hfs]. cbn [unmarshal_loop].
  set (rest := match fs with [] => [] | _ => ","%char :: fields_text fs end).
  assert (fields_text (kv :: fs) = field_text kv ++ rest) as E.
  { destruct fs; [|done]. subst rest. unfold fields_text. cbn. by rewrite app_nil_r. }
  rewrite E. destruct (Next_text sup pre kv rest Hkv Hp) as (it & -> & Hend & Hkey & Hval).
  { subst rest. by destruct fs. }
  rewrite Hkey, Hend, Hval. destruct kv as [k v]. cbn [fst snd] in *.
  destruct (k) as [|c k'] eqn:Ek; [by destruct Hkv as [[]]|]. rewrite <- Ek in *. clear Ek.
  cbn [mbind outcome_bind map fst snd].
  assert (unmarshal_loop fuel (pre ++ field_text (k, v) ++ rest) (length pre + length (field_text (k, v)) + 1)
          = Ret (map (λ kv, (kv.1, wire_value kv.2)) fs)) as ->.
  { subst rest. destruct fs as [|kv' fs].
    - destruct fuel; [done|]. cbn [unmarshal_loop map]. unfold Next.
      rewrite app_nil_r, length_app, (proj2 (Nat.leb_le _ _)) by lia. done.
    - rewrite <- (IH fuel ((pre ++ field_text (k, v)) ++ [","%char])); [|done|cbn in *; lia|by rewrite last_snoc].
      f_equal; [app_eq|rewrite !length_app; cbn; lia]. }
  done.
Qed.
