(* ===== verification/LineFacts.v ===== *)
(** * Lines are read back: [scanTime], [parsePoint], [scanLine] and [ParsePoints] *)

From S2P Require Import Prelude GoStd GoStdFacts GoFloat GoFloatFacts GoTime ModelsTime Escape.
From S2P Require Import EscapeFacts Scan ScanFacts ScanFields Tags TagsFacts.
From S2P Require Import ScanKeyFacts Point Parse FieldsFacts.

(* ------------------------------------------------------------------ *)
(** ** [scanTime] *)

Lemma scan_time_digits d : all_digits d → ∀ b i, scan_time_loop b d i = Ret (i + length d).
Proof.
  induction 1 as [|c d Hc _ IH]; intros b i; cbn [scan_time_loop length]; [by rewrite Nat.add_0_r|].
  destruct (is_digit_not c Hc) as (H1 & _ & H2 & _ & _ & _ & _ & H3 & _).
  char_neq. rewrite andb_false_r, Hc. cbn [negb]. rewrite IH. f_equal. lia.
Qed.

Lemma scan_time_int n i : scan_time_loop true (format_int n) i = Ret (i + length (format_int n)).
Proof.
  unfold format_int. destruct (Z.ltb_spec n 0).
  - cbn [scan_time_loop]. change ("-" =c "010") with false. change ("-" =c " ") with false.
    change ("-" =c "-") with true. cbn [orb andb].
    rewrite scan_time_digits by (apply digits_are_digits; lia). cbn. f_equal. lia.
  - apply scan_time_digits, digits_are_digits. lia.
Qed.

Lemma format_int_head n : ∃ c s, format_int n = c :: s ∧
  c ≠ " "%char ∧ c ≠ "009"%char ∧ c ≠ "000"%char.
Proof.
  pose proof (format_int_chars n) as H. destruct (format_int n) as [|c s] eqn:E.
  { unfold format_int in E. destruct (Z.ltb_spec n 0); [done|]. by apply digits_nonempty in E. }
  exists c, s. split; [done|]. inversion H as [|? ? [Hc | ->] _]; [|done].
  apply is_digit_not in Hc. naive_solver.
Qed.

Lemma scanTime_text pre n i : i = length pre →
  scanTime (pre ++ " "%char :: format_int n) i =
  Ret (i + 1 + length (format_int n), format_int n).
Proof.
  intros ->. destruct (format_int_head n) as (c & s & E & Hc).
  unfold scanTime. rewrite skipWhitespace_one by (done || by rewrite E).
  replace (pre ++ " "%char :: format_int n) with ((pre ++ [" "%char]) ++ format_int n ++ []) by
    (rewrite app_nil_r; app_eq).
  replace (length pre + 1) with (length (pre ++ [" "%char])) by (rewrite length_app; cbn; lia).
  rewrite drop_app_length, app_nil_r, scan_time_int. cbn [mbind outcome_bind].
  f_equal. f_equal. rewrite <- (app_nil_r (format_int n)) at 1. by apply slice_app.
Qed.

(* ------------------------------------------------------------------ *)
(** ** [parsePoint] *)

(** A series and its fields that a line carries unchanged. *)
Record wire_line (sup : bool) (name : bytes) (tags : Tags) (fs : Fields) : Prop := {
  wl_name : clean name;
  wl_name_plain : starts_plain name;
  wl_tags : Forall clean_tag tags;
  wl_sorted : StronglySorted bytes_lt (map Key (map escape_tag_pair tags));
  wl_count : length tags < 100;
  wl_fields : Forall (wire_field sup) fs;
  wl_some : fs ≠ [];
  wl_fields_plain : fields_start_plain fs;
  wl_size : Forall (λ kv, seriesKeySize (MakeKey name tags) (esc key_class kv.1) ≤ MaxKeyLength) fs
}.

Definition line_text (name : bytes) (tags : Tags) (fs : Fields) (n : Z) : bytes :=
  MakeKey name tags ++ " "%char :: fields_text fs ++ " "%char :: format_int n.

Lemma MakeKey_nonempty name tags : clean name → MakeKey name tags ≠ [].
Proof.
  intros [Hn Hb]. rewrite MakeKey_text by done. intros [E _]%app_eq_nil.
  by apply esc_nil_inv in E.
Qed.

Lemma parsePoint_line sup name tags fs n default_time precision :
  wire_line sup name tags fs → in_i64 n →
  parsePoint sup (line_text name tags fs n) default_time precision =
  (t ← SafeCalcTime n precision; Ret (MkPoint (MakeKey name tags) (fields_text fs) t)).
Proof.
  intros [H1 H2 H3 H4 H5 H6 H7 H8 H9] Hn. unfold parsePoint, line_text.
  rewrite scanKey_MakeKey by done. cbn [mbind outcome_bind].
  set (key := MakeKey name tags) in *.
  assert (key ≠ []) as Hk by by apply MakeKey_nonempty.
  assert (length key ≤ MaxKeyLength) as Hkl.
  { destruct fs as [|kv fs]; [done|]. apply Forall_cons in H9 as [H9 _]. unfold seriesKeySize in H9. lia. }
  clearbody key.
  destruct (Nat.eqb_spec (length key) 0); [by destruct key|].
  destruct (Nat.ltb_spec MaxKeyLength (length key)); [lia|].
  rewrite scanFields_text by done. cbn [mbind outcome_bind].
  destruct (Nat.eqb_spec (length (fields_text fs)) 0) as [E|_].
  { destruct (fields_text_head sup fs H6 H8 H7) as (c & s & E' & _). rewrite E' in E. done. }
  rewrite (walkFields_text sup) by
    (done || (intros kv acc Hin; rewrite Forall_forall in H9; specialize (H9 kv Hin);
              cbn [snd]; by rewrite (proj2 (Nat.ltb_ge _ _)))).
  assert (∀ fs', (∀ kv, kv ∈ fs' → kv ∈ fs) →
    foldl (λ acc kv, ((λ (acc : option error) k (_ : bytes), let sz := seriesKeySize key k in
      if (MaxKeyLength <? sz)%nat then (Some (max_key_error sz), false) else (acc, true)) acc
        (esc key_class kv.1) (value_text kv.2)).1) None fs' = None) as Hfold.
  { induction fs' as [|kv fs' IH]; intros Hin; [done|]. cbn [foldl].
    rewrite Forall_forall in H9. specialize (H9 kv (Hin kv ltac:(by left))).
    rewrite (proj2 (Nat.ltb_ge _ _)) by done. cbn [fst]. apply IH. intros. apply Hin. by right. }
  rewrite Hfold by done. clear Hfold.
  replace (key ++ " "%char :: fields_text fs ++ " "%char :: format_int n)
    with ((key ++ " "%char :: fields_text fs) ++ " "%char :: format_int n) by app_eq.
  rewrite scanTime_text by (rewrite length_app; cbn; lia). cbn [mbind outcome_bind].
  destruct (format_int_head n) as (c & s & E & _).
  destruct (Nat.eqb_spec (length (format_int n)) 0) as [E'|_]; [by rewrite E in E'|].
  rewrite parse_int_format_int by done. cbn [mbind outcome_bind].
  destruct (SafeCalcTime n precision) as [t| |]; cbn [mbind outcome_bind]; try done.
  rewrite drop_ge by (rewrite !length_app; cbn; rewrite ?length_app; cbn; lia). done.
Qed.

(* ------------------------------------------------------------------ *)
(** ** [scanLine] *)

Definition blank_class (c : ascii) : bool := c =c " ".


Lemma esc_no_newline P s : newline ∉ s → newline ∉ esc P s.
Proof.
  induction s as [|c s IH]; [done|]. rewrite not_elem_of_cons. intros [H1 H2].
  cbn. destruct (P c); rewrite ?not_elem_of_cons; auto.
Qed.

Lemma line_key w : guarded blank_class w → newline ∉ w → ∀ rest i, rest ≠ [] →
  scan_line_loop false false 0 0 (w ++ rest) i = scan_line_loop false false 0 0 rest (i + length w).
Proof.
  induction 1 as [|c w Hc Hb _ IH|c w Hb _ IH]; intros Hn rest i Hr.
  - cbn [app length]. by rewrite Nat.add_0_r.
  - apply not_elem_of_cons in Hn as [Hc' Hn]. cbn [app scan_line_loop].
    rewrite (proj2 (Ascii.eqb_neq c backslash)) by done.
    unfold blank_class in Hc. rewrite Hc. cbn [orb andb].
    rewrite (proj2 (Ascii.eqb_neq c newline)) by done. cbn [andb].
    rewrite IH by done. f_equal. cbn. lia.
  - apply not_elem_of_cons in Hn as [_ Hn]. apply not_elem_of_cons in Hn as [_ Hn].
    cbn [app scan_line_loop]. rewrite Ascii.eqb_refl.
    destruct (w ++ rest) as [|x t] eqn:E.
    { apply app_eq_nil in E as [_ ?]. done. }
    rewrite <- E, IH by done. f_equal. cbn. lia.
Qed.

Lemma line_guarded w q : guarded key_class w → newline ∉ w → ∀ n m rest i, rest ≠ [] →
  scan_line_loop q true n m (w ++ rest) i = scan_line_loop q true n m rest (i + length w).
Proof.
  induction 1 as [|c w Hc Hb _ IH|c w Hb _ IH]; intros Hn n m rest i Hr.
  - cbn [app length]. by rewrite Nat.add_0_r.
  - apply not_elem_of_cons in Hn as [Hc' Hn]. cbn [app scan_line_loop].
    unfold key_class in Hc. rewrite !orb_false_iff in Hc. destruct Hc as [[[K1 K2] K3] K4].
    rewrite (proj2 (Ascii.eqb_neq c backslash)) by done. cbn [orb andb].
    rewrite K1, K2, K4, !andb_false_r. cbn [andb].
    rewrite (proj2 (Ascii.eqb_neq c newline)) by done. cbn [andb].
    rewrite IH by done. f_equal. cbn. lia.
  - apply not_elem_of_cons in Hn as [_ Hn]. apply not_elem_of_cons in Hn as [_ Hn].
    cbn [app scan_line_loop]. rewrite Ascii.eqb_refl.
    destruct (w ++ rest) as [|x t] eqn:E.
    { apply app_eq_nil in E as [_ ?]. done. }
    rewrite <- E, IH by done. f_equal. cbn. lia.
Qed.

Lemma line_bare w : Forall (λ c, bare c = false) w → ∀ n m rest i,
  scan_line_loop false true n m (w ++ rest) i = scan_line_loop false true n m rest (i + length w).
Proof.
  induction 1 as [|c w Hc _ IH]; intros n m rest i; cbn [app length]; [by rewrite Nat.add_0_r|].
  unfold bare, key_class in Hc. rewrite !orb_false_iff in Hc.
  destruct Hc as [[[[[K1 K2] K3] K4] K5] K6].
  cbn [scan_line_loop]. rewrite K5. cbn [orb andb negb].
  rewrite K1, K2, K4, K6. cbn [andb]. rewrite IH. f_equal. lia.
Qed.

Lemma line_string s : ∀ n m rest i, m < n → rest ≠ [] →
  scan_line_loop true true n m (esc str_class s ++ dquote :: rest) i =
  scan_line_loop false true n m rest (i + length (esc str_class s) + 1).
Proof.
  induction s as [|c s IH]; intros n m rest i Hm Hr.
  - cbn [esc app length scan_line_loop]. change (Ascii.eqb dquote backslash) with false.
    cbn [orb andb negb]. rewrite Ascii.eqb_refl, (proj2 (Nat.ltb_lt _ _)) by done. cbn [andb].
    f_equal. lia.
  - cbn [esc]. destruct (str_class c) eqn:E; cbn [app length scan_line_loop].
    + rewrite Ascii.eqb_refl. destruct (esc str_class s ++ dquote :: rest) as [|x t] eqn:Et.
      { by apply app_eq_nil in Et as [_ ?]. }
      rewrite <- Et, IH by done. f_equal. lia.
    + unfold str_class in E. apply orb_false_iff in E as [E1 E2]. rewrite E1, E2.
      cbn [orb andb negb]. rewrite !andb_false_r. rewrite IH by done. f_equal. lia.
Qed.

Lemma line_value sup v n m rest i : wire_ok sup v → m < n → rest ≠ [] →
  scan_line_loop false true n m (value_text v ++ rest) i =
  scan_line_loop false true n m rest (i + length (value_text v)).
Proof.
  intros Hv Hm Hr. destruct (value_text_shape sup v Hv) as [_ Hb|s E]; [by apply line_bare|].
  rewrite E. cbn [app scan_line_loop]. change (Ascii.eqb dquote backslash) with false.
  cbn [orb andb negb]. change (dquote =c "=") with false. change (dquote =c ",") with false.
  rewrite Ascii.eqb_refl, (proj2 (Nat.ltb_lt _ _)) by done. cbn [andb].
  rewrite <- app_assoc. cbn [app]. rewrite line_string by done. f_equal.
  cbn. rewrite length_app. cbn. lia.
Qed.

Lemma line_fields sup fs : ∀ n rest i, Forall (wire_field sup) fs → fs ≠ [] →
  Forall (λ kv, newline ∉ kv.1) fs → rest ≠ [] →
  scan_line_loop false true n n (fields_text fs ++ rest) i =
  scan_line_loop false true (n + length fs) (n + length fs - 1) rest (i + length (fields_text fs)).
Proof.
  induction fs as [|[k v] fs IH]; intros n rest i Hfs Hne Hnl Hr; [done|]. clear Hne.
  apply Forall_cons in Hfs as [[[Hk Hkb] Hv] Hfs]. apply Forall_cons in Hnl as [Hnk Hnl].
  cbn [fst snd] in *.
  assert (newline ∉ esc key_class k) as Hnk' by by apply esc_no_newline.
  assert (∀ rest i, rest ≠ [] →
    scan_line_loop false true n n (field_text (k, v) ++ rest) i =
    scan_line_loop false true (S n) n rest (i + length (field_text (k, v)))) as Hone.
  { clear rest i Hr. intros rest i Hr. unfold field_text. cbn [fst snd].
    rewrite <- app_assoc. cbn [app].
    rewrite line_guarded by (done || by apply esc_guarded).
    cbn [scan_line_loop]. change (Ascii.eqb "=" backslash) with false.
    cbn [orb andb negb]. change ("=" =c "=") with true. cbn iota.
    rewrite (line_value sup) by (done || lia).
    f_equal. rewrite length_app. cbn. lia. }
  destruct fs as [|kv' fs].
  - unfold fields_text. cbn [map join length]. rewrite Hone by done. f_equal; lia.
  - rewrite fields_text_cons, <- app_assoc. cbn [app]. rewrite Hone by done.
    cbn [scan_line_loop]. change (Ascii.eqb "," backslash) with false.
    cbn [orb andb negb]. change ("," =c "=") with false. change ("," =c ",") with true. cbn iota.
    cbn [andb]. rewrite IH by done. rewrite length_app. cbn [length]. f_equal; lia.
Qed.

(** No newline outside quotes. *)
Record one_line (name : bytes) (tags : Tags) (fs : Fields) : Prop := {
  ol_key : newline ∉ MakeKey name tags;
  ol_fields : Forall (λ kv, newline ∉ kv.1) fs
}.

(** Tags without a newline make a key without one. *)
Lemma MakeKey_one_line name tags : clean name → newline ∉ name →
  Forall (λ t, newline ∉ Key t ∧ newline ∉ Value t) tags → newline ∉ MakeKey name tags.
Proof.
  intros [_ Hb] Hnl Hall. rewrite MakeKey_text by done. rewrite not_elem_of_app.
  split; [by apply esc_no_newline|].
  induction Hall as [|t a [Hk Hv] _ IH]; [by intros ?%elem_of_nil|].
  cbn [map concat]. rewrite not_elem_of_app. split; [|exact IH].
  unfold tag_text. destruct (Value (escape_tag_pair t)) as [|v0 v] eqn:E; [by intros ?%elem_of_nil|].
  rewrite <- E. unfold escape_tag_pair. cbn [Key Value]. rewrite !escapeTag_spec.
  rewrite !not_elem_of_cons, not_elem_of_app, not_elem_of_cons.
  repeat split; try done; by apply esc_no_newline.
Qed.

Lemma MakeKey_blank name tags : clean name → Forall clean_tag tags →
  guarded blank_class (MakeKey name tags).
Proof.
  intros [Hn Hb] Ht. rewrite MakeKey_text by done. apply guarded_app.
  - apply (guarded_weaken meas_class); [|by apply esc_guarded].
    unfold blank_class, meas_class. intros c ->. apply orb_true_r.
  - induction Ht as [|t tags Hclean _ IH]; [constructor|]. cbn [map concat].
    pose proof (escape_tag_guarded t Hclean) as [[Hk _] [Hv Hvn]].
    rewrite tag_text_pair by done. apply guarded_app; [|done]. unfold pair_text.
    assert (∀ c, blank_class c = true → tag_class c = true) as Hw.
    { intros c. unfold blank_class, tag_class. intros ->. by rewrite orb_true_r. }
    constructor; [done|done|]. apply guarded_app; [by apply (guarded_weaken tag_class)|].
    constructor; [done|done|]. by apply (guarded_weaken tag_class).
Qed.

Lemma scanLine_text sup name tags fs n pre rest i : wire_line sup name tags fs →
  one_line name tags fs → i = length pre →
  scanLine (pre ++ line_text name tags fs n ++ newline :: rest) i =
  (i + length (line_text name tags fs n), line_text name tags fs n).
Proof.
  intros [H1 H2 H3 H4 H5 H6 H7 H8 H9] [L1 L2] ->. unfold scanLine. rewrite drop_app_length.
  assert (scan_line_loop false false 0 0 (line_text name tags fs n ++ newline :: rest) (length pre)
          = length pre + length (line_text name tags fs n)) as ->; [|f_equal; by apply slice_app].
  unfold line_text. rewrite <- app_assoc. cbn [app]. rewrite <- app_assoc. cbn [app].
  rewrite line_key by (done || by apply MakeKey_blank).
  cbn [scan_line_loop]. change (Ascii.eqb " " backslash) with false.
  cbn [orb andb negb]. change (" " =c " ") with true. change (" " =c "=") with false.
  change (" " =c ",") with false. change (Ascii.eqb " " dquote) with false.
  change (" " =c "010") with false. cbn [andb].
  rewrite (line_fields sup) by done.
  cbn [scan_line_loop]. change (Ascii.eqb " " backslash) with false.
  cbn [orb andb negb]. change (" " =c "=") with false.
  change (" " =c ",") with false. change (Ascii.eqb " " dquote) with false.
  change (" " =c "010") with false. cbn [andb].
  rewrite line_bare by apply format_int_bare.
  change (newline :: rest) with ([newline] ++ rest). cbn [app scan_line_loop].
  change (Ascii.eqb newline backslash) with false. cbn [orb andb negb].
  change (newline =c "=") with false.
  change (newline =c ",") with false. change (Ascii.eqb newline dquote) with false.
  change (newline =c "010") with true. cbn [andb].
  rewrite !length_app. cbn [length]. rewrite length_app. cbn [length]. lia.
Qed.

(* ------------------------------------------------------------------ *)
(** ** [ParsePointsWithPrecision] *)

(** One line of a body: a series, its fields and a timestamp. *)
Record wire_point := MkWire { w_name : bytes; w_tags : Tags; w_fields : Fields; w_time : Z }.

Definition wire_text (w : wire_point) : bytes :=
  line_text (w_name w) (w_tags w) (w_fields w) (w_time w).

(** A line that is not taken for a comment. *)
Definition not_comment (name : bytes) : Prop := match name with c :: _ => c ≠ "#"%char | [] => True end.

Record wire_point_ok (sup : bool) (w : wire_point) : Prop := {
  wp_line : wire_line sup (w_name w) (w_tags w) (w_fields w);
  wp_one : one_line (w_name w) (w_tags w) (w_fields w);
  wp_comment : not_comment (w_name w);
  wp_time : in_i64 (w_time w)
}.

(** The point a line denotes under a precision. *)
Definition wire_denotes (precision : bytes) (w : wire_point) (p : point) : Prop :=
  ∃ t, SafeCalcTime (w_time w) precision = Ret t ∧
       p = MkPoint (MakeKey (w_name w) (w_tags w)) (fields_text (w_fields w)) t.

(** A key begins with a byte that is no blank and starts no comment. *)
Lemma key_head name tags : clean name → starts_plain name → not_comment name →
  ∃ c s, MakeKey name tags = c :: s ∧
    c ≠ " "%char ∧ c ≠ "009"%char ∧ c ≠ "000"%char ∧ c ≠ "#"%char.
Proof.
  intros [Hn Hb] Hp Hc. rewrite MakeKey_text by done. destruct name as [|c name]; [done|].
  cbn in Hp, Hc. destruct Hp as [H1 H2]. cbn [esc]. destruct (meas_class c) eqn:E; cbn [app].
  - by eexists backslash, _.
  - eexists c, _. repeat split; try done. by intros ->.
Qed.

Lemma line_head sup w : wire_point_ok sup w → ∃ c s, wire_text w = c :: s ∧
  c ≠ " "%char ∧ c ≠ "009"%char ∧ c ≠ "000"%char ∧ c ≠ "#"%char.
Proof.
  intros [[Hn Hp _ _ _ _ _ _ _] _ Hc _]. unfold wire_text, line_text.
  destruct (key_head (w_name w) (w_tags w) Hn Hp Hc) as (c & s & -> & H). by eexists c, _.
Qed.

(** A body has at least a byte for every line. *)
Lemma lines_length ws : length ws ≤ length (concat (map (λ w, wire_text w ++ [newline]) ws)).
Proof.
  induction ws as [|w ws IH]; cbn [map concat length] in *; [lia|]. rewrite !length_app. cbn. lia.
Qed.

Lemma last_format_int n : last (format_int n) ≠ Some newline.
Proof.
  pose proof (format_int_chars n) as H. intros Hl. apply last_Some in Hl as [l E].
  rewrite E in H. apply Forall_app in H as [_ H]. inversion H as [|? ? [Hc|Hc] _]; done.
Qed.

Lemma last_line name tags fs n : last (line_text name tags fs n) ≠ Some newline.
Proof.
  unfold line_text.
  replace (MakeKey name tags ++ " "%char :: fields_text fs ++ " "%char :: format_int n)
    with ((MakeKey name tags ++ " "%char :: fields_text fs ++ [" "%char]) ++ format_int n) by app_eq.
  destruct (format_int_head n) as (c & s & E & _). pose proof (last_format_int n) as H.
  rewrite E in H |- *. by rewrite last_app_cons.
Qed.

Lemma parse_lines sup defaultTime precision ws : ∀ fuel pre ps,
  Forall (wire_point_ok sup) ws → Forall2 (wire_denotes precision) ws ps → length ws < fuel →
  parse_points_loop sup fuel (pre ++ concat (map (λ w, wire_text w ++ [newline]) ws))
    defaultTime precision (length pre) = Ret (ps, []).
Proof.
  induction ws as [|w ws IH]; intros fuel pre ps Hws Hps Hf; (destruct fuel as [|fuel]; [cbn in Hf; lia|]).
  { inversion Hps; subst. cbn. by rewrite app_nil_r, Nat.leb_refl. }
  inversion Hps as [|? p ? ps' (t & Ht & ->) Hps']; subst.
  apply Forall_cons in Hws as [Hw Hws]. cbn [parse_points_loop map concat].
  destruct (line_head sup w Hw) as (c & s & E & Hc1 & Hc2 & Hc3 & Hc4).
  rewrite (proj2 (Nat.leb_gt _ _)) by (rewrite !length_app, E; cbn; lia).
  set (rest := concat (map (λ w, wire_text w ++ [newline]) ws)).
  replace (pre ++ (wire_text w ++ [newline]) ++ rest)
    with (pre ++ wire_text w ++ newline :: rest) by app_eq.
  destruct Hw as [Hl Ho _ Hn]. unfold wire_text at 1.
  rewrite (scanLine_text sup) by done. fold (wire_text w).
  assert (skipWhitespace (wire_text w) 0 = 0) as ->.
  { rewrite E. by apply skipWhitespace_plain. }
  rewrite E at 1. cbn [lookup list_lookup].
  rewrite (proj2 (Ascii.eqb_neq c "#"%char)) by done.
  assert (match last (wire_text w) with
          | Some d => if d =c "010" then take (length (wire_text w) - 1) (wire_text w) else wire_text w
          | None => wire_text w end = wire_text w) as ->.
  { unfold wire_text. pose proof (last_line (w_name w) (w_tags w) (w_fields w) (w_time w)) as Hlast.
    destruct (last _) as [d|]; [|done]. destruct (Ascii.eqb_spec d newline) as [->|]; done. }
  rewrite drop_0. unfold wire_text at 1.
  rewrite parsePoint_line by done. rewrite Ht. cbn [mbind outcome_bind].
  specialize (IH fuel (pre ++ wire_text w ++ [newline]) ps' Hws Hps' ltac:(cbn in Hf; lia)).
  fold rest in IH.
  replace ((pre ++ wire_text w ++ [newline]) ++ rest)
    with (pre ++ wire_text w ++ newline :: rest) in IH by app_eq.
  replace (length (pre ++ wire_text w ++ [newline])) with (length pre + length (wire_text w) + 1)
    in IH by (rewrite !length_app; cbn; lia).
  by rewrite IH.
Qed.

(** A body of such lines parses to the points they denote, and no error. *)
Lemma ParsePoints_lines sup defaultTime precision ws ps :
  Forall (wire_point_ok sup) ws → Forall2 (wire_denotes precision) ws ps →
  ParsePointsWithPrecision sup (concat (map (λ w, wire_text w ++ [newline]) ws)) defaultTime precision
  = Ret (ps, []).
Proof.
  intros Hws Hps. unfold ParsePointsWithPrecision.
  apply (parse_lines sup defaultTime precision ws _ [] ps Hws Hps).
  apply Nat.lt_succ_r, lines_length.
Qed.
