(* ===== verification/TimeWindow.v ===== *)
(** * Time windows ([api/core/v2/time_window.go])

    Windows are placed on the date of the current time, so that a time is
    its weekday and the nanosecond of its day, in its location, and the
    offset of the location. *)

From S2P Require Import Prelude GoStd GoTime.

Record TimeWindowTimeRange := MkRange { Begin : bytes; End_ : bytes }.

(** A slice of pointers may hold nil: [None]. *)
Record TimeWindowDays := MkDays {
  All : list (option TimeWindowTimeRange); Sunday : list (option TimeWindowTimeRange);
  Monday : list (option TimeWindowTimeRange); Tuesday : list (option TimeWindowTimeRange);
  Wednesday : list (option TimeWindowTimeRange); Thursday : list (option TimeWindowTimeRange);
  Friday : list (option TimeWindowTimeRange); Saturday : list (option TimeWindowTimeRange)
}.

(** [TimeWindowWhen], whose only field is [Days]. *)
Record TimeWindowWhen := MkWhen { Days : TimeWindowDays }.

Inductive Weekday := Sun | Mon | Tue | Wed | Thu | Fri | Sat.

(** The offset is in nanoseconds east of UTC. *)
Record LocalTime := MkLocal { weekday : Weekday; nano_of_day : Z; zone_offset : Z }.
Definition MkUTC (w : Weekday) (nano : Z) : LocalTime := MkLocal w nano 0.

(** The nanoseconds from midnight, in UTC, of the date of a time to the
    time: what the source compares. *)
Definition since_midnight (t : LocalTime) : Z := (nano_of_day t - zone_offset t)%Z.

(** [getnum]: one or two digits, or exactly two when [fixed]. *)
Definition getnum (s : bytes) (fixed : bool) : option (Z * bytes) :=
  match s with
  | c :: s' =>
      if negb (is_digit c) then None
      else match s' with
           | d :: s'' =>
               if is_digit d then Some (digit_value c * 10 + digit_value d, s'')%Z
               else if fixed then None else Some (digit_value c, s')
           | [] => if fixed then None else Some (digit_value c, s')
           end
  | [] => None
  end.

(** [time.Parse(time.Kitchen, s)], layout "3:04PM": hour and minute. *)
Definition parse_kitchen (s : bytes) : outcome (Z * Z) :=
  let bad := Fail (Errorf "parsing time %q as %q" [s; bs "3:04PM"]) in
  match getnum s false with
  | Some (hour, c :: s1) =>
      if (hour <? 0)%Z || (12 <? hour)%Z || (c <>c ":") then bad
      else match getnum s1 true with
           | Some (min, s2) =>
               if (min <? 0)%Z || (60 <=? min)%Z then bad
               else if bytes_equal s2 (bs "PM") then
                 Ret (if (hour <? 12)%Z then hour + 12 else hour, min)%Z
               else if bytes_equal s2 (bs "AM") then
                 Ret (if (hour =? 12)%Z then 0 else hour, min)%Z
               else bad
           | None => bad
           end
  | _ => bad
  end.

Definition day_nano (hour min : Z) : Z := (hour * Hour + min * Minute)%Z.

(** [TimeWindowTimeRange.InWindow]; the fields of a nil window are read. *)
Definition InWindow (t : option TimeWindowTimeRange) (current : LocalTime) : outcome bool :=
  match t with
  | None => Panic
  | Some t =>
      let begin := replace_all (Begin t) (bs " ") [] in
      let end_ := replace_all (End_ t) (bs " ") [] in
      '(beginHour, beginMin) ← parse_kitchen begin;
      let beginTime := day_nano beginHour beginMin in
      '(endHour, endMin) ← parse_kitchen end_;
      let endTime := day_nano endHour endMin in
      let now := since_midnight current in
      let '(beginTime, endTime) :=
        if (endTime <? beginTime)%Z then
          if (now <? endTime)%Z then (0, endTime)%Z
          else (beginTime, 23 * Hour + 59 * Minute + 59 * Second + 999999999)%Z
        else (beginTime, endTime) in
      Ret ((beginTime <=? now)%Z && (now <=? endTime)%Z)
  end.

(** [MapTimeWindows()[day]]. *)
Definition day_windows (d : TimeWindowDays) (w : Weekday) : list (option TimeWindowTimeRange) :=
  match w with
  | Sun => Sunday d | Mon => Monday d | Tue => Tuesday d | Wed => Wednesday d
  | Thu => Thursday d | Fri => Friday d | Sat => Saturday d
  end.

Fixpoint in_windows (windows : list (option TimeWindowTimeRange)) (current : LocalTime) : outcome bool :=
  match windows with
  | [] => Ret false
  | w :: windows' =>
      isInWindow ← InWindow w current;
      if (isInWindow : bool) then Ret true else in_windows windows' current
  end.

(** [TimeWindowWhen.InWindows]. *)
Definition InWindows (t : TimeWindowWhen) (current : LocalTime) : outcome bool :=
  in_windows (All (Days t) ++ day_windows (Days t) (weekday current)) current.

(** The loops of [Validate], over the windows of all days. *)
Fixpoint validate_ranges (windows : list (option TimeWindowTimeRange)) (now : LocalTime) : outcome unit :=
  match windows with
  | [] => Ret ()
  | w :: windows' => _ ← InWindow w now; validate_ranges windows' now
  end.

(** [MapTimeWindows], in one of the orders in which the runtime visits it. *)
Definition MapTimeWindows (d : TimeWindowDays) : list (list (option TimeWindowTimeRange)) :=
  [All d; Sunday d; Monday d; Tuesday d; Wednesday d; Thursday d; Friday d; Saturday d].

(** [TimeWindowWhen.Validate]. *)
Definition Validate_windows (t : option TimeWindowWhen) (now : LocalTime) : outcome unit :=
  match t with
  | None => Ret ()
  | Some t => validate_ranges (concat (MapTimeWindows (Days t))) now
  end.

Example kitchen :
  map parse_kitchen (map bs ["3:00PM"; "12:30AM"; "13:00PM"; "3:0PM"; "3:00pm"; "0:00AM"]%string)
  = let bad s := Fail (Errorf "parsing time %q as %q" [bs s; bs "3:04PM"]) in
    [Ret (15, 0)%Z; Ret (0, 30)%Z; bad "13:00PM"%string; bad "3:0PM"%string; bad "3:00pm"%string;
     Ret (0, 0)%Z].
Proof. by vm_compute. Qed.

(** Only a nil window panics. *)
Lemma parse_kitchen_no_panic s : parse_kitchen s ≠ Panic.
Proof.
  unfold parse_kitchen. destruct (getnum s false) as [[h [|c s1]]|]; [done| |done].
  destruct (_ || _); [done|]. destruct (getnum s1 true) as [[m s2]|]; [|done].
  destruct (_ || _); [done|]. destruct (bytes_equal s2 _); [done|]. by destruct (bytes_equal s2 _).
Qed.

Lemma InWindow_no_panic w t : w ≠ None → InWindow w t ≠ Panic.
Proof.
  destruct w as [w|]; [|done]. intros _. unfold InWindow.
  pose proof (parse_kitchen_no_panic (replace_all (Begin w) (bs " ") [])).
  pose proof (parse_kitchen_no_panic (replace_all (End_ w) (bs " ") [])).
  destruct (parse_kitchen (replace_all (Begin w) _ _)) as [[bh bm]|e1|]; cbn; try done.
  destruct (parse_kitchen (replace_all (End_ w) _ _)) as [[eh em]|e2|]; cbn; try done.
  by repeat match goal with |- context [if ?b then _ else _] => destruct b end.
Qed.

Lemma validate_ranges_no_panic ws now : None ∉ ws → validate_ranges ws now ≠ Panic.
Proof.
  induction ws as [|w ws IH]; [done|]. rewrite not_elem_of_cons. intros [Hw Hws]. cbn [validate_ranges].
  pose proof (InWindow_no_panic w now ltac:(congruence)) as Hp.
  destruct (InWindow w now) as [b|e|]; cbn; [by apply IH|done|done].
Qed.

(** Whether a window is read does not depend on the time. *)
Lemma InWindow_any w t t' : InWindow w t = match InWindow w t' with
                                           | Ret _ => InWindow w t
                                           | Fail e => Fail e
                                           | Panic => Panic
                                           end.
Proof.
  unfold InWindow. destruct w as [w|]; [|done].
  destruct (parse_kitchen (replace_all (Begin w) _ _)) as [[bh bm]|e1|]; cbn; try done.
  destruct (parse_kitchen (replace_all (End_ w) _ _)) as [[eh em]|e2|]; cbn; try done.
  by repeat match goal with |- context [if ?b then _ else _] => destruct b end.
Qed.

(** Windows validate when all are read, whatever the order of the days. *)
Lemma validate_ranges_ok ws now :
  validate_ranges ws now = Ret () ↔ ∀ w, w ∈ ws → ∃ b, InWindow w now = Ret b.
Proof.
  induction ws as [|w ws IH]; cbn [validate_ranges].
  - split; [by intros _ w ?%elem_of_nil|done].
  - setoid_rewrite elem_of_cons. destruct (InWindow w now) as [b|e|] eqn:E; cbn [mbind outcome_bind].
    + rewrite IH. naive_solver.
    + split; [done|]. intros H. destruct (H w) as [b Hb]; [by left|congruence].
    + split; [done|]. intros H. destruct (H w) as [b Hb]; [by left|congruence].
Qed.

Lemma validate_ranges_perm ws ws' now : ws ≡ₚ ws' →
  validate_ranges ws now = Ret () ↔ validate_ranges ws' now = Ret ().
Proof. intros Hp. rewrite !validate_ranges_ok. by setoid_rewrite Hp. Qed.
