(* ===== verification/Sensu.v ===== *)
(** * Sensu events: data, validation and silencing ([api/core/v2]) *)

From S2P Require Import Prelude GoStd GoFloat GoTime TimeWindow.

(* ------------------------------------------------------------------ *)
(** ** Data *)

Record ObjectMeta := MkMeta {
  om_Name : bytes; Namespace : bytes;
  Labels : option (gmap bytes bytes); Annotations : option (gmap bytes bytes)
}.

Record MetricTag := MkMetricTag { mt_Name : bytes; mt_Value : bytes }.

(** A slice of pointers may hold nil: [None]. *)
Record MetricPoint := MkMetricPoint {
  mp_Name : bytes; mp_Value : float64; mp_Timestamp : Z; mp_Tags : list (option MetricTag)
}.
Record Metrics := MkMetrics { m_Handlers : list bytes; Points : list (option MetricPoint) }.

(** The fields of [Entity] that its operations read or write. *)
Record Entity := MkEntity {
  e_Meta : ObjectMeta; EntityClass : bytes; e_Subscriptions : list bytes; LastSeen : Z;
  Deregister : bool; Redact : list bytes
}.

Record CheckHistory := MkHistory { h_Status : Z; h_Executed : Z }.

Record ProxyRequests := MkProxyRequests {
  EntityAttributes : list bytes; Splay : bool; SplayCoverage : Z
}.

(** The fields of [Check] that its operations read or write. *)
Record Check_ := MkCheck {
  c_Meta : ObjectMeta;
  Interval : Z; Cron : bytes; Ttl : Z; Timeout : Z;
  c_Subscriptions : list bytes; c_Handlers : list bytes; RuntimeAssets : list bytes;
  c_ProxyEntityName : bytes; c_ProxyRequests : option ProxyRequests;
  Subdue : option TimeWindowWhen; OutputMetricFormat : bytes; EnvVars : list bytes;
  MaxOutputSize : Z; LowFlapThreshold : Z; HighFlapThreshold : Z;
  Status : Z; State : bytes; Executed : Z; History : list CheckHistory;
  TotalStateChange : Z; LastOK : Z; Occurrences : Z; OccurrencesWatermark : Z;
  Silenced_by : list bytes; Output : bytes; RoundRobin : bool
}.

Record Event := MkEvent {
  ev_Meta : ObjectMeta; ev_Timestamp : Z; ev_Entity : option Entity;
  ev_Check : option Check_; ev_Metrics : option Metrics
}.

Record Silenced := MkSilenced {
  s_Meta : ObjectMeta; s_Check : bytes; s_Subscription : bytes; s_Begin : Z;
  s_Expire : Z; ExpireOnResolve : bool
}.

(* ------------------------------------------------------------------ *)
(** ** Names ([validators.go]) *)

(** The character class [[\w\.\-]]. *)
Definition is_lower (c : ascii) : bool :=
  let n := N_of_ascii c in (97 <=? n)%N && (n <=? 122)%N.
Definition is_upper (c : ascii) : bool :=
  let n := N_of_ascii c in (65 <=? n)%N && (n <=? 90)%N.
Definition word_dot_dash (c : ascii) : bool :=
  is_digit c || is_upper c || is_lower c || (c =c "_") || (c =c ".") || (c =c "-").
Definition strict_class (c : ascii) : bool :=
  is_lower c || is_digit c || (c =c "_") || (c =c ".") || (c =c "-").
Definition asset_class (c : ascii) : bool :=
  is_lower c || is_digit c || (c =c "/") || (c =c "_") || (c =c ".") || (c =c "-").

(** [\A[class]+\z]. *)
Definition match_plus (class : ascii → bool) (s : bytes) : bool :=
  match s with [] => false | _ => forallb class s end.

(** [\A[class]+\:?[class]+\z]: the optional colon splits the name; without
    it the two runs share at least two characters. *)
Definition match_subscription (class : ascii → bool) (s : bytes) : bool :=
  match cut_byte ":" s with
  | (a, Some b) => match_plus class a && match_plus class b
  | (a, None) => match_plus class a && (2 <=? length a)%nat
  end.

Definition validateNameWithPattern (rexp : bytes → bool) (name : bytes) : option error :=
  match name with
  | [] => Some (Errorf "must not be empty" [])
  | _ => if negb (rexp name) then
           Some (Errorf "cannot contain spaces or special characters" [])
         else None
  end.
Definition ValidateName : bytes → option error :=
  validateNameWithPattern (match_plus word_dot_dash).
Definition ValidateNameStrict : bytes → option error :=
  validateNameWithPattern (match_plus strict_class).
Definition ValidateSubscriptionName : bytes → option error :=
  validateNameWithPattern (match_subscription word_dot_dash).

(** [ValidateAssetName] ([asset.go]). *)
Definition ValidateAssetName (name : bytes) : option error :=
  match name with
  | [] => Some (Errorf "name cannot be empty" [])
  | _ => if negb (match_plus asset_class name) then
           Some (Errorf "name must be lowercase and may only contain forward slashes, underscores, dashes and numbers" [])
         else None
  end.

(** [validateVar], [ValidateEnvVars] ([env_vars.go]). *)
Definition validateVar (v : bytes) : option error :=
  let bad := Some (Errorf "environment variables must be of the form FOO=BAR" []) in
  match split_byte "=" v with
  | [a; b] => if (length a =? 0)%nat || (length b =? 0)%nat then bad else None
  | _ => bad
  end.
Fixpoint ValidateEnvVars (vars : list bytes) : option error :=
  match vars with
  | [] => None
  | v :: vars' => match validateVar v with Some e => Some e | None => ValidateEnvVars vars' end
  end.

(** [EnvVarsToMap]. *)
Definition EnvVarsToMap (vars : list bytes) : gmap bytes bytes :=
  foldl (λ result v, match split_byte "=" v with
                     | a :: b :: _ => <[a := b]> result
                     | _ => result
                     end) ∅ vars.

(** [InArray] ([util/strings]). *)
Definition InArray (item : bytes) (array : list bytes) : bool :=
  match item with [] => false | _ => existsb (bytes_equal item) array end.

(* ------------------------------------------------------------------ *)
(** ** Validation *)

Definition prefix_error (text : string) (e : option error) : option error :=
  match e with Some e => Some (Wrapf text [] e) | None => None end.

(** [if err := a; err != nil { return err }; b]. *)
Definition or_else (a b : option error) : option error :=
  match a with Some e => Some e | None => b end.
Infix "|||" := or_else (at level 50, left associativity) : go_scope.

(** The same, when what follows may panic. *)
Definition of_error (e : option error) : outcome unit :=
  match e with Some e => Fail e | None => Ret () end.
Definition wrapped {A} (text : string) (m : outcome A) : outcome A :=
  match m with Fail e => Fail (Wrapf text [] e) | _ => m end.

(** [if guard { return errors.New(text) }]. *)
Definition fail_if (guard : bool) (text : string) : option error :=
  if guard then Some (Errorf text []) else None.

Definition is_empty (s : bytes) : bool := match s with [] => true | _ => false end.

(** [Entity.Validate]. *)
Definition Validate_entity (e : Entity) : option error :=
  prefix_error "entity name " (ValidateName (om_Name (e_Meta e)))
  ||| prefix_error "entity class " (ValidateName (EntityClass e))
  ||| fail_if (is_empty (Namespace (e_Meta e))) "namespace must be set".

Definition OutputMetricFormats : list bytes :=
  map bs ["nagios_perfdata"; "graphite_plaintext"; "opentsdb_line"; "influxdb_line"]%string.

Definition ValidateOutputMetricFormat (format : bytes) : option error :=
  fail_if (negb (InArray format OutputMetricFormats)) "output metric format is not valid".

Definition undocumentedTestCheckName : bytes := bs "!sensu_test_check!".

Fixpoint validate_assets (assets : list bytes) : option error :=
  match assets with
  | [] => None
  | a :: assets' => prefix_error "asset's %s" (ValidateAssetName a) ||| validate_assets assets'
  end.

Section Validate.
(** The vendored parsers of cron schedules ([robfig/cron]) and of
    JavaScript expressions ([robertkrimen/otto]): whether they accept. *)
Context (ParseStandard_ok : bytes → bool) (ParseExpressions : list bytes → option error)
  (now : LocalTime).

(** [ProxyRequests.Validate]. *)
Definition Validate_proxy (p : ProxyRequests) : option error :=
  fail_if (100 <? SplayCoverage p)%Z "proxy request splay coverage must be between 0 and 100"
  ||| fail_if (Splay p && (SplayCoverage p =? 0)%Z)
        "proxy request splay coverage must be greater than 0 if splay is enabled"
  ||| ParseExpressions (EntityAttributes p).

(** [Check.Validate], up to the windows. *)
Definition Validate_fields (c : Check_) : option error :=
  prefix_error "check name " (ValidateName (om_Name (c_Meta c)))
  ||| (if negb (is_empty (Cron c)) then
         fail_if (0 <? Interval c)%Z "must only specify either an interval or a cron schedule"
         ||| fail_if (negb (ParseStandard_ok (Cron c))) "check cron string is invalid"
       else
         fail_if (Interval c <? 1)%Z "check interval must be greater than or equal to 1")
  ||| fail_if ((0 <? Ttl c)%Z && (Ttl c <=? Interval c)%Z) "ttl must be greater than check interval"
  ||| fail_if ((0 <? Ttl c)%Z && (Ttl c <? 5)%Z) "minimum ttl is 5 seconds"
  ||| validate_assets (RuntimeAssets c)
  ||| (if negb (is_empty (c_ProxyEntityName c)) then
         prefix_error "proxy entity name " (ValidateName (c_ProxyEntityName c)) else None)
  ||| match c_ProxyRequests c with Some p => Validate_proxy p | None => None end
  ||| (if negb (is_empty (OutputMetricFormat c)) then
         ValidateOutputMetricFormat (OutputMetricFormat c) else None)
  ||| fail_if (negb (LowFlapThreshold c =? 0)%Z && negb (HighFlapThreshold c =? 0)%Z
               && (HighFlapThreshold c <=? LowFlapThreshold c)%Z) "invalid flap thresholds"
  ||| ValidateEnvVars (EnvVars c)
  ||| fail_if (MaxOutputSize c <? 0)%Z "MaxOutputSize must be >= 0".

(** [Check.Validate]. *)
Definition Validate_check (c : Check_) : outcome unit :=
  if bytes_equal (om_Name (c_Meta c)) undocumentedTestCheckName then Ret ()
  else _ ← of_error (Validate_fields c); Validate_windows (Subdue c) now.

(** [Metrics.Validate] accepts everything. *)
Definition Validate_metrics (m : Metrics) : option error := None.

Definition HasCheck (e : Event) : bool := match ev_Check e with Some _ => true | None => false end.
Definition HasMetrics (e : Event) : bool :=
  match ev_Metrics e with Some _ => true | None => false end.

(** [Event.Validate]. *)
Definition Validate_event (e : Event) : outcome unit :=
  match ev_Entity e with
  | None => Fail (Errorf "event must contain an entity" [])
  | Some entity =>
      _ ← of_error
            (fail_if (negb (HasCheck e) && negb (HasMetrics e)) "event must contain a check or metrics"
             ||| prefix_error "entity is invalid: " (Validate_entity entity));
      _ ← match ev_Check e with
          | Some c => wrapped "check is invalid: " (Validate_check c)
          | None => Ret ()
          end;
      of_error
        (match ev_Metrics e with
         | Some m => prefix_error "metrics are invalid: " (Validate_metrics m)
         | None => None
         end
         ||| fail_if (negb (is_empty (om_Name (ev_Meta e)))) "events cannot be named")
  end.
End Validate.

(* ------------------------------------------------------------------ *)
(** ** Incidents and silencing *)

Definition IsIncident (e : Event) : bool :=
  match ev_Check e with Some c => negb (Status c =? 0)%Z | None => false end.

(** [IsResolution]: the second-to-last status of the history was not zero. *)
Definition IsResolution (e : Event) : bool :=
  match ev_Check e with
  | None => false
  | Some c =>
      match History c !! (length (History c) - 2) with
      | Some h => (1 <? length (History c))%nat && negb (h_Status h =? 0)%Z && negb (IsIncident e)
      | None => false
      end
  end.

Definition IsSilenced (e : Event) : bool :=
  match ev_Check e with Some c => negb (length (Silenced_by c) =? 0)%nat | None => false end.

(** [Silenced.Validate]. *)
Definition Validate_silenced (s : Silenced) : option error :=
  fail_if ((is_empty (s_Subscription s) && is_empty (s_Check s))
           || (bytes_equal (s_Subscription s) (bs "*") && bytes_equal (s_Check s) (bs "*")))
    "must provide check or subscription"
  ||| (if negb (is_empty (s_Subscription s)) && negb (bytes_equal (s_Subscription s) (bs "*")) then
         prefix_error "Subscription %s" (ValidateSubscriptionName (s_Subscription s)) else None)
  ||| (if negb (is_empty (s_Check s)) && negb (bytes_equal (s_Check s) (bs "*")) then
         prefix_error "Check %s" (ValidateName (s_Check s)) else None).

(** [StartSilence]. *)
Definition StartSilence (s : Silenced) (currentTime : Z) : bool :=
  if (s_Begin s =? 0)%Z then true else (s_Begin s <? currentTime)%Z.

(** [SilencedName]. *)
Definition SilencedName (subscription check : bytes) : outcome bytes :=
  if is_empty subscription && is_empty check then
    Fail (Errorf "no subscription or check specified" [])
  else
    let subscription := if is_empty subscription then bs "*" else subscription in
    let check := if is_empty check then bs "*" else check in
    Ret (subscription ++ bs ":" ++ check).

Definition GetEntitySubscription (entityName : bytes) : bytes := bs "entity:" ++ entityName.

(** The subscriptions of the check that the entity shares, in turn. *)
Fixpoint silenced_by_subscription (name check : bytes) (entity_subs subs : list bytes) : bool :=
  match subs with
  | [] => false
  | s :: subs' =>
      if negb (InArray s entity_subs) then silenced_by_subscription name check entity_subs subs'
      else if bytes_equal name (s ++ bs ":*") then true
      else if bytes_equal name (s ++ bs ":" ++ check) then true
      else silenced_by_subscription name check entity_subs subs'
  end.

(** [Event.IsSilencedBy] at the Unix time [now]; reading the name of a nil
    entity is a panic. *)
Definition IsSilencedBy (e : Event) (entry : Silenced) (now : Z) : outcome bool :=
  match ev_Check e with
  | None => Ret false
  | Some c =>
      if negb (StartSilence entry now) then Ret false
      else
        let name := om_Name (s_Meta entry) in
        let check := om_Name (c_Meta c) in
        if bytes_equal name (bs "*:" ++ check) then Ret true
        else
          match ev_Entity e with
          | None => Panic
          | Some entity =>
              let sub := GetEntitySubscription (om_Name (e_Meta entity)) in
              if bytes_equal name (sub ++ bs ":*") then Ret true
              else if bytes_equal name (sub ++ bs ":" ++ check) then Ret true
              else Ret (silenced_by_subscription name check (e_Subscriptions entity)
                          (c_Subscriptions c))
          end
  end.

(** [Event.SilencedBy]. *)
Fixpoint silenced_by (e : Event) (entries : list Silenced) (now : Z) : outcome (list Silenced) :=
  match entries with
  | [] => Ret []
  | entry :: entries' =>
      b ← IsSilencedBy e entry now;
      rest ← silenced_by e entries' now;
      Ret (if (b : bool) then entry :: rest else rest)
  end.
Definition SilencedBy (e : Event) (entries : list Silenced) (now : Z) : outcome (list Silenced) :=
  if negb (HasCheck e) then Ret [] else silenced_by e entries now.

(* ------------------------------------------------------------------ *)
(** ** History and flapping ([check.go], [flapping.go]) *)

Definition EventFailingState : bytes := bs "failing".
Definition EventFlappingState : bytes := bs "flapping".
Definition EventPassingState : bytes := bs "passing".

Definition isFlapping (c : Check_) : bool :=
  if (LowFlapThreshold c =? 0)%Z || (HighFlapThreshold c =? 0)%Z then false
  else if bytes_equal (State c) EventFlappingState then
    (LowFlapThreshold c <? TotalStateChange c)%Z
  else (HighFlapThreshold c <=? TotalStateChange c)%Z.

(** [float32(f)], and [float32] division and product. *)
Definition to_float32 (f : float64) : spec_float :=
  match f with
  | S754_finite s m e => binary_round 24 128 s m e
  | f => f
  end.
Definition float32_of_int (z : Z) : spec_float := binary_normalize 24 128 z 0 false.

(** The loop of [totalStateChange], over the history from its last entry. *)
Fixpoint state_changes (rev_history : list CheckHistory) (previousStatus : Z)
  (stateChanges changeWeight : float64) : float64 :=
  match rev_history with
  | [] => stateChanges
  | h :: rest =>
      let stateChanges := if negb (h_Status h =? previousStatus)%Z
                          then SFadd prec64 emax64 stateChanges changeWeight else stateChanges in
      state_changes rest (h_Status h) stateChanges
        (SFadd prec64 emax64 changeWeight (float_of_decimal false 2 (-2)))
  end.

Definition totalStateChange (c : Check_) : Z :=
  if (length (History c) <? 21)%nat then 0%Z
  else
    match rev (History c) with
    | [] => 0%Z
    | lasth :: rest =>
        let changes := state_changes rest (h_Status lasth) (float_of_decimal false 0 0)
                         (float_of_decimal false 80 (-2)) in
        int_of_float (SFmul 24 128 (SFdiv 24 128 (to_float32 changes) (float32_of_int 20))
                        (float32_of_int 100))
    end.

Definition set_change (c : Check_) (total : Z) (state : bytes) (lastok : Z) : Check_ :=
  MkCheck (c_Meta c) (Interval c) (Cron c) (Ttl c) (Timeout c) (c_Subscriptions c) (c_Handlers c)
    (RuntimeAssets c) (c_ProxyEntityName c) (c_ProxyRequests c) (Subdue c) (OutputMetricFormat c)
    (EnvVars c) (MaxOutputSize c) (LowFlapThreshold c) (HighFlapThreshold c) (Status c) state
    (Executed c) (History c) total lastok (Occurrences c) (OccurrencesWatermark c) (Silenced_by c) (Output c)
    (RoundRobin c).

(** [updateCheckState]. *)
Definition updateCheckState (c : Check_) : Check_ :=
  let c := set_change c (totalStateChange c) (State c) (LastOK c) in
  if isFlapping c then set_change c (TotalStateChange c) EventFlappingState (LastOK c)
  else if (Status c =? 0)%Z then set_change c (TotalStateChange c) EventPassingState (Executed c)
  else set_change c (TotalStateChange c) EventFailingState (LastOK c).

Definition set_history (c : Check_) (history : list CheckHistory) (prev : Check_) : Check_ :=
  MkCheck (c_Meta c) (Interval c) (Cron c) (Ttl c) (Timeout c) (c_Subscriptions c) (c_Handlers c)
    (RuntimeAssets c) (c_ProxyEntityName c) (c_ProxyRequests c) (Subdue c) (OutputMetricFormat c)
    (EnvVars c) (MaxOutputSize c) (LowFlapThreshold c) (HighFlapThreshold c) (Status c) (State c)
    (Executed c) history (TotalStateChange c) (LastOK prev) (Occurrences prev)
    (OccurrencesWatermark prev) (Silenced_by c) (Output c)
    (RoundRobin c).

(** [Check.MergeWith], for the order in which [sort.Sort] leaves entries
    executed at the same second ([sort_history]). *)
Definition MergeWith (sort_history : list CheckHistory → list CheckHistory) (c prevCheck : Check_)
  : Check_ :=
  let histEntry := MkHistory (Status c) (Executed c) in
  let history := sort_history (History prevCheck ++ [histEntry]) in
  let history := if (21 <? length history)%nat then drop 1 history else history in
  updateCheckState (set_history c history prevCheck).
