(* ===== verification/Transformers.v ===== *)
(** * Metrics of check outputs ([agent/transformers], [extractMetrics])

    The agent reads the output of a check in one of four formats, and makes
    the metric points that the handler receives. A line that cannot be read
    is logged and left out. *)

From S2P Require Import Prelude GoStd GoFloat GoUtf8 GoTime TimeWindow Sensu.

(** The lines of an output, or the parts of a line, that are read. *)
Fixpoint extract {A} (read : bytes → option A) (lines : list bytes) : list A :=
  match lines with
  | [] => []
  | l :: lines' => match read l with Some a => a :: extract read lines' | None => extract read lines' end
  end.



(** A result without its error. *)
Definition ok {A} (m : outcome A) : option A := match m with Ret a => Some a | _ => None end.

(** [key=value]. *)
Definition pair_of (s : bytes) : option (bytes * bytes) :=
  match split_byte "=" s with [a; b] => Some (a, b) | _ => None end.

Definition tag_of (s : bytes) : option (option MetricTag) :=
  '(name, value) ← pair_of s; Some (Some (MkMetricTag name value)).

(* ------------------------------------------------------------------ *)
(** ** Graphite *)

Module Graphite.
Record Graphite := MkGraphite { Path : bytes; Value : float64; Timestamp : Z }.

Definition read_line (line : bytes) : option Graphite :=
  match split_byte " " line with
  | [path; value; timestamp] =>
      f ← ok (parse_float value); i ← ok (parse_int timestamp); Some (MkGraphite path f i)
  | _ => None
  end.
Definition ParseGraphite (output : bytes) : list Graphite :=
  extract read_line (split_byte newline (TrimSpace output)).

Definition Transform (g : list Graphite) : list (option MetricPoint) :=
  map (λ graphite, Some (MkMetricPoint (Path graphite) (Value graphite) (Timestamp graphite) [])) g.
End Graphite.

(* ------------------------------------------------------------------ *)
(** ** Line protocol *)

Module Influx.
Record Field := MkField { Key : bytes; f_Value : float64 }.
Record Influx := MkInflux {
  Measurement : bytes; TagSet : list (option MetricTag); FieldSet : list Field; Timestamp : Z
}.

Definition read_field (s : bytes) : option Field :=
  '(key, value) ← pair_of s; f ← ok (parse_float value); Some (MkField key f).

Definition read_timestamp (timestamp : bytes) : option Z :=
  ok (parse_int (if (10 <? length timestamp)%nat then take 10 timestamp else timestamp)).

Section Now.
(** [time.Now().UTC().Unix()]. *)
Context (now : Z).

Definition read_line (line : bytes) : option Influx :=
  let measurement_tags (arg : bytes) : option (bytes * list (option MetricTag)) :=
    match split_byte "," arg with
    | [] => None
    | measurement :: tags => tagList ← mapM tag_of tags; Some (measurement, tagList)
    end in
  let fields (arg : bytes) := mapM read_field (split_byte "," arg) in
  match split_byte " " line with
  | [arg0; arg1] => m ← measurement_tags arg0; l ← fields arg1; Some (MkInflux m.1 m.2 l now)
  | [arg0; arg1; timestamp] =>
      m ← measurement_tags arg0; l ← fields arg1; t ← read_timestamp timestamp; Some (MkInflux m.1 m.2 l t)
  | _ => None
  end.
Definition ParseInflux (output : bytes) : list Influx :=
  extract read_line (split_byte newline (TrimSpace output)).
End Now.

Definition Transform (l : list Influx) : list (option MetricPoint) :=
  concat (map (λ influx,
    map (λ fieldSet, Some (MkMetricPoint (Measurement influx ++ bs "." ++ Key fieldSet) (f_Value fieldSet)
                             (Timestamp influx) (TagSet influx))) (FieldSet influx)) l).
End Influx.

(* ------------------------------------------------------------------ *)
(** ** Nagios *)

Module Nagios.
Record Nagios := MkNagios { Label : bytes; Value : float64; Timestamp : Z }.

(** What the expression [[^-\d\.]] leaves; a byte that is no character is
    removed too. *)
Definition numeric (c : ascii) : bool := is_digit c || (c =c "-") || (c =c ".").

Definition read_metric (executed : Z) (metric : bytes) : option Nagios :=
  match TrimSpace metric with
  | [] => None
  | metric =>
      match split_byte "=" (default [] (head (split_byte ";" metric))) with
      | [label; value] =>
          f ← ok (parse_float (List.filter numeric value));
          Some (MkNagios (replace_all label (bs " ") (bs "_")) f executed)
      | _ => None
      end
  end.
Definition ParseNagios (executed : Z) (output : bytes) : list Nagios :=
  match split_byte "|" output with
  | [_; perfdata] => extract (read_metric executed) (split_byte " " (TrimSpace perfdata))
  | _ => []
  end.

Definition Transform (n : list Nagios) : list (option MetricPoint) :=
  map (λ nagios, Some (MkMetricPoint (Label nagios) (Value nagios) (Timestamp nagios) [])) n.
End Nagios.

(* ------------------------------------------------------------------ *)
(** ** OpenTSDB *)

Module OpenTSDB.
Record OpenTSDB := MkOpenTSDB {
  Name : bytes; Value : float64; TagSet : list (option MetricTag); Timestamp : Z
}.

Definition read_metric (metric : bytes) : option OpenTSDB :=
  match split_byte " " metric with
  | name :: part1 :: part2 :: part3 :: parts =>
      t ← ok (parse_int part1);
      let timestamp := if (length part1 =? 13)%nat then Z.quot t 1000 else t in
      value ← ok (parse_float part2);
      tagSet ← mapM tag_of (part3 :: parts);
      Some (MkOpenTSDB name value tagSet timestamp)
  | _ => None
  end.
Definition ParseOpenTSDB (output : bytes) : list OpenTSDB :=
  extract read_metric (split_byte newline (TrimSpace output)).

Definition Transform (l : list OpenTSDB) : list (option MetricPoint) :=
  map (λ metric, Some (MkMetricPoint (Name metric) (Value metric) (Timestamp metric) (TagSet metric))) l.
End OpenTSDB.

(* ------------------------------------------------------------------ *)
(** ** [extractMetrics] ([agent/check_handler.go]) *)

Definition extractMetrics (now : Z) (event : Event) : list (option MetricPoint) :=
  match ev_Check event with
  | None => []
  | Some check =>
      let format := OutputMetricFormat check in
      if bytes_equal format (bs "graphite_plaintext") then
        Graphite.Transform (Graphite.ParseGraphite (Output check))
      else if bytes_equal format (bs "influxdb_line") then
        Influx.Transform (Influx.ParseInflux now (Output check))
      else if bytes_equal format (bs "nagios_perfdata") then
        Nagios.Transform (Nagios.ParseNagios (Executed check) (Output check))
      else if bytes_equal format (bs "opentsdb_line") then
        OpenTSDB.Transform (OpenTSDB.ParseOpenTSDB (Output check))
      else []
  end.

Example graphite_points : Graphite.Transform (Graphite.ParseGraphite (bs "a.b 1.5 7
bad
c -2 8
")) =
  [Some (MkMetricPoint (bs "a.b") (float_of_decimal false 15 (-1)) 7 []);
   Some (MkMetricPoint (bs "c") (float_of_decimal true 2 0) 8 [])].
Proof. by vm_compute. Qed.

Example influx_points : Influx.Transform (Influx.ParseInflux 5 (bs "m,a=b x=1,y=2 15525060331234
n z=3")) =
  [Some (MkMetricPoint (bs "m.x") (float_of_decimal false 1 0) 1552506033 [Some (MkMetricTag (bs "a") (bs "b"))]);
   Some (MkMetricPoint (bs "m.y") (float_of_decimal false 2 0) 1552506033 [Some (MkMetricTag (bs "a") (bs "b"))]);
   Some (MkMetricPoint (bs "n.z") (float_of_decimal false 3 0) 5 [])].
Proof. by vm_compute. Qed.

Example nagios_points : Nagios.Transform (Nagios.ParseNagios 9 (bs "PING ok | rta=0.80ms;1;2  loss=0%;;")) =
  [Some (MkMetricPoint (bs "rta") (float_of_decimal false 8 (-1)) 9 []);
   Some (MkMetricPoint (bs "loss") (float_of_decimal false 0 0) 9 [])].
Proof. by vm_compute. Qed.

Example opentsdb_points : OpenTSDB.Transform (OpenTSDB.ParseOpenTSDB (bs "sys.cpu 1356998400123 42.5 host=w cpu=0
sys.mem 1 2")) =
  [Some (MkMetricPoint (bs "sys.cpu") (float_of_decimal false 425 (-1)) 1356998400
     [Some (MkMetricTag (bs "host") (bs "w")); Some (MkMetricTag (bs "cpu") (bs "0"))])].
Proof. by vm_compute. Qed.
