(* ===== verification/Hook.v ===== *)
(** * Hooks ([api/core/v2/hook.go])

    A check names its hooks in lists, a list for a type of result; in JSON a
    list is an object of one member. *)

From S2P Require Import Prelude GoStd GoFloat Json JsonIter GoTime TimeWindow Sensu.
Import Jsoniter.

Record HookConfig := MkHookConfig {
  hc_Meta : ObjectMeta; hc_Command : bytes; hc_Timeout : Z; hc_Stdin : bool
}.
Record Hook := MkHook {
  hk_Config : HookConfig; hk_Duration : float64; hk_Executed : Z; hk_Issued : Z;
  hk_Output : bytes; hk_Status : Z
}.
(** A nil slice is [None]. *)
Record HookList := MkHookList { hl_Hooks : option (list bytes); hl_Type : bytes }.

(* ------------------------------------------------------------------ *)
(** ** Validation *)

(** [CheckHookRegex]: a number from 0 to 255. *)
Definition CheckHookRegex (s : bytes) : bool :=
  match s with
  | [a] => is_digit a
  | [a; b] => negb (a =c "0") && is_digit a && is_digit b
  | [a; b; c] =>
      ((a =c "1") && is_digit b && is_digit c)
      || ((a =c "2") && is_digit b && (digit_value b <=? 4)%Z && is_digit c)
      || ((a =c "2") && (b =c "5") && is_digit c && (digit_value c <=? 5)%Z)
  | _ => false
  end.

Definition Severities : list bytes :=
  map bs ["ok"; "warning"; "critical"; "unknown"; "non-zero"]%string.
Definition isSeverity (name : bytes) : bool := existsb (λ sev, bytes_equal sev name) Severities.

(** [HookConfig.Validate]; the timeout is an [uint32]. *)
Definition Validate_hook_config (c : HookConfig) : option error :=
  prefix_error "hook name " (ValidateName (om_Name (hc_Meta c)))
  ||| fail_if (is_empty (hc_Command c)) "command cannot be empty"
  ||| fail_if (hc_Timeout c <=? 0)%Z "hook timeout must be greater than 0"
  ||| fail_if (is_empty (Namespace (hc_Meta c))) "namespace must be set".

Definition Validate_hook (h : Hook) : option error :=
  Validate_hook_config (hk_Config h)
  ||| fail_if (hk_Status h <? 0)%Z "hook status must be greater than or equal to 0".

(** The message, whose quotes a string literal here cannot hold. *)
Definition hook_types_text : bytes :=
  js ("valid check hook types are '0'-'255', 'ok', 'warning', 'critical', 'unknown', and 'non-zero'").

Definition Validate_hook_list (h : HookList) : option error :=
  fail_if (is_empty (hl_Type h)) "type cannot be empty"
  ||| fail_if (match hl_Hooks h with None | Some [] => true | _ => false end) "hooks cannot be empty"
  ||| (if negb (CheckHookRegex (hl_Type h) || isSeverity (hl_Type h))
       then Some (Errorf "%s" [hook_types_text]) else None).

(* ------------------------------------------------------------------ *)
(** ** JSON *)

(** [HookList.MarshalJSON]: a map of one entry. *)
Definition MarshalJSON (h : HookList) : bytes := map_Encode [] [(hl_Type h, hl_Hooks h)].

(** [for k, v := range result]: the entries of a map, in an order that the
    language leaves open. *)
Definition map_order (range : string_map → list (bytes * option (list bytes))) : Prop :=
  ∀ m, range m ≡ₚ map_to_list m.

Definition set_members (h : HookList) (l : list (bytes * option (list bytes))) : HookList :=
  fold_left (λ _ kv, MkHookList kv.2 kv.1) l h.

(** [HookList.UnmarshalJSON]. *)
Definition UnmarshalJSON (range : string_map → list (bytes * option (list bytes))) (h : HookList) (b : bytes)
  : outcome HookList :=
  result ← Jsoniter.Unmarshal b; Ret (set_members h (range result)).

(** The method as [encoding/json] calls it, on a list whose value nothing
    here reads: it accepts or not, which the order of the entries does not
    change. *)
Definition decode_hook_list (b : bytes) : outcome () :=
  _ ← UnmarshalJSON map_to_list (MkHookList None []) b; Ret ().

Example marshal_hooks :
  MarshalJSON (MkHookList (Some [bs "a<"; bs "b"]) (bs "non-zero")) =
  js "{'non-zero':['a\u003c','b']}".
Proof. by vm_compute. Qed.

Example unmarshal_hooks :
  map (λ s, UnmarshalJSON map_to_list (MkHookList None [])
              (js s))
    [" { 'o\u006b' : ['x', null ,'\ud83d\ude00'] } "; "null"; "{}"; "{'1':null}"]%string =
  [Ret (MkHookList (Some [bs "x"; []; map ascii_of_nat [240; 159; 152; 128]]) (bs "ok"));
   Ret (MkHookList None []); Ret (MkHookList None []); Ret (MkHookList None (bs "1"))].
Proof. by vm_compute. Qed.

(** An object whose member is a number is refused; the error is of the
    decoder of slices. *)
Example unmarshal_bad :
  UnmarshalJSON map_to_list (MkHookList None []) (js "{'a':1}") =
  Fail (Wrapf "%v: %s" [bs "[]string"]
          (Errorf "%s: %s, error found in #%v byte of ...|%s|..., bigger context ...|%s|..."
             [bs "decode slice"; bs "expect [ or n, but found 1"; bs "6";
              js "{'a':1}";
              js "{'a':1}"])).
Proof. by vm_compute. Qed.
