(* ===== verification/HookFacts.v ===== *)
(** * Hooks: what is written is read back

    The strings that [WriteStringWithHTMLEscaped] writes are JSON literals,
    read as the strings in UTF-8 they are written for. *)

From S2P Require Import Prelude GoStd GoStdFacts GoUtf8 Json JsonFacts JsonDecode.
From S2P Require Import JsonIter JsonIterFacts GoTime TimeWindow Sensu Hook.
Import Jsoniter.

(* ------------------------------------------------------------------ *)
(** ** Characters *)

(** What is written of a character. *)
Definition html_piece (r : Z) : bytes :=
  if (r <? 128)%Z then if htmlSafe (chr r) then [chr r] else escaped_byte (chr r)
  else if (r =? 8232)%Z || (r =? 8233)%Z then backslash :: bs "u202" ++ [hex (Z.land r 15)]
  else EncodeRune r.
Definition html_lit (rs : list Z) : bytes := concat (map html_piece rs).

(** A text that can stand in a literal, before another. *)
Definition piece_of (l v : bytes) : Prop :=
  ∀ l' v', string_lit l' → lit_reads l' v' → string_lit (l ++ l') ∧ lit_reads (l ++ l') (v ++ v').

Lemma piece_plain l : Forall (λ c, is_control c = false ∧ c ≠ dquote ∧ c ≠ backslash) l → piece_of l l.
Proof.
  induction 1 as [|c l (Hc & Hq & Hb) _ IH]; intros l' v' Hs Hr; [done|].
  destruct (IH l' v' Hs Hr). split; by constructor.
Qed.

Lemma piece_escape e r : simple_escape e = Some r → piece_of [backslash; e] [chr r].
Proof.
  intros He l' v' Hs Hr. split; [|by constructor]. constructor; [|done].
  revert He. by destruct e as [[] [] [] [] [] [] [] []].
Qed.

Lemma piece_unicode hs r : hex4 hs r → is_surrogate r = false →
  piece_of (backslash :: "u"%char :: hs) (EncodeRune r).
Proof.
  intros Hh Hr l' v' Hs Hl. cbn [app]. split; [|by eapply reads_unicode].
  destruct Hh as (h1 & h2 & h3 & h4 & -> & H & _). by constructor.
Qed.

Lemma escaped_byte_cases c : (code c < 128)%Z → htmlSafe c = false →
  (∃ e, escaped_byte c = [backslash; e] ∧ simple_escape e = Some (code c)) ∨
  (∃ hs, escaped_byte c = backslash :: "u"%char :: hs ∧ hex4 hs (code c)).
Proof.
  assert (∀ a b z, forallb is_hex [a; b] = true → z = (hex_value a * 16 + hex_value b)%Z →
    hex4 ["0"%char; "0"%char; a; b] z) as Hx.
  { intros a b z H ->. eexists _, _, _, _. split; [reflexivity|]. split; [exact H|]. reflexivity. }
  destruct c as [[] [] [] [] [] [] [] []]; intros Hc Hs; try discriminate Hc; try discriminate Hs;
    first [ left; eexists; split; reflexivity
          | right; eexists; split; [reflexivity|apply Hx; reflexivity] ].
Qed.

Lemma html_piece_of r : valid_rune r = true → piece_of (html_piece r) (EncodeRune r).
Proof.
  intros Hv. apply valid_rune_spec in Hv as Hr. unfold MaxRune in Hr. unfold html_piece.
  destruct (Z.ltb_spec r 128) as [Ha|Ha].
  - rewrite EncodeRune_ascii by lia. assert (code (chr r) = r) as Ec by (apply code_chr; lia).
    destruct (htmlSafe (chr r)) eqn:Es.
    + apply piece_plain. repeat constructor; revert Es; generalize (chr r); clear;
        intros c; by destruct c as [[] [] [] [] [] [] [] []].
    + destruct (escaped_byte_cases (chr r)) as [(e & -> & He)|(hs & -> & Hh)]; [lia|done| |]; rewrite Ec in *.
      * by apply piece_escape.
      * rewrite <- EncodeRune_ascii by lia. apply piece_unicode; [done|]. unfold is_surrogate. lia.
  - destruct (Z.eqb_spec r 8232) as [->|]; [|destruct (Z.eqb_spec r 8233) as [->|]]; cbn [orb].
    1,2: apply piece_unicode; [|done]; eexists _, _, _, _; (split; [reflexivity|]); split; reflexivity.
    apply piece_plain. eapply Forall_impl; [by apply EncodeRune_high|]. cbn beta. intros c Hc.
    revert Hc. clear. destruct c as [[] [] [] [] [] [] [] []]; intros Hc;
      try (exfalso; apply Hc; reflexivity); by repeat split.
Qed.

Lemma html_lit_reads rs : Forall (λ r, valid_rune r = true) rs →
  string_lit (html_lit rs) ∧ lit_reads (html_lit rs) (EncodeRunes rs).
Proof.
  induction 1 as [|r rs Hr _ [IH1 IH2]]; [split; constructor|]. by apply html_piece_of.
Qed.

(* ------------------------------------------------------------------ *)
(** ** Strings *)

(** The bytes that wait are written before an escape. *)
Lemma flush_bytes {A} (out pre l : list A) start : start ≤ length pre →
  (if (start <? length pre)%nat then out ++ take (length pre - start) (drop start (pre ++ l)) else out) =
  out ++ drop start pre.
Proof.
  intros Hs. destruct (Nat.ltb_spec start (length pre)).
  - rewrite drop_app_le by lia. rewrite <- length_drop. by rewrite take_app_length.
  - by rewrite drop_ge, app_nil_r by lia.
Qed.

Definition slow_text (rs : list Z) : Prop := ∀ fuel pre start out,
  length (EncodeRunes rs) < fuel → start ≤ length pre →
  html_slow_loop fuel (pre ++ EncodeRunes rs) start (length pre) out =
  out ++ drop start pre ++ html_lit rs ++ [dquote].

(** The rest of the text, with the piece waiting or written. *)
Lemma slow_text_wait rs piece f pre start out : slow_text rs → length (EncodeRunes rs) < f → start ≤ length pre →
  html_slow_loop f (pre ++ piece ++ EncodeRunes rs) start (length pre + length piece) out =
  out ++ drop start pre ++ (piece ++ html_lit rs) ++ [dquote].
Proof.
  intros IH Hf Hs. rewrite app_assoc, <- length_app. rewrite IH; [|done|rewrite length_app; lia].
  rewrite drop_app_le by lia. by rewrite <- !app_assoc.
Qed.

Lemma slow_text_written rs piece text f pre out : slow_text rs → length (EncodeRunes rs) < f →
  html_slow_loop f (pre ++ piece ++ EncodeRunes rs) (length pre + length piece) (length pre + length piece)
    (out ++ text) = out ++ (text ++ html_lit rs) ++ [dquote].
Proof.
  intros IH Hf. rewrite app_assoc, <- length_app. rewrite IH by done. rewrite drop_ge by lia.
  by rewrite <- !app_assoc.
Qed.

Lemma length_EncodeRune_error r : valid_rune r = true → (128 <= r)%Z →
  (r =? RuneError)%Z && (length (EncodeRune r) =? 1)%nat = false.
Proof. intros _ _. by destruct (Z.eqb_spec r RuneError) as [->|]. Qed.

Lemma slow_text_step r rs : valid_rune r = true → slow_text rs → slow_text (r :: rs).
Proof.
  intros Hr IH fuel pre start out Hf Hs. destruct fuel as [|f]; [lia|].
  cbn [html_slow_loop]. rewrite EncodeRunes_cons in *. rewrite drop_app_length. unfold slice.
  rewrite (flush_bytes out pre _ start Hs). rewrite length_app in Hf.
  assert (0 < length (EncodeRune r)) as Hl by (pose proof (EncodeRune_nonempty r); destruct (EncodeRune r); cbn; [done|lia]).
  change (html_lit (r :: rs)) with (html_piece r ++ html_lit rs). unfold html_piece.
  apply valid_rune_spec in Hr as Hr'. unfold MaxRune in Hr'.
  destruct (Z.ltb_spec r 128) as [Ha|Ha].
  - rewrite EncodeRune_ascii by lia. cbn [app]. rewrite code_chr by lia.
    rewrite (proj2 (Z.ltb_lt r 128)) by done.
    change (chr r :: EncodeRunes rs) with ([chr r] ++ EncodeRunes rs).
    replace (S (length pre)) with (length pre + length [chr r]) by (cbn; lia).
    destruct (htmlSafe (chr r)).
    + apply slow_text_wait; [done|lia|done].
    + rewrite slow_text_written by (done || lia). by rewrite <- !app_assoc.
  - pose proof (EncodeRune_high r Hr Ha) as Hh. pose proof (DecodeRune_EncodeRune r (EncodeRunes rs) Hr) as Hd.
    destruct (EncodeRune r) as [|c t] eqn:Ee; [by apply EncodeRune_nonempty in Ee|].
    apply Forall_cons in Hh as [Hc _]. cbn [app] in *. rewrite (proj2 (Z.ltb_ge (code c) 128)) by done.
    rewrite Hd, <- Ee, length_EncodeRune_error by done. rewrite Ee.
    change (c :: t ++ EncodeRunes rs) with ((c :: t) ++ EncodeRunes rs).
    destruct (_ || _).
    + rewrite slow_text_written by (done || lia).
      by rewrite <- !app_assoc.
    + apply slow_text_wait; [done|lia|done].
Qed.

Lemma html_slow_loop_text rs : Forall (λ r, valid_rune r = true) rs → slow_text rs.
Proof.
  induction 1 as [|r rs Hr _ IH]; [|by apply slow_text_step].
  intros [|f] pre start out Hf Hs; [lia|]. cbn [html_slow_loop]. change (EncodeRunes []) with (@nil ascii).
  rewrite app_nil_r, drop_all. unfold html_lit. cbn [map concat app].
  destruct (Nat.ltb_spec start (length pre)); [by rewrite <- app_assoc|]. by rewrite drop_ge by lia.
Qed.

(** The fast path stops before the first character that is not safe. *)
Lemma html_fast_split rs : Forall (λ r, valid_rune r = true) rs →
  ∃ pre rs', EncodeRunes rs = pre ++ EncodeRunes rs' ∧ html_fast (EncodeRunes rs) = length pre ∧
    html_lit rs = pre ++ html_lit rs' ∧ Forall (λ r, valid_rune r = true) rs'.
Proof.
  induction 1 as [|r rs Hr Hrs (pre & rs' & E & Ef & El & Hrs')]; [by exists [], []|].
  destruct (decide ((r < 128)%Z ∧ htmlSafe (chr r) = true)) as [[Ha Hs]|Hn].
  - apply valid_rune_spec in Hr as Hr'. exists (chr r :: pre), rs'. rewrite EncodeRunes_cons, EncodeRune_ascii by lia.
    cbn [app html_fast length]. rewrite code_chr by lia. rewrite (proj2 (Z.ltb_lt r 128)) by done. rewrite Hs.
    cbn [andb]. rewrite Ef, <- E. repeat split; [|done]. change (html_lit (r :: rs)) with (html_piece r ++ html_lit rs).
    unfold html_piece. rewrite (proj2 (Z.ltb_lt r 128)) by done. by rewrite Hs, El.
  - exists [], (r :: rs). repeat split; [|by constructor]. cbn [length]. rewrite EncodeRunes_cons.
    apply valid_rune_spec in Hr as Hr'. unfold MaxRune in Hr'. destruct (Z.ltb_spec r 128) as [Ha|Ha].
    + rewrite EncodeRune_ascii by lia. cbn [app html_fast]. destruct (htmlSafe (chr r)); [|by rewrite andb_false_r].
      by destruct Hn.
    + pose proof (EncodeRune_high r Hr Ha) as Hh. destruct (EncodeRune r) as [|c t] eqn:Ee; [by apply EncodeRune_nonempty in Ee|].
      apply Forall_cons in Hh as [Hc _]. cbn [app html_fast]. by rewrite (proj2 (Z.ltb_ge (code c) 128)) by done.
Qed.

(** What is written of a text in UTF-8. *)
Lemma WriteString_text out rs : Forall (λ r, valid_rune r = true) rs →
  WriteStringWithHTMLEscaped out (EncodeRunes rs) = out ++ dquote :: html_lit rs ++ [dquote].
Proof.
  intros Hrs. destruct (html_fast_split rs Hrs) as (pre & rs' & E & Ef & El & Hrs').
  unfold WriteStringWithHTMLEscaped. rewrite Ef, E, take_app_length, El, length_app.
  destruct (Nat.eqb_spec (length pre) (length pre + length (EncodeRunes rs'))) as [Hz|Hz].
  - destruct rs' as [|r rs']; [by rewrite <- !app_assoc|]. rewrite EncodeRunes_cons, length_app in Hz.
    pose proof (EncodeRune_nonempty r). destruct (EncodeRune r); [done|]. cbn in Hz. lia.
  - rewrite (html_slow_loop_text rs' Hrs') by lia. rewrite drop_all. by rewrite <- !app_assoc.
Qed.

(** A string in UTF-8 is written as a literal that is read as the string. *)
Lemma WriteString_utf8 s : utf8 s → ∃ l, string_lit l ∧ lit_reads l s ∧
  ∀ out, WriteStringWithHTMLEscaped out s = out ++ dquote :: l ++ [dquote].
Proof.
  intros (rs & Hrs & ->). exists (html_lit rs). destruct (html_lit_reads rs Hrs).
  repeat split; [done|done|]. intros out. by apply WriteString_text.
Qed.

(* ------------------------------------------------------------------ *)
(** ** Lists *)

Definition opt_utf8 (v : option (list bytes)) : Prop := match v with Some l => Forall utf8 l | None => True end.

Lemma slice_encode_loop_text l : Forall utf8 l → ∀ s lit, string_lit lit → lit_reads lit s →
  ∃ w js, json_elems (dquote :: lit ++ dquote :: w) js ∧ Forall2 elem_reads js (s :: l) ∧
    ∀ out, slice_encode_loop out l = out ++ w.
Proof.
  induction 1 as [|s2 l Hs2 _ IH]; intros s lit Hlit Hr.
  - exists [], [JString lit]. repeat split.
    + pose proof (elems_one [] (dquote :: lit ++ [dquote]) [] (JString lit)) as H. cbn in H.
      rewrite app_nil_r in H. apply H; [constructor|by constructor|constructor].
    + by repeat constructor.
    + intros out. by rewrite app_nil_r.
  - destruct (WriteString_utf8 s2 Hs2) as (lit2 & Hlit2 & Hr2 & Hw). destruct (IH s2 lit2 Hlit2 Hr2) as (w & js & He & Hj & Ho).
    exists (","%char :: dquote :: lit2 ++ dquote :: w), (JString lit :: js). repeat split.
    + pose proof (elems_more [] (dquote :: lit ++ [dquote]) [] (JString lit) (dquote :: lit2 ++ dquote :: w) js) as H. cbn in H.
      rewrite <- app_assoc in H. apply H; [constructor|by constructor|constructor|exact He].
    + by constructor.
    + intros out. cbn [slice_encode_loop]. rewrite Hw, Ho. app_eq.
Qed.

Lemma slice_Encode_text v : opt_utf8 v → ∃ t j, json_value t j ∧ slice_reads j v ∧
  ∀ out, slice_Encode out v = out ++ t.
Proof.
  destruct v as [[|s l]|]; intros Hv.
  - exists (bs "[]"), (JArray (bs "[]") []). repeat split; [by apply (v_empty_array []); constructor|by exists []].
  - apply Forall_cons in Hv as [Hs Hl]. destruct (WriteString_utf8 s Hs) as (lit & Hlit & Hr & Hw).
    destruct (slice_encode_loop_text l Hl s lit Hlit Hr) as (w & js & He & Hj & Ho).
    eexists _, (JArray _ js). repeat split; [by apply v_array|by eexists|].
    intros out. cbn [slice_Encode]. rewrite Hw, Ho. app_eq.
  - exists (bs "null"), JNull. repeat split. constructor.
Qed.

(** The text of a list of hooks is an object of one member. *)
Lemma MarshalJSON_text h : utf8 (hl_Type h) → opt_utf8 (hl_Hooks h) → ∃ j,
  json_value (MarshalJSON h) j ∧ map_reads j {[hl_Type h := hl_Hooks h]}.
Proof.
  intros Ht Hh. destruct (WriteString_utf8 _ Ht) as (k & Hk & Hr & Hw).
  destruct (slice_Encode_text _ Hh) as (t & j & Hv & Hj & Ho).
  assert (MarshalJSON h = "{"%char :: ((dquote :: k ++ dquote :: ":"%char :: t) ++ bs "}")) as ->.
  { unfold MarshalJSON, map_Encode. cbn [map_encode_loop Nat.eqb]. rewrite Hw, Ho. app_eq. }
  eexists. split.
  - apply v_object. pose proof (members_one [] k [] [] t [] j) as H. cbn in H. rewrite app_nil_r in H.
    apply H; done || constructor.
  - exists [(hl_Type h, hl_Hooks h)]. split; [by repeat constructor|done].
Qed.

(** What is written is read back, whatever the receiver held. *)
Lemma hook_list_roundtrip range h h0 : map_order range → utf8 (hl_Type h) → opt_utf8 (hl_Hooks h) →
  UnmarshalJSON range h0 (MarshalJSON h) = Ret h.
Proof.
  intros Hrange Ht Hh. destruct (MarshalJSON_text h Ht Hh) as (j & Hv & Hj).
  unfold UnmarshalJSON. rewrite (Unmarshal_reads _ j {[hl_Type h := hl_Hooks h]}); [|exists [], (MarshalJSON h), []|done].
  2:{ rewrite app_nil_r. repeat split; [constructor|done|constructor]. }
  cbn [mbind outcome_bind]. pose proof (Hrange {[hl_Type h := hl_Hooks h]}) as H.
  rewrite map_to_list_singleton in H. apply Permutation_singleton_r in H as ->. by destruct h.
Qed.
