(* ===== verification/EventJson.v ===== *)
(** * Decoding an event: the struct types of [api/core/v2] and their tags

    The types have every field [encoding/json] decodes; the records of
    [Sensu] keep those that the operations modelled read or write. The type
    [HookList] has a method [UnmarshalJSON], which decides whether its
    values are accepted. *)

From S2P Require Import Prelude GoStd GoFloat Json JsonDecode GoTime TimeWindow Sensu Hook.

(** A field of a struct: its key and its type. *)
Definition tag (name : String.string) (t : gtype) : bytes * gtype := (bs name, t).
Abbreviation strings := (TSlice TString).

(* ------------------------------------------------------------------ *)
(** ** Types *)

Definition ObjectMeta_type : gtype := TStruct
  [tag "name" TString; tag "namespace" TString; tag "labels" TStringMap; tag "annotations" TStringMap].

Definition NetworkInterface_type : gtype := TStruct
  [tag "name" TString; tag "mac" TString; tag "addresses" strings].
Definition Network_type : gtype := TStruct [tag "interfaces" (TSlice NetworkInterface_type)].
Definition System_type : gtype := TStruct
  [tag "hostname" TString; tag "os" TString; tag "platform" TString; tag "platform_family" TString;
   tag "platform_version" TString; tag "network" Network_type; tag "arch" TString].
Definition Deregistration_type : gtype := TStruct [tag "handler" TString].
Definition Entity_type : gtype := TStruct
  [tag "entity_class" TString; tag "system" System_type; tag "subscriptions" strings;
   tag "last_seen" (TInt W64); tag "deregister" TBool; tag "deregistration" Deregistration_type;
   tag "user" TString; tag "redact" strings; tag "metadata" ObjectMeta_type].

Definition TimeWindowTimeRange_type : gtype := TStruct [tag "begin" TString; tag "end" TString].
Definition windows_type : gtype := TSlice (TPtr TimeWindowTimeRange_type).
Definition TimeWindowDays_type : gtype := TStruct
  [tag "all" windows_type; tag "sunday" windows_type; tag "monday" windows_type;
   tag "tuesday" windows_type; tag "wednesday" windows_type; tag "thursday" windows_type;
   tag "friday" windows_type; tag "saturday" windows_type].
Definition TimeWindowWhen_type : gtype := TStruct [tag "days" TimeWindowDays_type].

Definition ProxyRequests_type : gtype := TStruct
  [tag "entity_attributes" strings; tag "splay" TBool; tag "splay_coverage" (TUint W32)].
Definition CheckHistory_type : gtype := TStruct [tag "status" (TUint W32); tag "executed" (TInt W64)].

(** [HookConfig] is embedded without a name: its fields are [Hook]'s. *)
Definition HookConfig_fields : list (bytes * gtype) :=
  [tag "metadata" ObjectMeta_type; tag "command" TString; tag "timeout" (TUint W32); tag "stdin" TBool].
Definition Hook_type : gtype := TStruct
  (HookConfig_fields ++
   [tag "duration" TFloat64; tag "executed" (TInt W64); tag "issued" (TInt W64); tag "output" TString;
    tag "status" (TInt W32)]).

Definition Check_type : gtype := TStruct
  [tag "command" TString; tag "handlers" strings; tag "high_flap_threshold" (TUint W32);
   tag "interval" (TUint W32); tag "low_flap_threshold" (TUint W32); tag "publish" TBool;
   tag "runtime_assets" strings; tag "subscriptions" strings; tag "proxy_entity_name" TString;
   tag "check_hooks" (TSlice TUnmarshaler); tag "stdin" TBool; tag "subdue" (TPtr TimeWindowWhen_type);
   tag "cron" TString; tag "ttl" (TInt W64); tag "timeout" (TUint W32);
   tag "proxy_requests" (TPtr ProxyRequests_type); tag "round_robin" TBool; tag "duration" TFloat64;
   tag "executed" (TInt W64); tag "history" (TSlice CheckHistory_type); tag "issued" (TInt W64);
   tag "output" TString; tag "state" TString; tag "status" (TUint W32);
   tag "total_state_change" (TUint W32); tag "last_ok" (TInt W64); tag "occurrences" (TInt W64);
   tag "occurrences_watermark" (TInt W64); tag "silenced" strings; tag "hooks" (TSlice (TPtr Hook_type));
   tag "output_metric_format" TString; tag "output_metric_handlers" strings; tag "env_vars" strings;
   tag "metadata" ObjectMeta_type; tag "max_output_size" (TInt W64); tag "discard_output" TBool].

Definition MetricTag_type : gtype := TStruct [tag "name" TString; tag "value" TString].
Definition MetricPoint_type : gtype := TStruct
  [tag "name" TString; tag "value" TFloat64; tag "timestamp" (TInt W64);
   tag "tags" (TSlice (TPtr MetricTag_type))].
Definition Metrics_type : gtype := TStruct
  [tag "handlers" strings; tag "points" (TSlice (TPtr MetricPoint_type))].

Definition Event_type : gtype := TStruct
  [tag "timestamp" (TInt W64); tag "entity" (TPtr Entity_type); tag "check" (TPtr Check_type);
   tag "metrics" (TPtr Metrics_type); tag "metadata" ObjectMeta_type].

(* ------------------------------------------------------------------ *)
(** ** Values *)

Definition meta_of (v : gval) : ObjectMeta :=
  let get := field ObjectMeta_type v in
  MkMeta (to_string (get "name")) (to_string (get "namespace"))
    (to_map (get "labels")) (to_map (get "annotations")).

Definition entity_of (v : gval) : Entity :=
  let get := field Entity_type v in
  MkEntity (meta_of (get "metadata")) (to_string (get "entity_class"))
    (to_list to_string (get "subscriptions")) (to_int (get "last_seen")) (to_bool (get "deregister"))
    (to_list to_string (get "redact")).

Definition range_of (v : gval) : TimeWindowTimeRange :=
  let get := field TimeWindowTimeRange_type v in
  MkRange (to_string (get "begin")) (to_string (get "end")).
Definition days_of (v : gval) : TimeWindowDays :=
  let get name := to_list (to_ptr range_of) (field TimeWindowDays_type v name) in
  MkDays (get "all") (get "sunday") (get "monday") (get "tuesday") (get "wednesday")
    (get "thursday") (get "friday") (get "saturday").
Definition when_of (v : gval) : TimeWindowWhen := MkWhen (days_of (field TimeWindowWhen_type v "days")).

Definition proxy_of (v : gval) : ProxyRequests :=
  let get := field ProxyRequests_type v in
  MkProxyRequests (to_list to_string (get "entity_attributes")) (to_bool (get "splay"))
    (to_int (get "splay_coverage")).
Definition history_of (v : gval) : CheckHistory :=
  let get := field CheckHistory_type v in
  MkHistory (to_int (get "status")) (to_int (get "executed")).

Definition check_of (v : gval) : Check_ :=
  let get := field Check_type v in
  let int name := to_int (get name) in
  let texts name := to_list to_string (get name) in
  MkCheck (meta_of (get "metadata")) (int "interval") (to_string (get "cron")) (int "ttl") (int "timeout")
    (texts "subscriptions") (texts "handlers") (texts "runtime_assets")
    (to_string (get "proxy_entity_name")) (to_ptr proxy_of (get "proxy_requests"))
    (to_ptr when_of (get "subdue")) (to_string (get "output_metric_format")) (texts "env_vars")
    (int "max_output_size") (int "low_flap_threshold") (int "high_flap_threshold")
    (int "status") (to_string (get "state")) (int "executed") (to_list history_of (get "history"))
    (int "total_state_change") (int "last_ok") (int "occurrences") (int "occurrences_watermark")
    (texts "silenced") (to_string (get "output")) (to_bool (get "round_robin")).

Definition metric_tag_of (v : gval) : MetricTag :=
  let get := field MetricTag_type v in MkMetricTag (to_string (get "name")) (to_string (get "value")).
Definition metric_point_of (v : gval) : MetricPoint :=
  let get := field MetricPoint_type v in
  MkMetricPoint (to_string (get "name")) (to_float (get "value")) (to_int (get "timestamp"))
    (to_list (to_ptr metric_tag_of) (get "tags")).
Definition metrics_of (v : gval) : Metrics :=
  let get := field Metrics_type v in
  MkMetrics (to_list to_string (get "handlers")) (to_list (to_ptr metric_point_of) (get "points")).

Definition event_of (v : gval) : Event :=
  let get := field Event_type v in
  MkEvent (meta_of (get "metadata")) (to_int (get "timestamp")) (to_ptr entity_of (get "entity"))
    (to_ptr check_of (get "check")) (to_ptr metrics_of (get "metrics")).

(** [json.Unmarshal(eventJSON, event)] in [run]. *)
Definition Unmarshal_event (text : bytes) : outcome Event :=
  v ← Unmarshal decode_hook_list Event_type text; Ret (event_of v).

(** The event of the program's test. *)
Example unmarshal_event :
  Unmarshal_event (js
    "{'timestamp':1,'Entity':{'entity_class':'proxy','metadata':{'name':'e','namespace':'default'}},
      'check':{'interval':60,'history':[{'status':1}],'check_hooks':[{'ok':[]}],'hooks':[{'status':-1}]},
      'metrics':{'points':[{'name':'answer','value':42.5,'timestamp':1552506033,
                            'tags':[{'name':'foo','value':'b\u0061r'},null]},null]}}") =
  Ret (MkEvent (MkMeta [] [] None None) 1
         (Some (MkEntity (MkMeta (bs "e") (bs "default") None None) (bs "proxy") [] 0 false []))
         (Some (MkCheck (MkMeta [] [] None None) 60 [] 0 0 [] [] [] [] None None [] [] 0 0 0 0 [] 0
                  [MkHistory 1 0] 0 0 0 0 [] [] false))
         (Some (MkMetrics [] [Some (MkMetricPoint (bs "answer") (float_of_decimal false 425 (-1)) 1552506033
                                      [Some (MkMetricTag (bs "foo") (bs "bar")); None]); None]))).
Proof. by vm_compute. Qed.
