(* ===== verification/EventJsonFacts.v ===== *)
(** * The events that JSON can say

    [event_wf] bounds what [json.Unmarshal] can make of a text: integers of
    their width, finite numbers, strings in UTF-8. Every such event has a
    text, so that the bounds are exact. *)

From S2P Require Import Prelude GoStd GoStdFacts GoFloat GoFloatFacts GoUtf8.
From S2P Require Import Json JsonFacts JsonDecode JsonDecodeFacts JsonIter JsonIterFacts.
From S2P Require Import GoTime TimeWindow Sensu Hook EventJson.

(* ------------------------------------------------------------------ *)
(** ** Well-formed events *)

Definition in_u32 (z : Z) : Prop := (0 <= z < 2 ^ 32)%Z.
Definition texts_wf (l : list bytes) : Prop := Forall utf8 l.
Definition map_wf (m : option (gmap bytes bytes)) : Prop :=
  match m with Some m => map_Forall (λ k v, utf8 k ∧ utf8 v) m | None => True end.
(** A pointer is nil or points to a value of the property. *)
Definition opt {A} (P : A → Prop) (o : option A) : Prop := match o with Some a => P a | None => True end.

Definition meta_wf (m : ObjectMeta) : Prop :=
  utf8 (om_Name m) ∧ utf8 (Namespace m) ∧ map_wf (Labels m) ∧ map_wf (Annotations m).
Definition tag_wf (t : MetricTag) : Prop := utf8 (mt_Name t) ∧ utf8 (mt_Value t).
Definition point_wf (p : MetricPoint) : Prop :=
  utf8 (mp_Name p) ∧ finite64 (mp_Value p) = true ∧ in_i64 (mp_Timestamp p) ∧ Forall (opt tag_wf) (mp_Tags p).
Definition metrics_wf (m : Metrics) : Prop := texts_wf (m_Handlers m) ∧ Forall (opt point_wf) (Points m).
Definition entity_wf (e : Entity) : Prop :=
  meta_wf (e_Meta e) ∧ utf8 (EntityClass e) ∧ texts_wf (e_Subscriptions e) ∧ in_i64 (LastSeen e) ∧
  texts_wf (Redact e).
Definition range_wf (r : TimeWindowTimeRange) : Prop := utf8 (Begin r) ∧ utf8 (End_ r).
Definition windows_wf : list (option TimeWindowTimeRange) → Prop := Forall (opt range_wf).
Definition days_wf (d : TimeWindowDays) : Prop := Forall windows_wf (MapTimeWindows d).
Definition proxy_wf (p : ProxyRequests) : Prop := texts_wf (EntityAttributes p) ∧ in_u32 (SplayCoverage p).
Definition history_wf (h : CheckHistory) : Prop := in_u32 (h_Status h) ∧ in_i64 (h_Executed h).
Definition check_wf (c : Check_) : Prop :=
  meta_wf (c_Meta c) ∧ Forall utf8 [Cron c; c_ProxyEntityName c; OutputMetricFormat c; State c; Output c] ∧
  Forall texts_wf [c_Subscriptions c; c_Handlers c; RuntimeAssets c; EnvVars c; Silenced_by c] ∧
  Forall in_u32 [Interval c; Timeout c; LowFlapThreshold c; HighFlapThreshold c; Status c; TotalStateChange c] ∧
  Forall in_i64 [Ttl c; MaxOutputSize c; Executed c; LastOK c; Occurrences c; OccurrencesWatermark c] ∧
  opt proxy_wf (c_ProxyRequests c) ∧ opt (λ w, days_wf (Days w)) (Subdue c) ∧ Forall history_wf (History c).
Definition event_wf (e : Event) : Prop :=
  meta_wf (ev_Meta e) ∧ in_i64 (ev_Timestamp e) ∧ opt entity_wf (ev_Entity e) ∧ opt check_wf (ev_Check e) ∧
  opt metrics_wf (ev_Metrics e).

(* ------------------------------------------------------------------ *)
(** ** Reading typed values *)

(** The type of a field. *)
Definition field_type (t : gtype) (name : String.string) : option gtype :=
  match t with
  | TStruct fields => i ← find_index (λ f, bytes_equal f.1 (bs name)) fields; snd <$> fields !! i
  | _ => None
  end.

Lemma field_typed t v name ft : field_type t name = Some ft → has_type t v → has_type ft (field t v name).
Proof.
  destruct 2 as [| | | | | | | | | |fields vs Hvs|]; try done. cbn [field_type field] in *.
  destruct (find_index _ fields) as [i|]; [|done]. cbn [mbind option_bind] in *.
  destruct (fields !! i) as [f|] eqn:Ef; [|done]. injection H as <-.
  destruct (Forall2_lookup_l _ _ _ _ _ Hvs Ef) as (v & -> & Hv). done.
Qed.

Lemma to_string_typed v : has_type TString v → utf8 (to_string v).
Proof. by inversion 1. Qed.
Lemma to_float_typed v : has_type TFloat64 v → finite64 (to_float v) = true.
Proof. by inversion 1. Qed.
Lemma to_i64_typed v : has_type (TInt W64) v → in_i64 (to_int v).
Proof. inversion 1; subst. unfold in_int, bits in *. cbn [to_int]. unfold in_i64, two63. lia. Qed.
Lemma to_u32_typed v : has_type (TUint W32) v → in_u32 (to_int v).
Proof. inversion 1; subst. unfold in_uint, bits in *. cbn [to_int]. unfold in_u32. lia. Qed.
Lemma to_map_typed v : has_type TStringMap v → map_wf (to_map v).
Proof. by inversion 1. Qed.
Lemma to_list_typed {A} (P : A → Prop) f t v : (∀ w, has_type t w → P (f w)) →
  has_type (TSlice t) v → Forall P (to_list f v).
Proof. inversion 2; subst. cbn [to_list]. apply Forall_map. by eapply Forall_impl. Qed.
Lemma to_ptr_typed {A} (P : A → Prop) f t v : (∀ w, has_type t w → P (f w)) →
  has_type (TPtr t) v → opt P (to_ptr f v).
Proof. inversion 2; subst; cbn; auto. Qed.
Lemma to_texts_typed v : has_type strings v → texts_wf (to_list to_string v).
Proof. apply to_list_typed, to_string_typed. Qed.

(** A field of a struct, by its accessor. *)
Ltac typed_field :=
  first [ apply to_string_typed | apply to_float_typed | apply to_i64_typed | apply to_u32_typed
        | apply to_map_typed | apply to_texts_typed | eapply to_list_typed | eapply to_ptr_typed ];
  try (eapply field_typed; [reflexivity|assumption]).

Lemma meta_typed v : has_type ObjectMeta_type v → meta_wf (meta_of v).
Proof. intros H. unfold meta_wf, meta_of. cbn [om_Name Namespace Labels Annotations]. repeat split; typed_field. Qed.

Lemma tag_typed v : has_type MetricTag_type v → tag_wf (metric_tag_of v).
Proof. intros H. unfold tag_wf, metric_tag_of. cbn [mt_Name mt_Value]. split; typed_field. Qed.

Lemma point_typed v : has_type MetricPoint_type v → point_wf (metric_point_of v).
Proof.
  intros H. unfold point_wf, metric_point_of. cbn [mp_Name mp_Value mp_Timestamp mp_Tags].
  split; [|split; [|split]]; typed_field. intros w. apply to_ptr_typed, tag_typed.
Qed.

Lemma metrics_typed v : has_type Metrics_type v → metrics_wf (metrics_of v).
Proof.
  intros H. unfold metrics_wf, metrics_of. cbn [m_Handlers Points]. split; typed_field.
  intros w. apply to_ptr_typed, point_typed.
Qed.

Lemma entity_typed v : has_type Entity_type v → entity_wf (entity_of v).
Proof.
  intros H. unfold entity_wf, entity_of. cbn [e_Meta EntityClass e_Subscriptions LastSeen Redact].
  split; [apply meta_typed; by eapply field_typed|]. repeat split; typed_field.
Qed.

Lemma days_typed v : has_type TimeWindowDays_type v → days_wf (days_of v).
Proof.
  intros H. assert (∀ name, field_type TimeWindowDays_type name = Some windows_type →
    windows_wf (to_list (to_ptr range_of) (field TimeWindowDays_type v name))) as Hw.
  { intros name Hn. eapply to_list_typed; [|by eapply field_typed]. intros w. apply to_ptr_typed.
    intros r Hr. unfold range_wf, range_of. cbn [Begin End_]. split; typed_field. }
  unfold days_wf, days_of. cbn [MapTimeWindows All Sunday Monday Tuesday Wednesday Thursday Friday Saturday].
  repeat constructor; by apply Hw.
Qed.

Lemma proxy_typed v : has_type ProxyRequests_type v → proxy_wf (proxy_of v).
Proof. intros H. unfold proxy_wf, proxy_of. cbn [EntityAttributes SplayCoverage]. split; typed_field. Qed.

Lemma history_typed v : has_type CheckHistory_type v → history_wf (history_of v).
Proof. intros H. unfold history_wf, history_of. cbn [h_Status h_Executed]. split; typed_field. Qed.

Lemma check_typed v : has_type Check_type v → check_wf (check_of v).
Proof.
  intros H. unfold check_wf, check_of.
  cbn [c_Meta Cron c_ProxyEntityName OutputMetricFormat State c_Subscriptions c_Handlers RuntimeAssets EnvVars
       Silenced_by Interval Timeout LowFlapThreshold HighFlapThreshold Status TotalStateChange Ttl MaxOutputSize
       Executed LastOK Occurrences OccurrencesWatermark c_ProxyRequests Subdue History Output].
  split; [apply meta_typed; by eapply field_typed|].
  split; [repeat constructor; typed_field|]. split; [repeat constructor; typed_field|].
  split; [repeat (apply Forall_cons_2; [typed_field|]); constructor|].
  split; [repeat (apply Forall_cons_2; [typed_field|]); constructor|].
  split; [typed_field; apply proxy_typed|]. split; typed_field; [|apply history_typed].
  intros w Hw. unfold when_of. cbn [Days]. apply days_typed. by eapply field_typed.
Qed.

Lemma event_typed v : has_type Event_type v → event_wf (event_of v).
Proof.
  intros H. unfold event_wf, event_of. cbn [ev_Meta ev_Timestamp ev_Entity ev_Check ev_Metrics].
  split; [apply meta_typed; by eapply field_typed|]. repeat split; typed_field;
    auto using entity_typed, check_typed, metrics_typed.
Qed.

Lemma decode_hook_list_safe text : decode_hook_list text ≠ Panic.
Proof.
  unfold decode_hook_list, UnmarshalJSON. pose proof (JsonIterFacts.Unmarshal_no_panic text) as H.
  by destruct (Jsoniter.Unmarshal text).
Qed.

(** What is decoded is well formed; decoding does not panic. *)
Lemma Unmarshal_event_wf text e : Unmarshal_event text = Ret e → event_wf e.
Proof.
  unfold Unmarshal_event. pose proof (Unmarshal_typed decode_hook_list decode_hook_list_safe Event_type text) as H.
  destruct (Unmarshal _ _ _) as [v|x|]; [|done|done]. intros [= <-]. by apply event_typed.
Qed.

Lemma Unmarshal_event_no_panic text : Unmarshal_event text ≠ Panic.
Proof.
  unfold Unmarshal_event. pose proof (Unmarshal_typed decode_hook_list decode_hook_list_safe Event_type text) as H.
  by destruct (Unmarshal _ _ _) as [v|x|].
Qed.

(* ------------------------------------------------------------------ *)
(** ** The value and the text of an event *)

(** The struct whose named fields have the values given; the others are
    zero. *)
Fixpoint assoc (l : list (String.string * gval)) (name : bytes) : option gval :=
  match l with
  | [] => None
  | (n, v) :: l' => if bytes_equal (bs n) name then Some v else assoc l' name
  end.
Definition build (t : gtype) (l : list (String.string * gval)) : gval :=
  match t with
  | TStruct fields => GStruct (map (λ f, default (zero f.2) (assoc l f.1)) fields)
  | _ => GOpaque
  end.

Definition texts_value (l : list bytes) : gval := GSlice false (map GString l) [].
Definition slice_value {A} (f : A → gval) (l : list A) : gval := GSlice false (map f l) [].
Definition ptr_value {A} (f : A → gval) (o : option A) : gval := GPtr (f <$> o).

Definition meta_value (m : ObjectMeta) : gval := build ObjectMeta_type
  [("name", GString (om_Name m)); ("namespace", GString (Namespace m)); ("labels", GMap (Labels m));
   ("annotations", GMap (Annotations m))]%string.
Definition tag_value (t : MetricTag) : gval := build MetricTag_type
  [("name", GString (mt_Name t)); ("value", GString (mt_Value t))]%string.
Definition point_value (p : MetricPoint) : gval := build MetricPoint_type
  [("name", GString (mp_Name p)); ("value", GFloat (mp_Value p)); ("timestamp", GInt (mp_Timestamp p));
   ("tags", slice_value (ptr_value tag_value) (mp_Tags p))]%string.
Definition metrics_value (m : Metrics) : gval := build Metrics_type
  [("handlers", texts_value (m_Handlers m)); ("points", slice_value (ptr_value point_value) (Points m))]%string.
Definition entity_value (e : Entity) : gval := build Entity_type
  [("metadata", meta_value (e_Meta e)); ("entity_class", GString (EntityClass e));
   ("subscriptions", texts_value (e_Subscriptions e)); ("last_seen", GInt (LastSeen e));
   ("deregister", GBool (Deregister e)); ("redact", texts_value (Redact e))]%string.
Definition range_value (r : TimeWindowTimeRange) : gval := build TimeWindowTimeRange_type
  [("begin", GString (Begin r)); ("end", GString (End_ r))]%string.
Definition windows_value : list (option TimeWindowTimeRange) → gval := slice_value (ptr_value range_value).
Definition days_value (d : TimeWindowDays) : gval := build TimeWindowDays_type
  [("all", windows_value (All d)); ("sunday", windows_value (Sunday d)); ("monday", windows_value (Monday d));
   ("tuesday", windows_value (Tuesday d)); ("wednesday", windows_value (Wednesday d));
   ("thursday", windows_value (Thursday d)); ("friday", windows_value (Friday d));
   ("saturday", windows_value (Saturday d))]%string.
Definition when_value (w : TimeWindowWhen) : gval := build TimeWindowWhen_type
  [("days", days_value (Days w))]%string.
Definition proxy_value (p : ProxyRequests) : gval := build ProxyRequests_type
  [("entity_attributes", texts_value (EntityAttributes p)); ("splay", GBool (Splay p));
   ("splay_coverage", GInt (SplayCoverage p))]%string.
Definition history_value (h : CheckHistory) : gval := build CheckHistory_type
  [("status", GInt (h_Status h)); ("executed", GInt (h_Executed h))]%string.
Definition check_gval (c : Check_) : gval := build Check_type
  [("metadata", meta_value (c_Meta c)); ("interval", GInt (Interval c)); ("cron", GString (Cron c));
   ("ttl", GInt (Ttl c)); ("timeout", GInt (Timeout c)); ("subscriptions", texts_value (c_Subscriptions c));
   ("handlers", texts_value (c_Handlers c)); ("runtime_assets", texts_value (RuntimeAssets c));
   ("proxy_entity_name", GString (c_ProxyEntityName c));
   ("proxy_requests", ptr_value proxy_value (c_ProxyRequests c)); ("subdue", ptr_value when_value (Subdue c));
   ("output_metric_format", GString (OutputMetricFormat c)); ("env_vars", texts_value (EnvVars c));
   ("max_output_size", GInt (MaxOutputSize c)); ("low_flap_threshold", GInt (LowFlapThreshold c));
   ("high_flap_threshold", GInt (HighFlapThreshold c)); ("status", GInt (Status c));
   ("state", GString (State c)); ("executed", GInt (Executed c));
   ("history", slice_value history_value (History c)); ("total_state_change", GInt (TotalStateChange c));
   ("last_ok", GInt (LastOK c)); ("occurrences", GInt (Occurrences c));
   ("occurrences_watermark", GInt (OccurrencesWatermark c)); ("silenced", texts_value (Silenced_by c));
   ("output", GString (Output c)); ("round_robin", GBool (RoundRobin c))]%string.
Definition event_value (e : Event) : gval := build Event_type
  [("metadata", meta_value (ev_Meta e)); ("timestamp", GInt (ev_Timestamp e));
   ("entity", ptr_value entity_value (ev_Entity e)); ("check", ptr_value check_gval (ev_Check e));
   ("metrics", ptr_value metrics_value (ev_Metrics e))]%string.

(** A JSON text of an event. *)
Definition event_text (e : Event) : bytes := raw_text (to_json Event_type (event_value e)).

(* ------------------------------------------------------------------ *)
(** ** Events from their values *)

Lemma texts_of l : to_list to_string (texts_value l) = l.
Proof. unfold texts_value. cbn [to_list]. rewrite map_map. apply map_id. Qed.

Lemma slice_of {A} (f : A → gval) g l : (∀ a, g (f a) = a) → to_list g (slice_value f l) = l.
Proof. intros H. unfold slice_value. cbn [to_list]. rewrite map_map. induction l as [|a l IH]; [done|]. cbn. by rewrite H, IH. Qed.

Lemma ptr_of {A} (f : A → gval) g o : (∀ a, g (f a) = a) → to_ptr g (ptr_value f o) = o.
Proof. intros H. destruct o as [a|]; [|done]. cbn. by rewrite H. Qed.

(** A field that was given. *)
Lemma field_build t l name v : (∃ ft, field_type t name = Some ft) →
  assoc l (bs name) = Some v → field t (build t l) name = v.
Proof.
  intros [ft Ht] Hl. destruct t as [| | | | | | | |fields|]; try done. cbn [field_type field build] in *.
  destruct (find_index _ fields) as [i|] eqn:Ei; [|done]. cbn [mbind option_bind] in *.
  apply find_index_Some in Ei as (f & Ef & En). apply bytes_equal_true in En.
  change (@map (bytes * gtype) gval) with (@fmap list list_fmap (bytes * gtype) gval).
  rewrite list_lookup_fmap, Ef. cbn [fmap option_fmap option_map default]. by rewrite En, Hl.
Qed.

Ltac given := (erewrite field_build; [|by eexists|reflexivity]).

Lemma meta_of_value m : meta_of (meta_value m) = m.
Proof. unfold meta_of, meta_value. repeat given. by destruct m. Qed.
Lemma tag_of_value t : metric_tag_of (tag_value t) = t.
Proof. unfold metric_tag_of, tag_value. repeat given. by destruct t. Qed.
Lemma point_of_value p : metric_point_of (point_value p) = p.
Proof.
  unfold metric_point_of, point_value. repeat given.
  rewrite slice_of by (intros; by apply ptr_of, tag_of_value). by destruct p.
Qed.
Lemma metrics_of_value m : metrics_of (metrics_value m) = m.
Proof.
  unfold metrics_of, metrics_value. repeat given. rewrite texts_of.
  rewrite slice_of by (intros; by apply ptr_of, point_of_value). by destruct m.
Qed.
Lemma entity_of_value e : entity_of (entity_value e) = e.
Proof. unfold entity_of, entity_value. repeat given. rewrite !texts_of, meta_of_value. by destruct e. Qed.
Lemma range_of_value r : range_of (range_value r) = r.
Proof. unfold range_of, range_value. repeat given. by destruct r. Qed.
Lemma when_of_value w : when_of (when_value w) = w.
Proof.
  unfold when_of, when_value. repeat given. destruct w as [d]. cbn [Days]. f_equal.
  unfold days_of, days_value. repeat given. unfold windows_value.
  rewrite !slice_of by (intros; by apply ptr_of, range_of_value). by destruct d.
Qed.
Lemma proxy_of_value p : proxy_of (proxy_value p) = p.
Proof. unfold proxy_of, proxy_value. repeat given. rewrite texts_of. by destruct p. Qed.
Lemma history_of_value h : history_of (history_value h) = h.
Proof. unfold history_of, history_value. repeat given. by destruct h. Qed.
Lemma check_of_value c : check_of (check_gval c) = c.
Proof.
  unfold check_of, check_gval. repeat given. rewrite !texts_of, meta_of_value.
  rewrite slice_of by apply history_of_value. rewrite (ptr_of proxy_value) by apply proxy_of_value.
  rewrite ptr_of by apply when_of_value. by destruct c.
Qed.
Lemma event_of_value e : event_of (event_value e) = e.
Proof.
  unfold event_of, event_value. repeat given. rewrite meta_of_value.
  rewrite (ptr_of entity_value), (ptr_of check_gval), (ptr_of metrics_value)
    by (apply entity_of_value || apply check_of_value || apply metrics_of_value). by destruct e.
Qed.

(* ------------------------------------------------------------------ *)
(** ** The value of a well-formed event is plain *)

(** Types whose zero value is plain. *)
Fixpoint zero_ok (t : gtype) : bool :=
  match t with
  | TUnmarshaler => false
  | TStruct fields => forallb (λ f, zero_ok f.2) fields
  | _ => true
  end.

Lemma zero_plain t : zero_ok t = true → plain t (zero t).
Proof.
  induction t as [| | |[]|[]| | | |fields IH|] using gtype_fields_ind; intros Hz; cbn [zero]; try done; try by constructor.
  - constructor. apply utf8_nil.
  - constructor. cbn [zero_ok] in Hz. induction IH as [|f l Hf _ IHl]; cbn [map]; [constructor|].
    cbn [forallb] in Hz. apply andb_prop in Hz as [H1 H2]. constructor; auto.
Qed.

Lemma assoc_elem l name v : assoc l name = Some v → ∃ n, (n, v) ∈ l ∧ bs n = name.
Proof.
  induction l as [|[n w] l IH]; [done|]. cbn. destruct (bytes_equal _ _) eqn:E.
  - intros [= ->]. exists n. split; [by left|by apply bytes_equal_true].
  - intros (m & Hm & <-)%IH. exists m. split; [by right|done].
Qed.

Lemma build_plain fields l : type_ok (TStruct fields) = true → zero_ok (TStruct fields) = true →
  Forall (λ nv, ∃ ft, field_type (TStruct fields) nv.1 = Some ft ∧ plain ft nv.2) l →
  plain (TStruct fields) (build (TStruct fields) l).
Proof.
  intros Ht Hz Hl. cbn [build]. constructor. apply Forall2_fmap_r, Forall_Forall2_diag, Forall_forall.
  intros f Hf. change (plain f.2 (default (zero f.2) (assoc l f.1))).
  cbn [type_ok] in Ht. rewrite !andb_true_iff, bool_decide_eq_true in Ht. destruct Ht as [[Hnd _] _].
  destruct (assoc l f.1) as [v|] eqn:Ea; cbn [default].
  - apply assoc_elem in Ea as (n & Hin & En). rewrite Forall_forall in Hl.
    destruct (Hl _ Hin) as (ft & Hft & Hp). cbn [fst snd field_type] in *.
    destruct (find_index _ fields) as [i|] eqn:Ei; [|done]. cbn [mbind option_bind] in Hft.
    apply find_index_Some in Ei as (g & Eg & Egn). apply bytes_equal_true in Egn. rewrite Eg in Hft.
    injection Hft as <-. rewrite En in Egn.
    apply list_elem_of_lookup in Hf as [j Ej].
    assert (i = j) as ->; [|rewrite Eg in Ej; by injection Ej as <-].
    eapply NoDup_lookup; [exact Hnd| |]; rewrite list_lookup_fmap; [by rewrite Eg|by rewrite Ej; cbn; rewrite Egn].
  - apply zero_plain. cbn [zero_ok] in Hz. rewrite forallb_forall in Hz. by apply Hz, list_elem_of_In.
Qed.

Lemma texts_plain l : texts_wf l → plain strings (texts_value l).
Proof. intros H. constructor. apply Forall_map. eapply Forall_impl; [exact H|]. intros. by constructor. Qed.
Lemma slice_plain {A} (P : A → Prop) t f l : (∀ a, P a → plain t (f a)) → Forall P l → plain (TSlice t) (slice_value f l).
Proof. intros Hf H. constructor. apply Forall_map. by eapply Forall_impl. Qed.
Lemma ptr_plain {A} (P : A → Prop) fields f o : (∀ a, P a → plain (TStruct fields) (f a)) → opt P o →
  plain (TPtr (TStruct fields)) (ptr_value f o).
Proof. intros Hf. destruct o; [|by constructor]. intros. constructor. auto. Qed.
Lemma map_plain m : map_wf m → plain TStringMap (GMap m).
Proof. destruct m; by constructor. Qed.
Lemma i64_plain z : in_i64 z → plain (TInt W64) (GInt z).
Proof. unfold in_i64, two63. intros. constructor. unfold in_int, bits. lia. Qed.
Lemma u32_plain z : in_u32 z → plain (TUint W32) (GInt z).
Proof. unfold in_u32. intros. constructor. unfold in_uint, bits. lia. Qed.

(** A struct built of plain fields. *)
Ltac plain_fields := apply build_plain; [by vm_compute|done|];
  repeat (apply Forall_cons_2; [eexists; split; [reflexivity|cbn [snd]]|]); [..|constructor];
  try (apply pl_string; done); try (apply i64_plain; done); try (apply u32_plain; done);
  try apply pl_bool; try (apply pl_float; done); try (apply map_plain; done); try (apply texts_plain; done).

Lemma meta_plain m : meta_wf m → plain ObjectMeta_type (meta_value m).
Proof. intros (? & ? & ? & ?). plain_fields. Qed.
Lemma tag_plain t : tag_wf t → plain MetricTag_type (tag_value t).
Proof. intros (? & ?). plain_fields. Qed.
Lemma point_plain p : point_wf p → plain MetricPoint_type (point_value p).
Proof.
  intros (? & ? & ? & ?). plain_fields. eapply slice_plain; [|done]. intros. by eapply ptr_plain; [apply tag_plain|].
Qed.
Lemma metrics_plain m : metrics_wf m → plain Metrics_type (metrics_value m).
Proof.
  intros (? & ?). plain_fields. eapply slice_plain; [|done]. intros. by eapply ptr_plain; [apply point_plain|].
Qed.
Lemma entity_plain e : entity_wf e → plain Entity_type (entity_value e).
Proof. intros (? & ? & ? & ? & ?). plain_fields. by apply meta_plain. Qed.
Lemma windows_plain w : windows_wf w → plain windows_type (windows_value w).
Proof.
  intros H. eapply slice_plain; [|exact H]. intros. eapply ptr_plain; [|done]. intros r [? ?]. plain_fields.
Qed.
Lemma when_plain w : days_wf (Days w) → plain TimeWindowWhen_type (when_value w).
Proof.
  intros H. plain_fields. unfold days_wf in H. cbn [MapTimeWindows] in H.
  repeat (apply Forall_cons in H as [? H]). plain_fields; by apply windows_plain.
Qed.
Lemma proxy_plain p : proxy_wf p → plain ProxyRequests_type (proxy_value p).
Proof. intros (? & ?). plain_fields. Qed.
Lemma history_plain h : history_wf h → plain CheckHistory_type (history_value h).
Proof. intros (? & ?). plain_fields. Qed.
Lemma check_plain c : check_wf c → plain Check_type (check_gval c).
Proof.
  intros (? & Hs & Ht & Hu & Hi & ? & ? & ?). repeat (apply Forall_cons in Hs as [? Hs]).
  repeat (apply Forall_cons in Ht as [? Ht]). repeat (apply Forall_cons in Hu as [? Hu]).
  repeat (apply Forall_cons in Hi as [? Hi]). plain_fields.
  - by apply meta_plain.
  - by eapply ptr_plain; [apply proxy_plain|].
  - by eapply ptr_plain; [apply when_plain|].
  - by eapply slice_plain; [apply history_plain|].
Qed.
Lemma event_plain e : event_wf e → plain Event_type (event_value e).
Proof.
  intros (? & ? & ? & ? & ?). plain_fields.
  - by apply meta_plain.
  - by eapply ptr_plain; [apply entity_plain|].
  - by eapply ptr_plain; [apply check_plain|].
  - by eapply ptr_plain; [apply metrics_plain|].
Qed.

(** A well-formed event is read from its text. *)
Lemma Unmarshal_event_text e : event_wf e → Unmarshal_event (event_text e) = Ret e.
Proof.
  intros H. unfold Unmarshal_event, event_text.
  rewrite Unmarshal_to_json; [cbn [mbind outcome_bind]; by rewrite event_of_value|by vm_compute|by apply event_plain].
Qed.
