(* ===== verification/GoNet.v ===== *)
(** * [path], [net/url] and [net/http], as the client uses them

    [path.Join] and the coding of query strings are definitions; an address
    is kept as its scheme, its path, its query and an opaque rest. *)

From S2P Require Import Prelude GoStd.

(* ------------------------------------------------------------------ *)
(** ** [path.Clean] and [path.Join] *)

(** One element of a path, onto the kept elements (last one first). *)
Definition clean_step (rooted : bool) (kept : list bytes) (elem : bytes) : list bytes :=
  if bytes_equal elem [] || bytes_equal elem (bs ".") then kept
  else if bytes_equal elem (bs "..") then
    match kept with
    | top :: kept' => if bytes_equal top (bs "..") then elem :: kept else kept'
    | [] => if rooted then [] else [elem]
    end
  else elem :: kept.

Definition clean_elems (rooted : bool) (elems : list bytes) : list bytes :=
  rev (foldl (clean_step rooted) [] elems).

Definition path_Clean (p : bytes) : bytes :=
  match p with
  | [] => bs "."
  | c :: _ =>
      let rooted := c =c "/" in
      let out := join (bs "/") (clean_elems rooted (split_byte "/" p)) in
      if rooted then "/"%char :: out
      else match out with [] => bs "." | _ => out end
  end.

(** [path.Join]: leading empty elements are dropped. *)
Fixpoint path_Join (elems : list bytes) : bytes :=
  match elems with
  | [] => []
  | [] :: elems' => path_Join elems'
  | _ => path_Clean (join (bs "/") elems)
  end.

Example path_Join_examples :
  map (λ p, path_Join [p; bs "write"])
    ([] :: map bs ["/"; "/a/"; "a//b/../."; "/../x"; ".."]%string)
  = map bs ["write"; "/write"; "/a/write"; "a/write"; "/x/write"; "../write"]%string.
Proof. by vm_compute. Qed.

(* ------------------------------------------------------------------ *)
(** ** Query strings *)

(** [shouldEscape] in a query component. *)
Definition unreserved (c : ascii) : bool :=
  let n := N_of_ascii c in
  is_digit c || ((65 <=? n)%N && (n <=? 90)%N) || ((97 <=? n)%N && (n <=? 122)%N)
  || has_byte (bs "-_.~") c.

Definition upper_hex (n : N) : ascii :=
  ascii_of_N (if (n <? 10)%N then 48 + n else 55 + n).
Definition unhex (c : ascii) : option N :=
  let n := N_of_ascii c in
  if (48 <=? n)%N && (n <=? 57)%N then Some (n - 48)%N
  else if (97 <=? n)%N && (n <=? 102)%N then Some (n - 87)%N
  else if (65 <=? n)%N && (n <=? 70)%N then Some (n - 55)%N
  else None.

Definition query_escape_byte (c : ascii) : bytes :=
  if unreserved c then [c]
  else if c =c " " then bs "+"
  else ["%"%char; upper_hex (N_of_ascii c / 16); upper_hex (N_of_ascii c mod 16)].
Definition QueryEscape (s : bytes) : bytes := concat (map query_escape_byte s).

(** [url.QueryUnescape]; [None] is an invalid escape. *)
Fixpoint QueryUnescape (s : bytes) : option bytes :=
  match s with
  | [] => Some []
  | c :: s' =>
      if c =c "%" then
        match s' with
        | a :: b :: s'' =>
            match unhex a, unhex b with
            | Some h, Some l => (ascii_of_N (h * 16 + l) ::.) <$> QueryUnescape s''
            | _, _ => None
            end
        | _ => None
        end
      else if c =c "+" then (" "%char ::.) <$> QueryUnescape s'
      else (c ::.) <$> QueryUnescape s'
  end.

(** [url.Values], one entry per key, with the values of the key in order. *)
Abbreviation Values := (gmap bytes (list bytes)).

Definition Values_Set (v : Values) (key value : bytes) : Values := <[key := [value]]> v.
Definition Values_Add (v : Values) (key value : bytes) : Values :=
  <[key := default [] (v !! key) ++ [value]]> v.
Definition Values_Get (v : Values) (key : bytes) : bytes :=
  match v !! key with Some (x :: _) => x | _ => [] end.

(** [Values.Encode]: sorted by key. *)
Definition encode_pair (kv : bytes * bytes) : bytes :=
  QueryEscape kv.1 ++ "="%char :: QueryEscape kv.2.
Definition Values_Encode (v : Values) : bytes :=
  let keys := sort bytes_ltb (map_to_list v).*1 in
  join (bs "&")
    (concat (map (λ k, map (λ x, encode_pair (k, x)) (default [] (v !! k))) keys)).

(** The pieces of a query between [&] and [;]. *)
Fixpoint split_query (s : bytes) : list bytes :=
  match s with
  | [] => [[]]
  | c :: s' =>
      if (c =c "&") || (c =c ";") then [] :: split_query s'
      else match split_query s' with
           | [] => [[c]]
           | w :: ws => (c :: w) :: ws
           end
  end.

(** One turn of the loop of [url.ParseQuery]; a piece that does not decode
    is dropped. *)
Definition parse_piece (v : Values) (piece : bytes) : Values :=
  match piece with
  | [] => v
  | _ =>
      let '(key, value) := cut_byte "=" piece in
      match QueryUnescape key, QueryUnescape (default [] value) with
      | Some key, Some value => Values_Add v key value
      | _, _ => v
      end
  end.
(** [URL.Query]. *)
Definition ParseQuery (query : bytes) : Values := foldl parse_piece ∅ (split_query query).

(* ------------------------------------------------------------------ *)
(** ** Requests and responses *)

(** The parts of [url.URL] the client reads or writes; [u_Rest] stands for
    user, host and fragment. *)
Record url := MkURL { u_Scheme : bytes; u_Rest : bytes; u_Path : bytes; u_RawQuery : bytes }.

Record request := MkRequest {
  rq_Method : bytes; rq_URL : url; rq_Header : gmap bytes bytes;
  rq_BasicAuth : option (bytes * bytes); rq_Body : bytes
}.

(** A response; reading its body may fail. *)
Record response := MkResponse {
  rs_StatusCode : Z; rs_Header : gmap bytes bytes; rs_Body : outcome bytes
}.

(** What the client takes from outside: the parser and printer of
    addresses, and the round trip to the server. *)
Class Net := {
  url_Parse : bytes → outcome url;
  url_String : url → bytes;
  http_Do : request → outcome response
}.

(** [http.NewRequest]: the address is parsed again. *)
Definition NewRequest `{Net} (method urlStr body : bytes) : outcome request :=
  u ← url_Parse urlStr;
  Ret (MkRequest method u ∅ None body).

Definition set_header (r : request) (k v : bytes) : request :=
  MkRequest (rq_Method r) (rq_URL r) (<[k := v]> (rq_Header r)) (rq_BasicAuth r) (rq_Body r).
Definition SetBasicAuth (r : request) (username password : bytes) : request :=
  MkRequest (rq_Method r) (rq_URL r) (rq_Header r) (Some (username, password)) (rq_Body r).
Definition set_query (r : request) (q : bytes) : request :=
  let u := rq_URL r in
  MkRequest (rq_Method r) (MkURL (u_Scheme u) (u_Rest u) (u_Path u) q) (rq_Header r)
    (rq_BasicAuth r) (rq_Body r).
Definition set_path (u : url) (p : bytes) : url :=
  MkURL (u_Scheme u) (u_Rest u) p (u_RawQuery u).

(* ------------------------------------------------------------------ *)
(** ** Computations that talk to the server *)

(** The requests sent, in order, and the result. *)
Record io (A : Type) := IO { trace : list request; result : outcome A }.
Arguments IO {A}.
Arguments trace {A}.
Arguments result {A}.

#[export] Instance io_ret : MRet io := λ A a, IO [] (Ret a).
#[export] Instance io_bind : MBind io := λ A B f m,
  match result m with
  | Ret a => IO (trace m ++ trace (f a)) (result (f a))
  | Fail e => IO (trace m) (Fail e)
  | Panic => IO (trace m) Panic
  end.

Definition lift {A} (m : outcome A) : io A := IO [] m.
Definition send `{Net} (req : request) : io response := IO [req] (http_Do req).
