(* ===== verification/GoNetFacts.v ===== *)
(** * Query strings decode to the values that were encoded *)

From S2P Require Import Prelude GoStd GoNet.

Lemma QueryUnescape_byte c rest :
  QueryUnescape (query_escape_byte c ++ rest) = (c ::.) <$> QueryUnescape rest.
Proof. destruct c as [[] [] [] [] [] [] [] []]; reflexivity. Qed.

Lemma QueryUnescape_Escape s : QueryUnescape (QueryEscape s) = Some s.
Proof.
  induction s as [|c s IH]; [done|]. unfold QueryEscape in *. cbn [map concat].
  by rewrite QueryUnescape_byte, IH.
Qed.

(** The bytes that structure a query string. *)
Definition structural (c : ascii) : bool := (c =c "&") || (c =c ";") || (c =c "=").

Lemma QueryEscape_plain s : Forall (λ c, structural c = false) (QueryEscape s).
Proof.
  unfold QueryEscape. induction s as [|c s IH]; cbn [map concat]; [constructor|].
  apply Forall_app. split; [|exact IH]. clear.
  assert (forallb (λ c, negb (structural c)) (query_escape_byte c) = true) as H
    by (destruct c as [[] [] [] [] [] [] [] []]; reflexivity).
  rewrite forallb_forall in H. apply Forall_forall. intros x Hx%list_elem_of_In%H.
  by apply negb_true_iff.
Qed.

Lemma cut_byte_plain c w rest : c ∉ w → cut_byte c (w ++ c :: rest) = (w, Some rest).
Proof.
  induction w as [|d w IH]; intros H; cbn; [by rewrite Ascii.eqb_refl|].
  apply not_elem_of_cons in H as [H1 H2].
  rewrite (proj2 (Ascii.eqb_neq d c)) by done. by rewrite IH.
Qed.

Lemma split_query_cons w rest : Forall (λ c, (c =c "&") || (c =c ";") = false) w →
  split_query (w ++ "&"%char :: rest) = w :: split_query rest.
Proof. induction 1 as [|c w Hc _ IH]; cbn; [done|]. by rewrite Hc, IH. Qed.

Lemma split_query_one w : Forall (λ c, (c =c "&") || (c =c ";") = false) w → split_query w = [w].
Proof. induction 1 as [|c w Hc _ IH]; cbn; [done|]. by rewrite Hc, IH. Qed.

Lemma encode_pair_query kv : Forall (λ c, (c =c "&") || (c =c ";") = false) (encode_pair kv).
Proof.
  unfold encode_pair. apply Forall_app. split; [|constructor; [done|]];
    (eapply Forall_impl; [apply QueryEscape_plain|]); intros c; unfold structural;
    rewrite !orb_false_iff; tauto.
Qed.

Lemma parse_piece_pair v kv : parse_piece v (encode_pair kv) = Values_Add v kv.1 kv.2.
Proof.
  unfold parse_piece. destruct (encode_pair kv) as [|c s] eqn:E.
  { unfold encode_pair in E. apply app_eq_nil in E as [_ E]. discriminate E. }
  rewrite <- E. unfold encode_pair. rewrite cut_byte_plain.
  - change (default [] (Some (QueryEscape kv.2))) with (QueryEscape kv.2).
    by rewrite !QueryUnescape_Escape.
  - intros Hin. pose proof (QueryEscape_plain kv.1) as H. rewrite Forall_forall in H.
    discriminate (H _ Hin).
Qed.

Lemma parse_pairs l : ∀ v,
  foldl parse_piece v (split_query (join (bs "&") (map encode_pair l))) =
  foldl (λ v kv, Values_Add v kv.1 kv.2) v l.
Proof.
  induction l as [|kv l IH]; intros v; [done|]. destruct l as [|kv' l].
  - cbn [map join]. rewrite split_query_one by apply encode_pair_query.
    cbn [foldl]. apply parse_piece_pair.
  - change (join (bs "&") (map encode_pair (kv :: kv' :: l)))
      with (encode_pair kv ++ "&"%char :: join (bs "&") (map encode_pair (kv' :: l))).
    rewrite split_query_cons by apply encode_pair_query. cbn [foldl].
    rewrite parse_piece_pair. apply IH.
Qed.

Lemma Values_Add_all k l : ∀ (v : Values) m, v !! k = Some m →
  foldl (λ v kv, Values_Add v kv.1 kv.2) v (map (λ x, (k, x)) l) = <[k := m ++ l]> v.
Proof.
  induction l as [|x l IH]; intros v m Hm; cbn [map foldl].
  - rewrite app_nil_r. by rewrite insert_id.
  - unfold Values_Add at 2. cbn [fst snd]. rewrite Hm. cbn [default from_option].
    rewrite (IH _ (m ++ [x])) by apply lookup_insert_eq.
    rewrite insert_insert_eq. by rewrite <- app_assoc.
Qed.

(** The pairs [Encode] writes for the keys of a list. *)
Definition pairs_of (v : Values) (keys : list bytes) : list (bytes * bytes) :=
  concat (map (λ k, map (λ x, (k, x)) (default [] (v !! k))) keys).

Lemma Values_Encode_pairs v :
  Values_Encode v = join (bs "&") (map encode_pair (pairs_of v (sort bytes_ltb (map_to_list v).*1))).
Proof.
  unfold Values_Encode, pairs_of. f_equal. rewrite concat_map, map_map. f_equal.
  apply map_ext. intros k. by rewrite map_map.
Qed.

Lemma add_pairs (v : Values) keys : NoDup keys → (∀ k, k ∈ keys → ∃ x l, v !! k = Some (x :: l)) →
  ∀ acc : Values, (∀ k, k ∈ keys → acc !! k = None) →
  ∀ k, foldl (λ v kv, Values_Add v kv.1 kv.2) acc (pairs_of v keys) !! k =
       if bool_decide (k ∈ keys) then v !! k else acc !! k.
Proof.
  induction 1 as [|k0 keys Hk0 Hnd IH]; intros Hv acc Hacc k; [done|].
  unfold pairs_of. cbn [map concat]. rewrite foldl_app. fold (pairs_of v keys).
  destruct (Hv k0 ltac:(by left)) as (x & l & E). rewrite E. cbn [default from_option id map foldl fst snd].
  assert (Values_Add acc k0 x = <[k0 := [x]]> acc) as ->.
  { unfold Values_Add. by rewrite (Hacc k0) by by left. }
  rewrite (Values_Add_all k0 l _ [x]) by apply lookup_insert_eq. rewrite insert_insert_eq. cbn [app].
  rewrite IH.
  - destruct (decide (k = k0)) as [->|Hne].
    + rewrite bool_decide_eq_false_2 by done. rewrite bool_decide_eq_true_2 by by left.
      by rewrite lookup_insert_eq.
    + rewrite lookup_insert_ne by done. rewrite (bool_decide_ext (k ∈ k0 :: keys) (k ∈ keys)); [done|].
      rewrite elem_of_cons. naive_solver.
  - intros. apply Hv. by right.
  - intros k' Hk'. rewrite lookup_insert_ne by (by intros ->). apply Hacc. by right.
Qed.

(** [ParseQuery] inverts [Encode] on values without empty lists. *)
Lemma ParseQuery_Encode v : map_Forall (λ _ l, l ≠ []) v → ParseQuery (Values_Encode v) = v.
Proof.
  intros Hv. rewrite Values_Encode_pairs. unfold ParseQuery. rewrite parse_pairs.
  apply map_eq. intros k. rewrite add_pairs.
  - rewrite lookup_empty. destruct (v !! k) as [l|] eqn:E.
    + rewrite bool_decide_eq_true_2; [done|]. rewrite sort_perm.
      apply list_elem_of_fmap. exists (k, l). split; [done|]. by apply elem_of_map_to_list.
    + by destruct (bool_decide _).
  - rewrite sort_perm. apply NoDup_fst_map_to_list.
  - intros k'. rewrite sort_perm. intros ([k'' l] & -> & Hl%elem_of_map_to_list)%list_elem_of_fmap.
    cbn. specialize (Hv _ _ Hl). cbn in Hv. destruct l as [|x l]; [done|]. by exists x, l.
  - intros. apply lookup_empty.
Qed.

Lemma ParseQuery_empty : ParseQuery [] = ∅.
Proof. done. Qed.

Lemma Values_Set_nonempty (v : Values) k x :
  map_Forall (λ _ l, l ≠ []) v → map_Forall (λ _ l, l ≠ []) (Values_Set v k x).
Proof. intros H. unfold Values_Set. by apply map_Forall_insert_2. Qed.
#[export] Hint Resolve Values_Set_nonempty : go.

Lemma ParseQuery_nonempty q : map_Forall (λ _ l, l ≠ []) (ParseQuery q).
Proof.
  unfold ParseQuery. generalize (split_query q) as l. intros l.
  assert (∀ v : Values, map_Forall (λ _ l, l ≠ []) v →
    map_Forall (λ _ l, l ≠ []) (foldl parse_piece v l)) as H; [|apply H, map_Forall_empty].
  induction l as [|p l IH]; intros v Hv; [done|]. cbn [foldl]. apply IH.
  unfold parse_piece. destruct p as [|c p]; [done|].
  destruct (cut_byte "=" (c :: p)) as [k x]. destruct (QueryUnescape k); [|done].
  destruct (QueryUnescape _); [|done]. unfold Values_Add. apply map_Forall_insert_2; [|done].
  by destruct (default [] _).
Qed.
