(* ===== verification/StoreKeys.v ===== *)
(** * Errors and keys of the backend's store ([backend/store/store.go],
    [key_builder.go], [key_parser.go], and the paths of [backend/store/etcd])

    A resource is kept under [/sensu.io/type/namespace/name]. *)

From S2P Require Import Prelude GoStd GoNet GoTime TimeWindow Sensu.

(** The types of errors of the store, and the others. *)
Inductive store_error :=
| ErrAlreadyExists (key : bytes)
| ErrDecode (key : bytes) (e : error)
| ErrEncode (key : bytes) (e : error)
| ErrNamespaceMissing (namespace : bytes)
| ErrNotFound (key : bytes)
| ErrNotValid (e : error)
| ErrInternal (message : error)
| other_error (e : error).

(** The methods [Error]. *)
Definition Error_text (e : store_error) : error :=
  match e with
  | ErrAlreadyExists key => Errorf "could not create the key %s" [key]
  | ErrDecode key e => Wrapf "could not decode the key %s: %s" [key] e
  | ErrEncode key e => Wrapf "could not encode the key %s: %s" [key] e
  | ErrNamespaceMissing namespace => Errorf "the namespace %s does not exist" [namespace]
  | ErrNotFound key => Errorf "key %s not found" [key]
  | ErrNotValid e => Wrapf "resource is invalid: %s" [] e
  | ErrInternal message => Wrapf "internal error: %s" [] message
  | other_error e => e
  end.

Definition Root : bytes := bs "/sensu.io".
Definition keySeparator : bytes := bs "/".
Definition WildcardValue : bytes := bs "*".

Record KeyBuilder := MkKeyBuilder { resourceName : bytes; kb_namespace : bytes }.
Definition NewKeyBuilder (resourceName : bytes) : KeyBuilder := MkKeyBuilder resourceName [].
(** Also of [WithResource] and [WithContext], which ask the resource or the
    context for the namespace. *)
Definition WithNamespace (b : KeyBuilder) (namespace : bytes) : KeyBuilder :=
  MkKeyBuilder (resourceName b) namespace.

Definition Build (b : KeyBuilder) (keys : list bytes) : bytes :=
  let key := path_Join ([Root; resourceName b; kb_namespace b] ++ keys) in
  if negb (is_empty (kb_namespace b)) then
    if (match last keys with None | Some [] => true | Some _ => false end) then key ++ keySeparator else key
  else key.

(** The loop of [BuildPrefix]. *)
Fixpoint prefix_loop (out : bytes) (keys : list bytes) : bytes :=
  match keys with
  | [] => out
  | key :: keys' =>
      if bytes_equal key WildcardValue then out
      else if is_empty key then prefix_loop out keys'
      else prefix_loop (out ++ keySeparator ++ key) keys'
  end.
Definition BuildPrefix (b : KeyBuilder) (keys : list bytes) : bytes :=
  prefix_loop (Root ++ keySeparator ++ resourceName b) (kb_namespace b :: keys).

(* ------------------------------------------------------------------ *)
(** ** Parsing a key *)

Record SplitKey := MkSplitKey {
  sk_Root : bytes; ResourceType : bytes; sk_Namespace : bytes; sk_ResourceName : bytes
}.

(** [strings.Split] is never empty, so that [split[0]] exists. *)
Definition ParseResourceKey (key : bytes) : SplitKey :=
  let split := split_byte "/" key in
  let split := match split with [] :: split' => split' | _ => split end in
  let part i := default [] (split !! i) in
  MkSplitKey (part 0) (part 1) (part 2) (part 3).

Definition SplitKey_String (s : SplitKey) : bytes :=
  Build (WithNamespace (NewKeyBuilder (ResourceType s)) (sk_Namespace s)) [sk_ResourceName s].

(* ------------------------------------------------------------------ *)
(** ** The paths of the store *)

Definition EtcdRoot : bytes := bs "/sensu.io".

Definition getNamespacePath (name : bytes) : bytes := path_Join [EtcdRoot; bs "namespaces"; name].

Definition assetKeyBuilder : KeyBuilder := NewKeyBuilder (bs "assets").
Definition checkKeyBuilder : KeyBuilder := NewKeyBuilder (bs "checks").
Definition entityKeyBuilder : KeyBuilder := NewKeyBuilder (bs "entities").
Definition eventKeyBuilder : KeyBuilder := NewKeyBuilder (bs "events").
Definition eventFilterKeyBuilder : KeyBuilder := NewKeyBuilder (bs "event-filters").
Definition handlerKeyBuilder : KeyBuilder := NewKeyBuilder (bs "handlers").
Definition hookKeyBuilder : KeyBuilder := NewKeyBuilder (bs "hooks").
Definition mutatorKeyBuilder : KeyBuilder := NewKeyBuilder (bs "mutators").
Definition silencedKeyBuilder : KeyBuilder := NewKeyBuilder (bs "silenced").
Definition extKeyBuilder : KeyBuilder := NewKeyBuilder (bs "extensions").
Definition roleKeyBuilder : KeyBuilder := NewKeyBuilder (bs "rbac/roles").
Definition roleBindingKeyBuilder : KeyBuilder := NewKeyBuilder (bs "rbac/rolebindings").

(** [getAssetPath], [getCheckConfigPath] and the like. *)
Definition resource_path (b : KeyBuilder) (meta : ObjectMeta) : bytes :=
  Build (WithNamespace b (Namespace meta)) [om_Name meta].

(** [GetAssetsPath], [GetCheckConfigsPath] and the like, in the namespace of
    a context. *)
Definition context_path (b : KeyBuilder) (namespace name : bytes) : bytes :=
  Build (WithNamespace b namespace) [name].

(** [getEventPath], which dereferences the entity and the check. *)
Definition getEventPath (event : Event) : outcome bytes :=
  match ev_Entity event, ev_Check event with
  | Some entity, Some check =>
      Ret (path_Join [EtcdRoot; bs "events"; Namespace (e_Meta entity); om_Name (e_Meta entity);
                      om_Name (c_Meta check)])
  | _, _ => Panic
  end.

Definition getEventWithCheckPath (namespace entity check : bytes) : outcome bytes :=
  if is_empty namespace then Fail (Errorf "namespace missing from context" [])
  else Ret (path_Join [EtcdRoot; bs "events"; namespace; entity; check]).

(** The keys of the tests of the builder and of the parser. *)
Example keys :
  [Build (NewKeyBuilder (bs "checks")) [[]];
   Build (WithNamespace checkKeyBuilder (bs "acme")) [bs "check_name"];
   Build (WithNamespace checkKeyBuilder (bs "acme")) [[]];
   BuildPrefix (WithNamespace checkKeyBuilder (bs "acme")) [bs "a"; bs "*"; bs "b"]] =
  map bs ["/sensu.io/checks"; "/sensu.io/checks/acme/check_name"; "/sensu.io/checks/acme/";
          "/sensu.io/checks/acme/a"]%string ∧
  ParseResourceKey (bs "/sensu.io/checks/acme/baz") =
    MkSplitKey (bs "sensu.io") (bs "checks") (bs "acme") (bs "baz") ∧
  SplitKey_String (ParseResourceKey (bs "/sensu.io/checks/acme/baz")) = bs "/sensu.io/checks/acme/baz".
Proof. by vm_compute. Qed.
