(* ===== verification/StoreKeysFacts.v ===== *)
(** * Keys of plain names, and of names that are not *)

From S2P Require Import Prelude GoStd GoStdFacts GoNet GoNetFacts GoTime TimeWindow Sensu StoreKeys.

(* ------------------------------------------------------------------ *)
(** ** [path.Join] of tame elements *)

Abbreviation slash := ("/"%char).

(** Elements that [path.Clean] keeps or drops, without going up. *)
Definition tame_elem (e : bytes) : Prop := e ≠ bs "." ∧ e ≠ bs "..".
Definition filled (e : bytes) : bool := negb (is_empty e).
Definition segments (w : bytes) : list bytes := List.filter filled (split_byte slash w).
Definition tame (w : bytes) : Prop := Forall tame_elem (split_byte slash w).

Lemma clean_fold elems : Forall tame_elem elems → ∀ kept,
  foldl (clean_step true) kept elems = rev (List.filter filled elems) ++ kept.
Proof.
  induction 1 as [|e elems [H1 H2] _ IH]; intros kept; [done|]. cbn [foldl List.filter].
  rewrite IH. unfold clean_step, filled. destruct e as [|c e]; [done|]. cbn [is_empty negb rev].
  rewrite (proj2 (bytes_equal_false (c :: e) (bs "."))), (proj2 (bytes_equal_false (c :: e) (bs ".."))) by done.
  change (bytes_equal (c :: e) []) with false. cbn [orb]. by rewrite <- (assoc_L (++)).
Qed.

Lemma clean_elems_tame elems : Forall tame_elem elems → clean_elems true elems = List.filter filled elems.
Proof. intros H. unfold clean_elems. by rewrite clean_fold, app_nil_r, rev_involutive. Qed.

Lemma split_byte_glue c a b w ws : split_byte c b = w :: ws →
  ∃ v vs, split_byte c a = vs ++ [v] ∧ split_byte c (a ++ b) = vs ++ (v ++ w) :: ws.
Proof.
  intros Eb. induction a as [|d a IH]; [by exists [], []|]. destruct IH as (v & vs & E1 & E2).
  cbn [split_byte app]. rewrite E1, E2. destruct (Ascii.eqb d c).
  - exists v, ([] :: vs). done.
  - destruct vs as [|u vs]; [exists (d :: v), []|exists v, ((d :: u) :: vs)]; done.
Qed.

Lemma split_join c l : l ≠ [] → split_byte c (join [c] l) = concat (map (split_byte c) l).
Proof.
  induction l as [|a l IH]; [done|]. intros _. destruct l as [|b l]; [cbn; by rewrite app_nil_r|].
  change (join [c] (a :: b :: l)) with (a ++ c :: join [c] (b :: l)). cbn [map concat].
  destruct (split_byte_glue c a (c :: join [c] (b :: l)) [] (split_byte c (join [c] (b :: l)))) as (v & vs & E1 & ->).
  { cbn [split_byte]. by rewrite Ascii.eqb_refl. }
  rewrite E1, app_nil_r, <- (assoc_L (++)). cbn [app]. by rewrite IH.
Qed.

Lemma Forall_concat_map {A B} (P : B → Prop) (f : A → list B) l :
  Forall P (concat (map f l)) ↔ Forall (λ x, Forall P (f x)) l.
Proof. induction l as [|x l IH]; cbn; [by rewrite !Forall_nil|]. by rewrite Forall_app, Forall_cons, IH. Qed.

Lemma filter_concat {A} (f : A → bool) l : List.filter f (concat l) = concat (map (List.filter f) l).
Proof. induction l as [|x l IH]; cbn; [done|]. by rewrite List.filter_app, IH. Qed.

(** The key under the root. *)
Definition key_of (l : list bytes) : bytes := slash :: join keySeparator (bs "sensu.io" :: concat (map segments l)).

Lemma path_Join_elems l : path_Join (Root :: l) =
  slash :: join keySeparator (clean_elems true ([] :: bs "sensu.io" :: concat (map (split_byte slash) l))).
Proof.
  change (path_Join (Root :: l)) with (path_Clean (join keySeparator (Root :: l))).
  assert (split_byte slash (join keySeparator (Root :: l)) = [] :: bs "sensu.io" :: concat (map (split_byte slash) l)) as Es.
  { unfold keySeparator. by rewrite split_join. }
  assert (∃ s, join keySeparator (Root :: l) = slash :: s) as [s Ej].
  { destruct l; by eexists. }
  unfold path_Clean. rewrite Ej in *. by rewrite Es.
Qed.

Lemma path_Join_root l : Forall tame l → path_Join (Root :: l) = key_of l.
Proof.
  intros Hl. rewrite path_Join_elems, clean_elems_tame.
  - cbn [List.filter filled is_empty negb bs]. unfold key_of, segments. by rewrite filter_concat, map_map.
  - constructor; [done|]. constructor; [done|]. by apply Forall_concat_map.
Qed.

(* ------------------------------------------------------------------ *)
(** ** Plain names *)

(** The names the layout of the keys is made for. *)
Record plain_name (w : bytes) : Prop := {
  plain_filled : w ≠ [];
  plain_tame : tame_elem w;
  plain_slash : slash ∉ w
}.

Lemma plain_segments w : plain_name w → segments w = [w] ∧ tame w.
Proof.
  intros [H1 H2 H3]. unfold segments, tame. rewrite split_byte_plain by done. split; [|by constructor].
  cbn [List.filter]. unfold filled. by destruct w.
Qed.

Lemma empty_tame : tame [].
Proof. by constructor. Qed.
#[export] Hint Resolve empty_tame : go.

Lemma join_app sep l m : l ≠ [] → m ≠ [] → join sep (l ++ m) = join sep l ++ sep ++ join sep m.
Proof.
  intros Hl Hm. induction l as [|x l IH]; [done|]. destruct l as [|y l].
  - destruct m; [done|]. reflexivity.
  - change (join sep ((x :: y :: l) ++ m)) with (x ++ sep ++ join sep ((y :: l) ++ m)). rewrite IH by done.
    change (join sep (x :: y :: l)) with (x ++ sep ++ join sep (y :: l)). by rewrite <- !(assoc_L (++)).
Qed.

(** The part of a key before the namespace. *)
Definition type_path (b : KeyBuilder) : bytes := key_of [resourceName b].

Definition tame_builder (b : KeyBuilder) : Prop := tame (resourceName b).

Lemma key_of_app l m : concat (map segments m) ≠ [] →
  key_of (l ++ m) = key_of l ++ keySeparator ++ join keySeparator (concat (map segments m)).
Proof.
  intros Hm. unfold key_of. rewrite map_app, concat_app, app_comm_cons, join_app by done. reflexivity.
Qed.

(** The key of a resource. *)
Lemma resource_path_plain b meta : tame_builder b → plain_name (Namespace meta) → plain_name (om_Name meta) →
  resource_path b meta = type_path b ++ bs "/" ++ Namespace meta ++ bs "/" ++ om_Name meta.
Proof.
  intros Hb Hns Hn. destruct (plain_segments _ Hns) as [S1 T1]. destruct (plain_segments _ Hn) as [S2 T2].
  unfold resource_path, Build, WithNamespace. cbn [resourceName kb_namespace app].
  rewrite path_Join_root by (repeat constructor; done).
  change [resourceName b; Namespace meta; om_Name meta] with ([resourceName b] ++ [Namespace meta; om_Name meta]).
  rewrite key_of_app by (cbn; by rewrite S1, S2). cbn [map concat]. rewrite S1, S2.
  destruct (Namespace meta) as [|c ns] eqn:E; [by destruct (plain_filled _ Hns)|].
  cbn [is_empty negb last]. destruct (om_Name meta) eqn:E'; [by destruct (plain_filled _ Hn)|]. reflexivity.
Qed.

(** The key that lists a namespace. *)
Lemma context_path_all b ns : tame_builder b → plain_name ns →
  context_path b ns [] = type_path b ++ bs "/" ++ ns ++ bs "/".
Proof.
  intros Hb Hns. destruct (plain_segments _ Hns) as [S1 T1].
  unfold context_path, Build, WithNamespace. cbn [resourceName kb_namespace app].
  rewrite path_Join_root by (repeat constructor; done).
  change [resourceName b; ns; []] with ([resourceName b] ++ [ns; []]).
  rewrite key_of_app by (cbn; by rewrite S1). cbn [map concat]. rewrite S1.
  destruct ns as [|c ns]; [by destruct (plain_filled _ Hns)|]. cbn [is_empty negb last].
  rewrite <- !(assoc_L (++)). reflexivity.
Qed.

(* ------------------------------------------------------------------ *)
(** ** Reading keys *)

Lemma sep_inj_l (c : ascii) (a b x y : bytes) : c ∉ a → c ∉ b → a ++ c :: x = b ++ c :: y → a = b ∧ x = y.
Proof.
  intros Ha Hb E. apply (f_equal (cut_byte c)) in E. rewrite !cut_byte_plain in E by done. by injection E.
Qed.

Lemma sep_inj_r (c : ascii) (a b x y : bytes) : c ∉ x → c ∉ y → (a ++ [c]) ++ x = (b ++ [c]) ++ y → a = b ∧ x = y.
Proof.
  intros Hx Hy E. apply (f_equal (@rev _)) in E. rewrite !rev_app_distr in E. cbn [rev app] in E.
  apply sep_inj_l in E as [E1 E2]; [|by rewrite <- Permutation_rev|by rewrite <- Permutation_rev].
  apply (f_equal (@rev _)) in E1, E2. by rewrite !rev_involutive in E1, E2.
Qed.

Lemma has_prefix_iff s p : has_prefix s p = true ↔ ∃ r, s = p ++ r.
Proof.
  revert s. induction p as [|c p IH]; intros s; cbn [has_prefix]; [split; [by exists s|by destruct s]|].
  destruct s as [|d s]; [split; [done|by intros [r H]]|]. rewrite andb_true_iff, Ascii.eqb_eq, IH. cbn [app]. naive_solver.
Qed.

Lemma parse_resource_path b meta : plain_name (resourceName b) → plain_name (Namespace meta) →
  plain_name (om_Name meta) →
  ParseResourceKey (resource_path b meta) =
    MkSplitKey (bs "sensu.io") (resourceName b) (Namespace meta) (om_Name meta) ∧
  SplitKey_String (ParseResourceKey (resource_path b meta)) = resource_path b meta.
Proof.
  intros Hr Hns Hn.
  assert (ParseResourceKey (resource_path b meta) =
    MkSplitKey (bs "sensu.io") (resourceName b) (Namespace meta) (om_Name meta)) as E; [|by rewrite E].
  destruct (plain_segments _ Hr) as [S1 T1]. rewrite resource_path_plain by done. unfold type_path, key_of.
  cbn [map concat app]. rewrite S1. cbn [app].
  match goal with |- context [ParseResourceKey ?w] => assert (w = slash ::
    (bs "sensu.io" ++ slash :: resourceName b ++ slash :: Namespace meta ++ slash :: om_Name meta)) as -> end.
  { change (join keySeparator [bs "sensu.io"; resourceName b]) with (bs "sensu.io" ++ slash :: resourceName b).
    cbn [app]. done. }
  unfold ParseResourceKey. cbn [split_byte]. change (Ascii.eqb slash slash) with true. cbn match.
  match goal with |- context [split_byte slash ?w] => assert (split_byte slash w =
    [bs "sensu.io"; resourceName b; Namespace meta; om_Name meta]) as -> end; [|done].
  rewrite split_byte_app by (by apply (bool_decide_unpack _)). f_equal.
  rewrite split_byte_app by apply Hr. f_equal.
  rewrite split_byte_app by apply Hns. f_equal.
  apply split_byte_plain, Hn.
Qed.

(* ------------------------------------------------------------------ *)
(** ** Names that climb *)

Lemma clean_step_plain w kept : plain_name w → clean_step true kept w = w :: kept.
Proof.
  intros [H1 [H2 H3] _]. unfold clean_step.
  by rewrite !(proj2 (bytes_equal_false w _)) by done.
Qed.

Lemma clean_step_up w kept : plain_name w → clean_step true (w :: kept) (bs "..") = kept.
Proof.
  intros [_ [_ H] _]. unfold clean_step. cbn -[bytes_equal]. by rewrite (proj2 (bytes_equal_false w _)) by done.
Qed.

(** The key of a list of elements that are plain, go up, or stay. *)
Lemma path_Join_fold l : path_Join (Root :: l) =
  slash :: join keySeparator (rev (foldl (clean_step true) [bs "sensu.io"] (concat (map (split_byte slash) l)))).
Proof. by rewrite path_Join_elems. Qed.
