(* ===== verification/Rbac.v ===== *)
(** * Role-based access control ([api/core/v2/rbac.go],
    [backend/authorization/rbac])

    A binding gives the rules of a role to its subjects; the authorizer looks
    for a binding of the user whose role has a rule that allows the request.
    The store of the backend is an interface. *)

From S2P Require Import Prelude GoStd GoTime TimeWindow Sensu StoreKeys.

(* ------------------------------------------------------------------ *)
(** ** Rules *)

Record Rule := MkRule { Verbs : list bytes; Resources : list bytes; ResourceNames : list bytes }.

(** One of the loops of the matchers: a wildcard or the requested word. *)
Fixpoint matches_or_all (all requested : bytes) (l : list bytes) : bool :=
  match l with
  | [] => false
  | x :: l' => if bytes_equal x all then true
               else if bytes_equal x requested then true else matches_or_all all requested l'
  end.
Definition ResourceMatches (r : Rule) (requestedResource : bytes) : bool :=
  matches_or_all (bs "*") requestedResource (Resources r).
Definition VerbMatches (r : Rule) (requestedVerb : bytes) : bool :=
  matches_or_all (bs "*") requestedVerb (Verbs r).
Definition ResourceNameMatches (r : Rule) (requestedResourceName : bytes) : bool :=
  match ResourceNames r with
  | [] => true
  | names => existsb (λ n, bytes_equal n requestedResourceName) names
  end.

(* ------------------------------------------------------------------ *)
(** ** Roles and bindings *)

Record ClusterRole := MkClusterRole { cr_Rules : list Rule; cr_Meta : ObjectMeta }.
Record Role := MkRole { r_Rules : list Rule; r_Meta : ObjectMeta }.
Record RoleRef := MkRoleRef { ref_Type : bytes; ref_Name : bytes }.
Record Subject := MkSubject { sub_Type : bytes; sub_Name : bytes }.
Record ClusterRoleBinding := MkClusterRoleBinding {
  crb_Subjects : list Subject; crb_RoleRef : RoleRef; crb_Meta : ObjectMeta
}.
Record RoleBinding := MkRoleBinding {
  rb_Subjects : list Subject; rb_RoleRef : RoleRef; rb_Meta : ObjectMeta
}.

(** What the two kinds of bindings have in common. *)
Class Binding (B : Type) := { Subjects : B → list Subject; binding_ref : B → RoleRef }.
#[export] Instance cluster_binding : Binding ClusterRoleBinding :=
  {| Subjects := crb_Subjects; binding_ref := crb_RoleRef |}.
#[export] Instance role_binding : Binding RoleBinding :=
  {| Subjects := rb_Subjects; binding_ref := rb_RoleRef |}.

Definition no_items {A} (l : list A) : bool := match l with [] => true | _ => false end.
Definition no_ref (r : RoleRef) : bool := is_empty (ref_Name r) || is_empty (ref_Type r).

Definition Validate_cluster_role (r : ClusterRole) : option error :=
  prefix_error "the ClusterRole name " (ValidateSubscriptionName (om_Name (cr_Meta r)))
  ||| fail_if (no_items (cr_Rules r)) "a ClusterRole must have at least one rule"
  ||| fail_if (negb (is_empty (Namespace (cr_Meta r)))) "ClusterRole cannot have a namespace".

Definition Validate_cluster_role_binding (b : ClusterRoleBinding) : option error :=
  prefix_error "the ClusterRoleBinding name " (ValidateSubscriptionName (om_Name (crb_Meta b)))
  ||| fail_if (no_ref (crb_RoleRef b)) "a ClusterRoleBinding needs a roleRef"
  ||| fail_if (no_items (crb_Subjects b)) "a ClusterRoleBinding must have at least one subject"
  ||| fail_if (negb (is_empty (Namespace (crb_Meta b)))) "ClusterRoleBinding cannot have a namespace".

Definition Validate_role (r : Role) : option error :=
  prefix_error "the Role name " (ValidateSubscriptionName (om_Name (r_Meta r)))
  ||| fail_if (is_empty (Namespace (r_Meta r))) "the Role namespace must be set"
  ||| fail_if (no_items (r_Rules r)) "a Role must have at least one rule".

Definition Validate_role_binding (b : RoleBinding) : option error :=
  prefix_error "the RoleBinding name " (ValidateSubscriptionName (om_Name (rb_Meta b)))
  ||| fail_if (is_empty (Namespace (rb_Meta b))) "the RoleBinding namespace must be set"
  ||| fail_if (no_ref (rb_RoleRef b)) "a RoleBinding needs a roleRef"
  ||| fail_if (no_items (rb_Subjects b)) "a RoleBinding must have at least one subject".

(* ------------------------------------------------------------------ *)
(** ** The store *)

(** The methods of the store the authorizer calls, in the context of the
    request; a role that is not there may be a nil pointer. *)
Class Store := {
  ListClusterRoleBindings : list ClusterRoleBinding + store_error;
  ListRoleBindings : list RoleBinding + store_error;
  GetClusterRole : bytes → option ClusterRole + store_error;
  GetRole : bytes → option Role + store_error
}.

(* ------------------------------------------------------------------ *)
(** ** The authorizer *)

Record User := MkUser { Username : bytes; Password : bytes; Groups : list bytes; Disabled : bool }.
Record Attributes := MkAttributes {
  APIGroup : bytes; APIVersion : bytes; at_Namespace : bytes; Resource : bytes; ResourceName : bytes;
  at_User : User; Verb : bytes
}.

(** [ruleAllows], with the reason of a refusal. *)
Definition ruleAllows (attrs : Attributes) (rule : Rule) : bool * bytes :=
  if negb (VerbMatches rule (Verb attrs)) then (false, bs "forbidden verb")
  else if negb (ResourceMatches rule (Resource attrs)) then (false, bs "forbidden resource")
  else if negb (ResourceNameMatches rule (ResourceName attrs)) then (false, bs "forbidden resource name")
  else (true, []).

Definition matches_subject (user : User) (subject : Subject) : bool :=
  if bytes_equal (sub_Type subject) (bs "User") then bytes_equal (Username user) (sub_Name subject)
  else if bytes_equal (sub_Type subject) (bs "Group") then
    existsb (λ group, bytes_equal group (sub_Name subject)) (Groups user)
  else false.
Fixpoint matchesUser (user : User) (subjects : list Subject) : bool :=
  match subjects with
  | [] => false
  | subject :: subjects' => if matches_subject user subject then true else matchesUser user subjects'
  end.

Section Authorizer.
Context `{Store}.

Definition getRoleReferencerules (roleRef : RoleRef) : outcome (list Rule) :=
  let name := ref_Name roleRef in
  if bytes_equal (ref_Type roleRef) (bs "Role") then
    match GetRole name with
    | inr e => Fail (Wrapf "could not retrieve the Role %s: %s" [name] (Error_text e))
    | inl None => Fail (Errorf "the Role %s is invalid" [name])
    | inl (Some role) => Ret (r_Rules role)
    end
  else if bytes_equal (ref_Type roleRef) (bs "ClusterRole") then
    match GetClusterRole name with
    | inr e => Fail (Wrapf "could not retrieve the ClusterRole %s: %s" [name] (Error_text e))
    | inl None => Fail (Errorf "the ClusterRole %s is invalid" [name])
    | inl (Some clusterRole) => Ret (cr_Rules clusterRole)
    end
  else Fail (Errorf "unsupported role reference type: %s" [ref_Type roleRef]).

Fixpoint inspect_rules (attrs : Attributes) (rules : list Rule) : bool :=
  match rules with
  | [] => false
  | rule :: rules' => let '(allowed, _) := ruleAllows attrs rule in
                      if allowed then true else inspect_rules attrs rules'
  end.

(** The loop over the bindings, the same for both kinds; a nil request is
    dereferenced at the first binding. *)
Fixpoint inspect_bindings {B} `{Binding B} (attrs : option Attributes) (bindings : list B) : outcome bool :=
  match bindings with
  | [] => Ret false
  | b :: bindings' =>
      match attrs with
      | None => Panic
      | Some a =>
          if negb (matchesUser (at_User a) (Subjects b)) then inspect_bindings attrs bindings'
          else
            rules ← getRoleReferencerules (binding_ref b);
            if inspect_rules a rules then Ret true else inspect_bindings attrs bindings'
      end
  end.

(** The bindings of the store; none when the error is [ErrNotFound]. *)
Definition listed {B} (r : list B + store_error) : outcome (list B) :=
  match r with
  | inl l => Ret l
  | inr (ErrNotFound _) => Ret []
  | inr e => Fail (Error_text e)
  end.

Definition Authorize (attrs : option Attributes) : outcome bool :=
  clusterRoleBindings ← listed ListClusterRoleBindings;
  allowed ← inspect_bindings attrs clusterRoleBindings;
  if (allowed : bool) then Ret true
  else
    match attrs with
    | None => Panic
    | Some a =>
        if negb (is_empty (at_Namespace a)) then
          roleBindings ← listed ListRoleBindings;
          inspect_bindings attrs roleBindings
        else Ret false
    end.
End Authorizer.
