(* ===== verification/RbacGuarantees.v ===== *)
(** * What the authorizer decides, and in which order *)

From S2P Require Import Prelude GoStd GoStdFacts GoTime TimeWindow Sensu StoreKeys Rbac.

(* ------------------------------------------------------------------ *)
(** ** Rules and subjects *)

(** A word that a list names, or allows by its wildcard. *)
Definition named_or_all (l : list bytes) (x : bytes) : Prop := x ∈ l ∨ bs "*" ∈ l.

(** The meaning of a rule. *)
Record rule_allows (a : Attributes) (r : Rule) : Prop := {
  allows_verb : named_or_all (Verbs r) (Verb a);
  allows_resource : named_or_all (Resources r) (Resource a);
  allows_name : ResourceNames r = [] ∨ ResourceName a ∈ ResourceNames r
}.

(** The meaning of a subject. *)
Definition is_subject (u : User) (s : Subject) : Prop :=
  (sub_Type s = bs "User" ∧ sub_Name s = Username u) ∨ (sub_Type s = bs "Group" ∧ sub_Name s ∈ Groups u).

Lemma existsb_equal_r l x : existsb (λ y, bytes_equal y x) l = true ↔ x ∈ l.
Proof.
  rewrite existsb_exists. split.
  - intros (y & Hy & E%bytes_equal_true). subst. by apply list_elem_of_In.
  - intros Hx. exists x. split; [by apply list_elem_of_In|by apply bytes_equal_true].
Qed.

Lemma matches_or_all_iff all x l : matches_or_all all x l = true ↔ x ∈ l ∨ all ∈ l.
Proof.
  induction l as [|y l IH]; cbn [matches_or_all]; [split; [done|intros [H|H]; by apply elem_of_nil in H]|].
  rewrite !elem_of_cons. destruct (bytes_equal y all) eqn:E1; [apply bytes_equal_true in E1; naive_solver|].
  destruct (bytes_equal y x) eqn:E2; [apply bytes_equal_true in E2; naive_solver|].
  apply bytes_equal_false in E1, E2. rewrite IH. naive_solver.
Qed.

Lemma ResourceNameMatches_iff r x : ResourceNameMatches r x = true ↔ ResourceNames r = [] ∨ x ∈ ResourceNames r.
Proof.
  unfold ResourceNameMatches. destruct (ResourceNames r) as [|n names]; [naive_solver|].
  rewrite existsb_equal_r. naive_solver.
Qed.

Lemma ruleAllows_iff a r : (ruleAllows a r).1 = true ↔ rule_allows a r.
Proof.
  assert ((ruleAllows a r).1 =
    VerbMatches r (Verb a) && ResourceMatches r (Resource a) && ResourceNameMatches r (ResourceName a)) as ->.
  { unfold ruleAllows. by destruct (VerbMatches _ _), (ResourceMatches _ _), (ResourceNameMatches _ _). }
  rewrite !andb_true_iff. unfold VerbMatches, ResourceMatches.
  rewrite !matches_or_all_iff, ResourceNameMatches_iff.
  split; [by intros [[H1 H2] H3]|by intros [H1 H2 H3]].
Qed.

Lemma inspect_rules_iff a l : inspect_rules a l = true ↔ Exists (rule_allows a) l.
Proof.
  induction l as [|r l IH]; cbn [inspect_rules]; [rewrite Exists_nil; naive_solver|].
  rewrite Exists_cons, <- ruleAllows_iff. destruct (ruleAllows a r) as [[|] t]; cbn [fst]; naive_solver.
Qed.

Lemma matchesUser_iff u l : matchesUser u l = true ↔ Exists (is_subject u) l.
Proof.
  induction l as [|s l IH]; cbn [matchesUser]; [rewrite Exists_nil; naive_solver|].
  assert (matches_subject u s = true ↔ is_subject u s) as Hs; [|rewrite Exists_cons, <- Hs;
    destruct (matches_subject u s); naive_solver].
  unfold matches_subject, is_subject. destruct (bytes_equal (sub_Type s) (bs "User")) eqn:E.
  { apply bytes_equal_true in E. rewrite E, bytes_equal_true. split; [by left|]. intros [[_ H]|[H _]]; [done|discriminate H]. }
  apply bytes_equal_false in E. destruct (bytes_equal (sub_Type s) (bs "Group")) eqn:E'.
  - apply bytes_equal_true in E'. rewrite existsb_equal_r. naive_solver.
  - apply bytes_equal_false in E'. naive_solver.
Qed.

(* ------------------------------------------------------------------ *)
(** ** Bindings *)

Section Authorizer.
Context `{Store}.

(** A binding concerns a user, and grants a request by a rule of its role. *)
Definition concerns {B} `{Binding B} (a : Attributes) (b : B) : Prop := Exists (is_subject (at_User a)) (Subjects b).
Definition grants {B} `{Binding B} (a : Attributes) (b : B) : Prop :=
  concerns a b ∧ ∃ rules, getRoleReferencerules (binding_ref b) = Ret rules ∧ Exists (rule_allows a) rules.

(** A binding the loop passes by: of another user, or whose role is there
    and does not allow the request. *)
Definition passes {B} `{Binding B} (a : Attributes) (b : B) : Prop :=
  concerns a b → ∃ rules, getRoleReferencerules (binding_ref b) = Ret rules ∧ ¬ Exists (rule_allows a) rules.

(** A binding whose role cannot be had. *)
Definition breaks {B} `{Binding B} (a : Attributes) (e : error) (b : B) : Prop :=
  concerns a b ∧ getRoleReferencerules (binding_ref b) = Fail e.

(** The first binding that does not pass. *)
Definition first_is {B} `{Binding B} (a : Attributes) (P : B → Prop) (l : list B) : Prop :=
  ∃ l1 b l2, l = l1 ++ b :: l2 ∧ Forall (passes a) l1 ∧ P b.

Lemma rules_no_panic ref : getRoleReferencerules ref ≠ Panic.
Proof.
  unfold getRoleReferencerules. destruct (bytes_equal _ _); [by destruct (GetRole _) as [[]|]|].
  destruct (bytes_equal _ _); [by destruct (GetClusterRole _) as [[]|]|done].
Qed.

Lemma binding_cases {B} `{Binding B} a (b : B) : grants a b ∨ passes a b ∨ ∃ e, breaks a e b.
Proof.
  destruct (matchesUser (at_User a) (Subjects b)) eqn:Em.
  - apply matchesUser_iff in Em. destruct (getRoleReferencerules (binding_ref b)) as [rules|e|] eqn:Er.
    + destruct (inspect_rules a rules) eqn:Ei.
      * left. split; [done|]. exists rules. split; [done|]. by apply inspect_rules_iff.
      * right. left. intros _. exists rules. split; [done|]. rewrite <- inspect_rules_iff. by rewrite Ei.
    + right. right. by exists e.
    + by apply rules_no_panic in Er.
  - right. left. intros Hc. apply matchesUser_iff in Hc. congruence.
Qed.

Lemma inspect_step {B} `{Binding B} a (b : B) l :
  (grants a b → inspect_bindings (Some a) (b :: l) = Ret true) ∧
  (passes a b → inspect_bindings (Some a) (b :: l) = inspect_bindings (Some a) l) ∧
  (∀ e, breaks a e b → inspect_bindings (Some a) (b :: l) = Fail e).
Proof.
  cbn [inspect_bindings]. split_and!.
  - intros [Hc (rules & Er & Hr)]. rewrite (proj2 (matchesUser_iff _ _) Hc), Er. cbn.
    by rewrite (proj2 (inspect_rules_iff _ _) Hr).
  - intros Hp. destruct (matchesUser _ _) eqn:Em; [|done]. cbn.
    destruct (Hp (proj1 (matchesUser_iff _ _) Em)) as (rules & Er & Hr). rewrite Er. cbn.
    destruct (inspect_rules a rules) eqn:Ei; [|done]. by apply inspect_rules_iff in Ei.
  - intros e [Hc Er]. by rewrite (proj2 (matchesUser_iff _ _) Hc), Er.
Qed.

(** The loop finds the first binding that decides. *)
Lemma inspect_cases {B} `{Binding B} a (l : list B) :
  (first_is a (grants a) l ∧ inspect_bindings (Some a) l = Ret true) ∨
  (Forall (passes a) l ∧ inspect_bindings (Some a) l = Ret false) ∨
  (∃ e, first_is a (breaks a e) l ∧ inspect_bindings (Some a) l = Fail e).
Proof.
  induction l as [|b l IH]; [by right; left|].
  destruct (inspect_step a b l) as (Hg & Hp & Hb). destruct (binding_cases a b) as [H'|[H'|[e H']]].
  - left. split; [by exists [], b, l|by apply Hg].
  - rewrite (Hp H'). destruct IH as [[(l1 & b' & l2 & -> & Hl & Hx) E]|[[Hl E]|(e & (l1 & b' & l2 & -> & Hl & Hx) & E)]].
    + left. split; [|done]. exists (b :: l1), b', l2. split_and!; [done|by constructor|done].
    + right. left. split; [by constructor|done].
    + right. right. exists e. split; [|done]. exists (b :: l1), b', l2. split_and!; [done|by constructor|done].
  - right. right. exists e. split; [by exists [], b, l|by apply Hb].
Qed.

Lemma inspect_passes {B} `{Binding B} a (l1 l2 : list B) : Forall (passes a) l1 →
  inspect_bindings (Some a) (l1 ++ l2) = inspect_bindings (Some a) l2.
Proof. induction 1 as [|b l1 Hb _ IH]; [done|]. cbn [app]. by rewrite (proj1 (proj2 (inspect_step a b _))). Qed.

(** The results of the loop. *)
Record loop_spec {B} `{Binding B} (a : Attributes) (l : list B) : Prop := {
  loop_true : inspect_bindings (Some a) l = Ret true ↔ first_is a (grants a) l;
  loop_false : inspect_bindings (Some a) l = Ret false ↔ Forall (passes a) l;
  loop_fail e : inspect_bindings (Some a) l = Fail e ↔ first_is a (breaks a e) l;
  loop_no_panic : inspect_bindings (Some a) l ≠ Panic
}.

Lemma inspect_spec {B} `{Binding B} a (l : list B) : loop_spec a l.
Proof.
  assert (first_is a (grants a) l → inspect_bindings (Some a) l = Ret true) as Ht.
  { intros (l1 & b & l2 & -> & Hl & Hb). rewrite inspect_passes by done. by apply inspect_step. }
  assert (∀ e, first_is a (breaks a e) l → inspect_bindings (Some a) l = Fail e) as He.
  { intros e (l1 & b & l2 & -> & Hl & Hb). rewrite inspect_passes by done. by apply inspect_step. }
  assert (Forall (passes a) l → inspect_bindings (Some a) l = Ret false) as Hf.
  { intros Hl. rewrite <- (app_nil_r l). by rewrite inspect_passes. }
  destruct (inspect_cases a l) as [[H' E]|[[H' E]|(e & H' & E)]];
    (split; [| |intros e'|by rewrite E]);
    (split; [rewrite E; intros E'; try discriminate E'; try injection E' as <-; exact H'|auto]).
Qed.

(** No two verdicts at once. *)
Lemma verdict_unique {B} `{Binding B} a (b : B) :
  (grants a b → ¬ passes a b) ∧ (∀ e, breaks a e b → ¬ passes a b ∧ ¬ grants a b).
Proof.
  split; [intros [Hc (r & Er & Hr)] Hp; destruct (Hp Hc) as (r' & Er' & Hr'); congruence|].
  intros e [Hc Er]. split; [intros Hp; destruct (Hp Hc) as (r' & Er' & Hr'); congruence|].
  intros [_ (r & Er' & _)]. congruence.
Qed.

(** Without broken bindings the order does not matter. *)
Definition unbroken {B} `{Binding B} (a : Attributes) (l : list B) : Prop := ∀ b e, b ∈ l → ¬ breaks a e b.

Lemma inspect_unbroken {B} `{Binding B} a (l : list B) : unbroken a l →
  ∃ v, inspect_bindings (Some a) l = Ret v ∧ (v = true ↔ ∃ b, b ∈ l ∧ grants a b).
Proof.
  intros Hu. destruct (inspect_cases a l) as [[(l1 & b & l2 & -> & _ & Hg) E]|[[Hl E]|(e & (l1 & b & l2 & -> & _ & Hb) & _)]].
  - exists true. split; [done|]. split; [|done]. intros _. exists b. split; [set_solver|done].
  - exists false. split; [done|]. split; [done|]. intros (b & Hb & Hg). rewrite Forall_forall in Hl.
    by destruct (proj1 (verdict_unique a b) Hg (Hl b Hb)).
  - exfalso. apply (Hu b e); [set_solver|exact Hb].
Qed.

Lemma listed_no_panic {B} (r : list B + store_error) : listed r ≠ Panic.
Proof. by destruct r as [|[]]. Qed.

Lemma ex_Ret {A} (x : A) (P : A → Prop) : (∃ y, Ret x = Ret y ∧ P y) ↔ P x.
Proof. naive_solver. Qed.
Lemma ex_Ret_and {A} (x : A) (Q : Prop) (P : A → Prop) : (∃ y, (Q ∧ Ret x = Ret y) ∧ P y) ↔ Q ∧ P x.
Proof. naive_solver. Qed.

End Authorizer.

(** C29: the authorizer never panics on a request, and its answers are exactly
    these. It allows a request that the first deciding cluster binding
    grants, or that, in a namespace, the first deciding binding of the
    namespace grants after all cluster bindings were passed by; it refuses
    when all bindings were passed by; and it fails with the error of a store
    that cannot list, or of the first binding of the user whose role cannot
    be had. A binding grants by a rule of its role that names the verb and
    the resource, or all, and the name of the resource or no names. *)
Theorem authorize_exact `{Store} (a : Attributes) :
  let cluster l := listed ListClusterRoleBindings = Ret l in
  let local l := at_Namespace a ≠ [] ∧ listed ListRoleBindings = Ret l in
  let passed_cluster := ∃ l, cluster l ∧ Forall (passes a) l in
  Authorize (Some a) ≠ Panic ∧
  (Authorize (Some a) = Ret true ↔
     (∃ l, cluster l ∧ first_is a (grants a) l) ∨
     (passed_cluster ∧ ∃ l, local l ∧ first_is a (grants a) l)) ∧
  (Authorize (Some a) = Ret false ↔
     passed_cluster ∧ (at_Namespace a = [] ∨ ∃ l, local l ∧ Forall (passes a) l)) ∧
  (∀ e, Authorize (Some a) = Fail e ↔
     listed ListClusterRoleBindings = Fail e ∨
     (∃ l, cluster l ∧ first_is a (breaks a e) l) ∨
     (passed_cluster ∧ at_Namespace a ≠ [] ∧ listed ListRoleBindings = Fail e) ∨
     (passed_cluster ∧ ∃ l, local l ∧ first_is a (breaks a e) l)).
Proof.
  intros cluster local passed_cluster. subst cluster local passed_cluster. cbn beta. unfold Authorize.
  pose proof (listed_no_panic ListClusterRoleBindings) as Hc. pose proof (listed_no_panic ListRoleBindings) as Hr.
  destruct (listed ListClusterRoleBindings) as [cl|ec|]; cbn [mbind outcome_bind]; [|naive_solver|done].
  destruct (inspect_spec a cl) as [Ct Cf Ce Cp]. repeat setoid_rewrite ex_Ret. setoid_rewrite <- Ct. setoid_rewrite <- Cf.
  setoid_rewrite <- Ce. clear Ct Cf Ce.
  destruct (inspect_bindings (Some a) cl) as [[|]|e|]; cbn [mbind outcome_bind]; [naive_solver| |naive_solver|done].
  destruct (at_Namespace a) as [|c ns]; cbn [is_empty negb]; [naive_solver|].
  destruct (listed ListRoleBindings) as [rl|er|]; cbn [mbind outcome_bind]; [|naive_solver|done].
  destruct (inspect_spec a rl) as [Rt Rf Re Rp]. repeat setoid_rewrite ex_Ret_and. setoid_rewrite <- Rt. setoid_rewrite <- Rf. setoid_rewrite <- Re.
  clear Rt Rf Re. destruct (inspect_bindings (Some a) rl) as [[|]|e|]; naive_solver.
Qed.

(** A store with other bindings, and the same roles. *)
Definition with_bindings (s : Store) (cl : list ClusterRoleBinding) (rl : list RoleBinding) : Store :=
  {| ListClusterRoleBindings := inl cl; ListRoleBindings := inl rl; GetClusterRole := GetClusterRole;
     GetRole := GetRole |}.

(** When the roles of all bindings are there, the answer does not depend
    on the order in which the store lists the bindings: a request is allowed
    exactly when some cluster binding grants it, or, in a namespace, some
    binding of the namespace; so that more bindings never take a grant away. *)
Theorem authorize_order (s : Store) (a : Attributes) (cl cl' : list ClusterRoleBinding) (rl rl' : list RoleBinding) :
  cl ≡ₚ cl' → rl ≡ₚ rl' → unbroken a cl → unbroken a rl →
  ∃ v, @Authorize (with_bindings s cl rl) (Some a) = Ret v ∧
    @Authorize (with_bindings s cl' rl') (Some a) = Ret v ∧
    (v = true ↔ (∃ b, b ∈ cl ∧ grants a b) ∨ (at_Namespace a ≠ [] ∧ ∃ b, b ∈ rl ∧ grants a b)).
Proof.
  intros Hc Hr Uc Ur.
  assert (∀ cl' rl', cl ≡ₚ cl' → rl ≡ₚ rl' → ∃ v, @Authorize (with_bindings s cl' rl') (Some a) = Ret v ∧
    (v = true ↔ (∃ b, b ∈ cl ∧ grants a b) ∨ (at_Namespace a ≠ [] ∧ ∃ b, b ∈ rl ∧ grants a b))) as HA.
  { clear - Uc Ur. intros cl' rl' Hc Hr. unfold Authorize. cbn [listed with_bindings ListClusterRoleBindings ListRoleBindings mbind outcome_bind].
    destruct (@inspect_unbroken (with_bindings s cl' rl') _ _ a cl') as (vc & -> & Vc); [intros b e Hb; apply (Uc b e); by rewrite Hc|].
    setoid_rewrite Hc. setoid_rewrite Hr. cbn [mbind outcome_bind].
    destruct vc; [exists true; split; [done|]; split; [intros _; left; by apply Vc|done]|].
    assert (¬ ∃ b, b ∈ cl' ∧ grants a b) as Hn by (intros Hg; by apply Vc in Hg).
    destruct (at_Namespace a) as [|c ns]; cbn [is_empty negb]; [exists false; naive_solver|].
    destruct (@inspect_unbroken (with_bindings s cl' rl') _ _ a rl') as (vr & -> & Vr); [intros b e Hb; apply (Ur b e); by rewrite Hr|].
    exists vr. split; [done|]. rewrite Vr. split; [intros H; by right|intros [H|[_ H]]; [done|exact H]]. }
  destruct (HA cl' rl' Hc Hr) as (v' & E' & V'). destruct (HA cl rl) as (v & E & V); [done|done|].
  exists v. split; [done|]. split; [|done]. rewrite E'. f_equal. destruct v, v'; naive_solver.
Qed.

(** A store of one role, and a request to read checks. *)
Definition toy_role : Role :=
  MkRole [MkRule [bs "get"; bs "list"] [bs "checks"] []] (MkMeta (bs "reader") (bs "default") None None).
Definition toy_store : Store :=
  {| ListClusterRoleBindings := inr (ErrNotFound (bs "/sensu.io/rbac/clusterrolebindings"));
     ListRoleBindings := inl [];
     GetClusterRole name := inr (ErrNotFound name);
     GetRole name := if bytes_equal name (bs "reader") then inl (Some toy_role) else inr (ErrNotFound name) |}.
Definition toy_binding (subject : Subject) : RoleBinding :=
  MkRoleBinding [subject] (MkRoleRef (bs "Role") (bs "reader")) (MkMeta (bs "readers") (bs "default") None None).
Definition toy_attributes : Attributes :=
  MkAttributes [] [] (bs "default") (bs "checks") (bs "cpu") (MkUser (bs "ann") [] [bs "ops"] false) (bs "get").

Lemma authorize_order_witness :
  let bob := toy_binding (MkSubject (bs "User") (bs "bob")) in
  let ops := toy_binding (MkSubject (bs "Group") (bs "ops")) in
  (∃ v, @Authorize (with_bindings toy_store [] [bob; ops]) (Some toy_attributes) = Ret v ∧
     @Authorize (with_bindings toy_store [] [ops; bob]) (Some toy_attributes) = Ret v ∧
     (v = true ↔ (∃ b : ClusterRoleBinding, b ∈ [] ∧ @grants toy_store _ _ toy_attributes b) ∨
        (at_Namespace toy_attributes ≠ [] ∧ ∃ b, b ∈ [bob; ops] ∧ @grants toy_store _ _ toy_attributes b))) ∧
  @Authorize (with_bindings toy_store [] [bob; ops]) (Some toy_attributes) = Ret true.
Proof.
  intros bob ops. split; [|by vm_compute].
  apply (authorize_order toy_store toy_attributes [] [] [bob; ops] [ops; bob]).
  - reflexivity.
  - apply perm_swap.
  - intros b e Hb. by apply elem_of_nil in Hb.
  - intros b e Hb [_ Hf]. rewrite !elem_of_cons in Hb.
    destruct Hb as [->|[->|Hb]]; [discriminate Hf|discriminate Hf|by apply elem_of_nil in Hb].
Defined.

(** A binding whose role is not there stops the search, even when a later
    one grants the request. *)
Lemma broken_binding_stops :
  let ops := toy_binding (MkSubject (bs "Group") (bs "ops")) in
  let gone := MkRoleBinding [MkSubject (bs "User") (bs "ann")] (MkRoleRef (bs "Role") (bs "gone")) (rb_Meta ops) in
  @Authorize (with_bindings toy_store [] [gone; ops]) (Some toy_attributes) =
    Fail (Wrapf "could not retrieve the Role %s: %s" [bs "gone"] (Errorf "key %s not found" [bs "gone"])) ∧
  @Authorize (with_bindings toy_store [] [ops; gone]) (Some toy_attributes) = Ret true.
Proof. split; vm_compute; reflexivity. Qed.
