(* ===== verification/EtcdClient.v ===== *)
(** * The client of etcd, which the backend's store calls

    It is third-party code: an interface, with the documented behaviour of
    its calls as laws. What [clientv3] documents of transactions, ranges and
    prefixes is written out on a map of keys. *)

From S2P Require Import Prelude GoStd.

(* ------------------------------------------------------------------ *)
(** ** Requests and responses *)

(** [Compare(CreateRevision(key), ">", 0)] and the like: whether a key is
    there; [Version] of a key is positive just when it is there too. *)
Inductive cmp := key_there (key : bytes) | key_absent (key : bytes).

(** The keys of a request: one key, the keys with its prefix
    ([WithPrefix]), or the keys up to another one ([WithRange]). *)
Inductive range_end := one_key | with_prefix | with_range (end_ : bytes).

Record get_request := MkGet { g_Key : bytes; g_End : range_end; g_Limit : Z; g_CountOnly : bool }.
Inductive op := OpGet (r : get_request) | OpPut (key value : bytes).

Record range_response := MkRangeResponse { Kvs : list (bytes * bytes); Count : Z }.
Inductive op_response := range_result (r : range_response) | put_result.
Record txn_response := MkTxnResponse { Succeeded : bool; Responses : list op_response }.

(** [GetResponseRange]; its fields are read without a test for nil. *)
Definition GetResponseRange (r : op_response) : option range_response :=
  match r with range_result r => Some r | put_result => None end.

(** [clientv3.Client]. *)
Class Etcd (St : Type) := {
  etcd_Txn : list cmp → list op → list op → St → (txn_response + error) * St;
  etcd_Get : get_request → St → (range_response + error) * St;
  etcd_Put : bytes → bytes → St → (() + error) * St;
  etcd_Delete : bytes → range_end → St → (Z + error) * St;
  GetPrefixRangeEnd : bytes → bytes
}.

(* ------------------------------------------------------------------ *)
(** ** What etcd documents *)

Definition in_range_of (key : bytes) (end_ : range_end) (k : bytes) : bool :=
  match end_ with
  | one_key => bytes_equal k key
  | with_prefix => has_prefix k key
  | with_range e => negb (bytes_ltb k key) && bytes_ltb k e
  end.

(** The keys of a range, in order. *)
Definition range_keys (m : gmap bytes bytes) (key : bytes) (end_ : range_end) : list bytes :=
  sort bytes_ltb (List.filter (in_range_of key end_) (map_to_list m).*1).

Definition range_of_map (m : gmap bytes bytes) (r : get_request) : range_response :=
  let keys := range_keys m (g_Key r) (g_End r) in
  let kvs := map (λ k, (k, default [] (m !! k))) keys in
  MkRangeResponse
    (if g_CountOnly r then [] else if (g_Limit r =? 0)%Z then kvs else take (Z.to_nat (g_Limit r)) kvs)
    (Z.of_nat (length keys)).

Definition holds (m : gmap bytes bytes) (c : cmp) : bool :=
  match c with
  | key_there k => match m !! k with Some _ => true | None => false end
  | key_absent k => match m !! k with Some _ => false | None => true end
  end.

Fixpoint run_ops (m : gmap bytes bytes) (ops : list op) : list op_response * gmap bytes bytes :=
  match ops with
  | [] => ([], m)
  | OpGet r :: ops' => let '(rs, m') := run_ops m ops' in (range_result (range_of_map m r) :: rs, m')
  | OpPut k v :: ops' => let '(rs, m') := run_ops (<[k := v]> m) ops' in (put_result :: rs, m')
  end.

(** A transaction answers with the results of the branch it takes. *)
Definition txn_on_map (m : gmap bytes bytes) (cmps : list cmp) (thens elses : list op)
  : txn_response * gmap bytes bytes :=
  let succeeded := forallb (holds m) cmps in
  let '(rs, m') := run_ops m (if succeeded then thens else elses) in
  (MkTxnResponse succeeded rs, m').

Definition delete_on_map (m : gmap bytes bytes) (key : bytes) (end_ : range_end) : Z * gmap bytes bytes :=
  let keys := range_keys m key end_ in
  (Z.of_nat (length keys), foldr delete m keys).

(** The end of the keys with a prefix: the prefix with its last byte below
    255 increased. *)
Definition next_byte (c : ascii) : ascii := ascii_of_N (N_of_ascii c + 1).
Fixpoint bump (rev_prefix : bytes) : bytes :=
  match rev_prefix with
  | [] => []
  | c :: q => if (N_of_ascii c =? 255)%N then bump q else rev (next_byte c :: q)
  end.
Definition prefix_end (p : bytes) : bytes := bump (rev p).

(** The behaviour documented, of the calls that succeed. *)
Class EtcdLaws (St : Type) `{Etcd St} := {
  contents : St → gmap bytes bytes;
  txn_law cmps thens elses s r s' : etcd_Txn cmps thens elses s = (inl r, s') →
    (r, contents s') = txn_on_map (contents s) cmps thens elses;
  get_law r s resp s' : etcd_Get r s = (inl resp, s') →
    resp = range_of_map (contents s) r ∧ contents s' = contents s;
  put_law k v s u s' : etcd_Put k v s = (inl u, s') → contents s' = <[k := v]> (contents s);
  delete_law k e s n s' : etcd_Delete k e s = (inl n, s') →
    (n, contents s') = delete_on_map (contents s) k e;
  prefix_end_law p k : Exists (λ c, N_of_ascii c ≠ 255%N) p → bytes_ltb k p = false →
    bytes_ltb k (GetPrefixRangeEnd p) = has_prefix k p
}.

(** The keys between a prefix and its end are those that have it. *)
Definition top (c : ascii) : Prop := N_of_ascii c = 255%N.

Lemma bump_spec p : Exists (λ c, N_of_ascii c ≠ 255%N) p →
  ∃ q c tops, rev p = tops ++ c :: rev q ∧ N_of_ascii c ≠ 255%N ∧ Forall top tops ∧
    bump (rev p) = q ++ [next_byte c].
Proof.
  intros H. apply Exists_rev in H. induction H as [c l Hc|c l _ (q & d & tops & -> & Hd & Ht & E)].
  - exists (rev l), c, []. rewrite rev_involutive. cbn [bump]. rewrite (proj2 (N.eqb_neq _ _)) by done. repeat split; try done.
  - destruct (N.eqb_spec (N_of_ascii c) 255) as [Hc|Hc].
    + exists q, d, (c :: tops). cbn [bump]. rewrite (proj2 (N.eqb_eq _ _)) by done. repeat split; try done. by constructor.
    + exists (rev (tops ++ d :: rev q)), c, []. rewrite rev_involutive. cbn [bump].
      rewrite (proj2 (N.eqb_neq _ _)) by done. repeat split; try done.
Qed.

Lemma has_prefix_tops tops : Forall top tops → ∀ k, bytes_ltb k tops = false → has_prefix k tops = true.
Proof.
  induction 1 as [|c tops Hc _ IH]; intros k H; [by destruct k|]. destruct k as [|d k]; [done|].
  unfold bytes_ltb in H. cbn [bytes_compare] in H. cbn [has_prefix]. pose proof (N_ascii_bounded d) as Hd. rewrite Hc in H.
  destruct (N.compare_spec (N_of_ascii d) 255) as [E|E|E]; [|done|lia].
  rewrite <- Hc in E. apply (f_equal ascii_of_N) in E. rewrite !ascii_N_embedding in E. subst d.
  rewrite Ascii.eqb_refl. by apply IH.
Qed.

Lemma prefix_end_ok p k : Exists (λ c, N_of_ascii c ≠ 255%N) p → bytes_ltb k p = false →
  bytes_ltb k (prefix_end p) = has_prefix k p.
Proof.
  intros (q & c & tops & Ep & Hc & Ht & E)%bump_spec. unfold prefix_end. rewrite E.
  apply (f_equal (@rev _)) in Ep. rewrite rev_involutive, rev_app_distr in Ep. cbn [rev] in Ep.
  rewrite rev_involutive, <- (assoc_L (++)) in Ep. subst p. apply Forall_rev in Ht. set (ts := rev tops) in *. clearbody ts.
  clear E. revert k. induction q as [|d q IH]; intros k H.
  - destruct k as [|e k]; [done|]. unfold bytes_ltb in *. cbn [app bytes_compare has_prefix] in *.
    pose proof (N_ascii_bounded c) as Hb. unfold next_byte. rewrite N_ascii_embedding by lia.
    destruct (N.compare_spec (N_of_ascii e) (N_of_ascii c)) as [E|E|E]; [|done|].
    + rewrite (proj2 (N.compare_lt_iff _ _)) by lia. apply (f_equal ascii_of_N) in E. rewrite !ascii_N_embedding in E.
      subst e. rewrite Ascii.eqb_refl. symmetry. by apply has_prefix_tops.
    + rewrite (proj2 (Ascii.eqb_neq e c)) by (intros ->; lia). cbn [andb].
      destruct (N.compare_spec (N_of_ascii e) (N_of_ascii c + 1)); [by destruct k|lia|done].
  - destruct k as [|e k]; [done|]. unfold bytes_ltb in *. cbn [app bytes_compare has_prefix] in *.
    destruct (N.compare_spec (N_of_ascii e) (N_of_ascii d)) as [E|E|E]; [|done|].
    + apply (f_equal ascii_of_N) in E. rewrite !ascii_N_embedding in E. subst e. rewrite Ascii.eqb_refl. by apply IH.
    + by rewrite (proj2 (Ascii.eqb_neq e d)) by (intros ->; lia).
Qed.

(** An etcd that does what is documented and never fails. *)
#[export] Instance map_etcd : Etcd (gmap bytes bytes) := {|
  etcd_Txn c t e m := let '(r, m') := txn_on_map m c t e in (inl r, m');
  etcd_Get r m := (inl (range_of_map m r), m);
  etcd_Put k v m := (inl (), <[k := v]> m);
  etcd_Delete k e m := let '(n, m') := delete_on_map m k e in (inl n, m');
  GetPrefixRangeEnd := prefix_end
|}.
#[export] Program Instance map_etcd_laws : EtcdLaws (gmap bytes bytes) := {| contents := id |}.
Next Obligation. intros c t e s r s'. cbn. destruct (txn_on_map s c t e). by intros [= -> ->]. Qed.
Next Obligation. by intros r s resp s' [= <- <-]. Qed.
Next Obligation. by intros k v s u s' [= _ <-]. Qed.
Next Obligation. intros k e s n s'. cbn. intros [= <- <-]. done. Qed.
Next Obligation. apply prefix_end_ok. Qed.
