(* ===== verification/EtcdStore.v ===== *)
(** * The store over etcd ([backend/store/etcd/store.go],
    [namespace_store.go])

    Objects are kept as bytes under their keys, by transactions that compare
    keys first. [proto.Marshal] and [unmarshal] are arguments. *)

From S2P Require Import Prelude GoStd GoNet GoTime TimeWindow Sensu StoreKeys EtcdClient.

(* ------------------------------------------------------------------ *)
(** ** Continue tokens *)

(** The zero byte that ends a token: the key behind it is the next one. *)
Definition token_end : bytes := ["000"%char].

(** [ComputeContinueToken], of a resource with metadata, of a namespace or a
    user by its name, and of an event. *)
Definition meta_token (queriedNamespace : bytes) (objMeta : ObjectMeta) : bytes :=
  if is_empty queriedNamespace then path_Join [Namespace objMeta; om_Name objMeta] ++ token_end
  else om_Name objMeta ++ token_end.
Definition name_token (name : bytes) : bytes := name ++ token_end.
Definition event_token (queriedNamespace : bytes) (event : Event) : outcome bytes :=
  match ev_Entity event, ev_Check event with
  | Some entity, Some check =>
      let name := om_Name (e_Meta entity) ++ bs "/" ++ om_Name (c_Meta check) ++ token_end in
      if is_empty queriedNamespace then
        let eventNamespace := Namespace (ev_Meta event) in
        let eventNamespace := if is_empty eventNamespace then Namespace (e_Meta entity) else eventNamespace in
        Ret (bs "/" ++ eventNamespace ++ bs "/" ++ name)
      else Ret name
  | _, _ => Panic
  end.

(* ------------------------------------------------------------------ *)
(** ** Computations of the store *)

(** A method of the store: its result, or an error with its type, or a
    panic, and the state of etcd. *)
Definition store_m (St A : Type) : Type := St → outcome (A + store_error) * St.
#[export] Instance store_ret St : MRet (store_m St) := λ A a s, (Ret (inl a), s).
#[export] Instance store_bind St : MBind (store_m St) := λ A B f m s,
  match m s with
  | (Ret (inl a), s) => f a s
  | (Ret (inr e), s) => (Ret (inr e), s)
  | (Fail e, s) => (Fail e, s)
  | (Panic, s) => (Panic, s)
  end.

Definition failing {St A} (e : store_error) : store_m St A := λ s, (Ret (inr e), s).
Definition crash {St A} : store_m St A := λ s, (Panic, s).

(** A call of the client, whose error is returned as it is. *)
Definition call {St A} (f : St → (A + error) * St) : store_m St A := λ s,
  match f s with (inl a, s) => (Ret (inl a), s) | (inr e, s) => (Ret (inr (other_error e)), s) end.

(** A result, an error of which is returned with a type. *)
Definition checked {St A} (wrap : error → store_error) (r : outcome A) : store_m St A := λ s,
  match r with
  | Ret a => (Ret (inl a), s)
  | Fail e => (Ret (inr (wrap e)), s)
  | Panic => (Panic, s)
  end.

Section Store.
Context {St : Type} `{Etcd St}.
Abbreviation store := (store_m St).

(* ------------------------------------------------------------------ *)
(** ** [store.go] *)

Definition getKey (key : bytes) : op := OpGet (MkGet key one_key 0 false).
Definition getNamespace (namespace : bytes) : op := getKey (getNamespacePath namespace).
Definition keyFound (key : bytes) : cmp := key_there key.
Definition keyNotFound (key : bytes) : cmp := key_absent key.
Definition namespaceFound (namespace : bytes) : cmp := key_there (getNamespacePath namespace).

(** The comparisons when a namespace is provided. *)
Definition namespace_guard (namespace : bytes) : list cmp :=
  if is_empty namespace then [] else [namespaceFound namespace].

(** [len(resp.Responses[i].GetResponseRange().Kvs)]. *)
Definition kvs_at (resp : txn_response) (i : nat) : store nat :=
  match Responses resp !! i with
  | Some r => match GetResponseRange r with Some range => mret (length (Kvs range)) | None => crash end
  | None => crash
  end.

(** [namespace != "" && len(resp.Responses[0]...) == 0]. *)
Definition namespace_missing (resp : txn_response) (namespace : bytes) : store bool :=
  if is_empty namespace then mret false
  else n ← kvs_at resp 0; mret (n =? 0)%nat.

Section Objects.
(** A type of objects, with [proto.Marshal] and [unmarshal]. *)
Context {object : Type} (Marshal : object → outcome bytes) (unmarshal : bytes → outcome object).

Definition Create (key namespace : bytes) (o : object) : store () :=
  b ← checked (ErrEncode key) (Marshal o);
  resp ← call (etcd_Txn (namespace_guard namespace ++ [keyNotFound key]) [OpPut key b]
                 [getNamespace namespace; getKey key]);
  if Succeeded resp then mret ()
  else
    missing ← namespace_missing resp namespace;
    if (missing : bool) then failing (ErrNamespaceMissing namespace)
    else
      n ← kvs_at resp 1;
      if negb (n =? 0)%nat then failing (ErrAlreadyExists key)
      else failing (ErrInternal (Errorf "could not create the key %s" [key])).

Definition CreateOrUpdate (key namespace : bytes) (o : object) : store () :=
  b ← checked (ErrEncode key) (Marshal o);
  resp ← call (etcd_Txn (namespace_guard namespace) [OpPut key b] []);
  if Succeeded resp then mret ()
  else
    missing ← namespace_missing resp namespace;
    if (missing : bool) then failing (ErrNamespaceMissing namespace)
    else failing (ErrInternal (Errorf "could not update the key %s" [key])).

Definition Update (key namespace : bytes) (o : object) : store () :=
  b ← checked (ErrEncode key) (Marshal o);
  resp ← call (etcd_Txn (namespace_guard namespace ++ [keyFound key]) [OpPut key b]
                 [getNamespace namespace; getKey key]);
  if Succeeded resp then mret ()
  else
    missing ← namespace_missing resp namespace;
    if (missing : bool) then failing (ErrNamespaceMissing namespace)
    else
      n ← kvs_at resp 1;
      if (n =? 0)%nat then failing (ErrNotFound key)
      else failing (ErrInternal (Errorf "could not update the key %s" [key])).

Definition Get (key : bytes) : store object :=
  resp ← call (etcd_Get (MkGet key one_key 1 false));
  match Kvs resp with
  | [] => failing (ErrNotFound key)
  | (_, v) :: _ => checked (ErrDecode key) (unmarshal v)
  end.
End Objects.

Definition Delete (key : bytes) : store () :=
  deleted ← call (etcd_Delete key one_key);
  if (deleted =? 0)%Z then failing (ErrNotFound key)
  else if (1 <? deleted)%Z then
    failing (ErrInternal (Errorf "expected to delete exactly 1 key, deleted %d" [format_int deleted]))
  else mret ().

(** [Count], for the end of the range of a prefix ([GetPrefixRangeEnd]). *)
Definition Count_ (key : bytes) : store Z :=
  resp ← call (etcd_Get (MkGet key with_prefix 0 true)); mret (Count resp).

(** [strings.HasSuffix(key, "/")]. *)
Definition ends_with_slash (key : bytes) : bool :=
  match last key with Some c => c =c "/" | None => false end.

Section Listing.
(** A type of objects: [unmarshal], the labels and annotations that are set
    where they are nil, and [ComputeContinueToken]. *)
Context {object : Type} (unmarshal : bytes → outcome object) (init : object → object) (token : object → outcome bytes).

Fixpoint read_objects (key : bytes) (kvs : list (bytes * bytes)) : store (list object) :=
  match kvs with
  | [] => mret []
  | (_, v) :: kvs' =>
      o ← checked (ErrDecode key) (unmarshal v);
      objects ← read_objects key kvs';
      mret (init o :: objects)
  end.

(** [List], of the keys with a prefix ([keyBuilder(ctx, "")]), from the
    continue token of the predicate; with the objects the next token. *)
Definition List (keyPrefix continue : bytes) (limit : Z) : store (list object * bytes) :=
  let key :=
    if negb (is_empty continue) then path_Join [keyPrefix; continue]
    else if ends_with_slash keyPrefix then keyPrefix else keyPrefix ++ bs "/" in
  resp ← call (etcd_Get (MkGet key (with_range (GetPrefixRangeEnd keyPrefix)) limit false));
  objects ← read_objects key (Kvs resp);
  if negb (limit =? 0)%Z && (limit <? Count resp)%Z then
    match last objects with
    | Some o => t ← checked other_error (token o); mret (objects, t)
    | None => crash
    end
  else mret (objects, []).
End Listing.

(* ------------------------------------------------------------------ *)
(** ** [namespace_store.go] *)

Section Namespaces.
Context (Marshal_namespace : bytes → outcome bytes) (unmarshal_namespace : bytes → outcome bytes).

(** A namespace has a name only. *)
Definition Validate_namespace (name : bytes) : option error :=
  prefix_error "namespace name %s" (ValidateName name).

Definition CreateNamespace (name : bytes) : store () :=
  _ ← checked other_error (of_error (Validate_namespace name));
  b ← checked other_error (Marshal_namespace name);
  let key := getNamespacePath name in
  res ← call (etcd_Txn [key_absent key] [OpPut key b] []);
  if negb (Succeeded res) then failing (other_error (Errorf "could not create the namespace %s" [name]))
  else mret ().

Definition UpdateNamespace (name : bytes) : store () :=
  _ ← checked other_error (of_error (Validate_namespace name));
  b ← checked other_error (Marshal_namespace name);
  call (etcd_Put (getNamespacePath name) b).

(** The loop over the counts. *)
Fixpoint any_left (responses : list op_response) : store bool :=
  match responses with
  | [] => mret false
  | r :: responses' =>
      match GetResponseRange r with
      | None => crash
      | Some range => if (0 <? Count range)%Z then mret true else any_left responses'
      end
  end.

Definition DeleteNamespace (name : bytes) : store () :=
  if is_empty name then failing (other_error (Errorf "must specify name" []))
  else
    let count b := OpGet (MkGet (Build (WithNamespace b name) []) with_prefix 0 true) in
    getresp ← call (etcd_Txn [] (map count [checkKeyBuilder; entityKeyBuilder; assetKeyBuilder;
                                            handlerKeyBuilder; mutatorKeyBuilder]) []);
    left ← any_left (Responses getresp);
    if (left : bool) then failing (other_error (Errorf "namespace is not empty" []))
    else
      deleted ← call (etcd_Delete (getNamespacePath name) with_prefix);
      if negb (deleted =? 1)%Z then failing (other_error (Errorf "namespace %s does not exist" [name]))
      else mret ().

(** A namespace that is not there is a nil pointer. *)
Definition GetNamespace (name : bytes) : store (option bytes) :=
  resp ← call (etcd_Get (MkGet (getNamespacePath name) one_key 1 false));
  match Kvs resp with
  | [] => mret None
  | (_, v) :: _ => namespace ← checked other_error (unmarshal_namespace v); mret (Some namespace)
  end.
End Namespaces.

End Store.
