(* ===== verification/EtcdStoreFacts.v ===== *)
(** * What the store does to the keys of etcd, and how it lists them by
    pages *)

From stdpp Require Import sorting.
From S2P Require Import Prelude GoStd GoStdFacts GoNet GoTime TimeWindow Sensu StoreKeys.
From S2P Require Import StoreKeysFacts EtcdClient EtcdStore.

(** The same keys, with the effects of a method written on them. *)
Definition on_map (A : Type) : Type := gmap bytes bytes → outcome (A + store_error) * gmap bytes bytes.

Section Refinement.
Context {St : Type} `{EtcdLaws St}.

(** Some call of the client fails. *)
Definition call_fails (e : error) : Prop :=
  (∃ c t el s, (etcd_Txn c t el s).1 = inr e) ∨ (∃ r s, (etcd_Get r s).1 = inr e) ∨
  (∃ k v s, (etcd_Put k v s).1 = inr e) ∨ (∃ k r s, (etcd_Delete k r s).1 = inr e).

(** A method of the store does what its specification says, unless a call of
    the client fails, whose error it returns. *)
Definition refines {A} (m : store_m St A) (spec : on_map A) : Prop :=
  ∀ s, (∃ e, call_fails e ∧ (m s).1 = Ret (inr (other_error e))) ∨
       ((m s).1, contents (m s).2) = spec (contents s).

Lemma refines_txn {A} (c : list cmp) (t e : list op) (k : txn_response → store_m St A) (spec : on_map A) :
  (∀ m s, contents s = (txn_on_map m c t e).2 →
     ((k (txn_on_map m c t e).1 s).1, contents (k (txn_on_map m c t e).1 s).2) = spec m) →
  refines (r ← call (etcd_Txn c t e); k r) spec.
Proof.
  intros Hk s. unfold mbind, store_bind, call. destruct (etcd_Txn c t e s) as [[r|err] s'] eqn:E.
  - right. apply txn_law in E. specialize (Hk (contents s) s'). rewrite <- E in Hk. by apply Hk.
  - left. exists err. split; [|done]. left. exists c, t, e, s. by rewrite E.
Qed.

Lemma refines_get {A} (g : get_request) (k : range_response → store_m St A) (spec : on_map A) :
  (∀ m s, contents s = m → ((k (range_of_map m g) s).1, contents (k (range_of_map m g) s).2) = spec m) →
  refines (r ← call (etcd_Get g); k r) spec.
Proof.
  intros Hk s. unfold mbind, store_bind, call. destruct (etcd_Get g s) as [[r|err] s'] eqn:E.
  - right. apply get_law in E as [-> E]. by apply Hk.
  - left. exists err. split; [|done]. right; left. exists g, s. by rewrite E.
Qed.

Lemma refines_delete {A} (key : bytes) (e : range_end) (k : Z → store_m St A) (spec : on_map A) :
  (∀ m s, contents s = (delete_on_map m key e).2 →
     ((k (delete_on_map m key e).1 s).1, contents (k (delete_on_map m key e).1 s).2) = spec m) →
  refines (r ← call (etcd_Delete key e); k r) spec.
Proof.
  intros Hk s. unfold mbind, store_bind, call. destruct (etcd_Delete key e s) as [[r|err] s'] eqn:E.
  - right. apply delete_law in E. specialize (Hk (contents s) s'). rewrite <- E in Hk. by apply Hk.
  - left. exists err. split; [|done]. do 3 right. exists key, e, s. by rewrite E.
Qed.

Lemma refines_checked {A B} (wrap : error → store_error) (r : outcome B) (k : B → store_m St A) (spec : B → on_map A) :
  (∀ b, r = Ret b → refines (k b) (spec b)) →
  refines (b ← checked wrap r; k b)
    (λ m, match r with Ret b => spec b m | Fail e => (Ret (inr (wrap e)), m) | Panic => (Panic, m) end).
Proof.
  intros Hk s. unfold mbind, store_bind, checked. destruct r as [b|e|]; [by apply Hk|by right|by right].
Qed.
End Refinement.

(* ------------------------------------------------------------------ *)
(** ** Single keys *)

Lemma bytes_lt_app a b : ¬ bytes_lt (a ++ b) a.
Proof.
  unfold bytes_lt. induction a as [|c a IH]; [by destruct b|]. cbn [app bytes_compare].
  by rewrite N.compare_refl.
Qed.

Definition there (m : gmap bytes bytes) (k : bytes) : bool := match m !! k with Some _ => true | None => false end.

Lemma filter_keys_NoDup (m : gmap bytes bytes) f : NoDup (List.filter f (map_to_list m).*1).
Proof. apply NoDup_ListNoDup, List.NoDup_filter, NoDup_ListNoDup, NoDup_fst_map_to_list. Qed.

Lemma elem_filter_keys (m : gmap bytes bytes) f k :
  k ∈ List.filter f (map_to_list m).*1 ↔ f k = true ∧ is_Some (m !! k).
Proof.
  rewrite list_elem_of_In, filter_In, <- list_elem_of_In, list_elem_of_fmap. split.
  - intros [([k' v] & -> & Hin%elem_of_map_to_list) Hf]. split; [done|by exists v].
  - intros [Hf [v Hv]]. split; [|done]. exists (k, v). split; [done|by apply elem_of_map_to_list].
Qed.

Lemma elem_range_keys m key e k : k ∈ range_keys m key e ↔ in_range_of key e k = true ∧ is_Some (m !! k).
Proof. unfold range_keys. by rewrite sort_perm, elem_filter_keys. Qed.

Lemma range_keys_NoDup m key e : NoDup (range_keys m key e).
Proof. unfold range_keys. rewrite sort_perm. apply filter_keys_NoDup. Qed.

Lemma range_keys_increasing m key e : increasing bytes_ltb (range_keys m key e).
Proof. apply sort_keys_increasing, filter_keys_NoDup. Qed.

(** A key that is there is the first of those it is a prefix of. *)
Lemma range_keys_first m k : is_Some (m !! k) → ∃ rest, range_keys m k with_prefix = k :: rest.
Proof.
  intros Hk. pose proof (range_keys_increasing m k with_prefix) as Hs.
  assert (k ∈ range_keys m k with_prefix) as Hin.
  { apply elem_range_keys. split; [|done]. cbn [in_range_of]. apply has_prefix_iff. exists []. by rewrite app_nil_r. }
  destruct (range_keys m k with_prefix) as [|h rest] eqn:E; [by apply elem_of_nil in Hin|]. exists rest. f_equal.
  apply elem_of_cons in Hin as [->|Hin]; [done|exfalso]. unfold increasing in Hs.
  apply StronglySorted_inv in Hs as [_ Hs]. rewrite Forall_forall in Hs. apply Hs in Hin.
  assert (h ∈ range_keys m k with_prefix) as Hh by (rewrite E; by left).
  apply elem_range_keys in Hh as [Hh _]. cbn [in_range_of] in Hh. apply has_prefix_iff in Hh as [r ->].
  rewrite bytes_ltb_lt in Hin. by apply bytes_lt_app in Hin.
Qed.

Lemma range_keys_one m k : range_keys m k one_key = if there m k then [k] else [].
Proof.
  pose proof (range_keys_NoDup m k one_key) as Hnd.
  assert (∀ x, x ∈ range_keys m k one_key ↔ x = k ∧ there m k = true) as Hx.
  { intros x. rewrite elem_range_keys. cbn [in_range_of]. rewrite bytes_equal_true. unfold there.
    split; [by intros [-> [v ->]]|]. intros [-> Ht]. destruct (m !! k); [by eauto|done]. }
  destruct (there m k).
  - assert (range_keys m k one_key ≡ₚ [k]) as Hp.
    { apply NoDup_Permutation; [done|apply NoDup_singleton|]. intros x. rewrite Hx, list_elem_of_singleton. tauto. }
    by apply Permutation_singleton_r in Hp.
  - destruct (range_keys m k one_key) as [|x l]; [done|]. destruct (proj1 (Hx x)); [by left|done].
Qed.

Lemma range_of_one m k limit : (limit = 0 ∨ limit = 1)%Z →
  range_of_map m (MkGet k one_key limit false) =
  match m !! k with Some v => MkRangeResponse [(k, v)] 1 | None => MkRangeResponse [] 0 end.
Proof.
  intros Hl. unfold range_of_map. cbn [g_Key g_End g_Limit g_CountOnly]. rewrite range_keys_one. unfold there.
  destruct (m !! k) eqn:E; cbn [map length]; rewrite ?E; destruct Hl as [-> | ->]; reflexivity.
Qed.

(* ------------------------------------------------------------------ *)
(** ** The specifications *)

Section Spec.
Context {object : Type} (Marshal : object → outcome bytes) (unmarshal : bytes → outcome object).

(** The namespace is not there. *)
Definition missing (m : gmap bytes bytes) (namespace : bytes) : bool :=
  negb (is_empty namespace) && negb (there m (getNamespacePath namespace)).

Definition result_of {A : Type} (m : gmap bytes bytes) (e : store_error) : outcome (A + store_error) * gmap bytes bytes :=
  (Ret (inr e), m).

Definition with_bytes {A : Type} (key : bytes) (o : object) (k : bytes → on_map A) : on_map A := λ m,
  match Marshal o with Ret b => k b m | Fail e => result_of m (ErrEncode key e) | Panic => (Panic, m) end.

Definition spec_Create (key namespace : bytes) (o : object) : on_map () := with_bytes key o (λ b m,
  if missing m namespace then result_of m (ErrNamespaceMissing namespace)
  else if there m key then result_of m (ErrAlreadyExists key)
  else (Ret (inl ()), <[key := b]> m)).

Definition spec_Update (key namespace : bytes) (o : object) : on_map () := with_bytes key o (λ b m,
  if missing m namespace then result_of m (ErrNamespaceMissing namespace)
  else if there m key then (Ret (inl ()), <[key := b]> m)
  else result_of m (ErrNotFound key)).

(** Without its namespace, the method panics. *)
Definition spec_CreateOrUpdate (key namespace : bytes) (o : object) : on_map () := with_bytes key o (λ b m,
  if missing m namespace then (Panic, m) else (Ret (inl ()), <[key := b]> m)).

Definition spec_Get (key : bytes) : on_map object := λ m,
  (match m !! key with
   | None => Ret (inr (ErrNotFound key))
   | Some v => match unmarshal v with
               | Ret o => Ret (inl o) | Fail e => Ret (inr (ErrDecode key e)) | Panic => Panic
               end
   end, m).
End Spec.

Definition spec_Delete (key : bytes) : on_map () := λ m,
  if there m key then (Ret (inl ()), delete key m) else result_of m (ErrNotFound key).

Lemma guard_holds m namespace :
  forallb (holds m) (namespace_guard namespace) = negb (missing m namespace).
Proof.
  unfold namespace_guard, missing, there. destruct namespace as [|c ns]; [done|].
  cbn [is_empty forallb holds namespaceFound negb andb]. rewrite andb_true_r. by destruct (m !! _).
Qed.

Section Methods.
Context {St : Type} `{EtcdLaws St} {object : Type} (Marshal : object → outcome bytes)
  (unmarshal : bytes → outcome object).

(** The two branches of a transaction of the store. *)
Definition else_response (m : gmap bytes bytes) (namespace key : bytes) : txn_response :=
  MkTxnResponse false
    [range_result (range_of_map m (MkGet (getNamespacePath namespace) one_key 0 false));
     range_result (range_of_map m (MkGet key one_key 0 false))].

Lemma txn_then m c key b e : forallb (holds m) c = true →
  txn_on_map m c [OpPut key b] e = (MkTxnResponse true [put_result], <[key := b]> m).
Proof. unfold txn_on_map. by intros ->. Qed.

Lemma txn_else m c t namespace key : forallb (holds m) c = false →
  txn_on_map m c t [getNamespace namespace; getKey key] = (else_response m namespace key, m).
Proof. unfold txn_on_map. by intros ->. Qed.

Lemma bind_ret {A B} (a : A) (f : A → store_m St B) (p : store_m St A) s :
  p s = (Ret (inl a), s) → (p ≫= f) s = f a s.
Proof. unfold mbind, store_bind. by intros ->. Qed.

Lemma else_missing m namespace key (s : St) :
  namespace_missing (else_response m namespace key) namespace s = (Ret (inl (missing m namespace)), s).
Proof.
  unfold namespace_missing, missing, there. destruct namespace as [|c ns]; [done|]. cbn [is_empty negb andb].
  set (path := getNamespacePath (c :: ns)). unfold kvs_at, else_response.
  cbn [Responses lookup list_lookup GetResponseRange]. fold path. rewrite range_of_one by auto. by destruct (m !! path).
Qed.

Lemma else_there m namespace key (s : St) :
  kvs_at (else_response m namespace key) 1 s = (Ret (inl (if there m key then 1 else 0)), s).
Proof.
  unfold kvs_at, else_response, there. cbn [Responses lookup list_lookup GetResponseRange].
  rewrite range_of_one by auto. by destruct (m !! key).
Qed.

Lemma else_branch {A} m namespace key (f : nat → store_m St A) (s : St) :
  (missing ← namespace_missing (else_response m namespace key) namespace;
   if (missing : bool) then failing (ErrNamespaceMissing namespace)
   else n ← kvs_at (else_response m namespace key) 1; f n) s =
  if missing m namespace then (Ret (inr (ErrNamespaceMissing namespace)), s)
  else f (if there m key then 1 else 0) s.
Proof.
  rewrite (bind_ret _ _ _ _ (else_missing m namespace key s)). destruct (missing m namespace); [done|].
  by rewrite (bind_ret _ _ _ _ (else_there m namespace key s)).
Qed.

Lemma Create_refines key namespace o :
  refines (Create Marshal key namespace o) (spec_Create Marshal key namespace o).
Proof.
  apply refines_checked. intros b _. apply refines_txn. intros m s.
  destruct (forallb (holds m) (namespace_guard namespace ++ [keyNotFound key])) eqn:Ec.
  - rewrite txn_then by done. cbn [fst snd Succeeded]. intros Hs.
    rewrite forallb_app, guard_holds in Ec. apply andb_true_iff in Ec as [Em%negb_true_iff Ek]. rewrite Em.
    cbn in Ek. rewrite andb_true_r in Ek. unfold there. destruct (m !! key); [done|]. cbn. by rewrite Hs.
  - rewrite txn_else by done. cbn [fst snd]. intros Hs. cbn [Succeeded else_response].
    change (MkTxnResponse false _) with (else_response m namespace key). rewrite else_branch.
    rewrite forallb_app, guard_holds in Ec. destruct (missing m namespace) eqn:Em; [cbn; by rewrite Hs|].
    cbn in Ec. rewrite andb_true_r in Ec. unfold there. destruct (m !! key); [|done]. cbn. by rewrite Hs.
Qed.

Lemma Update_refines key namespace o :
  refines (Update Marshal key namespace o) (spec_Update Marshal key namespace o).
Proof.
  apply refines_checked. intros b _. apply refines_txn. intros m s.
  destruct (forallb (holds m) (namespace_guard namespace ++ [keyFound key])) eqn:Ec.
  - rewrite txn_then by done. cbn [fst snd Succeeded]. intros Hs.
    rewrite forallb_app, guard_holds in Ec. apply andb_true_iff in Ec as [Em%negb_true_iff Ek]. rewrite Em.
    cbn in Ek. rewrite andb_true_r in Ek. unfold there. destruct (m !! key); [|done]. cbn. by rewrite Hs.
  - rewrite txn_else by done. cbn [fst snd]. intros Hs. cbn [Succeeded else_response].
    change (MkTxnResponse false _) with (else_response m namespace key). rewrite else_branch.
    rewrite forallb_app, guard_holds in Ec. destruct (missing m namespace) eqn:Em; [cbn; by rewrite Hs|].
    cbn in Ec. rewrite andb_true_r in Ec. unfold there. destruct (m !! key); [done|]. cbn. by rewrite Hs.
Qed.

Lemma CreateOrUpdate_refines key namespace o :
  refines (CreateOrUpdate Marshal key namespace o) (spec_CreateOrUpdate Marshal key namespace o).
Proof.
  apply refines_checked. intros b _. apply refines_txn. intros m s.
  destruct (forallb (holds m) (namespace_guard namespace)) eqn:Ec.
  - rewrite txn_then by done. cbn [fst snd Succeeded]. intros Hs. rewrite guard_holds in Ec.
    apply negb_true_iff in Ec as ->. cbn. by rewrite Hs.
  - unfold txn_on_map. rewrite Ec. cbn [run_ops fst snd Succeeded]. intros Hs. rewrite guard_holds in Ec.
    apply negb_false_iff in Ec. rewrite Ec. unfold missing in Ec. unfold namespace_missing.
    destruct (is_empty namespace); [done|]. cbn. unfold mbind, store_bind, crash. cbn. by rewrite Hs.
Qed.

Lemma Get_refines key : refines (Get unmarshal key) (spec_Get unmarshal key).
Proof.
  apply refines_get. intros m s Hs. rewrite range_of_one by auto. unfold spec_Get.
  destruct (m !! key) as [v|]; cbn [Kvs]; [|cbn; by rewrite Hs]. unfold checked.
  destruct (unmarshal v); cbn; by rewrite Hs.
Qed.

Lemma Delete_refines key : refines (Delete key) (spec_Delete key).
Proof.
  apply refines_delete. intros m s. unfold delete_on_map. rewrite range_keys_one. unfold spec_Delete.
  destruct (there m key); cbn -[Z.of_nat]; intros Hs;
    [change (Z.of_nat 1) with 1%Z|change (Z.of_nat 0) with 0%Z]; cbn; by rewrite Hs.
Qed.
End Methods.

(* ------------------------------------------------------------------ *)
(** ** Namespaces *)

(** The types of resources [DeleteNamespace] looks for. *)
Definition counted : list KeyBuilder :=
  [checkKeyBuilder; entityKeyBuilder; assetKeyBuilder; handlerKeyBuilder; mutatorKeyBuilder].

Definition has_keys (m : gmap bytes bytes) (name : bytes) (b : KeyBuilder) : bool :=
  (0 <? Z.of_nat (length (range_keys m (Build (WithNamespace b name) []) with_prefix)))%Z.

(** All keys that begin with the path of the namespace go. *)
Definition spec_DeleteNamespace (name : bytes) : on_map () := λ m,
  if is_empty name then result_of m (other_error (Errorf "must specify name" []))
  else if existsb (has_keys m name) counted then result_of m (other_error (Errorf "namespace is not empty" []))
  else
    let '(n, m') := delete_on_map m (getNamespacePath name) with_prefix in
    if (n =? 1)%Z then (Ret (inl ()), m')
    else result_of m' (other_error (Errorf "namespace %s does not exist" [name])).

Section Namespaces.
Context {St : Type} `{EtcdLaws St}.

Lemma run_counts m name bs_ :
  run_ops m (map (λ b, OpGet (MkGet (Build (WithNamespace b name) []) with_prefix 0 true)) bs_) =
  (map (λ b, range_result (MkRangeResponse []
      (Z.of_nat (length (range_keys m (Build (WithNamespace b name) []) with_prefix))))) bs_, m).
Proof. induction bs_ as [|b bs_ IH]; [done|]. cbn [map run_ops]. by rewrite IH. Qed.

Lemma any_left_counts m name bs_ (s : St) :
  any_left (map (λ b, range_result (MkRangeResponse []
      (Z.of_nat (length (range_keys m (Build (WithNamespace b name) []) with_prefix))))) bs_) s =
  (Ret (inl (existsb (has_keys m name) bs_)), s).
Proof.
  induction bs_ as [|b bs_ IH]; [done|]. cbn [map any_left GetResponseRange Count existsb]. unfold has_keys at 1.
  by destruct (0 <? _)%Z.
Qed.

Lemma call_inl {A B} (f : St → (A + error) * St) (k : A → store_m St B) s a s' :
  f s = (inl a, s') → (call f ≫= k) s = k a s'.
Proof. unfold mbind, store_bind, call. by intros ->. Qed.
Lemma call_inr {A B} (f : St → (A + error) * St) (k : A → store_m St B) s e s' :
  f s = (inr e, s') → (call f ≫= k) s = (Ret (inr (other_error e)), s').
Proof. unfold mbind, store_bind, call. by intros ->. Qed.

Lemma DeleteNamespace_refines name : refines (DeleteNamespace name) (spec_DeleteNamespace name).
Proof.
  intros s. unfold DeleteNamespace, spec_DeleteNamespace. destruct (is_empty name); [by right|]. cbn zeta.
  fold counted. set (counts := map _ counted).
  destruct (etcd_Txn [] counts [] s) as [[r|e] s1] eqn:E1.
  2: { left. exists e. split; [left; exists [], counts, [], s; by rewrite E1|]. by rewrite (call_inr _ _ _ _ _ E1). }
  rewrite !(call_inl _ _ _ _ _ E1).
  apply txn_law in E1. unfold txn_on_map in E1. cbn [forallb] in E1. unfold counts in E1. rewrite run_counts in E1.
  apply pair_equal_spec in E1 as [-> Es]. cbn [Responses]. rewrite (bind_ret _ _ _ _ (any_left_counts (contents s) name counted s1)).
  destruct (existsb _ counted); [right; cbn; by rewrite Es|]. rewrite <- Es. revert s1 Es. intros s1 _.
  generalize (refines_delete (getNamespacePath name) with_prefix
    (λ deleted, if negb (deleted =? 1)%Z then failing (other_error (Errorf "namespace %s does not exist" [name])) else mret ())
    (λ m, let '(n, m') := delete_on_map m (getNamespacePath name) with_prefix in
          if (n =? 1)%Z then (Ret (inl ()), m')
          else result_of m' (other_error (Errorf "namespace %s does not exist" [name])))).
  intros Hd. apply Hd. clear Hd. intros m s2. destruct (delete_on_map m _ _) as [n m']. cbn [fst snd]. intros Hs.
  destruct (n =? 1)%Z; cbn; by rewrite Hs.
Qed.
End Namespaces.

(* ------------------------------------------------------------------ *)
(** ** The key behind a key *)

Lemma next_key k x : bytes_ltb k (x ++ token_end) = negb (bytes_ltb x k).
Proof.
  unfold bytes_ltb, token_end. revert k. induction x as [|c x IH]; intros [|d k]; try done.
  - cbn [app bytes_compare]. destruct (N.compare_spec (N_of_ascii d) (N_of_ascii "000")) as [E|E|E]; [by destruct k| |done].
    cbn in E. lia.
  - cbn [app bytes_compare]. rewrite (N.compare_antisym (N_of_ascii c) (N_of_ascii d)).
    destruct (N.compare (N_of_ascii c) (N_of_ascii d)); cbn [CompOpp]; [apply IH|done..].
Qed.

Lemma bytes_lt_app_l p a b : bytes_ltb (p ++ a) (p ++ b) = bytes_ltb a b.
Proof. unfold bytes_ltb. induction p as [|c p IH]; [done|]. cbn [app bytes_compare]. by rewrite N.compare_refl. Qed.

Lemma bytes_lt_prefix a p x : bytes_ltb a p = true → bytes_ltb a (p ++ x) = true.
Proof.
  unfold bytes_ltb. revert a. induction p as [|c p IH]; intros [|d a]; try done. cbn [app bytes_compare].
  destruct (N.compare _ _); [apply IH|done..].
Qed.

(* ------------------------------------------------------------------ *)
(** ** Ranges *)

Lemma range_keys_unique m key e l : increasing bytes_ltb l →
  (∀ k, k ∈ l ↔ in_range_of key e k = true ∧ is_Some (m !! k)) → range_keys m key e = l.
Proof.
  intros Hl Hk. apply (sort_unique bytes_ltb bytes_ltb_trans bytes_ltb_irrefl); [apply range_keys_increasing|done|].
  apply NoDup_Permutation; [apply range_keys_NoDup| |intros k; by rewrite elem_range_keys, Hk].
  clear Hk. unfold increasing in Hl. induction Hl as [|x l Hl IH Hx]; [constructor|]. constructor; [|done].
  intros Hin. rewrite Forall_forall in Hx. apply Hx in Hin. by rewrite bytes_ltb_irrefl in Hin.
Qed.

(* ------------------------------------------------------------------ *)
(** ** Joining a prefix and a token *)

Lemma split_byte_no_sep c s : Forall (λ w, c ∉ w) (split_byte c s).
Proof.
  induction s as [|d s IH]; cbn [split_byte]; [by constructor; [apply not_elem_of_nil|]|].
  destruct (Ascii.eqb_spec d c) as [->|Hd]; [constructor; [apply not_elem_of_nil|done]|].
  destruct (split_byte c s) as [|w ws]; [constructor; [|done]; intros Hin%list_elem_of_singleton; by subst|].
  apply Forall_cons in IH as [Hw IH]. constructor; [|done]. rewrite not_elem_of_cons. split; [by apply not_eq_sym|done].
Qed.

Lemma segments_ok w : tame w → Forall (λ e, slash ∉ e ∧ tame_elem e ∧ filled e = true) (segments w).
Proof.
  intros Ht. unfold segments. apply Forall_forall. intros e. rewrite list_elem_of_In, filter_In, <- list_elem_of_In.
  intros [Hin Hf]. unfold tame in Ht. rewrite Forall_forall in Ht.
  pose proof (split_byte_no_sep slash w) as Hs. rewrite Forall_forall in Hs. auto.
Qed.

Lemma filter_all {A} (f : A → bool) l : Forall (λ x, f x = true) l → List.filter f l = l.
Proof. induction 1 as [|x l Hx _ IH]; [done|]. cbn. by rewrite Hx, IH. Qed.

Lemma path_Join_token l t : Forall tame l → plain_name t →
  path_Join [key_of l ++ bs "/"; t] = key_of l ++ bs "/" ++ t.
Proof.
  intros Hl Ht. set (L := bs "sensu.io" :: concat (map segments l)).
  assert (L ≠ []) as HL0 by done.
  assert (Forall (λ e, slash ∉ e ∧ tame_elem e ∧ filled e = true) L) as HL.
  { constructor; [split; [by apply (bool_decide_unpack _)|done]|]. apply Forall_concat_map.
    eapply Forall_impl; [exact Hl|]. intros w. apply segments_ok. }
  change (path_Join [key_of l ++ bs "/"; t]) with (path_Clean (join keySeparator [key_of l ++ bs "/"; t])).
  assert (join keySeparator [key_of l ++ bs "/"; t] = slash :: join keySeparator (L ++ [[]; t])) as ->.
  { rewrite join_app by done. unfold key_of. fold L. cbn [join app]. rewrite <- !(assoc_L (++)). reflexivity. }
  unfold path_Clean. change (slash =c "/") with true. cbn match.
  change (split_byte slash (slash :: ?x)) with ([] :: split_byte slash x).
  rewrite split_byte_join; [|by intros [E _]%app_nil|apply Forall_app; split].
  - rewrite clean_elems_tame.
    + cbn [List.filter filled is_empty negb]. rewrite List.filter_app. cbn [List.filter filled is_empty negb].
      rewrite filter_all by (eapply Forall_impl; [exact HL|]; by intros ? (_ & _ & ?)).
      destruct (filled t) eqn:Ef; [|by destruct t; [destruct (plain_filled _ Ht)|]].
      unfold key_of. fold L. rewrite join_app by done. reflexivity.
    + constructor; [done|]. apply Forall_app. split; [eapply Forall_impl; [exact HL|]; by intros ? (_ & ? & _)|].
      constructor; [done|]. constructor; [apply Ht|constructor].
  - eapply Forall_impl; [exact HL|]. by intros ? (? & _).
  - constructor; [apply not_elem_of_nil|]. constructor; [apply Ht|constructor].
Qed.

Lemma plain_token name : plain_name name → plain_name (name ++ token_end).
Proof.
  intros [H1 H2 H3]. constructor; [by destruct name| |].
  - split; intros E; apply (f_equal last) in E; unfold token_end in E; rewrite last_snoc in E; discriminate E.
  - rewrite elem_of_app. intros [H|H]; [done|]. unfold token_end in H. apply list_elem_of_singleton in H. discriminate H.
Qed.

Section Pages.
Context {St : Type} `{EtcdLaws St} {object : Type} (unmarshal : bytes → outcome object) (init : object → object)
  (name_of : object → bytes).

(** A type of objects in a namespace. *)
Context (b : KeyBuilder) (namespace : bytes).
Definition listing_prefix : bytes := type_path b ++ bs "/" ++ namespace ++ bs "/".

(** The keys of the namespace: each is that of the plain name of its object. *)
Definition well_stored (m : gmap bytes bytes) (kos : list (bytes * object)) : Prop :=
  range_keys m listing_prefix with_prefix = map (λ ko, listing_prefix ++ ko.1) kos ∧
  Forall (λ ko, plain_name ko.1 ∧ name_of (init ko.2) = ko.1 ∧
    ∃ v, m !! (listing_prefix ++ ko.1) = Some v ∧ unmarshal v = Ret ko.2) kos.

Lemma bind_to {A B} (a : A) (f : A → store_m St B) (p : store_m St A) s s' :
  p s = (Ret (inl a), s') → (p ≫= f) s = f a s'.
Proof. unfold mbind, store_bind. by intros ->. Qed.

Lemma read_objects_all key (kvs : list (bytes * bytes)) (os : list object) (s : St) :
  Forall2 (λ kv o, unmarshal kv.2 = Ret o) kvs os →
  read_objects unmarshal init key kvs s = (Ret (inl (map init os)), s).
Proof.
  induction 1 as [|[k v] o kvs os Hv _ IH]; [done|]. cbn [read_objects map]. cbn in Hv.
  unfold mbind, store_bind, checked. rewrite Hv. unfold mbind, store_bind in IH. by rewrite IH.
Qed.

Context (b_tame : tame_builder b) (ns_plain : plain_name namespace).

Lemma listing_prefix_key : listing_prefix = key_of [resourceName b; namespace] ++ bs "/".
Proof.
  unfold listing_prefix, type_path. destruct (plain_segments _ ns_plain) as [Sn _].
  change [resourceName b; namespace] with ([resourceName b] ++ [namespace]).
  rewrite (key_of_app [resourceName b] [namespace]) by (cbn; by rewrite Sn). cbn [map concat]. rewrite Sn.
  cbn [app join]. by rewrite <- !(assoc_L (++)).
Qed.

Lemma listing_path : context_path b namespace [] = listing_prefix.
Proof. by apply context_path_all. Qed.

(** Where a page begins: behind the keys read before. *)
Definition continue_of (read : list (bytes * object)) : bytes :=
  match last read with Some ko => ko.1 ++ token_end | None => [] end.
Definition start_of (read : list (bytes * object)) : bytes :=
  match last read with Some ko => listing_prefix ++ ko.1 ++ token_end | None => listing_prefix end.

Lemma start_key read : Forall (λ ko, plain_name ko.1) read →
  (if negb (is_empty (continue_of read)) then path_Join [listing_prefix; continue_of read]
   else if ends_with_slash listing_prefix then listing_prefix else listing_prefix ++ bs "/") = start_of read.
Proof.
  intros Hr. unfold continue_of, start_of. destruct (last read) as [[k o]|] eqn:E; cbn [fst].
  - apply last_Some in E as [l ->]. apply Forall_app in Hr as [_ [Hk _]%Forall_cons]. cbn [fst] in Hk.
    apply plain_token in Hk as Ht. destruct (k ++ token_end) as [|c t] eqn:Ek; [by destruct (plain_filled _ Ht)|].
    cbn [is_empty negb]. rewrite listing_prefix_key, path_Join_token; [by rewrite <- (assoc_L (++))| |done].
    constructor; [done|]. constructor; [by apply plain_segments|constructor].
  - assert (ends_with_slash listing_prefix = true) as ->; [|done].
    unfold ends_with_slash, listing_prefix. rewrite !(assoc_L (++)). change (bs "/") with [slash]. by rewrite last_snoc.
Qed.

Lemma listing_prefix_low : Exists (λ c, N_of_ascii c ≠ 255%N) listing_prefix.
Proof. by apply Exists_cons_hd. Qed.

(** The keys of a page are those that were not read. *)
Lemma range_rest m kos read rest : well_stored m kos → kos = read ++ rest →
  range_keys m (start_of read) (with_range (GetPrefixRangeEnd listing_prefix)) =
  map (λ ko, listing_prefix ++ ko.1) rest.
Proof.
  intros [Hk _] ->. pose proof (range_keys_increasing m listing_prefix with_prefix) as Hs. rewrite Hk, map_app in Hs.
  unfold increasing in Hs. apply StronglySorted_app in Hs as (Hcross & Hr & Hs).
  assert (∀ k, k ∈ map (λ ko, listing_prefix ++ ko.1) read ∨ k ∈ map (λ ko, listing_prefix ++ ko.1) rest ↔
    has_prefix k listing_prefix = true ∧ is_Some (m !! k)) as Hin.
  { intros k. rewrite <- elem_of_app, <- map_app, <- Hk. apply elem_range_keys. }
  (* below the start are just the keys read *)
  assert (∀ k, has_prefix k listing_prefix = true → is_Some (m !! k) →
    (bytes_ltb k (start_of read) = true ↔ k ∈ map (λ ko, listing_prefix ++ ko.1) read)) as Hstart.
  { intros k Hp Hm. unfold start_of. destruct (last read) as [[n o]|] eqn:El; cbn [fst].
    - apply last_Some in El as [l ->]. rewrite (assoc_L (++)), next_key, negb_true_iff.
      rewrite map_app in *. cbn [map fst] in *. split.
      + intros Hlt. destruct (proj2 (Hin k) (conj Hp Hm)) as [?|Hk']; [done|exfalso].
        rewrite (Hcross (listing_prefix ++ n) k) in Hlt; [discriminate|set_solver|done].
      + rewrite elem_of_app, list_elem_of_singleton. intros [Hl| ->]; [|apply bytes_ltb_irrefl].
        apply StronglySorted_app in Hr as (Hr & _ & _). specialize (Hr k (listing_prefix ++ n) Hl ltac:(by left)).
        destruct (bytes_ltb (listing_prefix ++ n) k) eqn:E; [|done].
        pose proof (bytes_ltb_trans _ _ _ Hr E). by rewrite bytes_ltb_irrefl in *.
    - apply last_None in El as ->. split; [|intros Hn; by apply elem_of_nil in Hn].
      intros Hlt. apply has_prefix_iff in Hp as [r ->]. apply bytes_ltb_lt in Hlt. by apply bytes_lt_app in Hlt. }
  apply range_keys_unique; [done|]. intros k. cbn [in_range_of]. rewrite andb_true_iff, negb_true_iff. split.
  - intros Hk'. destruct (proj1 (Hin k) (or_intror Hk')) as [Hp Hm]. split; [|done]. split.
    + destruct (bytes_ltb k (start_of read)) eqn:E; [|done]. apply Hstart in E; [|done..].
      specialize (Hcross k k E Hk'). by rewrite bytes_ltb_irrefl in Hcross.
    + rewrite prefix_end_law; [done|apply listing_prefix_low|]. apply has_prefix_iff in Hp as [r ->].
      rewrite bytes_ltb_nlt. apply bytes_lt_app.
  - intros [[Hlo Hhi] Hm].
    assert (bytes_ltb k listing_prefix = false) as Hge.
    { destruct (bytes_ltb k listing_prefix) eqn:E; [|done]. rewrite <- Hlo. symmetry. unfold start_of.
      destruct (last read); [|done]. eapply bytes_lt_prefix; exact E. }
    rewrite prefix_end_law in Hhi by (done || apply listing_prefix_low).
    destruct (proj2 (Hin k) (conj Hhi Hm)) as [Hr'|?]; [|done]. apply (Hstart k Hhi Hm) in Hr'. congruence.
Qed.

(** A page: the next objects, and a token when there are more. *)
Definition token (o : object) : outcome bytes := Ret (name_of o ++ token_end).
Definition page_size (limit : Z) (rest : list (bytes * object)) : nat :=
  if (limit =? 0)%Z then length rest else Z.to_nat limit.

Lemma page_ok m kos read rest limit s : well_stored m kos → kos = read ++ rest → (0 ≤ limit)%Z → contents s = m →
  let next := take (page_size limit rest) rest in
  (∃ e, call_fails e ∧ (List unmarshal init token listing_prefix (continue_of read) limit s).1 = Ret (inr (other_error e))) ∨
  ∃ s', List unmarshal init token listing_prefix (continue_of read) limit s =
    (Ret (inl (map (λ ko, init ko.2) next,
               if (page_size limit rest <? length rest)%nat then continue_of (read ++ next) else [])), s') ∧
    contents s' = m.
Proof.
  intros Hw Hk Hlim Hs next.
  pose proof (range_rest _ _ _ _ Hw Hk) as Er. destruct Hw as [_ Hall]. rewrite Hk in Hall. apply Forall_app in Hall as [Hread Hrest].
  unfold List. rewrite start_key by (eapply Forall_impl; [exact Hread|]; by intros ? [? _]).
  set (g := MkGet _ _ _ _). destruct (etcd_Get g s) as [[resp|e] s1] eqn:E.
  2: { left. exists e. split; [right; left; by exists g, s; rewrite E|]. by rewrite (call_inr _ _ _ _ _ E). }
  right. rewrite (call_inl _ _ _ _ _ E). apply get_law in E as [-> E]. exists s1. split; [|congruence].
  unfold range_of_map. unfold g. cbn [g_Key g_End g_Limit g_CountOnly Kvs Count]. rewrite Hs, Er, !length_map.
  assert ((if (limit =? 0)%Z then map (λ k, (k, default [] (m !! k))) (map (λ ko, listing_prefix ++ ko.1) rest)
    else take (Z.to_nat limit) (map (λ k, (k, default [] (m !! k))) (map (λ ko, listing_prefix ++ ko.1) rest))) =
    map (λ ko, (listing_prefix ++ ko.1, default [] (m !! (listing_prefix ++ ko.1)))) next) as ->.
  { unfold next, page_size. rewrite !map_map. destruct (limit =? 0)%Z; [by rewrite firstn_all|]. apply firstn_map. }
  assert (Forall (λ ko, plain_name ko.1 ∧ name_of (init ko.2) = ko.1 ∧
    ∃ v, m !! (listing_prefix ++ ko.1) = Some v ∧ unmarshal v = Ret ko.2) next) as Hnext by by apply Forall_take.
  erewrite bind_ret; [|apply (read_objects_all _ _ (map snd next))].
  2: { apply Forall2_fmap, Forall_Forall2_diag. eapply Forall_impl; [exact Hnext|].
       intros ko (_ & _ & v & Hv & Hu). unfold snd at 1. by rewrite Hv. }
  rewrite map_map.
  assert (negb (limit =? 0)%Z && (limit <? Z.of_nat (length rest))%Z = (page_size limit rest <? length rest)%nat) as ->.
  { unfold page_size. destruct (Z.eqb_spec limit 0); cbn [negb andb]; [symmetry; apply Nat.ltb_ge; lia|].
    destruct (Z.ltb_spec limit (Z.of_nat (length rest))); symmetry; [apply Nat.ltb_lt|apply Nat.ltb_ge]; lia. }
  destruct (Nat.ltb_spec (page_size limit rest) (length rest)) as [Hlt|_]; [|done].
  assert (∃ l ko, next = l ++ [ko]) as (l & ko & En).
  { assert (next ≠ []) as Hne; [|by destruct (exists_last Hne) as (l & ko & ?); exists l, ko].
    intros E0. apply (f_equal length) in E0. unfold next in E0. rewrite length_take in E0. cbn in E0.
    unfold page_size in *. destruct (Z.eqb_spec limit 0); lia. }
  rewrite En in *. rewrite map_app. cbn [map]. rewrite last_snoc. unfold token, continue_of.
  rewrite (assoc_L (++)), last_snoc. apply Forall_app in Hnext as [_ [(_ & -> & _) _]%Forall_cons]. done.
Qed.

(** A client that asks for page after page until there is no token; the
    fuel is the number of pages. *)
Fixpoint all_pages (fuel : nat) (limit : Z) (continue : bytes) : store_m St (list object) :=
  match fuel with
  | O => crash
  | S f =>
      r ← List unmarshal init token (context_path b namespace []) continue limit;
      if is_empty r.2 then mret r.1 else rest ← all_pages f limit r.2; mret (r.1 ++ rest)
  end.

Lemma all_pages_ok m kos limit : well_stored m kos → (0 ≤ limit)%Z → ∀ fuel read rest s,
  kos = read ++ rest → contents s = m → length rest < fuel →
  (∃ e, call_fails e ∧ (all_pages fuel limit (continue_of read) s).1 = Ret (inr (other_error e))) ∨
  ∃ s', all_pages fuel limit (continue_of read) s = (Ret (inl (map (λ ko, init ko.2) rest)), s') ∧ contents s' = m.
Proof.
  intros Hw Hlim. induction fuel as [|f IH]; intros read rest s Hk Hs Hlen; [lia|]. cbn [all_pages]. rewrite listing_path.
  destruct (page_ok m kos read rest limit s Hw Hk Hlim Hs) as [(e & He & E)|(s1 & E & Es)].
  { left. exists e. split; [done|]. unfold mbind, store_bind.
    destruct (List unmarshal init token listing_prefix (continue_of read) limit s) as [r s1]. cbn [fst] in E. by subst r. }
  rewrite (bind_to _ _ _ _ _ E). cbn [fst snd].
  destruct (Nat.ltb_spec (page_size limit rest) (length rest)) as [Hlt|Hge].
  - set (next := take (page_size limit rest) rest) in *.
    assert (0 < page_size limit rest) as Hpos by (unfold page_size in *; destruct (Z.eqb_spec limit 0); lia).
    assert (length next = page_size limit rest) as Hln by (unfold next; rewrite length_take; lia).
    assert (next ≠ []) as Hne by (intros E0; rewrite E0 in Hln; cbn in Hln; lia).
    assert (is_empty (continue_of (read ++ next)) = false) as ->.
    { destruct (exists_last Hne) as (l & ko & ->). unfold continue_of. rewrite (assoc_L (++)), last_snoc. by destruct ko.1. }
    destruct (IH (read ++ next) (drop (page_size limit rest) rest) s1) as [(e & He & E2)|(s2 & E2 & Es2)].
    + unfold next. by rewrite <- (assoc_L (++)), take_drop.
    + done.
    + rewrite length_drop. lia.
    + left. exists e. split; [done|]. unfold mbind, store_bind.
      destruct (all_pages f limit (continue_of (read ++ next)) s1) as [r s2]. cbn [fst] in E2. by subst r.
    + right. exists s2. split; [|done]. rewrite (bind_to _ _ _ _ _ E2). rewrite <- map_app. unfold next. by rewrite take_drop.
  - right. exists s1. cbn [is_empty]. split; [|done]. by rewrite take_ge by lia.
Qed.
End Pages.
