(* ===== verification/EventStore.v ===== *)
(** * Events in the store ([backend/store/etcd/event_store.go])

    The event of an entity and a check is kept under one key; a new one is
    merged with the one before. *)

From S2P Require Import Prelude GoStd GoNet GoTime TimeWindow Sensu StoreKeys EtcdClient EtcdStore.

(* ------------------------------------------------------------------ *)
(** ** Occurrences *)

Definition set_occurrences (c : Check_) (occurrences watermark : Z) : Check_ :=
  MkCheck (c_Meta c) (Interval c) (Cron c) (Ttl c) (Timeout c) (c_Subscriptions c) (c_Handlers c)
    (RuntimeAssets c) (c_ProxyEntityName c) (c_ProxyRequests c) (Subdue c) (OutputMetricFormat c)
    (EnvVars c) (MaxOutputSize c) (LowFlapThreshold c) (HighFlapThreshold c) (Status c) (State c)
    (Executed c) (History c) (TotalStateChange c) (LastOK c) occurrences watermark (Silenced_by c) (Output c)
    (RoundRobin c).

(** [updateOccurrences]; the last two entries of the history, from its end. *)
Definition updateOccurrences (check : Check_) : Check_ :=
  let last_two := match rev (History check) with h1 :: h2 :: _ => Some (h_Status h1, h_Status h2) | _ => None end in
  let check :=
    match last_two with
    | Some (s1, s2) =>
        if (s1 =? s2)%Z then set_occurrences check (i64 (Occurrences check + 1)) (OccurrencesWatermark check)
        else set_occurrences check 1 (OccurrencesWatermark check)
    | None => set_occurrences check 1 (OccurrencesWatermark check)
    end in
  let reset := match last_two with Some (s1, s2) => negb (s1 =? 0)%Z && (s2 =? 0)%Z | None => false end in
  if reset then set_occurrences check (Occurrences check) 1
  else if (Occurrences check <=? OccurrencesWatermark check)%Z then check
  else set_occurrences check (Occurrences check) (i64 (OccurrencesWatermark check + 1)).

(* ------------------------------------------------------------------ *)
(** ** Copies of an event *)

Definition set_output (c : Check_) (output : bytes) : Check_ :=
  MkCheck (c_Meta c) (Interval c) (Cron c) (Ttl c) (Timeout c) (c_Subscriptions c) (c_Handlers c)
    (RuntimeAssets c) (c_ProxyEntityName c) (c_ProxyRequests c) (Subdue c) (OutputMetricFormat c)
    (EnvVars c) (MaxOutputSize c) (LowFlapThreshold c) (HighFlapThreshold c) (Status c) (State c)
    (Executed c) (History c) (TotalStateChange c) (LastOK c) (Occurrences c) (OccurrencesWatermark c)
    (Silenced_by c) output (RoundRobin c).
Definition set_check (e : Event) (c : Check_) : Event :=
  MkEvent (ev_Meta e) (ev_Timestamp e) (ev_Entity e) (Some c) (ev_Metrics e).
Definition set_metrics (e : Event) (m : option Metrics) : Event :=
  MkEvent (ev_Meta e) (ev_Timestamp e) (ev_Entity e) (ev_Check e) m.
Definition set_timestamp (e : Event) (t : Z) : Event :=
  MkEvent (ev_Meta e) t (ev_Entity e) (ev_Check e) (ev_Metrics e).

(** Labels and annotations read from the store are not nil. *)
Definition fill_meta (m : ObjectMeta) : ObjectMeta :=
  MkMeta (om_Name m) (Namespace m) (Some (default ∅ (Labels m))) (Some (default ∅ (Annotations m))).
Definition fill_event (e : Event) : Event :=
  MkEvent (fill_meta (ev_Meta e)) (ev_Timestamp e) (ev_Entity e) (ev_Check e) (ev_Metrics e).

(** Whether the output of a check is longer than it may be kept. *)
Definition too_long (c : Check_) : bool :=
  (0 <? MaxOutputSize c)%Z && (MaxOutputSize c <? Z.of_nat (length (Output c)))%Z.

(** The event that is stored and the one that is returned: metrics and a
    long output are cut from copies. The time is set on the event itself,
    which is the one that is stored only when it was not copied. *)
Definition persisted (now : Z) (e : Event) (check : Check_) : Event * Event :=
  let stamped := if (ev_Timestamp e =? 0)%Z then set_timestamp e now else e in
  let without_metrics := if HasMetrics e then set_metrics e None else e in
  if too_long check then
    (set_check without_metrics (set_output check (take (Z.to_nat (MaxOutputSize check)) (Output check))), stamped)
  else if HasMetrics e then (without_metrics, stamped)
  else (stamped, stamped).

(* ------------------------------------------------------------------ *)
(** ** The methods *)

Section Events.
Context {St : Type} `{Etcd St}.
Abbreviation store := (store_m St).

(** [proto.Marshal] and [unmarshal] of events. *)
Context (Marshal_event : Event → outcome bytes) (unmarshal_event : bytes → outcome Event).

Definition must_specify : store_error := other_error (Errorf "must specify entity and check name" []).

Definition DeleteEventByEntityCheck (namespace entityName checkName : bytes) : store () :=
  if is_empty entityName || is_empty checkName then failing must_specify
  else
    path ← checked other_error (getEventWithCheckPath namespace entityName checkName);
    _ ← call (etcd_Delete path one_key); mret ().

(** [GetEventByEntityCheck], in the namespace of the context; the nil event
    is [None]. *)
Definition GetEventByEntityCheck (namespace entityName checkName : bytes) : store (option Event) :=
  if is_empty entityName || is_empty checkName then failing must_specify
  else
    path ← checked other_error (getEventWithCheckPath namespace entityName checkName);
    resp ← call (etcd_Get (MkGet path with_prefix 0 false));
    match Kvs resp with
    | [] => mret None
    | (_, v) :: _ => event ← checked other_error (unmarshal_event v); mret (Some (fill_event event))
    end.

(** The loop that reads the events of a response. *)
Fixpoint read_events (kvs : list (bytes * bytes)) : store (list Event) :=
  match kvs with
  | [] => mret []
  | (_, v) :: kvs' =>
      event ← checked other_error (unmarshal_event v);
      events ← read_events kvs';
      mret (fill_event event :: events)
  end.

(** [GetEventsByEntity], with the continue token of the predicate and the
    next one; [lastEvent.Check.Name] dereferences the check. *)
Definition GetEventsByEntity (namespace entityName continue : bytes) (limit : Z)
  : store (list Event * bytes) :=
  if is_empty entityName then failing (other_error (Errorf "must specify entity name" []))
  else
    let keyPrefix := context_path eventKeyBuilder namespace entityName in
    let end_ := with_range (GetPrefixRangeEnd keyPrefix) in
    resp ← call (etcd_Get (MkGet (path_Join [keyPrefix; continue]) end_ limit false));
    match Kvs resp with
    | [] => mret ([], continue)
    | _ =>
        events ← read_events (Kvs resp);
        if negb (limit =? 0)%Z && (limit <? Count resp)%Z then
          match last events with
          | Some e => match ev_Check e with
                      | Some c => mret (events, om_Name (c_Meta c) ++ token_end)
                      | None => crash
                      end
          | None => crash
          end
        else mret (events, [])
    end.

(** [GetEvents]. *)
Definition GetEvents (namespace continue : bytes) (limit : Z) : store (list Event * bytes) :=
  let keyPrefix := context_path eventKeyBuilder namespace [] in
  let key :=
    if negb (is_empty continue) then path_Join [keyPrefix; continue]
    else if ends_with_slash keyPrefix then keyPrefix else keyPrefix ++ bs "/" in
  resp ← call (etcd_Get (MkGet key (with_range (GetPrefixRangeEnd keyPrefix)) limit false));
  match Kvs resp with
  | [] => mret ([], continue)
  | kvs =>
      events ← read_events kvs;
      if negb (limit =? 0)%Z && (limit <? Count resp)%Z then
        match last events with
        | Some e => t ← checked other_error (event_token namespace e); mret (events, t)
        | None => crash
        end
      else mret (events, [])
  end.

Section Update.
(** The order of [sort.Sort], the clock, and the parsers of the validation. *)
Context (ParseStandard_ok : bytes → bool) (ParseExpressions : list bytes → option error)
  (local_now : LocalTime) (sort_history : list CheckHistory → list CheckHistory) (now : Z).

(** The check of an event merged with that of the one before. *)
Definition merged (check : Check_) (prevEvent : option Event) : store Check_ :=
  match prevEvent with
  | None => mret check
  | Some prev =>
      match ev_Check prev with
      | None => failing (other_error (Errorf "invalid previous event" []))
      | Some prevCheck => mret (MergeWith sort_history check prevCheck)
      end
  end.

Definition UpdateEvent (event : option Event) : store (Event * option Event) :=
  match event with
  | None => failing (other_error (Errorf "event has no check" []))
  | Some event =>
      match ev_Check event with
      | None => failing (other_error (Errorf "event has no check" []))
      | Some check =>
          _ ← checked other_error (Validate_check ParseStandard_ok ParseExpressions local_now check);
          match ev_Entity event with
          | None => crash
          | Some entity =>
              _ ← checked other_error (of_error (Validate_entity entity));
              let namespace := Namespace (e_Meta entity) in
              prevEvent ← GetEventByEntityCheck namespace (om_Name (e_Meta entity)) (om_Name (c_Meta check));
              check ← merged check prevEvent;
              let check := updateOccurrences check in
              let event := set_check event check in
              let '(persistEvent, event) := persisted now event check in
              eventBytes ← checked other_error (Marshal_event persistEvent);
              path ← checked other_error (getEventPath event);
              res ← call (etcd_Txn [key_there (getNamespacePath namespace)] [OpPut path eventBytes] []);
              if negb (Succeeded res) then
                failing (other_error (Errorf "could not create the event %s/%s in namespace %s"
                  [om_Name (e_Meta entity); om_Name (c_Meta check); namespace]))
              else mret (event, prevEvent)
          end
      end
  end.
End Update.
End Events.
