(* ===== verification/Client.v ===== *)
(** * The InfluxDB client ([client/v2/client.go])

    Batches of points and the HTTP client that writes them. *)

From S2P Require Import Prelude GoStd GoFloat GoTime ModelsTime Tags Point GoNet.

(* ------------------------------------------------------------------ *)
(** ** Points *)

(** [client.Point] wraps a [models.Point]. *)
Record Point := MkClientPoint { pt : point }.

(** [NewPoint], with the optional timestamp as a list. *)
Definition NewPoint (name : bytes) (tags : gmap bytes bytes) (fields : Fields) (t : list Time)
  : outcome Point :=
  let T := match t with t0 :: _ => t0 | [] => zeroTime end in
  p ← Point.NewPoint name (NewTags tags) fields T;
  Ret (MkClientPoint p).

Definition cp_String (p : Point) : bytes := point_String (pt p).
Definition cp_PrecisionString (p : Point) (precision : bytes) : bytes :=
  PrecisionString (pt p) precision.
Definition cp_Name (p : Point) : bytes := Name (pt p).
Definition cp_Tags (p : Point) : gmap bytes bytes := Map (point_tags (pt p)).
Definition cp_Time (p : Point) : Time := p_time (pt p).
Definition cp_UnixNano (p : Point) : Z := point_UnixNano (pt p).
Definition cp_Fields (p : Point) : outcome Fields := point_Fields (pt p).
Definition NewPointFrom (p : point) : Point := MkClientPoint p.

(* ------------------------------------------------------------------ *)
(** ** Batches *)

Record BatchPointsConfig := MkBatchConfig {
  bc_Precision : bytes; bc_Database : bytes; bc_RetentionPolicy : bytes;
  bc_WriteConsistency : bytes
}.

(** A slice of pointers may hold nil: [None]. *)
Record batchpoints := MkBatch {
  bp_points : list (option Point); bp_database : bytes; bp_precision : bytes;
  bp_retentionPolicy : bytes; bp_writeConsistency : bytes
}.

Definition NewBatchPoints (conf : BatchPointsConfig) : outcome batchpoints :=
  let precision := match bc_Precision conf with [] => bs "ns" | p => p end in
  _ ← ParseDuration ("1"%char :: precision);
  Ret (MkBatch [] (bc_Database conf) precision (bc_RetentionPolicy conf) (bc_WriteConsistency conf)).

Definition AddPoint (bp : batchpoints) (p : option Point) : batchpoints :=
  MkBatch (bp_points bp ++ [p]) (bp_database bp) (bp_precision bp) (bp_retentionPolicy bp)
    (bp_writeConsistency bp).
Definition AddPoints (bp : batchpoints) (ps : list (option Point)) : batchpoints :=
  MkBatch (bp_points bp ++ ps) (bp_database bp) (bp_precision bp) (bp_retentionPolicy bp)
    (bp_writeConsistency bp).
Definition bp_SetPrecision (bp : batchpoints) (p : bytes) : outcome batchpoints :=
  _ ← ParseDuration ("1"%char :: p);
  Ret (MkBatch (bp_points bp) (bp_database bp) p (bp_retentionPolicy bp) (bp_writeConsistency bp)).
Definition SetDatabase (bp : batchpoints) (db : bytes) : batchpoints :=
  MkBatch (bp_points bp) db (bp_precision bp) (bp_retentionPolicy bp) (bp_writeConsistency bp).
Definition SetWriteConsistency (bp : batchpoints) (wc : bytes) : batchpoints :=
  MkBatch (bp_points bp) (bp_database bp) (bp_precision bp) (bp_retentionPolicy bp) wc.
Definition SetRetentionPolicy (bp : batchpoints) (rp : bytes) : batchpoints :=
  MkBatch (bp_points bp) (bp_database bp) (bp_precision bp) rp (bp_writeConsistency bp).

(* ------------------------------------------------------------------ *)
(** ** The client *)

(** The timeout, TLS configuration and proxy of the source configure the
    transport only. *)
Record HTTPConfig := MkHTTPConfig {
  Addr : bytes; Username : bytes; Password : bytes; UserAgent : bytes;
  InsecureSkipVerify : bool
}.

Record client := MkClient {
  cl_url : url; cl_username : bytes; cl_password : bytes; cl_useragent : bytes;
  cl_insecure : bool
}.

Definition StatusOK : Z := 200.
Definition StatusNoContent : Z := 204.

Section Client.
Context `{Net}.

Definition NewHTTPClient (conf : HTTPConfig) : outcome client :=
  let useragent := match UserAgent conf with [] => bs "InfluxDBClient" | a => a end in
  u ← url_Parse (Addr conf);
  if negb (bytes_equal (u_Scheme u) (bs "http")) && negb (bytes_equal (u_Scheme u) (bs "https"))
  then Fail (Errorf "Unsupported protocol scheme: %s, your address must start with http:// or https://"
               [u_Scheme u])
  else Ret (MkClient u (Username conf) (Password conf) useragent (InsecureSkipVerify conf)).

(** The buffer [Write] fills: one line per point that is not nil. *)
Definition write_line (precision : bytes) (p : option Point) : bytes :=
  match p with
  | None => []
  | Some p => cp_PrecisionString p precision ++ ["010"%char]
  end.
Definition write_body (bp : batchpoints) : bytes :=
  concat (map (write_line (bp_precision bp)) (bp_points bp)).

Definition default_headers (c : client) (req : request) : request :=
  let req := set_header req (bs "User-Agent") (cl_useragent c) in
  match cl_username c with
  | [] => req
  | username => SetBasicAuth req username (cl_password c)
  end.

(** The request [Write] sends. *)
Definition write_request (c : client) (bp : batchpoints) : outcome request :=
  let u := set_path (cl_url c) (path_Join [u_Path (cl_url c); bs "write"]) in
  req ← NewRequest (bs "POST") (url_String u) (write_body bp);
  let req := default_headers c (set_header req (bs "Content-Type") []) in
  let params := ParseQuery (u_RawQuery (rq_URL req)) in
  let params := Values_Set params (bs "db") (bp_database bp) in
  let params := Values_Set params (bs "rp") (bp_retentionPolicy bp) in
  let params := Values_Set params (bs "precision") (bp_precision bp) in
  let params := Values_Set params (bs "consistency") (bp_writeConsistency bp) in
  Ret (set_query req (Values_Encode params)).

Definition Write (c : client) (bp : batchpoints) : io unit :=
  req ← lift (write_request c bp);
  resp ← send req;
  body ← lift (rs_Body resp);
  lift (if negb (rs_StatusCode resp =? StatusNoContent)%Z
           && negb (rs_StatusCode resp =? StatusOK)%Z
        then Fail (Errorf "%s" [body])
        else Ret ()).

(** [Close] closes idle connections and returns nil. *)
Definition Close (c : client) : io unit := mret ().

(** [Ping] without a leader to wait for ([timeout <= 0]): the version. *)
Definition ping_request (c : client) : outcome request :=
  let u := set_path (cl_url c) (path_Join [u_Path (cl_url c); bs "ping"]) in
  req ← NewRequest (bs "GET") (url_String u) [];
  Ret (default_headers c req).
Definition Ping (c : client) : io bytes :=
  req ← lift (ping_request c);
  resp ← send req;
  body ← lift (rs_Body resp);
  lift (if negb (rs_StatusCode resp =? StatusNoContent)%Z then Fail (Errorf "%s" [body])
        else Ret (default [] (rs_Header resp !! bs "X-Influxdb-Version"))).
End Client.

(* ------------------------------------------------------------------ *)
(** ** Queries *)

(** The values of the parameters are of any type [V]. *)
Record Query {V : Type} := MkQuery {
  q_Command : bytes; q_Database : bytes; q_RetentionPolicy : bytes; q_Precision : bytes;
  q_Parameters : gmap bytes V
}.
Arguments Query V : clear implicits.

Definition NewQuery {V} (command database precision : bytes) : Query V :=
  MkQuery V command database [] precision ∅.
Definition NewQueryWithRP {V} (command database retentionPolicy precision : bytes) : Query V :=
  MkQuery V command database retentionPolicy precision ∅.
Definition NewQueryWithParameters {V} (command database precision : bytes)
  (parameters : gmap bytes V) : Query V :=
  MkQuery V command database [] precision parameters.

(** The errors of [Response]; series and messages are left out. *)
Record Response := MkResp { r_Results : list bytes; r_Err : bytes }.

Definition Response_Error (r : Response) : option error :=
  match r_Err r with
  | [] => match List.find (λ e, negb (bytes_equal e [])) (r_Results r) with
          | Some e => Some (Errorf "%s" [e])
          | None => None
          end
  | e => Some (Errorf "%s" [e])
  end.

Section Query.
(** [json.Marshal] of the parameters, [mime.ParseMediaType], and the JSON
    decoder of a response, with the errors they report. *)
Context `{Net} {V : Type} (json_Marshal : gmap bytes V → outcome bytes)
  (ParseMediaType : bytes → bytes) (json_Decode : outcome bytes → Response * option error).

Definition createDefaultRequest (c : client) (q : Query V) : outcome request :=
  let u := set_path (cl_url c) (path_Join [u_Path (cl_url c); bs "query"]) in
  jsonParameters ← json_Marshal (q_Parameters q);
  req ← NewRequest (bs "POST") (url_String u) [];
  let req := default_headers c (set_header req (bs "Content-Type") []) in
  let params := ParseQuery (u_RawQuery (rq_URL req)) in
  let params := Values_Set params (bs "q") (q_Command q) in
  let params := Values_Set params (bs "db") (q_Database q) in
  let params := match q_RetentionPolicy q with
                | [] => params
                | rp => Values_Set params (bs "rp") rp
                end in
  let params := Values_Set params (bs "params") jsonParameters in
  let params := match q_Precision q with
                | [] => params
                | p => Values_Set params (bs "epoch") p
                end in
  Ret (set_query req (Values_Encode params)).

Definition read_or_empty (limit : nat) (body : outcome bytes) : bytes :=
  match body with Ret b => take limit b | _ => [] end.

Definition checkResponse (resp : response) : option error :=
  let header k := default [] (rs_Header resp !! bs k) in
  let status := format_int (rs_StatusCode resp) in
  if bytes_equal (header "X-Influxdb-Version") [] && (500 <=? rs_StatusCode resp)%Z then
    match rs_Body resp with
    | Ret ((_ :: _) as body) =>
        Some (Errorf "received status code %d from downstream server, with response body: %q"
                [status; body])
    | _ => Some (Errorf "received status code %d from downstream server" [status])
    end
  else
    let cType := ParseMediaType (header "Content-Type") in
    if negb (bytes_equal cType (bs "application/json")) then
      match read_or_empty 1024 (rs_Body resp) with
      | [] => Some (Errorf "expected json response, got empty body, with status: %v" [status])
      | body => Some (Errorf "expected json response, got %q, with status: %v and response body: %q"
                        [cType; status; body])
      end
    else None.

(** [Query] without chunking: a response, an error, or both. *)
Definition Query_ (c : client) (q : Query V) : io (Response * option error) :=
  req ← lift (createDefaultRequest c q);
  resp ← send req;
  lift match checkResponse resp with
  | Some e => Fail e
  | None =>
      let '(response, decErr) := json_Decode (rs_Body resp) in
      let decErr := match decErr with
                    | Some e => if bool_decide (e = Errorf "EOF" [])
                                   && negb (rs_StatusCode resp =? StatusOK)%Z
                                then None else Some e
                    | None => None
                    end in
      match decErr with
      | Some e => Fail (Wrapf "unable to decode json: received status code %d err: %s"
                          [format_int (rs_StatusCode resp)] e)
      | None =>
          if negb (rs_StatusCode resp =? StatusOK)%Z
             && match Response_Error response with None => true | Some _ => false end
          then Ret (response, Some (Errorf "received status code %d from server"
                                      [format_int (rs_StatusCode resp)]))
          else Ret (response, None)
      end
  end.
End Query.
