(* ===== verification/Udp.v ===== *)
(** * The InfluxDB UDP client ([client/v2/udp.go])

    Lines packed into datagrams of a maximal size. *)

From S2P Require Import Prelude GoStd GoFloat GoTime ModelsTime Tags Point GoNet Client.

Record UDPConfig := MkUDPConfig { uc_Addr : bytes; uc_PayloadSize : Z }.

Definition UDPPayloadSize : Z := 512.

(** [udpclient], over the connection [conn]. *)
Record udpclient {conn : Type} := MkUdp { ud_conn : conn; ud_payloadSize : Z }.
Arguments udpclient : clear implicits.
Arguments MkUdp {conn}.

(** The state of [Write]: the datagrams given to the connection, in order,
    and the variables [b] and [delayedError]. *)
Record udp_state := MkState { us_sent : list bytes; us_b : bytes; us_delayed : option error }.

Section Udp.
(** The network: an address resolved and dialed, and the error the
    connection answers to a datagram after those it was given before. *)
Context {address conn : Type} (ResolveUDPAddr : bytes → outcome address)
  (DialUDP : address → outcome conn) (conn_Close : conn → option error)
  (conn_Write : conn → list bytes → bytes → option error).

Definition NewUDPClient (conf : UDPConfig) : outcome (udpclient conn) :=
  udpAddr ← ResolveUDPAddr (uc_Addr conf);
  c ← DialUDP udpAddr;
  let payloadSize := uc_PayloadSize conf in
  let payloadSize := if (payloadSize =? 0)%Z then UDPPayloadSize else payloadSize in
  Ret (MkUdp c payloadSize).

Definition udp_Close (uc : udpclient conn) : option error := conn_Close (ud_conn uc).

(** [checkBuffer(n)]: the buffer is sent when [n] more bytes do not fit. *)
Definition checkBuffer (uc : udpclient conn) (n : nat) (st : udp_state) : udp_state :=
  if (0 <? length (us_b st))%nat && (ud_payloadSize uc <? Z.of_nat (length (us_b st) + n))%Z then
    let delayedError := match conn_Write (ud_conn uc) (us_sent st) (us_b st) with
                        | Some err => Some err
                        | None => us_delayed st
                        end in
    MkState (us_sent st ++ [us_b st]) [] delayedError
  else st.

Definition append_line (st : udp_state) (p : point) : udp_state :=
  MkState (us_sent st) (AppendString p (us_b st) ++ ["010"%char]) (us_delayed st).

(** One piece of a point that was split. *)
Definition write_piece (uc : udpclient conn) (st : udp_state) (sp : point) : udp_state :=
  append_line (checkBuffer uc (StringSize sp + 1) st) sp.

(** One turn of the loop over the points; [p.pt.Round(d)] also changes the
    point of the batch, and changes it no further the next time. *)
Definition write_point (uc : udpclient conn) (d : Z) (st : udp_state) (p : point) : udp_state :=
  let p := point_Round p d in
  let pointSize := StringSize p + 1 in
  let st := checkBuffer uc pointSize st in
  if IsZero (p_time p) || (Z.of_nat pointSize <=? ud_payloadSize uc)%Z then append_line st p
  else foldl (write_piece uc) st (Split p (ud_payloadSize uc - 1)).

(** The loop; a nil point is dereferenced. *)
Fixpoint write_points (uc : udpclient conn) (d : Z) (st : udp_state) (points : list (option Point))
  : udp_state * bool :=
  match points with
  | [] => (st, true)
  | None :: _ => (st, false)
  | Some p :: points' => write_points uc d (write_point uc d st (pt p)) points'
  end.

(** [Write]: the datagrams given to the connection, and the result. A
    negative capacity makes [make] panic. *)
Definition udp_Write (uc : udpclient conn) (bp : batchpoints) : list bytes * outcome unit :=
  if (ud_payloadSize uc <? 0)%Z then ([], Panic)
  else
    let d := match ParseDuration ("1"%char :: bp_precision bp) with Ret d => d | _ => 0%Z end in
    match write_points uc d (MkState [] [] None) (bp_points bp) with
    | (st, false) => (us_sent st, Panic)
    | (st, true) =>
        let delayed := match us_delayed st with Some e => Fail e | None => Ret () end in
        if (0 <? length (us_b st))%nat then
          (us_sent st ++ [us_b st],
           match conn_Write (ud_conn uc) (us_sent st) (us_b st) with
           | Some err => Fail err
           | None => delayed
           end)
        else (us_sent st, delayed)
    end.

Definition udp_Query (uc : udpclient conn) : outcome Response :=
  Fail (Errorf "Querying via UDP is not supported" []).
Definition udp_Ping (uc : udpclient conn) : outcome bytes := Ret [].
End Udp.
