(* ===== verification/Delivery.v ===== *)
(** * From client points to the server's points

    What [NewPoint] and [Write] put in a request body, and what
    [ParsePointsWithPrecision] reads from it. *)

From S2P Require Import Prelude GoStd GoStdFacts GoFloat GoFloatFacts GoTime ModelsTime Escape.
From S2P Require Import EscapeFacts Scan ScanFacts ScanFields Tags TagsFacts.
From S2P Require Import ScanKeyFacts Point Parse FieldsFacts LineFacts GoNet Client.

(* ------------------------------------------------------------------ *)
(** ** The specification *)

(** The arguments of one call of [client.NewPoint]; the time is in
    nanoseconds since the Unix epoch. *)
Record input := MkInput {
  in_name : bytes; in_tags : gmap bytes bytes; in_fields : Fields; in_nano : Z
}.

(** A name line protocol carries: not empty, no backslash, one line, and not
    taken for blanks or a comment. *)
Record wire_name (n : bytes) : Prop := {
  wn_clean : clean n; wn_plain : starts_plain n; wn_line : newline ∉ n; wn_comment : not_comment n
}.

(** A tag key without bytes that are escaped, and any value. *)
Definition wire_tag (k v : bytes) : Prop :=
  clean k ∧ clean v ∧ newline ∉ k ∧ newline ∉ v ∧ Forall (λ c, tag_class c = false) k.

(** A field key. *)
Definition wire_key (k : bytes) : Prop := clean k ∧ starts_plain k ∧ newline ∉ k.

(** What can be sent and read back. *)
Record sendable (sup : bool) (i : input) : Prop := {
  sd_name : wire_name (in_name i);
  sd_tags : map_Forall wire_tag (in_tags i);
  sd_count : size (in_tags i) < 100;
  sd_distinct : fields_wf (in_fields i);
  sd_fields : Forall (λ kv, wire_key kv.1 ∧ wire_ok sup kv.2) (in_fields i);
  sd_some : in_fields i ≠ [];
  sd_size : Forall (λ kv, seriesKeySize (MakeKey (in_name i) (NewTags (in_tags i)))
              (esc key_class kv.1) ≤ MaxKeyLength) (in_fields i);
  sd_time : (MinNanoTime <= in_nano i <= MaxNanoTime)%Z
}.

(** The point of the client, and the point of the server: same name, tags
    and fields, the time cut to the unit of the precision. *)
Definition delivered (precision : bytes) (i : input) (p : point) : Prop :=
  let unit := GetPrecisionMultiplier precision in
  Name p = in_name i ∧ Map (point_tags p) = in_tags i ∧
  point_Fields p = Ret (map (λ kv, (kv.1, wire_value kv.2)) (sorted_fields (in_fields i))) ∧
  p_time p = Unix 0 (Z.quot (in_nano i) unit * unit).

(** The point the client builds. *)
Definition built (i : input) : Client.Point :=
  MkClientPoint (MkPoint (MakeKey (in_name i) (NewTags (in_tags i))) (MarshalFields (in_fields i))
                   (Unix 0 (in_nano i))).

(* ------------------------------------------------------------------ *)
(** ** Fields by key *)

Lemma field_lookup_elem fs k v : fields_wf fs → (k, v) ∈ fs → field_lookup fs k = v.
Proof.
  unfold fields_wf. induction fs as [|[k' v'] fs IH]; intros Hnd Hin; [by apply elem_of_nil in Hin|].
  cbn in *. apply NoDup_cons in Hnd as [Hk Hnd]. apply elem_of_cons in Hin as [[= -> ->]|Hin].
  - by rewrite (proj2 (bytes_equal_true k' k')).
  - destruct (bytes_equal k' k) eqn:E; [|by apply IH]. apply bytes_equal_true in E as ->.
    exfalso. apply Hk. apply list_elem_of_fmap. by exists (k, v).
Qed.

Lemma sorted_fields_elem fs kv : fields_wf fs → kv ∈ sorted_fields fs ↔ kv ∈ fs.
Proof.
  intros Hnd. unfold sorted_fields. split.
  - intros (k & -> & Hk)%list_elem_of_fmap. rewrite sort_perm in Hk.
    apply list_elem_of_fmap in Hk as ([k' v] & -> & Hin). cbn.
    by rewrite (field_lookup_elem fs k' v).
  - intros Hin. apply list_elem_of_fmap. exists kv.1. destruct kv as [k v]. cbn.
    rewrite (field_lookup_elem fs k v) by done. split; [done|]. rewrite sort_perm.
    apply list_elem_of_fmap. by exists (k, v).
Qed.

Lemma sorted_fields_Forall P fs : fields_wf fs → Forall P fs → Forall P (sorted_fields fs).
Proof.
  intros Hnd H. rewrite !Forall_forall in *. intros kv Hin. apply H. by apply sorted_fields_elem.
Qed.

Lemma sorted_fields_nil fs : fs ≠ [] → sorted_fields fs ≠ [].
Proof.
  intros Hn E. apply Hn. apply (f_equal length) in E. unfold sorted_fields in E.
  rewrite length_map, length_sort, length_map in E. by destruct fs.
Qed.

Lemma sorted_fields_Permutation fs : fields_wf fs → sorted_fields fs ≡ₚ fs.
Proof.
  intros Hnd. apply NoDup_Permutation.
  - unfold sorted_fields. apply NoDup_fmap_2; [by intros ?? [= ?]|]. by rewrite sort_perm.
  - unfold fields_wf in Hnd. by apply NoDup_fmap_1 in Hnd.
  - intros kv. by apply sorted_fields_elem.
Qed.

(** The fields of a point are read back. *)
Lemma fields_read_back sup key fs t : fields_wf fs → Forall (wire_field sup) fs →
  point_Fields (MkPoint key (MarshalFields fs) t) =
  Ret (map (λ kv, (kv.1, wire_value kv.2)) (sorted_fields fs)).
Proof.
  intros Hnd Hfs. unfold point_Fields. cbn [p_fields]. rewrite MarshalFields_text.
  assert (Forall (wire_field sup) (sorted_fields fs)) as Hsf by by apply sorted_fields_Forall.
  apply (unmarshal_text sup _ _ [] Hsf); [|done].
  clear -Hsf. induction Hsf as [|kv gs [Hk _] _ IH]; [cbn; lia|].
  destruct gs as [|kv' gs]; [unfold fields_text, field_text; cbn; rewrite length_app; cbn; lia|].
  rewrite fields_text_cons, length_app. cbn [length] in *. lia.
Qed.

(** The marshalled text does not depend on the order of the map. *)
Lemma sorted_fields_perm fs gs : fields_wf fs → fs ≡ₚ gs → sorted_fields fs = sorted_fields gs.
Proof.
  intros Hnd Hp.
  assert (fields_wf gs) as Hnd' by (unfold fields_wf in *; by rewrite <- Hp).
  assert (∀ hs : Fields, fields_wf hs → increasing bytes_ltb (sort bytes_ltb hs.*1)) as Hinc.
  { intros hs Hh. by apply sort_keys_increasing. }
  assert (sort bytes_ltb fs.*1 = sort bytes_ltb gs.*1) as Es.
  { apply (sort_unique bytes_ltb bytes_ltb_trans bytes_ltb_irrefl); auto.
    by rewrite !sort_perm, Hp. }
  unfold sorted_fields. rewrite Es. apply map_ext_in. intros k Hk. f_equal.
  apply list_elem_of_In in Hk. rewrite sort_perm in Hk.
  apply list_elem_of_fmap in Hk as ([k' v] & -> & Hin). cbn.
  rewrite (field_lookup_elem gs k' v) by done.
  apply field_lookup_elem; [done|]. by rewrite Hp.
Qed.

(* ------------------------------------------------------------------ *)
(** ** Time *)

Lemma nano_in_i64 n : (MinNanoTime <= n <= MaxNanoTime)%Z → in_i64 n.
Proof. unfold in_i64, MinNanoTime, MaxNanoTime, two63. lia. Qed.

Lemma Unix_not_zero n : (MinNanoTime <= n <= MaxNanoTime)%Z → IsZero (Unix 0 n) = false.
Proof.
  intros Hn. rewrite Unix_nano by (by apply nano_in_i64). unfold IsZero. cbn [t_sec t_nsec].
  apply andb_false_iff. left. apply Z.eqb_neq.
  unfold MinNanoTime, MaxNanoTime, two63, unixToInternal in *.
  pose proof (Z.div_mod n 1000000000 ltac:(lia)).
  pose proof (Z.mod_pos_bound n 1000000000 ltac:(lia)). lia.
Qed.

Lemma quot_unit n u : (1 <= u)%Z →
  (Z.abs (Z.quot n u * u) <= Z.abs n)%Z ∧ (Z.abs (Z.quot n u) <= Z.abs n)%Z.
Proof.
  intros Hu. assert (u ≠ 0%Z) as Hu0 by lia.
  pose proof (Z.rem_sign_mul n u Hu0) as Hs.
  pose proof (Z.rem_bound_abs n u Hu0) as Hr.
  pose proof (Z.quot_rem' n u) as Hq.
  set (q := Z.quot n u) in *. set (r := Z.rem n u) in *. clearbody q r. subst n.
  assert (q = 0 ∨ (1 <= q ∧ u <= u * q) ∨ (q <= -1 ∧ u * q <= - u))%Z as [->|[[H1 H2]|[H1 H2]]] by nia.
  - rewrite Z.mul_0_r, Z.mul_0_l. lia.
  - assert (0 <= r)%Z by nia. split; nia.
  - assert (r <= 0)%Z by nia. split; nia.
Qed.

Lemma SafeCalcTime_quot n precision : (MinNanoTime <= n <= MaxNanoTime)%Z →
  let unit := GetPrecisionMultiplier precision in
  SafeCalcTime (Z.quot n unit) precision = Ret (Unix 0 (Z.quot n unit * unit)).
Proof.
  intros Hn unit. pose proof (multiplier_pos precision) as Hu. fold unit in Hu.
  destruct (quot_unit n unit ltac:(lia)) as [H1 H2].
  unfold SafeCalcTime. fold unit.
  assert (MinNanoTime <= Z.quot n unit * unit <= MaxNanoTime)%Z as Hr.
  { unfold MinNanoTime, MaxNanoTime, two63 in *. lia. }
  rewrite safeSignedMult_exact; [|..|].
  - rewrite (proj2 (CheckTime_range _ _ (nano_in_i64 _ Hr) eq_refl) Hr). done.
  - unfold in_i64, MinNanoTime, MaxNanoTime, two63 in *. lia.
  - lia.
  - by apply nano_in_i64.
  - destruct (Z.eq_dec unit 1) as [->|]; [by left|right]. intros E. rewrite E in Hr.
    unfold MinNanoTime, MaxNanoTime, two63 in *. nia.
Qed.

(* ------------------------------------------------------------------ *)
(** ** [NewPoint] builds the point *)

Lemma tags_clean m : map_Forall wire_tag m → Forall clean_tag (NewTags m).
Proof.
  intros H. apply Forall_forall. intros t Ht. apply NewTags_elem in Ht.
  destruct (H _ _ Ht) as (? & ? & _). by split.
Qed.

(** Plain keys are their own escapes, so the order of the tags is kept. *)
Lemma keys_escaped l : (∀ t, t ∈ l → wire_tag (Key t) (Value t)) →
  map Key (map escape_tag_pair l) = map Key l.
Proof.
  intros H. rewrite map_map. apply map_ext_in. intros t Ht%list_elem_of_In.
  destruct (H _ Ht) as (_ & _ & _ & _ & Hk).
  unfold escape_tag_pair. cbn [Key]. rewrite escapeTag_spec. by apply esc_id.
Qed.

Lemma tags_sorted_escaped m : map_Forall wire_tag m →
  StronglySorted bytes_lt (map Key (map escape_tag_pair (NewTags m))).
Proof.
  intros H. rewrite keys_escaped; [apply NewTags_keys|].
  intros t Ht. apply NewTags_elem in Ht. by apply H.
Qed.

Lemma tags_one_line m : map_Forall wire_tag m →
  Forall (λ t, newline ∉ Key t ∧ newline ∉ Value t) (NewTags m).
Proof.
  intros H. apply Forall_forall. intros t Ht. apply NewTags_elem in Ht.
  by destruct (H _ _ Ht) as (_ & _ & ? & ? & _).
Qed.

Lemma first_error_None {A} (f : A → option error) l : Forall (λ x, f x = None) l → first_error f l = None.
Proof. induction 1 as [|x l Hx _ IH]; [done|]. cbn. by rewrite Hx. Qed.

Lemma finite64_finite f : finite64 f = true → is_inf f = false ∧ is_nan f = false.
Proof. by destruct f. Qed.

Lemma NewPoint_built sup i : sendable sup i →
  Client.NewPoint (in_name i) (in_tags i) (in_fields i) [Unix 0 (in_nano i)] = Ret (built i).
Proof.
  intros [Hn Ht Hc Hd Hf Hs Hz Htm]. unfold Client.NewPoint, Point.NewPoint, pointKey.
  destruct (in_fields i) as [|kv0 fs0] eqn:Efs; [done|]. rewrite <- Efs in *.
  rewrite Unix_not_zero by done. cbn [negb].
  rewrite (proj2 (CheckTime_range _ _ (nano_in_i64 _ Htm) eq_refl) Htm).
  rewrite first_error_None.
  2:{ eapply Forall_impl; [exact Hf|]. intros [k v] [[[Hk _] _] Hv]. cbn in *.
      destruct k as [|c k]; [done|]. destruct v; try done.
      by destruct (finite64_finite f Hv) as [-> ->]. }
  rewrite first_error_None; [cbn [mbind outcome_bind]; unfold built; by rewrite Efs|].
  eapply Forall_impl; [exact Hz|]. intros kv Hsz. unfold check_size.
  rewrite (proj2 (Nat.ltb_ge _ _)); [done|]. etransitivity; [|exact Hsz].
  unfold seriesKeySize. pose proof (esc_length key_class kv.1). lia.
Qed.

(* ------------------------------------------------------------------ *)
(** ** [Write] and [ParsePointsWithPrecision] *)

(** The line of a point. *)
Definition wire_of (precision : bytes) (i : input) : wire_point :=
  MkWire (in_name i) (NewTags (in_tags i)) (sorted_fields (in_fields i))
    (Z.quot (in_nano i) (GetPrecisionMultiplier precision)).

Lemma wire_of_ok sup precision i : sendable sup i → wire_point_ok sup (wire_of precision i).
Proof.
  intros [[Hn Hpl Hnl Hcm] Ht Hc Hd Hf Hs Hz Htm].
  assert (Forall (λ kv, wire_key kv.1 ∧ wire_ok sup kv.2) (sorted_fields (in_fields i))) as Hsf
    by by apply sorted_fields_Forall.
  split; unfold wire_of; cbn [w_name w_tags w_fields w_time]; [| |done|].
  - split; try done.
    + by apply tags_clean.
    + by apply tags_sorted_escaped.
    + by rewrite length_NewTags.
    + eapply Forall_impl; [exact Hsf|]. intros kv [[? _] ?]. done.
    + by apply sorted_fields_nil.
    + destruct (sorted_fields (in_fields i)) as [|[[|c k] v] fs]; try done.
      apply Forall_cons in Hsf as [[[_ [Hp _]] _] _]. done.
    + by apply sorted_fields_Forall.
  - split; [by apply MakeKey_one_line, tags_one_line|].
    eapply Forall_impl; [exact Hsf|]. intros kv [[_ [_ ?]] _]. done.
  - destruct (quot_unit (in_nano i) (GetPrecisionMultiplier precision)) as [_ H].
    { apply multiplier_pos. }
    unfold in_i64, MinNanoTime, MaxNanoTime, two63 in *.
    generalize dependent (Z.quot (in_nano i) (GetPrecisionMultiplier precision)). lia.
Qed.

Lemma write_line_built precision i : (MinNanoTime <= in_nano i <= MaxNanoTime)%Z →
  write_line precision (Some (built i)) = wire_text (wire_of precision i) ++ [newline].
Proof.
  intros Hs. unfold write_line, cp_PrecisionString, PrecisionString, built. cbn [pt p_time p_key p_fields].
  rewrite Unix_not_zero by done. f_equal.
  unfold wire_text, line_text, wire_of. cbn [w_name w_tags w_fields w_time].
  rewrite MarshalFields_text. unfold point_UnixNano. cbn [p_time].
  rewrite UnixNano_Unix_nano by (by apply nano_in_i64). done.
Qed.

(** The point the server reads. *)
Definition parsed (precision : bytes) (i : input) : point :=
  let unit := GetPrecisionMultiplier precision in
  MkPoint (MakeKey (in_name i) (NewTags (in_tags i))) (MarshalFields (in_fields i))
    (Unix 0 (Z.quot (in_nano i) unit * unit)).

(** The body of points, as lines; each can be read, and denotes the point
    the server reads. *)
Lemma written_lines precision ins : Forall (λ i, (MinNanoTime <= in_nano i <= MaxNanoTime)%Z) ins →
  concat (map (write_line precision) (map (λ i, Some (built i)) ins)) =
  concat (map (λ w, wire_text w ++ [newline]) (map (wire_of precision) ins)).
Proof.
  intros Hs. f_equal. rewrite !map_map. apply map_ext_in. intros i Hi%list_elem_of_In.
  rewrite Forall_forall in Hs. by apply write_line_built, Hs.
Qed.

Lemma wires_ok sup precision ins : Forall (sendable sup) ins →
  Forall (wire_point_ok sup) (map (wire_of precision) ins).
Proof. intros Hs. apply Forall_map. eapply Forall_impl; [exact Hs|]. intros i. apply wire_of_ok. Qed.

Lemma wires_denote sup precision ins : Forall (sendable sup) ins →
  Forall2 (wire_denotes precision) (map (wire_of precision) ins) (map (parsed precision) ins).
Proof.
  induction 1 as [|i ins Hi _ IH]; cbn [map]; constructor; [|exact IH].
  eexists. split; [apply SafeCalcTime_quot, Hi|]. unfold parsed, wire_of.
  cbn [w_name w_tags w_fields w_time]. by rewrite MarshalFields_text.
Qed.

Lemma parse_written sup defaultTime precision ins : Forall (sendable sup) ins →
  ParsePointsWithPrecision sup
    (concat (map (write_line precision) (map (λ i, Some (built i)) ins))) defaultTime precision
  = Ret (map (parsed precision) ins, []).
Proof.
  intros Hs. rewrite written_lines by (eapply Forall_impl; [exact Hs|]; apply sd_time).
  apply ParsePoints_lines; [by apply wires_ok|by apply (wires_denote sup)].
Qed.

(** [Name] reads the measurement of a key. *)
Lemma unesc_esc_sub P Q s : (∀ c, P c = true → Q c = true) → Q backslash = false →
  backslash ∉ s → unesc Q (esc P s) = s.
Proof.
  intros HPQ HQ. induction s as [|c s IH]; [done|]. rewrite not_elem_of_cons. intros [Hc Hs].
  cbn. destruct (P c) eqn:E; cbn.
  - by rewrite (HPQ _ E), IH.
  - rewrite (proj2 (Ascii.eqb_neq c backslash)) by done. by rewrite IH.
Qed.

Lemma Name_MakeKey name tags fields t : clean name → Forall clean_tag tags →
  Name (MkPoint (MakeKey name tags) fields t) = name.
Proof.
  intros [Hn Hb] Ht. unfold Name. cbn [p_key]. rewrite MakeKey_text by done.
  pose proof (scanTo_guarded meas_class [] (esc meas_class name)
    (concat (map tag_text (map escape_tag_pair tags))) "," 0
    ltac:(done) ltac:(done) (esc_guarded _ _ eq_refl Hb) eq_refl eq_refl) as H.
  cbn [app] in H. rewrite H; cbn [snd].
  - rewrite Unescape_spec. apply unesc_esc_sub; [|done|done].
    unfold meas_class, key_class. intros c. rewrite !orb_true_iff. tauto.
  - rewrite <- (app_nil_r (concat _)). apply tags_text_ends; [|done].
    apply Forall_map. eapply Forall_impl; [exact Ht|]. apply escape_tag_guarded.
Qed.

Lemma parsed_delivered sup precision i : sendable sup i → delivered precision i (parsed precision i).
Proof.
  intros [[Hn Hpl Hnl Hcm] Ht Hc Hd Hf Hs Hz Htm]. unfold delivered, parsed.
  repeat split.
  - apply Name_MakeKey; [done|by apply tags_clean].
  - unfold point_tags. cbn [p_key]. rewrite parseTags_MakeKey; [apply Map_NewTags|done|by apply tags_clean].
  - unfold point_Fields. cbn [p_fields]. rewrite MarshalFields_text.
    rewrite <- MarshalFields_text. apply (fields_read_back sup (MakeKey [] []) _ zeroTime); [done|].
    eapply Forall_impl; [exact Hf|]. intros kv [[? _] ?]. done.
Qed.

Lemma built_all sup ins pts : Forall (sendable sup) ins →
  Forall2 (λ i pt, Client.NewPoint (in_name i) (in_tags i) (in_fields i) [Unix 0 (in_nano i)]
                   = Ret pt) ins pts → pts = map built ins.
Proof.
  intros Hs Hb. revert Hs. induction Hb as [|i pt ins pts E _ IH]; intros Hs; [done|].
  apply Forall_cons in Hs as [Hi Hs]. rewrite (NewPoint_built sup) in E by done.
  injection E as <-. cbn. f_equal. by apply IH.
Qed.

(* ------------------------------------------------------------------ *)
(** ** What can be sent is decidable *)

#[export] Instance clean_dec s : Decision (clean s).
Proof. unfold clean. apply _. Defined.
#[export] Instance clean_tag_dec t : Decision (clean_tag t).
Proof. unfold clean_tag. apply _. Defined.
#[export] Instance starts_plain_dec s : Decision (starts_plain s).
Proof. unfold starts_plain. destruct s; apply _. Defined.
#[export] Instance not_comment_dec s : Decision (not_comment s).
Proof. unfold not_comment. destruct s; apply _. Defined.
#[export] Instance wire_name_dec n : Decision (wire_name n).
Proof.
  refine (cast_if (decide (clean n ∧ starts_plain n ∧ (newline ∉ n) ∧ not_comment n))).
  - abstract (split; naive_solver).
  - abstract (intros []; naive_solver).
Defined.
#[export] Instance wire_tag_dec k v : Decision (wire_tag k v).
Proof. unfold wire_tag. apply _. Defined.
#[export] Instance wire_key_dec k : Decision (wire_key k).
Proof. unfold wire_key. apply _. Defined.
#[export] Instance wire_ok_dec sup v : Decision (wire_ok sup v).
Proof. destruct v as [| |[]| | | | |]; cbn [wire_ok]; unfold in_i64; apply _. Defined.
#[export] Instance sendable_dec sup i : Decision (sendable sup i).
Proof.
  refine (cast_if (decide (wire_name (in_name i) ∧ map_Forall wire_tag (in_tags i) ∧
    size (in_tags i) < 100 ∧ NoDup (in_fields i).*1 ∧
    Forall (λ kv, wire_key kv.1 ∧ wire_ok sup kv.2) (in_fields i) ∧ in_fields i ≠ [] ∧
    Forall (λ kv, seriesKeySize (MakeKey (in_name i) (NewTags (in_tags i)))
              (esc key_class kv.1) ≤ MaxKeyLength) (in_fields i) ∧
    (MinNanoTime <= in_nano i <= MaxNanoTime)%Z))).
  - abstract (split; unfold fields_wf; naive_solver).
  - abstract (intros []; unfold fields_wf in *; naive_solver).
Defined.

(** A point to try the theorems on. *)
Definition sample : input :=
  MkInput (bs "cpu,load") {[bs "host" := bs "a b"; bs "region" := bs "x=y"]}
    [(bs "value", VFloat (float_of_decimal false 425 (-1))); (bs "msg", VString (dquote :: bs "\hi"));
     (bs "n", VInt kint32 (-7)); (bs "ok", VBool true)]
    1500000000123456789.

Lemma sample_sendable sup : sendable sup sample.
Proof. apply (bool_decide_unpack _). destruct sup; vm_compute; exact I. Qed.
