(* ===== verification/PointFacts.v ===== *)
(** * Lemmas on points: construction, sizes, splitting and times *)

From S2P Require Import Prelude GoStd GoStdFacts GoFloat GoFloatFacts GoTime ModelsTime Escape.
From S2P Require Import EscapeFacts Scan ScanFacts ScanFields Tags TagsFacts.
From S2P Require Import Point Parse FieldsFacts GoNet Client Delivery.

(* ------------------------------------------------------------------ *)
(** ** Construction *)

(** What [models.NewPoint] accepts. *)
Definition point_valid (name : bytes) (tags : Tags) (fs : Fields) (t : Time) : Prop :=
  fs ≠ [] ∧ (IsZero t = true ∨ CheckTime t = None) ∧
  ∀ k v, (k, v) ∈ fs →
    k ≠ [] ∧ (∀ f, v = VFloat f → is_finite f = true) ∧
    seriesKeySize (MakeKey name tags) k ≤ MaxKeyLength.

Lemma first_error_iff {A} (f : A → option error) l :
  first_error f l = None ↔ ∀ x, x ∈ l → f x = None.
Proof.
  induction l as [|x l IH]; cbn; [split; [by intros _ y ?%elem_of_nil|done]|].
  destruct (f x) eqn:E.
  - split; [done|]. intros H. specialize (H x ltac:(by left)). congruence.
  - rewrite IH. setoid_rewrite elem_of_cons. naive_solver.
Qed.

Lemma check_field_iff k v : check_field (k, v) = None ↔
  k ≠ [] ∧ ∀ f, v = VFloat f → is_finite f = true.
Proof.
  unfold check_field. destruct v as [f|kd z|kd z|s|b|b| |s].
  1: destruct f as [s|s| |s m e]; cbn; destruct k; naive_solver.
  all: destruct k; naive_solver.
Qed.

Lemma check_size_iff key kv : check_size key kv = None ↔ seriesKeySize key kv.1 ≤ MaxKeyLength.
Proof.
  unfold check_size. destruct (Nat.ltb_spec MaxKeyLength (seriesKeySize key kv.1)); split; done || lia.
Qed.

Lemma NewPoint_iff name tags fs t p :
  Point.NewPoint name tags fs t = Ret p ↔
  point_valid name tags fs t ∧ p = MkPoint (MakeKey name tags) (MarshalFields fs) t.
Proof.
  unfold Point.NewPoint, pointKey, point_valid.
  destruct fs as [|kv0 fs0]; [split; [done|naive_solver]|].
  remember (kv0 :: fs0) as fs eqn:Efs.
  assert (fs ≠ []) as Hne by by subst fs. clear kv0 fs0 Efs.
  assert ((if negb (IsZero t) then CheckTime t else None) = None ↔ (IsZero t = true ∨ CheckTime t = None)) as Ht
    by (destruct (IsZero t); cbn; naive_solver).
  destruct (if negb (IsZero t) then CheckTime t else None) as [e|] eqn:Et; cbn [mbind outcome_bind].
  { split; [done|]. intros ((_ & H & _) & _). by apply Ht in H. }
  destruct (first_error check_field fs) as [e|] eqn:Ef; cbn [mbind outcome_bind].
  { split; [done|]. intros ((_ & _ & H) & _).
    assert (first_error check_field fs = None); [|congruence].
    apply first_error_iff. intros [k v] Hin. apply check_field_iff. destruct (H k v Hin); naive_solver. }
  destruct (first_error (check_size (MakeKey name tags)) fs) as [e|] eqn:Es; cbn [mbind outcome_bind].
  { split; [done|]. intros ((_ & _ & H) & _).
    assert (first_error (check_size (MakeKey name tags)) fs = None); [|congruence].
    apply first_error_iff. intros [k v] Hin. apply check_size_iff. by apply (H k v Hin). }
  rewrite first_error_iff in Ef, Es. split.
  - intros [= <-]. split; [|done]. split; [done|]. split; [by apply Ht|].
    intros k v Hin. specialize (Ef _ Hin). specialize (Es _ Hin).
    apply check_field_iff in Ef as [? ?]. by apply check_size_iff in Es.
  - by intros [_ ->].
Qed.

Lemma MarshalFields_perm fs gs : fields_wf fs → fs ≡ₚ gs → MarshalFields fs = MarshalFields gs.
Proof. intros Hnd Hp. by rewrite !MarshalFields_text, (sorted_fields_perm fs gs). Qed.

Lemma point_valid_perm name tags fs gs t : fs ≡ₚ gs →
  point_valid name tags fs t → point_valid name tags gs t.
Proof.
  intros Hp (Hn & Ht & H). split; [|split; [done|]].
  - intros ->. apply Permutation_sym, Permutation_nil in Hp. done.
  - intros k v. rewrite <- Hp. apply H.
Qed.

(* ------------------------------------------------------------------ *)
(** ** Sizes *)

#[local] Open Scope Z_scope.

Lemma count_digits_spec fuel : ∀ t d, 0 <= t < 10 ^ Z.of_nat fuel →
  count_digits fuel t d = (d + length (digits t) - 1)%nat.
Proof.
  induction fuel as [|fuel IH]; intros t d Ht.
  - change (10 ^ Z.of_nat 0) with 1 in Ht. assert (t = 0) as -> by lia.
    rewrite digits_small by lia. cbn. lia.
  - cbn [count_digits]. destruct (Z.ltb_spec 9 t).
    + rewrite Z.quot_div_nonneg by lia. rewrite IH.
      * rewrite (digits_large t) by lia. rewrite length_app. cbn. lia.
      * split; [apply Z.div_pos; lia|]. apply Z.div_lt_upper_bound; [lia|].
        rewrite Nat2Z.inj_succ, Z.pow_succ_r in Ht by lia. lia.
    + rewrite digits_small by lia. cbn. lia.
Qed.

Lemma UnixNano_range t : in_i64 (UnixNano t).
Proof. apply i64_range. Qed.

Lemma StringSize_spec p : UnixNano (p_time p) ≠ - two63 →
  StringSize p = length (point_String p).
Proof.
  intros Hne. unfold StringSize, point_String, point_UnixNano.
  destruct (IsZero (p_time p)); cbn [negb].
  { rewrite !length_app. cbn. lia. }
  pose proof (UnixNano_range (p_time p)) as Hr. generalize dependent (UnixNano (p_time p)).
  intros n Hne Hr. unfold in_i64, two63 in Hr, Hne.
  assert (10 ^ Z.of_nat 20 = 100000000000000000000) as Hp by reflexivity.
  rewrite !length_app. cbn [length bs String.list_ascii_of_string]. unfold format_int.
  destruct (Z.ltb_spec n 0).
  - rewrite i64_id by (unfold in_i64, two63; lia). rewrite count_digits_spec by lia.
    pose proof (length_digits_bounds (- n) ltac:(lia)) as (_ & _ & ?). cbn [length]. lia.
  - rewrite count_digits_spec by lia.
    pose proof (length_digits_bounds n ltac:(lia)) as (_ & _ & ?). lia.
Qed.

Lemma AppendString_spec p buf : AppendString p buf = buf ++ point_String p.
Proof.
  unfold AppendString, point_String. destruct (IsZero (p_time p)); cbn [negb bs String.list_ascii_of_string]; app_eq.
Qed.

(* ------------------------------------------------------------------ *)
(** ** Times *)

Lemma SafeCalcTime_spec ts precision : in_i64 ts →
  SafeCalcTime ts precision =
  if bool_decide (MinNanoTime <= ts * GetPrecisionMultiplier precision <= MaxNanoTime)
  then Ret (Unix 0 (ts * GetPrecisionMultiplier precision))
  else Fail ErrTimeOutOfRange.
Proof.
  intros Hts. pose proof (multiplier_pos precision) as Hu.
  unfold SafeCalcTime. set (u := GetPrecisionMultiplier precision) in *. clearbody u.
  case_bool_decide as Hr.
  - rewrite safeSignedMult_exact; [|done|done|by apply nano_in_i64|].
    + by rewrite (proj2 (CheckTime_range _ _ (nano_in_i64 _ Hr) eq_refl) Hr).
    + destruct (Z.eq_dec u 1); [by left|right]. intros ->.
      unfold MinNanoTime, MaxNanoTime, two63 in *. nia.
  - destruct (decide (in_i64 (ts * u) ∧ (u = 1 ∨ ts ≠ MinNanoTime))) as [[Hi Hx]|Hn].
    + rewrite safeSignedMult_exact by done.
      destruct (CheckTime (Unix 0 (ts * u))) as [e|] eqn:E.
      * unfold CheckTime in E. by destruct (_ || _); simplify_eq.
      * by apply (CheckTime_range _ _ Hi eq_refl) in E.
    + assert ((safeSignedMult ts u).2 = false) as Hf.
      { destruct (decide (in_i64 (ts * u))) as [Hi|Hi]; [|by apply safeSignedMult_overflow].
        assert (ts = MinNanoTime ∧ u ≠ 1) as [-> Hu1] by (split; apply dec_stable; naive_solver).
        exfalso. unfold in_i64, MinNanoTime, two63 in Hi. nia. }
      destruct (safeSignedMult ts u) as [c ok]. cbn in Hf. by subst ok.
Qed.

#[local] Close Scope Z_scope.

(* ------------------------------------------------------------------ *)
(** ** Splitting *)

(** [scanFieldValue] stops at a comma or at the end. *)
Lemma scan_field_value_stop n : ∀ rest q i, length rest ≤ n →
  let j := scan_field_value_loop q rest i in
  i ≤ j ∧ (length rest ≤ j - i ∨ rest !! (j - i) = Some ","%char).
Proof.
  induction n as [|n IH]; intros rest q i Hl; (destruct rest as [|c rest]; [cbn; split; [lia|left; lia]|]);
    [cbn in Hl; lia|].
  cbn [length] in Hl. cbn [scan_field_value_loop].
  assert (∀ q' , let j := scan_field_value_loop q' rest (S i) in
    i ≤ j ∧ (length (c :: rest) ≤ j - i ∨ (c :: rest) !! (j - i) = Some ","%char)) as Hstep.
  { intros q' j. destruct (IH rest q' (S i) ltac:(lia)) as [H1 H2]. fold j in H1, H2.
    split; [lia|]. replace (j - i) with (S (j - S i)) by lia. cbn [length].
    destruct H2 as [H2|H2]; [left; lia|right; exact H2]. }
  assert (let j := if Ascii.eqb c dquote then scan_field_value_loop (negb q) rest (S i)
                   else if (c =c ",") && negb q then i
                   else scan_field_value_loop q rest (S i) in
    i ≤ j ∧ (length (c :: rest) ≤ j - i ∨ (c :: rest) !! (j - i) = Some ","%char)) as Hplain.
  { destruct (Ascii.eqb c dquote); [apply Hstep|].
    destruct (Ascii.eqb_spec c ","%char) as [->|]; cbn [andb]; [|apply Hstep].
    destruct (negb q); [|apply Hstep]. rewrite Nat.sub_diag. split; [lia|by right]. }
  destruct (Ascii.eqb c backslash); [|exact Hplain].
  destruct rest as [|d rest]; [exact Hplain|].
  destruct (Ascii.eqb d dquote || Ascii.eqb d backslash); [|exact Hplain].
  cbn [length] in *. destruct (IH rest q (S (S i)) ltac:(lia)) as [H1 H2].
  set (j := scan_field_value_loop q rest (S (S i))) in *. split; [lia|]. replace (j - i) with (S (S (j - S (S i)))) by lia.
  destruct H2 as [H2|H2]; [left; lia|right; exact H2].
Qed.

Lemma scanFieldValue_stop buf i : i ≤ (scanFieldValue buf i).1 ∧
  (length buf ≤ (scanFieldValue buf i).1 ∨ buf !! (scanFieldValue buf i).1 = Some ","%char).
Proof.
  unfold scanFieldValue. cbn [fst].
  destruct (scan_field_value_stop _ (drop i buf) false i (Nat.le_refl _)) as [H1 H2].
  split; [done|]. rewrite length_drop, lookup_drop in H2.
  destruct H2 as [H2|H2]; [left; lia|right].
  replace (i + (scan_field_value_loop false (drop i buf) i - i))
    with (scan_field_value_loop false (drop i buf) i) in H2 by lia. done.
Qed.

Lemma scan_to_ge stop prev rest i : i ≤ scan_to_loop stop prev rest i.
Proof.
  revert prev i. induction rest as [|c rest IH]; intros prev i; cbn; [lia|].
  destruct (_ && _); [lia|]. specialize (IH (Some c) (S i)). lia.
Qed.

(** The end of the field at [cur]. *)
Definition field_end (buf : bytes) (cur : nat) : nat :=
  (scanFieldValue buf ((scanTo buf cur "=").1 + 1)).1.

Lemma split_loop_S fuel p size start cur points :
  split_loop (S fuel) p size start cur points =
  if (cur <? length (p_fields p))%nat then
    if (start <? cur)%nat && (size <? Z.of_nat (field_end (p_fields p) cur) - Z.of_nat start)%Z then
      split_loop fuel p size cur (field_end (p_fields p) cur + 1)
        (points ++ [MkPoint (p_key p) (slice (p_fields p) start (cur - 1)) (p_time p)])
    else split_loop fuel p size start (field_end (p_fields p) cur + 1) points
  else (points, start).
Proof.
  unfold field_end. cbn [split_loop]. destruct (cur <? _)%nat; [|done].
  destruct (scanTo (p_fields p) cur "=") as [e k]. cbn [fst].
  by destruct (scanFieldValue (p_fields p) (e + 1)) as [e' v].
Qed.

Lemma field_end_gt buf cur : cur < field_end buf cur + 1 ∧
  (length buf ≤ field_end buf cur ∨ buf !! field_end buf cur = Some ","%char).
Proof.
  unfold field_end. destruct (scanFieldValue_stop buf ((scanTo buf cur "=").1 + 1)) as [H1 H2].
  split; [|done]. unfold scanTo in *. cbn [fst] in *.
  pose proof (scan_to_ge "=" (prev_at buf cur) (drop cur buf) cur). lia.
Qed.

(** The fuel of [Split] is enough: more makes no difference. *)
Lemma split_loop_enough fuel : ∀ more p size start cur points,
  length (p_fields p) - cur ≤ fuel →
  split_loop (fuel + more) p size start cur points = split_loop fuel p size start cur points.
Proof.
  induction fuel as [|fuel IH]; intros more p size start cur points Hf.
  - destruct more as [|more]; [done|]. cbn [Nat.add]. rewrite split_loop_S.
    by rewrite (proj2 (Nat.ltb_ge _ _)) by lia.
  - cbn [Nat.add]. rewrite !split_loop_S. destruct (Nat.ltb_spec cur (length (p_fields p))); [|done].
    destruct (field_end_gt (p_fields p) cur) as [Hgt _].
    by destruct (_ && _); rewrite IH by lia.
Qed.

Definition piece_of (p q : point) : Prop := p_key q = p_key p ∧ p_time q = p_time p.

Lemma split_loop_pieces fuel : ∀ p size start cur points,
  start ≤ cur → (cur = 0 ∨ length (p_fields p) < cur ∨ p_fields p !! (cur - 1) = Some ","%char) →
  ∃ new start', split_loop fuel p size start cur points = (points ++ new, start') ∧
    Forall (piece_of p) new ∧
    concat (map (λ q, p_fields q ++ [","%char]) new) ++ drop start' (p_fields p) = drop start (p_fields p).
Proof.
  induction fuel as [|fuel IH]; intros p size start cur points Hsc Hc.
  { exists [], start. cbn. by rewrite app_nil_r. }
  rewrite split_loop_S.
  destruct (Nat.ltb_spec cur (length (p_fields p))) as [Hlt|].
  2:{ exists [], start. cbn. by rewrite app_nil_r. }
  set (end_ := field_end (p_fields p) cur).
  destruct (field_end_gt (p_fields p) cur) as [Hgt Hstop]. fold end_ in Hgt, Hstop.
  assert (end_ + 1 = 0 ∨ length (p_fields p) < end_ + 1 ∨
          p_fields p !! (end_ + 1 - 1) = Some ","%char) as Hnext.
  { right. destruct Hstop as [Hle|Hcm]; [left; lia|right]. by rewrite Nat.add_sub. }
  destruct ((start <? cur)%nat && _) eqn:Ecut.
  - apply andb_true_iff in Ecut as [Hs%Nat.ltb_lt _].
    destruct (IH p size cur (end_ + 1) (points ++ [MkPoint (p_key p) (slice (p_fields p) start (cur - 1)) (p_time p)])
      ltac:(lia) Hnext) as (new & start' & -> & Hall & Hcat).
    exists (MkPoint (p_key p) (slice (p_fields p) start (cur - 1)) (p_time p) :: new), start'.
    split; [by rewrite <- app_assoc|]. split; [by constructor|].
    cbn [map concat p_fields]. rewrite <- app_assoc, Hcat.
    destruct Hc as [Hc|[Hc|Hc]]; [lia|lia|].
    unfold slice. rewrite <- app_assoc.
    assert (drop start (p_fields p) = take (cur - 1 - start) (drop start (p_fields p))
      ++ drop (cur - 1 - start) (drop start (p_fields p))) as E by (by rewrite take_drop).
    rewrite E at 2. f_equal. rewrite drop_drop.
    replace (start + (cur - 1 - start)) with (cur - 1) by lia.
    rewrite (drop_S _ ","%char (cur - 1)) by done. cbn [app]. do 2 f_equal. lia.
  - destruct (IH p size start (end_ + 1) points ltac:(lia) Hnext) as (new & start' & -> & Hall & Hcat).
    by exists new, start'.
Qed.

Lemma join_commas ps rest : join (bs ",") (map p_fields ps ++ [rest]) =
  concat (map (λ q, p_fields q ++ [","%char]) ps) ++ rest.
Proof.
  induction ps as [|p ps IH]; [done|]. cbn [map app concat].
  destruct (map p_fields ps ++ [rest]) as [|x l] eqn:E; [by destruct ps|].
  change (join (bs ",") (p_fields p :: x :: l)) with (p_fields p ++ bs "," ++ join (bs ",") (x :: l)).
  rewrite IH. app_eq.
Qed.

Lemma Split_pieces p size :
  Forall (piece_of p) (Split p size) ∧ join (bs ",") (map p_fields (Split p size)) = p_fields p.
Proof.
  unfold Split. destruct (_ || _); [split; [by repeat constructor|done]|].
  destruct (split_loop_pieces (length (p_fields p)) p
    (size - Z.of_nat (length (p_key p) + length (format_int (point_UnixNano p)) + 2)) 0 0 []
    ltac:(lia) ltac:(by left)) as (new & start' & -> & Hall & Hcat).
  cbn [app]. split.
  - apply Forall_app. split; [done|]. by repeat constructor.
  - rewrite map_app. cbn [map p_fields]. rewrite join_commas. by rewrite Hcat, drop_0.
Qed.

(** The piece is one field of [fields]. *)
Definition one_field (fields piece : bytes) : Prop :=
  ∃ i, piece = slice fields i (field_end fields i).

(** Between [start] and [cur] there is one field, or room for all. *)
Definition piece_ok (fields : bytes) (size : Z) (start cur : nat) : Prop :=
  cur - 1 = field_end fields start ∨ (Z.of_nat (cur - 1) - Z.of_nat start <= size)%Z.

Lemma piece_ok_slice fields size start cur : piece_ok fields size start cur → start < cur →
  one_field fields (slice fields start (cur - 1)) ∨
  (Z.of_nat (length (slice fields start (cur - 1))) <= size)%Z.
Proof.
  intros [->|H] Hc; [left; by exists start|right].
  unfold slice. rewrite length_take, length_drop. lia.
Qed.

Lemma split_loop_bound fuel : ∀ p size start cur points,
  last (p_fields p) ≠ Some ","%char → length (p_fields p) - cur < fuel →
  (start < cur ∧ piece_ok (p_fields p) size start cur ∨ start = 0 ∧ cur = 0 ∧ p_fields p ≠ []) →
  (cur ≤ length (p_fields p) → cur = 0 ∨ p_fields p !! (cur - 1) = Some ","%char) →
  let fits q := one_field (p_fields p) q ∨ (Z.of_nat (length q) <= size)%Z in
  Forall (fits ∘ p_fields) points →
  let '(points', start') := split_loop fuel p size start cur points in
  Forall (fits ∘ p_fields) points' ∧ fits (drop start' (p_fields p)).
Proof.
  induction fuel as [|fuel IH]; intros p size start cur points Hlast Hf Hok Hc fits Hpts; [lia|].
  rewrite split_loop_S. destruct (Nat.ltb_spec cur (length (p_fields p))) as [Hlt|Hge].
  - destruct (field_end_gt (p_fields p) cur) as [Hgt Hstop].
    set (end_ := field_end (p_fields p) cur) in *.
    assert (end_ + 1 ≤ length (p_fields p) →
      end_ + 1 = 0 ∨ p_fields p !! (end_ + 1 - 1) = Some ","%char) as Hnext.
    { intros Hl. right. rewrite Nat.add_sub. destruct Hstop; [lia|done]. }
    destruct (Nat.ltb_spec start cur) as [Hs|Hs]; cbn [andb].
    + destruct Hok as [[_ Hok]|]; [|lia].
      destruct (Z.ltb_spec size (Z.of_nat end_ - Z.of_nat start)).
      * apply IH; [done|lia|left; split; [lia|left; subst end_; lia]|done|].
        apply Forall_app. split; [done|]. constructor; [|done].
        cbn [compose p_fields]. by apply piece_ok_slice.
      * apply IH; [done|lia|left; split; [lia|right; lia]|done|done].
    + assert (start = cur) as -> by lia.
      apply IH; [done|lia|left; split; [lia|left; subst end_; lia]|done|done].
  - split; [done|]. destruct Hok as [[Hs Hok]|(_ & -> & Hne)]; [|destruct (p_fields p); [done|cbn in Hge; lia]].
    assert (length (p_fields p) < cur) as Hgt.
    { destruct (decide (cur = length (p_fields p))) as [->|]; [|lia]. destruct Hc as [|Hc]; [done|lia|].
      rewrite last_lookup, <- Nat.sub_1_r in Hlast. done. }
    destruct (piece_ok_slice _ _ _ _ Hok Hs) as [[i Hi]|Hi].
    + left. exists i. rewrite <- Hi. unfold slice. by rewrite take_ge by (rewrite length_drop; lia).
    + right. unfold slice in Hi. by rewrite take_ge in Hi by (rewrite length_drop; lia).
Qed.

(** The pieces have the size asked for, but for single fields and points
    without a time. *)
Lemma Split_bound p size : UnixNano (p_time p) ≠ (- two63)%Z → p_fields p ≠ [] →
  last (p_fields p) ≠ Some ","%char →
  Forall (λ q, IsZero (p_time p) = true ∨ one_field (p_fields p) (p_fields q) ∨
    (Z.of_nat (length (point_String q)) <= size)%Z) (Split p size).
Proof.
  intros Hu Hne Hl. unfold Split. destruct (IsZero (p_time p)) eqn:Ez; cbn [orb].
  { constructor; [by left|done]. }
  destruct (Z.leb_spec (Z.of_nat (StringSize p)) size).
  { constructor; [|done]. do 2 right. by rewrite <- StringSize_spec. }
  set (room := (size - _)%Z).
  pose proof (split_loop_bound (S (length (p_fields p))) p room 0 0 [] Hl ltac:(lia)
    ltac:(by right) ltac:(by left) ltac:(constructor)) as Hb.
  pose proof (split_loop_pieces (length (p_fields p)) p room 0 0 [] ltac:(lia) ltac:(by left))
    as (new & start' & E & Hall & _).
  rewrite <- Nat.add_1_r, split_loop_enough, E in Hb by lia. rewrite E. destruct Hb as [H1 H2].
  assert (∀ q, piece_of p q → one_field (p_fields p) (p_fields q) ∨
    (Z.of_nat (length (p_fields q)) <= room)%Z →
    false = true ∨ one_field (p_fields p) (p_fields q) ∨ (Z.of_nat (length (point_String q)) <= size)%Z) as Hq.
  { intros q [Ek Et] [Ho|Hz]; [by right; left|]. do 2 right. unfold point_String.
    rewrite Et, Ez. unfold point_UnixNano. rewrite Et, !length_app, Ek.
    unfold room, point_UnixNano in Hz. cbn [length bs String.list_ascii_of_string]. lia. }
  cbn [app] in *. apply Forall_app. split.
  - rewrite Forall_forall in *. intros q Hin. apply Hq; [by apply Hall|by apply (H1 q)].
  - constructor; [|done]. apply Hq; [done|exact H2].
Qed.
