(* ===== verification/UdpFacts.v ===== *)
(** * What the UDP client sends *)

From S2P Require Import Prelude GoStd GoStdFacts GoFloat GoTime ModelsTime Tags Point GoNet.
From S2P Require Import Client PointFacts Udp.

(** The line of a point, and the datagram of several. *)
Definition line_of (p : point) : bytes := point_String p ++ ["010"%char].
Definition packet (g : list point) : bytes := concat (map line_of g).

(** The points whose lines stand for one point of the batch: itself, its
    time rounded, or its pieces. *)
Definition lines_of (payload d : Z) (p : point) : list point :=
  let p := point_Round p d in
  if IsZero (p_time p) || (Z.of_nat (StringSize p + 1) <=? payload)%Z then [p]
  else Split p (payload - 1).

(** Every datagram was taken by the connection. *)
Definition accepted {conn : Type} (conn_Write : conn → list bytes → bytes → option error) (c : conn)
  (sent : list bytes) : Prop :=
  ∀ before d after, sent = before ++ d :: after → conn_Write c before d = None.

Lemma packet_app g h : packet (g ++ h) = packet g ++ packet h.
Proof. unfold packet. by rewrite map_app, concat_app. Qed.

Lemma packet_nil g : packet g = [] ↔ g = [].
Proof.
  split; [|by intros ->]. destruct g as [|q g]; [done|]. unfold packet, line_of. cbn [map concat].
  by destruct (point_String q).
Qed.

Section Packets.
Context {conn : Type} (conn_Write : conn → list bytes → bytes → option error) (uc : udpclient conn).
Let payload : Z := ud_payloadSize uc.

(** A datagram: whole lines that fit, or a single line. *)
Definition good (g : list point) : Prop :=
  g ≠ [] ∧ ((Z.of_nat (length (packet g)) <= payload)%Z ∨ ∃ q, g = [q]).

Lemma accepted_snoc c sent d :
  accepted conn_Write c (sent ++ [d]) ↔ accepted conn_Write c sent ∧ conn_Write c sent d = None.
Proof.
  split.
  - intros H. split; [|by apply (H sent d [])]. intros before x after ->.
    apply (H before x (after ++ [d])). by rewrite <- app_assoc.
  - intros [H Hd] before x after E. destruct after as [|y after] using rev_ind.
    + apply app_inj_tail in E as [-> ->]. done.
    + rewrite app_comm_cons, app_assoc in E. apply app_inj_tail in E as [-> _]. by apply (H before x after).
Qed.

(** The state after the lines of some points. *)
Record packed (st : udp_state) (lines : list point) (groups : list (list point)) (g : list point)
  : Prop := {
  pk_sent : us_sent st = map packet groups;
  pk_buf : us_b st = packet g;
  pk_lines : concat groups ++ g = lines;
  pk_good : Forall good groups;
  pk_open : g = [] ∨ good g;
  pk_delayed : us_delayed st = None ↔ accepted conn_Write (ud_conn uc) (us_sent st)
}.

Lemma checkBuffer_packed n st lines groups g : packed st lines groups g →
  ∃ groups' g', packed (checkBuffer conn_Write uc n st) lines groups' g' ∧
    (g' = [] ∨ (Z.of_nat (length (packet g') + n) <= payload)%Z).
Proof.
  intros [Hs Hb Hl Hg Ho Hd]. unfold checkBuffer. rewrite Hb. fold payload.
  destruct (Nat.ltb_spec 0 (length (packet g))) as [Hpos|Hpos]; cbn [andb].
  2:{ exists groups, g. split; [by split|]. left. apply packet_nil, nil_length_inv. lia. }
  destruct (Z.ltb_spec payload (Z.of_nat (length (packet g) + n))) as [Hfull|].
  2:{ exists groups, g. split; [by split|by right]. }
  exists (groups ++ [g]), []. split; [|by left]. split; cbn [us_sent us_b us_delayed].
  - by rewrite map_app, Hs.
  - done.
  - by rewrite concat_app, app_nil_r; cbn; rewrite app_nil_r.
  - apply Forall_app. split; [done|]. constructor; [|done].
    destruct Ho as [->|]; [cbn in Hpos; lia|done].
  - by left.
  - rewrite accepted_snoc, <- Hd. destruct (conn_Write _ _ _); naive_solver.
Qed.

Lemma append_line_packed n st lines groups g q : packed st lines groups g →
  n = length (line_of q) → g = [] ∨ (Z.of_nat (length (packet g) + n) <= payload)%Z →
  packed (append_line st q) (lines ++ [q]) groups (g ++ [q]).
Proof.
  intros [Hs Hb Hl Hg Ho Hd] -> Hn. unfold append_line. split; cbn [us_sent us_b us_delayed]; try done.
  - rewrite packet_app, AppendString_spec, Hb, <- app_assoc. unfold packet at 2. cbn. by rewrite app_nil_r.
  - by rewrite app_assoc, Hl.
  - right. split; [by destruct g|]. destruct Hn as [->|Hn]; [right; by exists q|left].
    rewrite packet_app, length_app. unfold packet at 2. cbn. rewrite app_nil_r. lia.
Qed.

Lemma line_size q : UnixNano (p_time q) ≠ (- two63)%Z → StringSize q + 1 = length (line_of q).
Proof. intros H. unfold line_of. by rewrite StringSize_spec, length_app. Qed.

Lemma pieces_packed qs : ∀ st lines groups g, packed st lines groups g →
  Forall (λ q, UnixNano (p_time q) ≠ (- two63)%Z) qs →
  ∃ groups' g', packed (foldl (write_piece conn_Write uc) st qs) (lines ++ qs) groups' g'.
Proof.
  induction qs as [|q qs IH]; intros st lines groups g Hp Hq; cbn [foldl].
  { exists groups, g. by rewrite app_nil_r. }
  apply Forall_cons in Hq as [Hq Hqs]. unfold write_piece at 2.
  destruct (checkBuffer_packed (StringSize q + 1) st lines groups g Hp) as (gs & h & Hp' & Hr).
  replace (lines ++ q :: qs) with ((lines ++ [q]) ++ qs) by app_eq.
  eapply IH; [|done]. eapply append_line_packed; [exact Hp'|by apply line_size|exact Hr].
Qed.

Lemma write_point_packed d st lines groups g p : packed st lines groups g →
  UnixNano (Round (p_time p) d) ≠ (- two63)%Z →
  ∃ groups' g', packed (write_point conn_Write uc d st p) (lines ++ lines_of payload d p) groups' g'.
Proof.
  intros Hp Hu. unfold write_point, lines_of. set (q := point_Round p d).
  destruct (checkBuffer_packed (StringSize q + 1) st lines groups g Hp) as (gs & h & Hp' & Hr).
  fold payload. destruct (_ || _).
  - eexists _, _. eapply append_line_packed; [exact Hp'|by apply line_size|exact Hr].
  - eapply pieces_packed; [exact Hp'|].
    eapply Forall_impl; [apply (Split_pieces q)|]. intros r [_ ->]. done.
Qed.

Lemma write_points_packed d ps : ∀ st lines groups g, packed st lines groups g →
  Forall (λ p, UnixNano (Round (p_time p) d) ≠ (- two63)%Z) ps →
  ∃ st' groups' g', write_points conn_Write uc d st (map (λ p, Some (MkClientPoint p)) ps) = (st', true) ∧
    packed st' (lines ++ concat (map (lines_of payload d) ps)) groups' g'.
Proof.
  induction ps as [|p ps IH]; intros st lines groups g Hp Hu; cbn [map write_points pt concat].
  { exists st, groups, g. by rewrite app_nil_r. }
  apply Forall_cons in Hu as [Hu Hus].
  destruct (write_point_packed d st lines groups g p Hp Hu) as (gs & h & Hp').
  destruct (IH _ _ _ _ Hp' Hus) as (st' & gs' & h' & -> & Hp''). rewrite <- app_assoc in Hp''.
  by exists st', gs', h'.
Qed.
End Packets.

(** C16: writing over UDP gives the connection exactly the lines of the
    points, their times rounded to the unit of the precision and the points
    too long for a datagram split, in order and each once: every datagram is
    a run of whole lines, of at most the payload size unless it is a single
    line, and a failed datagram does not stop the others; the result is nil
    exactly when every datagram was taken. *)
Theorem udp_write_packets {conn : Type} (conn_Write : conn → list bytes → bytes → option error)
    (uc : udpclient conn) (bp : batchpoints) (ps : list point) :
  let d := match ParseDuration ("1"%char :: bp_precision bp) with Ret d => d | _ => 0%Z end in
  (0 <= ud_payloadSize uc)%Z →
  bp_points bp = map (λ p, Some (MkClientPoint p)) ps →
  Forall (λ p, UnixNano (Round (p_time p) d) ≠ (- two63)%Z) ps →
  ∃ groups, (udp_Write conn_Write uc bp).1 = map packet groups ∧
    concat groups = concat (map (lines_of (ud_payloadSize uc) d) ps) ∧
    Forall (λ g, g ≠ [] ∧ ((Z.of_nat (length (packet g)) <= ud_payloadSize uc)%Z ∨ ∃ q, g = [q])) groups ∧
    ((udp_Write conn_Write uc bp).2 = Ret () ↔
     accepted conn_Write (ud_conn uc) (udp_Write conn_Write uc bp).1).
Proof.
  intros d Hpay Hbp Hu. unfold udp_Write. rewrite (proj2 (Z.ltb_ge _ _)) by done. fold d. rewrite Hbp.
  destruct (write_points_packed conn_Write uc d ps (MkState [] [] None) [] [] []) as
    (st & groups & g & -> & [Hs Hb Hl Hg Ho Hd]); [|done|].
  { split; cbn; [done|done|done|constructor|by left|]. split; [|done]. by intros _ [] ? ?. }
  rewrite Hb. destruct (Nat.ltb_spec 0 (length (packet g))) as [Hpos|Hpos]; cbn [fst snd].
  - exists (groups ++ [g]). split; [by rewrite map_app, Hs|].
    split; [by rewrite concat_app; cbn; rewrite app_nil_r|]. split.
    + apply Forall_app. split; [done|]. constructor; [|done].
      destruct Ho as [->|]; [cbn in Hpos; lia|done].
    + rewrite accepted_snoc, <- Hd.
      destruct (conn_Write _ _ _), (us_delayed st); naive_solver.
  - assert (g = []) as -> by (apply packet_nil, nil_length_inv; lia).
    exists groups. rewrite app_nil_r in Hl. repeat split; try done.
    + intros H. apply Hd. by destruct (us_delayed st).
    + intros H%Hd. by rewrite H.
Qed.

Definition udp_sample (name : bytes) : point :=
  MkPoint name (bs "a=1,b=2") (Unix 1 0).

Lemma udp_write_packets_witness :
  let uc := MkUdp tt 40 in
  let ps := map udp_sample [bs "m"; bs "a_rather_long_name"; bs "n"] in
  let w := udp_Write (λ _ before _, if (length before =? 1)%nat then Some (Errorf "refused" []) else None)
             uc (MkBatch (map (λ p, Some (MkClientPoint p)) ps) [] (bs "s") [] []) in
  ∃ groups, w.1 = map packet groups ∧
    concat groups = concat (map (lines_of 40 Second) ps) ∧
    Forall (λ g, g ≠ [] ∧ ((Z.of_nat (length (packet g)) <= 40)%Z ∨ ∃ q, g = [q])) groups ∧
    (w.2 = Ret () ↔ accepted (λ _ before _, if (length before =? 1)%nat then Some (Errorf "refused" []) else None)
                      tt w.1).
Proof.
  intros uc ps w.
  apply (udp_write_packets (λ _ before _, if (length before =? 1)%nat then Some (Errorf "refused" []) else None)
    uc (MkBatch (map (λ p, Some (MkClientPoint p)) ps) [] (bs "s") [] []) ps).
  - cbn. lia.
  - reflexivity.
  - repeat constructor; by vm_compute.
Defined.
