(* ===== verification/CutFacts.v ===== *)
(** * Lines cut by a newline in a tag

    [escapeTag] leaves a newline as it is, and a line ends at the first
    newline outside quotes.  A point with a newline in a tag value is one
    line for the client and two for the server: what stands before the
    newline is a series without fields, and what stands behind it a point
    of its own, whose measurement is the rest of the tag value. *)

From stdpp Require Import sorting.
From S2P Require Import Prelude GoStd GoFloat GoTime ModelsTime Escape EscapeFacts Scan.
From S2P Require Import ScanFacts.
From S2P Require Import ScanFacts Tags TagsFacts ScanKeyFacts Point Parse FieldsFacts.
From S2P Require Import LineFacts.
From S2P Require Import Client Delivery PointFacts.

(* ------------------------------------------------------------------ *)
(** ** The two halves of a key *)

(** [escapeTag] and [EscapeMeasurement] differ on ['='] only. *)
Lemma esc_tag_meas s : "="%char ∉ s → esc tag_class s = esc meas_class s.
Proof.
  induction s as [|c s IH]; [done|]. rewrite not_elem_of_cons. intros [Hc Hs]. cbn.
  unfold tag_class, meas_class in *. rewrite IH by done.
  rewrite (proj2 (Ascii.eqb_neq c "="%char)) by done. by rewrite ?orb_false_r.
Qed.

Lemma MakeKey_newline name l1 k a evil l2 : backslash ∉ name → backslash ∉ evil → a ≠ [] →
  "="%char ∉ evil →
  MakeKey name (l1 ++ MkTag k (a ++ newline :: evil) :: l2) =
  MakeKey name (l1 ++ [MkTag k a]) ++ newline :: MakeKey evil l2.
Proof.
  intros Hn He Ha Heq. rewrite !MakeKey_text by done. rewrite !map_app, !concat_app.
  cbn [map concat]. rewrite !tag_text_pair.
  2,3: unfold escape_tag_pair; cbn [Value]; rewrite escapeTag_spec.
  2: by intros ?%esc_nil_inv.
  2: by (intros E%esc_nil_inv; by destruct a).
  unfold pair_text, escape_tag_pair. cbn [Key Value]. rewrite !escapeTag_spec, esc_app.
  cbn [esc]. change (tag_class newline) with false. cbn iota.
  rewrite (esc_tag_meas evil) by done. app_eq.
Qed.

(* ------------------------------------------------------------------ *)
(** ** A body whose first line is a key *)

Lemma scanLine_key w rest : guarded blank_class w → newline ∉ w →
  scanLine (w ++ newline :: rest) 0 = (length w, w).
Proof.
  intros Hg Hn. unfold scanLine. rewrite drop_0, line_key by done.
  cbn [scan_line_loop]. change (Ascii.eqb newline backslash) with false.
  change (newline =c " ") with false. change (newline =c "010") with true.
  cbn [orb andb negb]. rewrite Nat.add_0_l. f_equal. by apply (slice_app [] w).
Qed.

Lemma parsePoint_cut sup name tags defaultTime precision : clean name → starts_plain name →
  Forall clean_tag tags → tags ≠ [] → length tags ≤ 100 →
  parsePoint sup (MakeKey name tags) defaultTime precision = Fail (Errorf "missing fields" []).
Proof. intros. unfold parsePoint. by rewrite scanKey_cut. Qed.

(** The key fails, and the lines behind it are read. *)
Lemma ParsePoints_cut sup defaultTime precision name tags ws ps :
  wire_name name → Forall clean_tag tags → newline ∉ MakeKey name tags → tags ≠ [] →
  length tags ≤ 100 → Forall (wire_point_ok sup) ws → Forall2 (wire_denotes precision) ws ps →
  ParsePointsWithPrecision sup
    (MakeKey name tags ++ newline :: concat (map (λ w, wire_text w ++ [newline]) ws))
    defaultTime precision
  = Ret (ps, [(MakeKey name tags, Errorf "missing fields" [])]).
Proof.
  intros [Hc Hp Hl Hcm] Ht Hnl Hne Hlen Hws Hps. unfold ParsePointsWithPrecision.
  pose proof (parsePoint_cut sup name tags defaultTime precision Hc Hp Ht Hne Hlen) as Hcut.
  pose proof (MakeKey_blank name tags Hc Ht) as Hg.
  set (rest := concat _).
  assert (∃ c s, MakeKey name tags = c :: s ∧
    c ≠ " "%char ∧ c ≠ "009"%char ∧ c ≠ "000"%char ∧ c ≠ "#"%char) as (c & s & E & Hc1 & Hc2 & Hc3 & Hc4)
    by by apply key_head.
  cbn [parse_points_loop]. rewrite (proj2 (Nat.leb_gt _ _)) by (rewrite length_app; cbn; lia).
  rewrite scanLine_key by done.
  assert (skipWhitespace (MakeKey name tags) 0 = 0) as -> by (rewrite E; by apply skipWhitespace_plain).
  rewrite E at 1. cbn [lookup list_lookup]. rewrite (proj2 (Ascii.eqb_neq c "#"%char)) by done.
  rewrite drop_0.
  assert (match last (MakeKey name tags) with
          | Some d => if d =c "010" then take (length (MakeKey name tags) - 1) (MakeKey name tags)
                      else MakeKey name tags
          | None => MakeKey name tags end = MakeKey name tags) as ->.
  { destruct (last _) as [d|] eqn:Ed; [|done]. destruct (Ascii.eqb_spec d newline) as [->|]; [|done].
    apply last_Some_elem_of in Ed. done. }
  rewrite Hcut.
  pose proof (parse_lines sup defaultTime precision ws (length (MakeKey name tags ++ newline :: rest))
    (MakeKey name tags ++ [newline]) ps Hws Hps) as Hrest. fold rest in Hrest.
  replace ((MakeKey name tags ++ [newline]) ++ rest) with (MakeKey name tags ++ newline :: rest)
    in Hrest by app_eq.
  assert (length (MakeKey name tags ++ [newline]) = length (MakeKey name tags) + 1) as El
    by by rewrite length_app.
  rewrite El in Hrest. rewrite Hrest; [done|].
  pose proof (lines_length ws) as Hwl. fold rest in Hwl. rewrite length_app. cbn. lia.
Qed.

(* ------------------------------------------------------------------ *)
(** ** A point whose tag holds a newline *)

(** A point that can be sent but for its tag [k], whose value is [a],
    a newline, and a text that reads as a measurement. *)
Record cut_tag (sup : bool) (i : input) (k a evil : bytes) : Prop := {
  ct_tag : in_tags i !! k = Some (a ++ newline :: evil);
  ct_rest : sendable sup (MkInput (in_name i) (delete k (in_tags i)) (in_fields i) (in_nano i));
  ct_key : clean k ∧ newline ∉ k;
  ct_before : clean a ∧ newline ∉ a;
  ct_after : wire_name evil ∧ "="%char ∉ evil;
  ct_size : Forall (λ kv, seriesKeySize (MakeKey (in_name i) (NewTags (in_tags i)))
              (esc key_class kv.1) ≤ MaxKeyLength) (in_fields i)
}.

(** The point the client builds. *)
Lemma NewPoint_cut sup i k a evil : cut_tag sup i k a evil →
  Client.NewPoint (in_name i) (in_tags i) (in_fields i) [Unix 0 (in_nano i)] = Ret (built i).
Proof.
  intros [_ Hr _ _ _ Hz]. unfold Client.NewPoint.
  assert (point_valid (in_name i) (NewTags (in_tags i)) (in_fields i) (Unix 0 (in_nano i))) as Hv.
  { destruct Hr as [_ _ _ _ Hf Hs _ Htm]. cbn [in_fields in_nano] in *. split; [done|]. split.
    - right. by apply (CheckTime_range _ _ (nano_in_i64 _ Htm) eq_refl).
    - intros key v Hin. rewrite Forall_forall in Hf, Hz.
      destruct (Hf _ Hin) as [[[Hk _] _] Hv]. cbn [fst snd] in *. split; [done|]. split.
      + intros f ->. destruct (finite64_finite f Hv) as [H1 H2]. by destruct f.
      + specialize (Hz _ Hin). cbn [fst] in Hz. unfold seriesKeySize in *.
        pose proof (esc_length key_class key). lia. }
  by rewrite (proj2 (NewPoint_iff _ _ _ _ _) (conj Hv eq_refl)).
Qed.

(** The tags around [k]. *)
Lemma cut_tags m k v : m !! k = Some v → ∃ l1 l2, NewTags m = l1 ++ MkTag k v :: l2 ∧
  (∀ t, t ∈ l1 ∨ t ∈ l2 → delete k m !! Key t = Some (Value t)) ∧
  StronglySorted bytes_lt (map Key l2).
Proof.
  intros Hk. assert (MkTag k v ∈ NewTags m) as Hin by by apply NewTags_elem.
  apply list_elem_of_split in Hin as (l1 & l2 & E). exists l1, l2. split; [done|].
  pose proof (NewTags_keys m) as Hs. rewrite E, map_app in Hs. cbn [map] in Hs.
  assert (NoDup (map Key l1 ++ k :: map Key l2)) as Hnd by by apply sorted_NoDup.
  split; [|by apply StronglySorted_app in Hs as (_ & _ & [? _]%StronglySorted_inv)].
  intros t Ht. rewrite <- Permutation_middle in Hnd. apply NoDup_cons in Hnd as [Hn _].
  rewrite lookup_delete_ne.
  2:{ intros ->. apply Hn. rewrite elem_of_app. destruct Ht; [left|right]; by apply list_elem_of_fmap_2. }
  apply NewTags_elem. rewrite E, elem_of_app, elem_of_cons. tauto.
Qed.

(** The line behind the newline. *)
Definition second_line (precision : bytes) (i : input) (evil : bytes) (l2 : Tags) : wire_point :=
  MkWire evil l2 (sorted_fields (in_fields i)) (Z.quot (in_nano i) (GetPrecisionMultiplier precision)).

Lemma cut_key sup i k a evil l1 l2 : cut_tag sup i k a evil →
  NewTags (in_tags i) = l1 ++ MkTag k (a ++ newline :: evil) :: l2 →
  MakeKey (in_name i) (NewTags (in_tags i)) =
  MakeKey (in_name i) (l1 ++ [MkTag k a]) ++ newline :: MakeKey evil l2.
Proof.
  intros [_ [[[_ Hn] _ _ _] _ _ _ _ _ _ _] _ [[Ha _] _] [[[_ He] _ _ _] Heq] _] ->.
  by apply MakeKey_newline.
Qed.

Lemma cut_count sup i k a evil l1 l2 : cut_tag sup i k a evil →
  NewTags (in_tags i) = l1 ++ MkTag k (a ++ newline :: evil) :: l2 → length l1 + length l2 < 100.
Proof.
  intros [Hk [_ _ Hc _ _ _ _ _] _ _ _ _] E%(f_equal length). cbn [in_tags] in Hc.
  rewrite map_size_delete, Hk in Hc. rewrite length_NewTags, length_app in E. cbn [length] in E. lia.
Qed.

Lemma second_line_ok sup precision i k a evil l1 l2 : cut_tag sup i k a evil →
  NewTags (in_tags i) = l1 ++ MkTag k (a ++ newline :: evil) :: l2 →
  (∀ t, t ∈ l2 → wire_tag (Key t) (Value t)) → StronglySorted bytes_lt (map Key l2) →
  wire_point_ok sup (second_line precision i evil l2).
Proof.
  intros Hcut E Hw Hs. pose proof (cut_key _ _ _ _ _ _ _ Hcut E) as Ekey.
  pose proof (cut_count _ _ _ _ _ _ _ Hcut E) as Hcount. destruct Hcut as [_ Hr _ _ [He _] Hz].
  pose proof (wire_of_ok sup precision _ Hr) as [[_ _ _ _ _ Hf Hne Hfp _] [_ Ho] _ Ht].
  cbn [wire_of w_fields w_time in_fields in_nano] in *. destruct He as [Hec Hep Hel Hem].
  split; cbn [second_line w_name w_tags w_fields w_time]; [| |done|done].
  - split; try done.
    + apply Forall_forall. intros t Hin. by destruct (Hw t Hin) as (? & ? & _).
    + by rewrite keys_escaped.
    + lia.
    + apply sorted_fields_Forall; [apply Hr|]. eapply Forall_impl; [exact Hz|]. intros kv.
      rewrite Ekey. unfold seriesKeySize. rewrite !length_app. cbn [length]. lia.
  - split; [|done]. apply MakeKey_one_line; [done|done|]. apply Forall_forall.
    intros t Hin. by destruct (Hw t Hin) as (_ & _ & ? & ? & _).
Qed.

(** What the client writes for such a point, and for points behind it. *)
Lemma cut_body sup precision i k a evil l1 l2 ins : cut_tag sup i k a evil →
  NewTags (in_tags i) = l1 ++ MkTag k (a ++ newline :: evil) :: l2 → Forall (sendable sup) ins →
  concat (map (write_line precision) (map (λ i, Some (built i)) (i :: ins))) =
  MakeKey (in_name i) (l1 ++ [MkTag k a]) ++ newline ::
  concat (map (λ w, wire_text w ++ [newline]) (second_line precision i evil l2 :: map (wire_of precision) ins)).
Proof.
  intros Hcut E Hins. pose proof (cut_key _ _ _ _ _ _ _ Hcut E) as Ekey.
  rewrite written_lines.
  2:{ constructor; [|eapply Forall_impl; [exact Hins|]; apply sd_time].
      exact (sd_time _ _ (ct_rest _ _ _ _ _ Hcut)). }
  cbn [map concat]. unfold wire_text, line_text. cbn [wire_of second_line w_name w_tags w_fields w_time].
  rewrite Ekey. app_eq.
Qed.

(** It is read as one failed line, the point behind the newline, and the
    points behind it. *)
Lemma parse_cut sup i k a evil defaultTime precision ins : cut_tag sup i k a evil →
  Forall (sendable sup) ins → let unit := GetPrecisionMultiplier precision in
  ∃ l1 l2, NewTags (in_tags i) = l1 ++ MkTag k (a ++ newline :: evil) :: l2 ∧ Forall clean_tag l2 ∧
  ParsePointsWithPrecision sup
    (concat (map (write_line precision) (map (λ i, Some (built i)) (i :: ins)))) defaultTime precision
  = Ret (MkPoint (MakeKey evil l2) (MarshalFields (in_fields i))
           (Unix 0 (Z.quot (in_nano i) unit * unit)) :: map (parsed precision) ins,
         [(MakeKey (in_name i) (l1 ++ [MkTag k a]), Errorf "missing fields" [])]).
Proof.
  intros Hcut Hins unit. pose proof Hcut as [Hk Hr [Hkc Hkn] [Hac Han] _ _].
  destruct (cut_tags _ _ _ Hk) as (l1 & l2 & E & Hl & Hsl).
  pose proof Hr as [Hname Htags _ _ _ _ _ Htm]. cbn [in_name in_tags in_nano] in *.
  assert (∀ t, t ∈ l1 ∨ t ∈ l2 → wire_tag (Key t) (Value t)) as Hw by (intros t Ht; apply Htags, Hl, Ht).
  assert (Forall (λ t, clean_tag t ∧ newline ∉ Key t ∧ newline ∉ Value t) (l1 ++ [MkTag k a])) as Hl1.
  { apply Forall_app. split; [|by apply Forall_singleton]. apply Forall_forall. intros t Ht.
    by destruct (Hw t (or_introl Ht)) as (? & ? & ? & ? & _). }
  exists l1, l2. split; [done|]. split.
  { apply Forall_forall. intros t Ht. by destruct (Hw t (or_intror Ht)) as (? & ? & _). }
  rewrite (cut_body sup _ _ _ _ _ _ _ _ Hcut E Hins). apply ParsePoints_cut.
  - done.
  - eapply Forall_impl; [exact Hl1|]. by intros ? [].
  - apply MakeKey_one_line; [apply Hname|apply Hname|].
    eapply Forall_impl; [exact Hl1|]. by intros ? [].
  - by destruct l1.
  - pose proof (cut_count _ _ _ _ _ _ _ Hcut E). rewrite length_app. cbn [length]. lia.
  - constructor; [eapply second_line_ok; eauto|by apply wires_ok].
  - constructor; [|by apply (wires_denote sup)]. eexists. split; [by apply SafeCalcTime_quot|].
    cbn [second_line w_name w_tags w_fields]. by rewrite MarshalFields_text.
Qed.
