(* ===== verification/PointCodecFacts.v ===== *)
(** * The binary form of points: round trip and truncation *)

From S2P Require Import Prelude GoStd GoStdFacts GoFloat GoFloatFacts GoTime ModelsTime Escape.
From S2P Require Import EscapeFacts Scan ScanFacts ScanFields Tags TagsFacts.
From S2P Require Import ScanKeyFacts Point PointCodec Parse FieldsFacts LineFacts GoNet Client.
From S2P Require Import Delivery.

(** A location whose offset is a whole number of minutes that fits in 16
    bits, and is not the minute that stands for UTC. *)
Definition zone_ok (zone : option Z) : Prop :=
  match zone with
  | None => True
  | Some offset => Z.rem offset 60 = 0%Z ∧ Z.quot offset 60 ≠ (-1)%Z
                   ∧ (-32768 <= Z.quot offset 60 <= 32767)%Z
  end.

(** The points the binary form can hold. *)
Record binary_ok (p : point) : Prop := {
  bo_fields : p_fields p ≠ [];
  bo_key_size : (Z.of_nat (length (p_key p)) < 2 ^ 32)%Z;
  bo_fields_size : (Z.of_nat (length (p_fields p)) < 2 ^ 32)%Z;
  bo_time : time_wf (p_time p)
}.

(* ------------------------------------------------------------------ *)
(** ** Blocks and times, whole or cut *)

Lemma be_length k : (Z.of_nat (length k) < 2 ^ 32)%Z →
  be_value (be_bytes 4 (Z.of_nat (length (k : bytes)))) = Z.of_nat (length k).
Proof. intros H. rewrite be_value_bytes, Z.mod_small; [done|]. cbn in *. lia. Qed.

Lemma read_block_take n k rest : (Z.of_nat (length k) < 2 ^ 32)%Z →
  read_block (take n (be_bytes 4 (Z.of_nat (length k)) ++ k ++ rest)) =
  if decide (n < 4 + length k) then Fail ErrShortBuffer
  else Ret (k, take (n - (4 + length k)) rest).
Proof.
  intros Hk. unfold read_block. rewrite length_take, !length_app, length_be_bytes.
  destruct (Nat.ltb_spec (n `min` (4 + (length k + length rest))) 4).
  { by rewrite decide_True by lia. }
  rewrite take_app_ge, length_be_bytes by (rewrite length_be_bytes; lia).
  rewrite (take_app_length' (be_bytes 4 _) _ 4), (drop_app_length' (be_bytes 4 _) _ 4)
    by (symmetry; apply length_be_bytes).
  rewrite be_length by done. rewrite length_take, length_app.
  destruct (Z.ltb_spec (Z.of_nat ((n - 4) `min` (length k + length rest))) (Z.of_nat (length k))).
  { by rewrite decide_True by lia. }
  rewrite decide_False by lia. rewrite Nat2Z.id, take_app_ge by lia.
  rewrite take_app_length, drop_app_length. do 3 f_equal. lia.
Qed.

Definition time_bytes (offset : Z) (t : Time) : bytes :=
  timeBinaryVersion :: be_bytes 8 (t_sec t) ++ be_bytes 4 (t_nsec t) ++ be_bytes 2 offset.

Lemma time_MarshalBinary_ok zone t : zone_ok zone →
  ∃ offset, time_MarshalBinary zone t = Ret (time_bytes offset t).
Proof.
  intros Hz. unfold time_MarshalBinary. destruct zone as [o|]; [|by exists (-1)%Z].
  destruct Hz as (Hr & Hn & Hb). rewrite Hr. cbn [Z.eqb negb].
  rewrite (proj2 (Z.ltb_ge _ _)), (proj2 (Z.eqb_neq _ _) Hn), (proj2 (Z.ltb_ge _ _)) by lia.
  by eexists.
Qed.

Lemma length_time_bytes o t : length (time_bytes o t) = 15.
Proof. unfold time_bytes. cbn [length]. by rewrite !length_app, !length_be_bytes. Qed.

Lemma time_unmarshal o t : time_wf t → time_UnmarshalBinary (time_bytes o t) = Ret t.
Proof.
  intros [Hs Hn]. unfold time_UnmarshalBinary.
  pose proof (length_time_bytes o t) as Hl. unfold time_bytes in *. rewrite Hl.
  cbn [Ascii.eqb Bool.eqb negb Nat.eqb timeBinaryVersion].
  rewrite take_app_length' by (symmetry; apply length_be_bytes).
  rewrite drop_app_length' by (symmetry; apply length_be_bytes).
  rewrite take_app_length' by (symmetry; apply length_be_bytes). rewrite !be_value_bytes.
  unfold in_i64, two63 in Hs. rewrite !signed_mod by (cbn; lia).
  unfold u64, two64. rewrite Z.mod_small by lia. unfold time_of_wall, two63.
  rewrite (proj2 (Z.leb_gt _ _)) by lia. rewrite Z.mod_small by (cbn; lia). by destruct t.
Qed.

Lemma time_unmarshal_cut o t n : n < 15 → ∃ e, time_UnmarshalBinary (take n (time_bytes o t)) = Fail e.
Proof.
  intros Hn. unfold time_UnmarshalBinary. destruct n as [|n]; [by eexists|].
  assert (length (take (S n) (time_bytes o t)) = S n) as Hl
    by (rewrite length_take, length_time_bytes; lia).
  unfold time_bytes in *. cbn [take] in *. rewrite Hl.
  cbn [Ascii.eqb Bool.eqb negb timeBinaryVersion].
  rewrite (proj2 (Nat.eqb_neq (S n) 15)) by lia. by eexists.
Qed.

(* ------------------------------------------------------------------ *)
(** ** The fields of a point that was read *)

Lemma check_fields_read fuel : ∀ fields start l has,
  unmarshal_loop fuel fields start = Ret l →
  ∃ b, check_fields_loop fuel fields start has = Ret b ∧ (has = true ∨ l ≠ [] → b = true).
Proof.
  induction fuel as [|fuel IH]; intros fields start l has E; cbn [unmarshal_loop check_fields_loop] in *.
  { injection E as <-. exists has. naive_solver. }
  destruct (Next fields start) as [it|]; [|injection E as <-; exists has; naive_solver].
  destruct (it_key it) as [|c key] eqn:Ek; [by apply IH|].
  destruct (field_value it) as [v| |] eqn:Ev; try done. cbn [mbind outcome_bind] in E.
  destruct (unmarshal_loop fuel fields (it_end it)) as [l'| |] eqn:El; try done.
  destruct (IH _ _ _ true El) as (b & Eb & Hb).
  assert (check_value it = Ret ()) as ->; [|exists b; naive_solver].
  unfold field_value, check_value in *.
  destruct (it_fieldType it); try done;
  match goal with |- context [wrap_error ?f ?k ?m] => destruct (wrap_error f k m) end; done.
Qed.

(** The bytes of a point. *)
Definition point_bytes (o : Z) (p : point) : bytes :=
  be_bytes 4 (Z.of_nat (length (p_key p))) ++ p_key p
  ++ be_bytes 4 (Z.of_nat (length (p_fields p))) ++ p_fields p ++ time_bytes o (p_time p).

Lemma point_MarshalBinary_ok zone p : p_fields p ≠ [] → zone_ok zone →
  ∃ o, point_MarshalBinary zone p = Ret (point_bytes o p).
Proof.
  intros Hf Hz. destruct (time_MarshalBinary_ok zone (p_time p) Hz) as [o E]. exists o.
  unfold point_MarshalBinary. rewrite E. by destruct (p_fields p) eqn:Ef; [|rewrite <- Ef].
Qed.

Lemma point_unmarshal o p : binary_ok p → point_UnmarshalBinary (point_bytes o p) = Ret p.
Proof.
  intros [_ Hk Hf Ht]. unfold point_UnmarshalBinary, point_bytes.
  rewrite <- (firstn_all (be_bytes 4 _ ++ _)) at 1.
  rewrite read_block_take, decide_False by (done || rewrite !length_app, length_be_bytes; lia).
  cbn [mbind outcome_bind fst snd].
  rewrite take_ge by (rewrite !length_app, !length_be_bytes; lia).
  rewrite <- (firstn_all (be_bytes 4 _ ++ _)) at 1.
  rewrite read_block_take, decide_False by (done || rewrite !length_app, length_be_bytes; lia).
  cbn [mbind outcome_bind fst snd].
  rewrite take_ge by (rewrite !length_app, !length_be_bytes; lia).
  rewrite time_unmarshal by done. by destruct p.
Qed.

Lemma point_unmarshal_cut o p n : binary_ok p → n < length (point_bytes o p) →
  ∃ e, point_UnmarshalBinary (take n (point_bytes o p)) = Fail e.
Proof.
  intros [_ Hk Hf Ht] Hn. unfold point_UnmarshalBinary, point_bytes in *.
  rewrite !length_app, !length_be_bytes, length_time_bytes in Hn.
  rewrite read_block_take by done. case_decide; [by eexists|]. cbn [mbind outcome_bind fst snd].
  rewrite read_block_take by done. case_decide; [by eexists|]. cbn [mbind outcome_bind fst snd].
  destruct (time_unmarshal_cut o (p_time p) (n - (4 + length (p_key p)) - (4 + length (p_fields p)))
    ltac:(lia)) as [e ->]. by eexists.
Qed.


Definition binary_sample : point := pt (built sample).


(** A field that is a lone quote passes [NewPointFromBytes], and makes
    [Fields] panic. *)
Theorem lone_quote_accepted :
  let p := MkPoint (bs "m") (bs "f=" ++ [dquote]) zeroTime in
  ∃ b, point_MarshalBinary None p = Ret b ∧ NewPointFromBytes b = Ret p ∧ point_Fields p = Panic.
Proof.
  intros p. eexists. split; [vm_compute; reflexivity|]. split; by vm_compute.
Qed.
