(* ===== verification/Termination.v ===== *)
(** * The fuel of the parser's loops is enough *)

From S2P Require Import Prelude GoStd GoFloat GoTime ModelsTime Escape Scan ScanFacts.
From S2P Require Import ScanFields ScanFacts Tags Point PointCodec Parse PointFacts.

Lemma scan_tags_key_ge rest : ∀ prev i j, scan_tags_key_loop prev rest i = Ret j →
  i < j ≤ i + length rest.
Proof.
  induction rest as [|c rest IH]; intros prev i j; cbn; [done|].
  destruct (_ && _); [done|]. destruct (_ && _); [intros [= <-]; lia|].
  intros H%IH. lia.
Qed.

Lemma scanTagsKey_ge buf i j : scanTagsKey buf i = Ret j → i < j ≤ length buf.
Proof.
  unfold scanTagsKey. destruct (drop i buf) as [|c rest] eqn:E; [done|].
  assert (length buf - i = S (length rest)) as Hl by (by rewrite <- length_drop, E).
  destruct (_ || _); [done|]. intros H%scan_tags_key_ge. lia.
Qed.

Lemma scan_tags_value_ge rest : ∀ prev i st j, scan_tags_value_loop prev rest i = Ret (st, j) →
  i ≤ j ≤ i + length rest.
Proof.
  induction rest as [|c rest IH]; intros prev i st j; cbn; [done|].
  destruct (_ && _); [done|]. destruct (_ && _); [intros [= _ <-]; lia|].
  destruct (_ && _); [intros [= _ <-]; lia|]. intros H%IH. lia.
Qed.

Lemma scanTagsValue_ge buf i st j : scanTagsValue buf i = Ret (st, j) → i < j ≤ length buf.
Proof.
  unfold scanTagsValue. destruct (drop i buf) as [|c rest] eqn:E; [done|].
  assert (length buf - i = S (length rest)) as Hl by (by rewrite <- length_drop, E).
  destruct (_ || _); [done|]. intros H%scan_tags_value_ge. lia.
Qed.

Lemma scan_tags_enough f : ∀ g buf st i k idx, i ≤ length buf →
  length buf - i + 1 < f → length buf - i + 1 < g →
  scan_tags_loop f buf st i k idx = scan_tags_loop g buf st i k idx.
Proof.
  induction f as [|f IH]; intros [|g] buf st i k idx Hi Hf Hg; try lia. cbn [scan_tags_loop].
  destruct st; try done.
  - destruct (set_index _ _ _); cbn [mbind outcome_bind]; try done.
    destruct (scanTagsKey buf i) as [j| |] eqn:E; cbn [mbind outcome_bind]; try done.
    apply scanTagsKey_ge in E. apply IH; lia.
  - destruct (scanTagsValue buf i) as [[st j]| |] eqn:E; cbn [mbind outcome_bind]; try done.
    apply scanTagsValue_ge in E. apply IH; lia.
Qed.

Lemma walk_fields_enough {A} (fn : A → bytes → bytes → A * bool) f : ∀ g buf acc,
  length buf < f → length buf < g →
  walk_fields_loop f buf fn acc = walk_fields_loop g buf fn acc.
Proof.
  induction f as [|f IH]; intros [|g] buf acc Hf Hg; try lia. cbn [walk_fields_loop].
  destruct buf as [|c buf]; [done|].
  destruct (scanTo (c :: buf) 0 "=") as [i key]. destruct (Nat.ltb_spec (length (c :: buf)) (i + 2)); [done|].
  destruct (scanFieldValue (drop (i + 1) (c :: buf)) 0) as [j v].
  destruct (fn acc key v) as [acc' []]; [|done].
  apply IH; rewrite !length_drop; cbn [length] in *; lia.
Qed.

Lemma scan_line_ge rest : ∀ q fs e c i, i ≤ scan_line_loop q fs e c rest i.
Proof.
  assert (∀ n rest q fs e c i, length rest ≤ n → i ≤ scan_line_loop q fs e c rest i) as H.
  2:{ intros. by eapply H. }
  clear rest. induction n as [|n IH]; intros rest q fs e c i Hn;
    (destruct rest as [|x rest]; [cbn; lia|]); cbn [length] in Hn; [lia|].
  cbn [scan_line_loop].
  assert (∀ q fs e c, i ≤ scan_line_loop q fs e c rest (S i)) as Hs.
  { intros. etransitivity; [|apply IH; lia]. lia. }
  assert (∀ q fs e c, i ≤ scan_line_loop q fs e c (drop 1 rest) (S (S i))) as Hss.
  { intros. etransitivity; [|apply IH; rewrite length_drop; lia]. lia. }
  destruct (Ascii.eqb x backslash); [destruct rest as [|y [|z rest]]; try apply Hss|];
    repeat match goal with |- context [if ?b then _ else _] => destruct b end; done || apply Hs.
Qed.

Lemma parse_points_enough sup defaultTime precision f : ∀ g buf pos,
  length buf - pos < f → length buf - pos < g →
  parse_points_loop sup f buf defaultTime precision pos =
  parse_points_loop sup g buf defaultTime precision pos.
Proof.
  induction f as [|f IH]; intros [|g] buf pos Hf Hg; try lia. cbn [parse_points_loop].
  destruct (Nat.leb_spec (length buf) pos); [done|].
  destruct (scanLine buf pos) as [j block] eqn:E.
  assert (pos ≤ j) as Hj.
  { unfold scanLine in E. injection E as <- _. apply scan_line_ge. }
  rewrite (IH g) by lia. done.
Qed.

Lemma Next_gt buf start it : Next buf start = Some it → start < it_end it ∧ start < length buf.
Proof.
  unfold Next. destruct (Nat.leb_spec (length buf) start); [done|].
  destruct (scanTo buf start "=") as [e key] eqn:E1.
  destruct (scanFieldValue buf (e + 1)) as [e' v] eqn:E2. intros [= <-]. split; [|done].
  assert (start ≤ e) as H1.
  { unfold scanTo in E1. injection E1 as <- _. apply scan_to_ge. }
  pose proof (scanFieldValue_stop buf (e + 1)) as [H2 _]. rewrite E2 in H2. cbn [fst] in H2.
  assert (it_end (classify (e' + 1)
    (if PkgEscape.IsEscaped key then PkgEscape.AppendUnescaped [] key else key) v) = e' + 1) as ->; [|lia].
  unfold classify. repeat match goal with |- context [match ?x with _ => _ end] => destruct x end; done.
Qed.

Lemma unmarshal_enough f : ∀ g buf start, length buf - start < f → length buf - start < g →
  unmarshal_loop f buf start = unmarshal_loop g buf start.
Proof.
  induction f as [|f IH]; intros [|g] buf start Hf Hg; try lia. cbn [unmarshal_loop].
  destruct (Next buf start) as [it|] eqn:E; [|done]. apply Next_gt in E as [E1 E2].
  by rewrite (IH g) by lia.
Qed.

Lemma check_fields_enough f : ∀ g buf start has, length buf - start < f → length buf - start < g →
  check_fields_loop f buf start has = check_fields_loop g buf start has.
Proof.
  induction f as [|f IH]; intros [|g] buf start has Hf Hg; try lia. cbn [check_fields_loop].
  destruct (Next buf start) as [it|] eqn:E; [|done]. apply Next_gt in E as [E1 E2].
  destruct (it_key it); [by apply IH; lia|]. destruct (check_value it); cbn; try done. apply IH; lia.
Qed.

Lemma scan_tag_value_ge rest : ∀ prev i, i ≤ scan_tag_value_loop prev rest i.
Proof.
  induction rest as [|c rest IH]; intros prev i; cbn; [lia|].
  destruct (_ && _); [lia|]. etransitivity; [|apply IH]. lia.
Qed.

Lemma walk_tags_enough {A} (fn : A → bytes → bytes → A * bool) esc buf f : ∀ g i acc,
  length buf - i < f → length buf - i < g →
  walk_tags_loop f esc buf fn i acc = walk_tags_loop g esc buf fn i acc.
Proof.
  induction f as [|f IH]; intros [|g] i acc Hf Hg; try lia. cbn [walk_tags_loop].
  destruct (Nat.leb_spec (length buf) i); [done|].
  destruct (scanTo buf i "=") as [j key] eqn:E1.
  destruct (scanTagValue buf (j + 1)) as [k value] eqn:E2.
  assert (i ≤ j) as H1.
  { unfold scanTo in E1. injection E1 as <- _. apply scan_to_ge. }
  assert (i < k) as H2.
  { unfold scanTagValue in E2. revert E2. repeat case_match; intros [= <- _]; try lia.
    all: eapply Nat.lt_le_trans; [|apply scan_tag_value_ge]; lia. }
  destruct value; [apply IH; lia|].
  destruct (if esc then _ else _) as [acc' []]; [apply IH; lia|done].
Qed.

Lemma leadingInt_rest s : ∀ x v r, leadingInt s x = Some (v, r) → length r ≤ length s.
Proof.
  induction s as [|c s IH]; intros x v r; cbn [leadingInt]; [by intros [= _ <-]|].
  repeat case_match; try done; [intros H3%IH; cbn; lia|by intros [= _ <-]].
Qed.

Lemma leadingFraction_rest s : ∀ x scale o, length (leadingFraction s x scale o).2 ≤ length s.
Proof.
  induction s as [|c s IH]; intros x scale o; cbn [leadingFraction]; [done|].
  repeat case_match; cbn [snd length]; try lia; etransitivity; try apply IH; lia.
Qed.

Lemma take_unit_rest s u r : take_unit s = (u, r) → length u + length r = length s.
Proof.
  revert u r. induction s as [|c s IH]; intros u r; cbn [take_unit]; [by intros [= <- <-]|].
  destruct (_ || _); [by intros [= <- <-]|]. destruct (take_unit s) as [u' r'] eqn:E.
  intros [= <- <-]. specialize (IH _ _ eq_refl). cbn. lia.
Qed.

Lemma duration_enough orig f : ∀ g s d, length s < f → length s < g →
  duration_loop f orig s d = duration_loop g orig s d.
Proof.
  induction f as [|f IH]; intros [|g] s d Hf Hg; try lia. cbn [duration_loop].
  destruct s as [|c s]; [done|]. set (s0 := c :: s) in *. destruct (negb _); [done|].
  destruct (leadingInt s0 0) as [[v s1]|] eqn:E1; [|done]. apply leadingInt_rest in E1.
  destruct (match s1 with [] => _ | _ => _ end) as [[[fr scale] post] s2] eqn:E2.
  assert (length s2 ≤ length s1) as H2.
  { destruct s1 as [|p s1]; [by injection E2 as _ _ _ <-|]. destruct (p =c "."); [|by injection E2 as _ _ _ <-].
    pose proof (leadingFraction_rest s1 0 (float_of_int 1) false) as Hr.
    destruct (leadingFraction s1 0 (float_of_int 1) false) as [[? ?] r]. injection E2 as _ _ _ <-.
    cbn in *. lia. }
  destruct (_ && _); [done|]. destruct (take_unit s2) as [[|u0 u] s3] eqn:E3; [done|].
  apply take_unit_rest in E3. cbn [length] in E3.
  destruct (unitMap _); [|done].
  repeat match goal with |- context [if (?a <? ?b)%Z then Fail _ else _] => destruct (a <? b)%Z; [done|] end.
  apply IH; lia.
Qed.


