(* ===== verification/LineProtocol.v ===== *)
(** * Line protocol: what the client writes, the parser reads

    The properties of [models/points.go], [models/time.go] and
    [pkg/escape]. *)

From S2P Require Import Prelude GoStd GoStdFacts GoFloat GoFloatFacts GoTime ModelsTime Escape.
From S2P Require Import EscapeFacts Scan ScanFacts ScanFields Tags TagsFacts.
From S2P Require Import ScanKeyFacts Point Parse FieldsFacts LineFacts GoNet Client Delivery.
From S2P Require Import PointFacts.

(* ------------------------------------------------------------------ *)
(** ** Batches and lines *)

(** C2: every point [client.NewPoint] builds from a sendable name, tag map,
    field map and time, written by [client.Write] under any precision, is
    read back by [models.ParsePointsWithPrecision] without an error, in
    order, with the same measurement, tags and fields, and the time cut to
    the unit of the precision. *)
Theorem write_parse_roundtrip (sup : bool) (defaultTime : Time) (ins : list input)
    (bp : batchpoints) (pts : list Client.Point) :
  Forall (sendable sup) ins →
  Forall2 (λ i pt, Client.NewPoint (in_name i) (in_tags i) (in_fields i) [Unix 0 (in_nano i)]
                   = Ret pt) ins pts →
  bp_points bp = map Some pts →
  ∃ ps, ParsePointsWithPrecision sup (write_body bp) defaultTime (bp_precision bp) = Ret (ps, [])
      ∧ Forall2 (delivered (bp_precision bp)) ins ps.
Proof.
  intros Hs Hb Hbp. exists (map (parsed (bp_precision bp)) ins).
  rewrite (built_all sup ins pts) in Hbp by done. split.
  - unfold write_body. rewrite Hbp, (map_map built Some). by apply parse_written.
  - clear -Hs. induction Hs as [|i ins Hi _ IH]; cbn; constructor; [|done].
    by eapply parsed_delivered.
Qed.

Lemma write_parse_roundtrip_witness :
  ∃ ps, ParsePointsWithPrecision false
          (write_body (AddPoint (MkBatch [] (bs "db") (bs "ms") [] []) (Some (built sample))))
          zeroTime (bs "ms") = Ret (ps, [])
      ∧ Forall2 (delivered (bs "ms")) [sample] ps.
Proof.
  apply (write_parse_roundtrip false zeroTime [sample]
           (AddPoint (MkBatch [] (bs "db") (bs "ms") [] []) (Some (built sample))) [built sample]).
  - constructor; [apply sample_sendable|constructor].
  - constructor; [apply (NewPoint_built false), sample_sendable|constructor].
  - reflexivity.
Defined.

(** [parsePoint] on the text [PrecisionString] prints for a built point
    gives the point back: the key and the fields byte by byte, the time cut
    to the unit. *)
Theorem parsePoint_PrecisionString (sup : bool) (defaultTime : Time) (precision : bytes) (i : input) :
  sendable sup i →
  parsePoint sup (PrecisionString (pt (built i)) precision) defaultTime precision =
  Ret (SetTime (pt (built i))
         (Unix 0 (Z.quot (in_nano i) (GetPrecisionMultiplier precision)
                  * GetPrecisionMultiplier precision))).
Proof.
  intros Hs. pose proof (write_line_built precision i (sd_time _ _ Hs)) as Hl.
  unfold write_line in Hl. apply app_inj_tail in Hl as [Hl _].
  unfold cp_PrecisionString in Hl. rewrite Hl.
  destruct (wire_of_ok sup precision i Hs) as [Hw _ _ Ht]. unfold wire_text.
  rewrite parsePoint_line by done. unfold wire_of. cbn [w_time w_name w_tags w_fields].
  rewrite SafeCalcTime_quot by apply Hs. cbn [mbind outcome_bind].
  unfold built, SetTime. cbn [pt p_key p_fields].
  by rewrite MarshalFields_text.
Qed.

Lemma parsePoint_PrecisionString_witness :
  parsePoint false (PrecisionString (pt (built sample)) (bs "s")) zeroTime (bs "s") =
  Ret (SetTime (pt (built sample)) (Unix 0 1500000000000000000)).
Proof. apply (parsePoint_PrecisionString false zeroTime (bs "s") sample), sample_sendable. Defined.

(* ------------------------------------------------------------------ *)
(** ** Keys and tags *)

(** [scanKey] finds the end of every key [MakeKey] writes and returns
    the key unchanged, for fewer than 100 tags in the order of their
    escaped names. *)
Theorem scanKey_reads_MakeKey (name : bytes) (tags : Tags) (rest : bytes) :
  clean name → starts_plain name → Forall clean_tag tags →
  StronglySorted bytes_lt (map Key (map escape_tag_pair tags)) → length tags < 100 →
  scanKey (MakeKey name tags ++ " "%char :: rest) 0 =
  Ret (length (MakeKey name tags), MakeKey name tags).
Proof. apply scanKey_MakeKey. Qed.

Definition two_tags : Tags := [MkTag (bs "a") (bs "x y"); MkTag (bs "b c") (bs "=")].

Lemma two_tags_clean : Forall clean_tag two_tags.
Proof. by repeat constructor; apply (bool_decide_unpack _); vm_compute. Qed.

Lemma scanKey_reads_MakeKey_witness :
  scanKey (bs "cpu,a=x\ y,b\ c=\= v=1") 0 = Ret (18, bs "cpu,a=x\ y,b\ c=\=").
Proof.
  apply (scanKey_reads_MakeKey (bs "cpu") two_tags (bs "v=1")).
  - apply (bool_decide_unpack _). by vm_compute.
  - apply (bool_decide_unpack _). by vm_compute.
  - apply two_tags_clean.
  - by repeat constructor.
  - vm_compute. lia.
Defined.

(** A key with exactly 100 tags makes [scanKey] panic: the index of its
    end is written past an array that grows at the next tag only. *)
Theorem scanKey_hundred_tags (name : bytes) (tags : Tags) (rest : bytes) :
  clean name → starts_plain name → Forall clean_tag tags → length tags = 100 →
  scanKey (MakeKey name tags ++ " "%char :: rest) 0 = Panic.
Proof. apply scanKey_full. Qed.

(** Tags [a000=v], [a001=v] and so on. *)
Definition numbered_tags (n : nat) : Tags :=
  map (λ k, MkTag ("a"%char :: format_int (Z.of_nat (100 + k))) (bs "v")) (seq 0 n).

Lemma scanKey_hundred_tags_witness :
  scanKey (MakeKey (bs "m") (numbered_tags 100) ++ bs " f=1") 0 = Panic.
Proof.
  apply (scanKey_hundred_tags (bs "m") (numbered_tags 100) (bs "f=1")).
  - apply (bool_decide_unpack _). by vm_compute.
  - apply (bool_decide_unpack _). by vm_compute.
  - apply (bool_decide_unpack _). by vm_compute.
  - reflexivity.
Defined.



(** [NewTags] gives the tags of the map by increasing key, whatever the
    order in which the runtime visits the map, and [Map] gives the map back. *)
Theorem NewTags_canonical (m : gmap bytes bytes) (visit : list (bytes * bytes)) :
  visit ≡ₚ map_to_list m →
  NewTags_in visit = NewTags m ∧ StronglySorted bytes_lt (Keys (NewTags m)) ∧ Map (NewTags m) = m.
Proof.
  intros Hp. split; [|split; [apply NewTags_keys|apply Map_NewTags]].
  assert (NoDup visit.*1) as Hnd by (rewrite Hp; apply NoDup_fst_map_to_list).
  destruct (NewTags_in_sorted visit Hnd) as [H1 H2].
  destruct (NewTags_in_sorted _ (NoDup_fst_map_to_list m)) as [H3 H4].
  apply (sort_unique tag_ltb tag_ltb_trans tag_ltb_irrefl); [done|done|].
  unfold NewTags. rewrite H2, H4. by rewrite Hp.
Qed.

Lemma NewTags_canonical_witness :
  let m : gmap bytes bytes := {[bs "b" := bs "2"; bs "a" := bs "1"]} in
  NewTags_in [(bs "b", bs "2"); (bs "a", bs "1")] = NewTags m ∧
  StronglySorted bytes_lt (Keys (NewTags m)) ∧ Map (NewTags m) = m.
Proof.
  intros m. apply (NewTags_canonical m).
  apply (bool_decide_unpack _). by vm_compute.
Defined.

(* ------------------------------------------------------------------ *)
(** ** Escapes *)

(** The escapes of measurements, tags, field keys and string fields are
    undone by their unescapes, on every byte string. *)
Theorem escapes_roundtrip (s : bytes) :
  Models.unescapeMeasurement (Models.EscapeMeasurement s) = s ∧
  Models.unescapeTag (Models.escapeTag s) = s ∧
  Models.unescapeStringField (Models.EscapeStringField s) = s ∧
  PkgEscape.Unescape (PkgEscape.String s) = s ∧
  PkgEscape.UnescapeString (PkgEscape.String s) = s.
Proof.
  repeat split; try by apply codec_roundtrip.
  rewrite UnescapeString_spec, escape_String_spec. by apply unesc_esc.
Qed.

(** [escape.Bytes] does not depend on the order in which the runtime
    visits the map of codes, and equals [escape.String]; the in-place
    [AppendUnescaped] equals [Unescape]. *)
Theorem escape_equivalences (order : list (ascii * bytes)) (inp dst : bytes) :
  order ≡ₚ PkgEscape.Codes →
  PkgEscape.Bytes order inp = PkgEscape.String inp ∧
  PkgEscape.AppendUnescaped dst inp = dst ++ PkgEscape.Unescape inp.
Proof.
  intros Hp. split; [by apply Bytes_any_order|]. by rewrite AppendUnescaped_spec, Unescape_spec.
Qed.

Lemma escape_equivalences_witness :
  PkgEscape.Bytes (rev PkgEscape.Codes) (bs "a=b, c") = PkgEscape.String (bs "a=b, c") ∧
  PkgEscape.AppendUnescaped (bs "x") (bs "a=b, c") = bs "x" ++ PkgEscape.Unescape (bs "a=b, c").
Proof. apply (escape_equivalences (rev PkgEscape.Codes)). symmetry. apply Permutation_rev. Defined.

(* ------------------------------------------------------------------ *)
(** ** Points *)

(** C13: [models.NewPoint] succeeds exactly when there is a field, the time is
    zero or in the range of the nanosecond clock, every field has a name, no
    float is infinite or NaN and no series key is too long; the point then
    holds the key, the fields by name and the time.  The order in which the
    runtime visits the fields does not matter. *)
Theorem NewPoint_spec (name : bytes) (tags : Tags) (fs gs : Fields) (t : Time) (p : point) :
  fields_wf fs → fs ≡ₚ gs →
  (Point.NewPoint name tags fs t = Ret p ↔
   point_valid name tags fs t ∧ p = MkPoint (MakeKey name tags) (MarshalFields fs) t) ∧
  (Point.NewPoint name tags fs t = Ret p ↔ Point.NewPoint name tags gs t = Ret p).
Proof.
  intros Hnd Hp. split; [apply NewPoint_iff|]. rewrite !NewPoint_iff.
  rewrite (MarshalFields_perm fs gs) by done.
  split; intros [Hv ->]; (split; [|done]).
  - by apply (point_valid_perm _ _ fs).
  - by apply (point_valid_perm _ _ gs).
Qed.

Definition two_fields : Fields :=
  [(bs "b", VBool true); (bs "a", VFloat (float_of_decimal false 5 (-1)))].

Lemma NewPoint_spec_witness :
  let p := MkPoint (bs "m") (bs "a=0.5,b=true") (Unix 1 0) in
  (Point.NewPoint (bs "m") [] two_fields (Unix 1 0) = Ret p ↔
   point_valid (bs "m") [] two_fields (Unix 1 0) ∧
   p = MkPoint (MakeKey (bs "m") []) (MarshalFields two_fields) (Unix 1 0)) ∧
  (Point.NewPoint (bs "m") [] two_fields (Unix 1 0) = Ret p ↔
   Point.NewPoint (bs "m") [] (rev two_fields) (Unix 1 0) = Ret p).
Proof.
  intros p. apply (NewPoint_spec (bs "m") [] two_fields (rev two_fields) (Unix 1 0) p).
  - apply (bool_decide_unpack _). by vm_compute.
  - apply Permutation_rev.
Defined.



(** [AppendString] appends [String], and [StringSize] is the length of
    [String] for every time but the least one of the nanosecond clock. *)
Theorem StringSize_exact (p : point) (buf : bytes) :
  UnixNano (p_time p) ≠ (- two63)%Z →
  AppendString p buf = buf ++ point_String p ∧ StringSize p = length (point_String p).
Proof. intros H. split; [apply AppendString_spec|by apply StringSize_spec]. Qed.

Lemma StringSize_exact_witness :
  AppendString (pt (built sample)) [] = [] ++ point_String (pt (built sample)) ∧
  StringSize (pt (built sample)) = length (point_String (pt (built sample))).
Proof. apply (StringSize_exact (pt (built sample)) []). vm_compute. discriminate. Defined.

(** The pieces [Split] cuts a point into have its key and its time, and
    their fields, joined by commas, are its fields, for every size; no piece
    is printed longer than the size, but for single fields and for points
    without a time. *)
Theorem Split_preserves (p : point) (size : Z) :
  UnixNano (p_time p) ≠ (- two63)%Z → p_fields p ≠ [] → last (p_fields p) ≠ Some ","%char →
  Forall (λ q, p_key q = p_key p ∧ p_time q = p_time p) (Split p size) ∧
  join (bs ",") (map p_fields (Split p size)) = p_fields p ∧
  Forall (λ q, IsZero (p_time p) = true ∨ one_field (p_fields p) (p_fields q) ∨
    (Z.of_nat (length (point_String q)) <= size)%Z) (Split p size).
Proof.
  intros Hu Hne Hl. destruct (Split_pieces p size) as [H1 H2].
  split; [exact H1|]. split; [exact H2|]. by apply Split_bound.
Qed.

Lemma Split_preserves_witness :
  let p := MkPoint (bs "m") (bs "a=1,b=22,c=3") (Unix 1 0) in
  Forall (λ q, p_key q = p_key p ∧ p_time q = p_time p) (Split p 20) ∧
  join (bs ",") (map p_fields (Split p 20)) = p_fields p ∧
  Forall (λ q, IsZero (p_time p) = true ∨ one_field (p_fields p) (p_fields q) ∨
    (Z.of_nat (length (point_String q)) <= 20)%Z) (Split p 20).
Proof. intros p. apply (Split_preserves p 20); vm_compute; discriminate. Defined.

(** C15: [SafeCalcTime] is exact: a timestamp of [int64] under any precision
    gives the instant of the product when it lies in the supported range,
    and [ErrTimeOutOfRange] otherwise, overflows included. *)
Theorem SafeCalcTime_exact (timestamp : Z) (precision : bytes) :
  in_i64 timestamp →
  SafeCalcTime timestamp precision =
  if bool_decide (MinNanoTime <= timestamp * GetPrecisionMultiplier precision <= MaxNanoTime)%Z
  then Ret (Unix 0 (timestamp * GetPrecisionMultiplier precision))
  else Fail ErrTimeOutOfRange.
Proof. apply SafeCalcTime_spec. Qed.

Lemma SafeCalcTime_exact_witness :
  SafeCalcTime 9223372037 (bs "s") = Fail ErrTimeOutOfRange.
Proof. apply (SafeCalcTime_exact 9223372037 (bs "s")). unfold in_i64, two63. lia. Defined.

(** Sorted [Tags] are a map: [Get] looks a key up, [Set] inserts,
    [Delete] removes and [Merge] overrides, and each leaves the tags sorted
    by distinct keys. *)
Theorem Tags_are_maps (a : Tags) (k v : bytes) (m : gmap bytes bytes) :
  increasing tag_ltb a →
  Get a k = Map a !! k ∧
  (increasing tag_ltb (Set_ a k v) ∧ Map (Set_ a k v) = <[k := v]> (Map a)) ∧
  (increasing tag_ltb (Delete a k) ∧ Map (Delete a k) = delete k (Map a)) ∧
  (increasing tag_ltb (Merge a m) ∧ Map (Merge a m) = m ∪ Map a).
Proof.
  intros Ha. split; [by apply Get_Map, increasing_NoDup|].
  split; [by apply Set_spec|]. split; [by apply Delete_spec|apply Merge_spec].
Qed.

Lemma Tags_are_maps_witness :
  Get two_tags (bs "a") = Map two_tags !! bs "a" ∧
  (increasing tag_ltb (Set_ two_tags (bs "a") (bs "2")) ∧
   Map (Set_ two_tags (bs "a") (bs "2")) = <[bs "a" := bs "2"]> (Map two_tags)) ∧
  (increasing tag_ltb (Delete two_tags (bs "a")) ∧
   Map (Delete two_tags (bs "a")) = delete (bs "a") (Map two_tags)) ∧
  (increasing tag_ltb (Merge two_tags {[bs "z" := bs "1"]}) ∧
   Map (Merge two_tags {[bs "z" := bs "1"]}) = {[bs "z" := bs "1"]} ∪ Map two_tags).
Proof. apply (Tags_are_maps two_tags (bs "a") (bs "2")). by repeat constructor. Defined.
