(* ===== verification/Pflag.v ===== *)
(** * Command line flags ([spf13/pflag])

    A flag set holds its flags by name; the Go variables the flags point to
    live in the flags' values.  [Panic] is a call of [panic]. *)

From S2P Require Import Prelude GoStd.

(* ------------------------------------------------------------------ *)
(** ** Values ([string.go], [bool.go]) *)

Inductive flag_value := stringValue (s : bytes) | boolValue (b : bool).

#[export] Instance flag_value_eq_dec : EqDecision flag_value.
Proof. solve_decision. Defined.

(** [Value.Set]: a text that is no boolean sets the flag to false and fails. *)
Definition value_Set (v : flag_value) (s : bytes) : flag_value * option error :=
  match v with
  | stringValue _ => (stringValue s, None)
  | boolValue _ => match parse_bool s with
                   | Ret b => (boolValue b, None)
                   | Fail e => (boolValue false, Some e)
                   | Panic => (v, None)
                   end
  end.
Definition value_String (v : flag_value) : bytes :=
  match v with stringValue s => s | boolValue b => format_bool b end.
Definition value_Type (v : flag_value) : bytes :=
  match v with stringValue _ => bs "string" | boolValue _ => bs "bool" end.

(* ------------------------------------------------------------------ *)
(** ** Flags and flag sets *)

(** The usage text, the deprecation texts and the visibility only affect
    what is printed. *)
Record Flag := MkFlag {
  f_Name : bytes; Shorthand : bytes; f_Value : flag_value; DefValue : bytes;
  Changed : bool; NoOptDefVal : bytes; f_Annotations : gmap bytes (list bytes)
}.

Record FlagSet := MkFlagSet {
  fs_name : bytes;
  formal : gmap bytes Flag;
  orderedFormal : list bytes;
  orderedActual : list bytes;
  shorthands : gmap ascii bytes;
  fs_args : list bytes;
  argsLenAtDash : Z;
  interspersed : bool;
  UnknownFlags : bool
}.

Definition NewFlagSet (name : bytes) : FlagSet :=
  MkFlagSet name ∅ [] [] ∅ [] (-1) true false.

Definition set_formal (f : FlagSet) (m : gmap bytes Flag) : FlagSet :=
  MkFlagSet (fs_name f) m (orderedFormal f) (orderedActual f) (shorthands f) (fs_args f)
    (argsLenAtDash f) (interspersed f) (UnknownFlags f).
Definition set_args (f : FlagSet) (args : list bytes) : FlagSet :=
  MkFlagSet (fs_name f) (formal f) (orderedFormal f) (orderedActual f) (shorthands f) args
    (argsLenAtDash f) (interspersed f) (UnknownFlags f).
Definition set_dash (f : FlagSet) (n : Z) : FlagSet :=
  MkFlagSet (fs_name f) (formal f) (orderedFormal f) (orderedActual f) (shorthands f) (fs_args f)
    n (interspersed f) (UnknownFlags f).

(** [Lookup], with the identity as the normalization. *)
Definition Lookup (f : FlagSet) (name : bytes) : option Flag := formal f !! name.

(** [ShorthandLookup]: a name of several characters is a panic. *)
Definition ShorthandLookup (f : FlagSet) (name : bytes) : outcome (option Flag) :=
  match name with
  | [] => Ret None
  | [c] => Ret (name ← shorthands f !! c; formal f !! name)
  | _ => Panic
  end.

(** [AddFlag]. *)
Definition AddFlag (f : FlagSet) (flag : Flag) : outcome FlagSet :=
  let name := f_Name flag in
  match formal f !! name with
  | Some _ => Panic
  | None =>
      let f1 := MkFlagSet (fs_name f) (<[name := flag]> (formal f)) (orderedFormal f ++ [name])
                  (orderedActual f) (shorthands f) (fs_args f) (argsLenAtDash f) (interspersed f)
                  (UnknownFlags f) in
      match Shorthand flag with
      | [] => Ret f1
      | [c] =>
          match shorthands f !! c with
          | Some _ => Panic
          | None =>
              Ret (MkFlagSet (fs_name f1) (formal f1) (orderedFormal f1) (orderedActual f1)
                     (<[c := name]> (shorthands f1)) (fs_args f1) (argsLenAtDash f1)
                     (interspersed f1) (UnknownFlags f1))
          end
      | _ => Panic
      end
  end.

(** [VarPF], [StringVarP] and [BoolVarP]. *)
Definition VarPF (value : flag_value) (name shorthand : bytes) : Flag :=
  MkFlag name shorthand value (value_String value) false [] ∅.
Definition StringVarP (f : FlagSet) (name shorthand value : bytes) : outcome FlagSet :=
  AddFlag f (VarPF (stringValue value) name shorthand).
Definition BoolVarP (f : FlagSet) (name shorthand : bytes) (value : bool) : outcome FlagSet :=
  let flag := VarPF (boolValue value) name shorthand in
  AddFlag f (MkFlag (f_Name flag) (Shorthand flag) (f_Value flag) (DefValue flag) (Changed flag)
               (bs "true") (f_Annotations flag)).

(** [Set]. *)
Definition flag_title (flag : Flag) : bytes :=
  match Shorthand flag with
  | [] => bs "--" ++ f_Name flag
  | s => bs "-" ++ s ++ bs ", --" ++ f_Name flag
  end.
Definition FlagSet_Set (f : FlagSet) (name value : bytes) : FlagSet * option error :=
  match formal f !! name with
  | None => (f, Some (Errorf "no such flag -%v" [name]))
  | Some flag =>
      let '(v, err) := value_Set (f_Value flag) value in
      let store changed := <[name := MkFlag (f_Name flag) (Shorthand flag) v (DefValue flag) changed
                               (NoOptDefVal flag) (f_Annotations flag)]> (formal f) in
      match err with
      | Some e => (set_formal f (store (Changed flag)),
                   Some (Wrapf "invalid argument %q for %q flag: %v" [value; flag_title flag] e))
      | None =>
          (MkFlagSet (fs_name f) (store true) (orderedFormal f)
             (if Changed flag then orderedActual f else orderedActual f ++ [name])
             (shorthands f) (fs_args f) (argsLenAtDash f) (interspersed f) (UnknownFlags f), None)
      end
  end.

(** [SetAnnotation]. *)
Definition SetAnnotation (f : FlagSet) (name key : bytes) (values : list bytes)
  : FlagSet * option error :=
  match formal f !! name with
  | None => (f, Some (Errorf "no such flag -%v" [name]))
  | Some flag =>
      (set_formal f (<[name := MkFlag (f_Name flag) (Shorthand flag) (f_Value flag) (DefValue flag)
                         (Changed flag) (NoOptDefVal flag)
                         (<[key := values]> (f_Annotations flag))]> (formal f)), None)
  end.

(** [GetBool], through [getFlagType]. *)
Definition getFlagType (f : FlagSet) (name ftype : bytes) : outcome bytes :=
  match Lookup f name with
  | None => Fail (Errorf "flag accessed but not defined: %s" [name])
  | Some flag =>
      if negb (bytes_equal (value_Type (f_Value flag)) ftype) then
        Fail (Errorf "trying to get %s value of flag of type %s" [ftype; value_Type (f_Value flag)])
      else Ret (value_String (f_Value flag))
  end.
Definition GetBool (f : FlagSet) (name : bytes) : outcome bool :=
  s ← getFlagType f name (bs "bool"); parse_bool s.
Definition GetString (f : FlagSet) (name : bytes) : outcome bytes :=
  getFlagType f name (bs "string").

(** [VisitAll] in sorted order, as the flags it visits. *)
Definition sortFlags (m : gmap bytes Flag) : list Flag :=
  omap (λ k, m !! k) (sort bytes_ltb (map_to_list m).*1).

(* ------------------------------------------------------------------ *)
(** ** Parsing *)

Definition ErrHelp : error := Errorf "pflag: help requested" [].

Definition stripUnknownFlagValue (args : list bytes) : list bytes :=
  match args with
  | [] => []
  | first :: args' =>
      match first with
      | c :: _ => if c =c "-" then args else args'
      | [] => args'
      end
  end.

(** [parseLongArg] on [s = "--" ++ name], with [FlagSet.Set] as the
    callback: the flag set, the unread arguments and the error. *)
Definition parseLongArg (f : FlagSet) (s : bytes) (args : list bytes)
  : FlagSet * list bytes * option error :=
  let name := drop 2 s in
  if match name with [] => true | c :: _ => (c =c "-") || (c =c "=") end then
    (f, args, Some (Errorf "bad flag syntax: %s" [s]))
  else
    let '(name, given) := cut_byte "=" name in
    match formal f !! name with
    | None =>
        if bytes_equal name (bs "help") then (f, args, Some ErrHelp)
        else if UnknownFlags f then
          match given with
          | Some _ => (f, args, None)
          | None => (f, stripUnknownFlagValue args, None)
          end
        else (f, args, Some (Errorf "unknown flag: --%s" [name]))
    | Some flag =>
        let set value args := let '(f, err) := FlagSet_Set f (f_Name flag) value in (f, args, err) in
        match given with
        | Some value => set value args
        | None =>
            match NoOptDefVal flag with
            | _ :: _ => set (NoOptDefVal flag) args
            | [] => match args with
                    | a :: args' => set a args'
                    | [] => (f, args, Some (Errorf "flag needs an argument: %s" [s]))
                    end
            end
        end
    end.

(** [parseSingleShortArg] on the letters [c :: rest]: the flag set, the
    letters and arguments left, the error. *)
Definition parseSingleShortArg (f : FlagSet) (c : ascii) (rest : bytes) (args : list bytes)
  : FlagSet * bytes * list bytes * option error :=
  if has_prefix (c :: rest) (bs "test.") then (f, [], args, None)
  else
    let assigned := match rest with d :: _ :: _ => d =c "=" | _ => false end in
    match flag ← (name ← shorthands f !! c; formal f !! name); Some flag with
    | None =>
        if c =c "h" then (f, rest, args, Some ErrHelp)
        else if UnknownFlags f then
          if assigned then (f, [], args, None)
          else (f, rest, stripUnknownFlagValue args, None)
        else (f, rest, args, Some (Errorf "unknown shorthand flag: %q in -%s" [[c]; c :: rest]))
    | Some flag =>
        let set value out args :=
          let '(f, err) := FlagSet_Set f (f_Name flag) value in (f, out, args, err) in
        if assigned then set (drop 1 rest) [] args
        else match NoOptDefVal flag with
             | _ :: _ => set (NoOptDefVal flag) rest args
             | [] =>
                 match rest with
                 | _ :: _ => set rest [] args
                 | [] =>
                     match args with
                     | a :: args' => set a rest args'
                     | [] => (f, rest, args,
                              Some (Errorf "flag needs an argument: %q in -%s" [[c]; c :: rest]))
                     end
                 end
             end
    end.

(** The loop of [parseShortArg]: every turn but the last reads one letter
    of [letters]; a turn gets the arguments of the call, not those left by
    the turn before. *)
Fixpoint parse_short_loop (fuel : nat) (f : FlagSet) (letters : bytes) (args a : list bytes)
  : FlagSet * list bytes * option error :=
  match fuel with
  | O => (f, a, None)
  | S fuel' =>
      match letters with
      | [] => (f, a, None)
      | c :: rest =>
          let '(f, letters, a, err) := parseSingleShortArg f c rest args in
          match err with
          | Some _ => (f, a, err)
          | None => parse_short_loop fuel' f letters args a
          end
      end
  end.
Definition parseShortArg (f : FlagSet) (s : bytes) (args : list bytes)
  : FlagSet * list bytes * option error :=
  let letters := drop 1 s in
  parse_short_loop (S (length letters)) f letters args args.

(** The loop of [parseArgs]: every turn reads at least one argument. *)
Fixpoint parse_args_loop (fuel : nat) (f : FlagSet) (args : list bytes)
  : FlagSet * option error :=
  match fuel with
  | O => (f, None)
  | S fuel' =>
      match args with
      | [] => (f, None)
      | s :: args =>
          match s with
          | [] | [_] => if interspersed f then
                          parse_args_loop fuel' (set_args f (fs_args f ++ [s])) args
                        else (set_args f (fs_args f ++ s :: args), None)
          | c :: d :: _ =>
              if c <>c "-" then
                if interspersed f then parse_args_loop fuel' (set_args f (fs_args f ++ [s])) args
                else (set_args f (fs_args f ++ s :: args), None)
              else if (d =c "-") && (length s =? 2)%nat then
                (set_args (set_dash f (Z.of_nat (length (fs_args f)))) (fs_args f ++ args), None)
              else
                let '(f, args, err) :=
                  if d =c "-" then parseLongArg f s args else parseShortArg f s args in
                match err with
                | Some _ => (f, err)
                | None => parse_args_loop fuel' f args
                end
          end
      end
  end.
Definition parseArgs (f : FlagSet) (args : list bytes) : FlagSet * option error :=
  parse_args_loop (S (length args)) f args.

(** [Parse] of a set that continues on error. *)
Definition FlagSet_Parse (f : FlagSet) (arguments : list bytes) : FlagSet * option error :=
  parseArgs (set_args f []) arguments.
