(* ===== verification/Cobra.v ===== *)
(** * A root command without subcommands ([spf13/cobra])

    The handler has one command: no parent, no children, no hooks, no
    version and no alias, and [pflag.CommandLine] is empty. *)

From S2P Require Import Prelude GoStd Pflag.

(* ------------------------------------------------------------------ *)
(** ** Validators of positional arguments ([args.go]) *)

Section Args.
(** The command's path and its valid arguments. *)
Context (CommandPath : bytes) (ValidArgs : list bytes).

Definition dec (n : nat) : bytes := format_int (Z.of_nat n).

Definition NoArgs (args : list bytes) : option error :=
  match args with
  | [] => None
  | a :: _ => Some (Errorf "unknown command %q for %q" [a; CommandPath])
  end.

(** [OnlyValidArgs]; without subcommands there is nothing to suggest. *)
Definition OnlyValidArgs (args : list bytes) : option error :=
  match ValidArgs with
  | [] => None
  | _ => match List.find (λ v, negb (existsb (bytes_equal v) ValidArgs)) args with
         | Some v => Some (Errorf "invalid argument %q for %q%s" [v; CommandPath; []])
         | None => None
         end
  end.

Definition ArbitraryArgs (args : list bytes) : option error := None.

Definition MinimumNArgs (n : nat) (args : list bytes) : option error :=
  if (length args <? n)%nat then
    Some (Errorf "requires at least %d arg(s), only received %d" [dec n; dec (length args)])
  else None.

Definition MaximumNArgs (n : nat) (args : list bytes) : option error :=
  if (n <? length args)%nat then
    Some (Errorf "accepts at most %d arg(s), received %d" [dec n; dec (length args)])
  else None.

Definition ExactArgs (n : nat) (args : list bytes) : option error :=
  if negb (length args =? n)%nat then
    Some (Errorf "accepts %d arg(s), received %d" [dec n; dec (length args)])
  else None.

Definition ExactValidArgs (n : nat) (args : list bytes) : option error :=
  match ExactArgs n args with
  | Some e => Some e
  | None => OnlyValidArgs args
  end.

Definition RangeArgs (min max : nat) (args : list bytes) : option error :=
  if (length args <? min)%nat || (max <? length args)%nat then
    Some (Errorf "accepts between %d and %d arg(s), received %d" [dec min; dec max; dec (length args)])
  else None.
End Args.

(* ------------------------------------------------------------------ *)
(** ** Finding the command *)

Definition hasNoOptDefVal (name : bytes) (fs : FlagSet) : bool :=
  match Lookup fs name with Some flag => negb (bytes_equal (NoOptDefVal flag) []) | None => false end.

Definition shortHasNoOptDefVal (name : bytes) (fs : FlagSet) : bool :=
  match ShorthandLookup fs (take 1 name) with
  | Ret (Some flag) => negb (bytes_equal (NoOptDefVal flag) [])
  | _ => false
  end.

(** [stripFlags]: the arguments that could name a subcommand. *)
Fixpoint strip_flags_loop (fuel : nat) (args : list bytes) (flags : FlagSet) : list bytes :=
  match fuel with
  | O => []
  | S fuel' =>
      match args with
      | [] => []
      | s :: args =>
          let skip := match args with
                      | [] | [_] => []
                      | _ :: args' => strip_flags_loop fuel' args' flags
                      end in
          if bytes_equal s (bs "--") then []
          else if has_prefix s (bs "--") && negb (has_byte s "=") && negb (hasNoOptDefVal (drop 2 s) flags)
          then skip
          else if has_prefix s (bs "-") && negb (has_byte s "=") && (length s =? 2)%nat
                  && negb (shortHasNoOptDefVal (drop 1 s) flags)
          then skip
          else if negb (bytes_equal s []) && negb (has_prefix s (bs "-"))
          then s :: strip_flags_loop fuel' args flags
          else strip_flags_loop fuel' args flags
      end
  end.
Definition stripFlags (args : list bytes) (flags : FlagSet) : list bytes :=
  strip_flags_loop (S (length args)) args flags.

Fixpoint argsMinusFirstX (args : list bytes) (x : bytes) : list bytes :=
  match args with
  | [] => []
  | y :: args' => if bytes_equal x y then args' else y :: argsMinusFirstX args' x
  end.

Definition isFlagArg (arg : bytes) : bool :=
  ((3 <=? length arg)%nat && match arg !! 1 with Some c => c =c "-" | None => false end)
  || ((2 <=? length arg)%nat && match arg !! 0 with Some c => c =c "-" | None => false end
      && match arg !! 1 with Some c => c <>c "-" | None => false end).

(* ------------------------------------------------------------------ *)
(** ** The command *)

Section Command.
(** What [RunE] works on: the flags, the arguments, and a world [W]. *)
Context {W : Type}.

Record Command := MkCommand {
  Use : bytes;
  c_Args : option (list bytes → option error);
  DisableFlagParsing : bool;
  RunE : option (W → FlagSet → list bytes → W * outcome unit);
  c_flags : FlagSet
}.

Definition with_flags (c : Command) (f : FlagSet) : Command :=
  MkCommand (Use c) (c_Args c) (DisableFlagParsing c) (RunE c) f.

(** [MarkFlagRequired]. *)
Definition BashCompOneRequiredFlag : bytes :=
  bs "cobra_annotation_bash_completion_one_required_flag".
Definition MarkFlagRequired (f : FlagSet) (name : bytes) : FlagSet * option error :=
  SetAnnotation f name BashCompOneRequiredFlag [bs "true"].

(** [legacyArgs] of a command without subcommands. *)
Definition legacyArgs (c : Command) (args : list bytes) : option error := None.

(** [Find], when there is no subcommand: the arguments, unchanged. *)
Definition Find (c : Command) (args : list bytes) : list bytes * option error :=
  match c_Args c with
  | None => (args, legacyArgs c (stripFlags args (c_flags c)))
  | Some _ => (args, None)
  end.

Definition InitDefaultHelpFlag (c : Command) : outcome Command :=
  match Lookup (c_flags c) (bs "help") with
  | None => f ← BoolVarP (c_flags c) (bs "help") (bs "h") false; Ret (with_flags c f)
  | Some _ => Ret c
  end.

Definition ParseFlags (c : Command) (args : list bytes) : Command * option error :=
  if DisableFlagParsing c then (c, None)
  else let '(f, err) := FlagSet_Parse (c_flags c) args in (with_flags c f, err).

Definition ValidateArgs (c : Command) (args : list bytes) : option error :=
  match c_Args c with None => None | Some v => v args end.

(** [validateRequiredFlags]. *)
Definition missing_flag (flag : Flag) : bool :=
  match f_Annotations flag !! BashCompOneRequiredFlag with
  | Some (a :: _) => bytes_equal a (bs "true") && negb (Changed flag)
  | _ => false
  end.
Definition missingFlagNames (f : FlagSet) : list bytes :=
  map f_Name (List.filter missing_flag (sortFlags (formal f))).
Definition validateRequiredFlags (c : Command) : option error :=
  match missingFlagNames (c_flags c) with
  | [] => None
  | names => Some (Errorf "required flag(s) \q%s\q not set"
                     [join (dquote :: bs ", " ++ [dquote]) names])
  end.

(** [execute]. *)
Definition execute (w : W) (c : Command) (a : list bytes) : W * outcome unit :=
  match InitDefaultHelpFlag c with
  | Fail e => (w, Fail e)
  | Panic => (w, Panic)
  | Ret c =>
      let '(c, err) := ParseFlags c a in
      match err with
      | Some e => (w, Fail e)
      | None =>
          match GetBool (c_flags c) (bs "help") with
          | Fail e => (w, Fail e)
          | Panic => (w, Panic)
          | Ret true => (w, Fail ErrHelp)
          | Ret false =>
              match RunE c with
              | None => (w, Fail ErrHelp)
              | Some run =>
                  let argWoFlags := if DisableFlagParsing c then a else fs_args (c_flags c) in
                  match ValidateArgs c argWoFlags with
                  | Some e => (w, Fail e)
                  | None =>
                      match validateRequiredFlags c with
                      | Some e => (w, Fail e)
                      | None => run w (c_flags c) argWoFlags
                      end
                  end
              end
          end
      end
  end.

(** [ExecuteC]: a request for help is no error. *)
Definition Execute (w : W) (c : Command) (args : list bytes) : W * outcome unit :=
  match Find c args with
  | (_, Some e) => (w, Fail e)
  | (flags, None) =>
      match execute w c flags with
      | (w, Fail e) => (w, if bool_decide (e = ErrHelp) then Ret () else Fail e)
      | r => r
      end
  end.
End Command.
Arguments Command : clear implicits.
