(* ===== verification/CommandLineFacts.v ===== *)
(** * Lemmas on flag sets: declarations, invariants and parsing

    What an assignment leaves alone ([same_decls]), what every parse
    preserves ([parse_preserves]), and the parse of a command line made of
    known flags and positional arguments ([parse_items]). *)

From S2P Require Import Prelude GoStd GoStdFacts GoNet GoNetFacts Pflag Cobra.

(* ------------------------------------------------------------------ *)
(** ** Declarations *)

(** What a flag declares, whatever its value. *)
Record decl := MkDecl { d_name : bytes; d_short : bytes; d_noopt : bytes; d_type : bytes }.

Definition flag_decl (flag : Flag) : decl :=
  MkDecl (f_Name flag) (Shorthand flag) (NoOptDefVal flag) (value_Type (f_Value flag)).
Definition declared (f : FlagSet) (name : bytes) : option decl := flag_decl <$> formal f !! name.

(** The flags of two sets are declared alike. *)
Record same_decls (f g : FlagSet) : Prop := {
  sd_declared : ∀ name, declared f name = declared g name;
  sd_shorthands : shorthands f = shorthands g;
  sd_interspersed : interspersed f = interspersed g;
  sd_ordered : orderedFormal f = orderedFormal g
}.

#[export] Instance same_decls_equiv : Equivalence same_decls.
Proof.
  split.
  - by split.
  - intros f g [? ? ? ?]. by split.
  - intros f g h [H1 ? ? ?] [H2 ? ? ?]. split; congruence.
Qed.

Lemma value_Set_type v s : value_Type (value_Set v s).1 = value_Type v.
Proof. destruct v; cbn; [done|]. by destruct (parse_bool s). Qed.

Lemma FlagSet_Set_decls f name s : same_decls f (FlagSet_Set f name s).1.
Proof.
  unfold FlagSet_Set. destruct (formal f !! name) as [flag|] eqn:E; [|done].
  pose proof (value_Set_type (f_Value flag) s) as Ht.
  destruct (value_Set (f_Value flag) s) as [v err]. cbn [fst] in Ht.
  destruct err; split; try done; intros n; unfold declared; cbn;
    destruct (decide (n = name)) as [->|]; rewrite ?lookup_insert_eq, ?lookup_insert_ne by done;
    try done; rewrite E; cbn; unfold flag_decl; cbn; by rewrite Ht.
Qed.

Lemma set_args_decls f a : same_decls f (set_args f a).
Proof. by split. Qed.
Lemma set_dash_decls f n : same_decls f (set_dash f n).
Proof. by split. Qed.
#[export] Hint Resolve FlagSet_Set_decls set_args_decls set_dash_decls : go.

(* ------------------------------------------------------------------ *)
(** ** What a parse does to the set and to the arguments *)

#[local] Arguments parseShortArg : simpl never.
#[local] Arguments parseLongArg : simpl never.

(** One turn leaves the set alone, or assigns to one of its flags. *)
Definition flag_turn (f g : FlagSet) (err : option error) : Prop :=
  g = f ∨ ∃ name value, is_Some (formal f !! name) ∧ FlagSet_Set f name value = (g, err).

(** Every flag is registered under its own name. *)
Definition named (f : FlagSet) : Prop :=
  ∀ name flag, formal f !! name = Some flag → f_Name flag = name.

Lemma named_decls f g : same_decls f g → named f → named g.
Proof.
  intros Hs Hn name flag E. pose proof (sd_declared _ _ Hs name) as Hd. unfold declared in Hd.
  rewrite E in Hd. destruct (formal f !! name) as [flag'|] eqn:E'; [|done].
  cbn in Hd. injection Hd as Hd. rewrite <- Hd. by apply Hn.
Qed.

Lemma strip_length args : length (stripUnknownFlagValue args) ≤ length args.
Proof. destruct args as [|[|c s] args]; cbn; [lia|lia|]. destruct (c =c "-"); cbn; lia. Qed.

(** The goal of an assigned flag, from the turns of all assignments. *)
Ltac by_assignment :=
  match goal with
  | Ht : ∀ v, flag_turn _ _ _ |- context [FlagSet_Set ?f ?name ?v] =>
      specialize (Ht v); destruct (FlagSet_Set f name v) as [g err];
      split; [exact Ht|cbn [length]; lia]
  end.

Lemma parseLongArg_turn f s args : named f →
  let '(g, args', err) := parseLongArg f s args in
  flag_turn f g err ∧ length args' ≤ length args.
Proof.
  intros Hn. unfold parseLongArg. pose proof (strip_length args).
  destruct (match drop 2 s with [] => _ | _ => _ end); [split; [by left|lia]|].
  destruct (cut_byte "=" (drop 2 s)) as [name given].
  destruct (formal f !! name) as [flag|] eqn:E.
  - assert (f_Name flag = name) as -> by by apply Hn.
    assert (∀ v, flag_turn f (FlagSet_Set f name v).1 (FlagSet_Set f name v).2) as Ht.
    { intros v. right. exists name, v. split; [by rewrite E|]. by destruct (FlagSet_Set f name v). }
    destruct given as [v|]; [|destruct (NoOptDefVal flag) as [|c0 d]; [destruct args as [|a args]|]].
    2: by split; [left|].
    all: by_assignment.
  - destruct (bytes_equal name (bs "help")); [split; [by left|lia]|].
    destruct (UnknownFlags f); [destruct given|]; (split; [by left|lia]).
Qed.

Lemma parseSingleShortArg_turn f c rest args : named f →
  let '(g, out, args', err) := parseSingleShortArg f c rest args in
  flag_turn f g err ∧ length args' ≤ length args ∧ length out ≤ length rest.
Proof.
  intros Hn. unfold parseSingleShortArg. pose proof (strip_length args).
  destruct (has_prefix _ _); [cbn [length]; split; [by left|lia]|].
  set (assigned := match rest with [] => _ | _ => _ end). clearbody assigned.
  destruct (flag ← (name ← shorthands f !! c; formal f !! name); Some flag) as [flag|] eqn:E.
  - assert (∃ name, formal f !! name = Some flag) as [name E'].
    { destruct (shorthands f !! c) as [name|]; [|done]. cbn in E.
      destruct (formal f !! name) as [fl|] eqn:E'; [|done]. injection E as ->. by exists name. }
    assert (f_Name flag = name) as -> by by apply Hn.
    assert (∀ v, flag_turn f (FlagSet_Set f name v).1 (FlagSet_Set f name v).2) as Ht.
    { intros v. right. exists name, v. split; [by rewrite E'|]. by destruct (FlagSet_Set f name v). }
    destruct assigned; [|destruct (NoOptDefVal flag) as [|c0 d];
      [destruct rest as [|r rest]; [destruct args as [|a args]|]|]].
    2: by split; [left|].
    all: by_assignment.
  - destruct (c =c "h"); [split; [by left|lia]|].
    destruct (UnknownFlags f); [destruct assigned|]; cbn [length]; (split; [by left|lia]).
Qed.

Lemma flag_turn_decls f g err : flag_turn f g err → same_decls f g.
Proof.
  intros [->|(name & v & _ & E)]; [done|].
  pose proof (FlagSet_Set_decls f name v) as H. by rewrite E in H.
Qed.

(** What every turn of every loop keeps is kept by the whole parse; [P err]
    speaks of the set when the error is [err]. *)
Section Preserves.
Context (P : option error → FlagSet → Prop).
Context (P_set : ∀ f name value g err, P None f → named f → is_Some (formal f !! name) →
           FlagSet_Set f name value = (g, err) → P err g).
Context (P_args : ∀ f a, P None f → P None (set_args f a)).
Context (P_dash : ∀ f n, P None f → P None (set_dash f n)).
Context (P_error : ∀ f e, P None f → P e f).

Lemma turn_preserves f g err : P None f → named f → flag_turn f g err → P err g ∧ named g.
Proof.
  intros HP Hn Ht. split; [|eapply named_decls; [by eapply flag_turn_decls|done]].
  destruct Ht as [->|(name & v & Hs & E)]; [by apply P_error|by eapply P_set].
Qed.

Lemma short_loop_preserves fuel : ∀ f letters args a, P None f → named f →
  length a ≤ length args →
  let '(g, a', err) := parse_short_loop fuel f letters args a in
  P err g ∧ named g ∧ length a' ≤ length args.
Proof.
  induction fuel as [|fuel IH]; intros f letters args a HP Hn Ha; cbn; [done|].
  destruct letters as [|c rest]; [done|].
  pose proof (parseSingleShortArg_turn f c rest args Hn) as Ht.
  destruct (parseSingleShortArg f c rest args) as [[[g out] a'] err].
  destruct Ht as (Ht & Hl & _). destruct (turn_preserves f g err HP Hn Ht) as [HP' Hn'].
  destruct err; [done|]. by apply IH.
Qed.

Lemma short_preserves f s args : P None f → named f →
  let '(g, a', err) := parseShortArg f s args in P err g ∧ named g ∧ length a' ≤ length args.
Proof. intros HP Hn. by apply short_loop_preserves. Qed.

Lemma args_loop_preserves fuel : ∀ f args, P None f → named f →
  let '(g, err) := parse_args_loop fuel f args in P err g.
Proof.
  induction fuel as [|fuel IH]; intros f args HP Hn; cbn; [done|].
  destruct args as [|s args]; [done|].
  assert (∀ a, named (set_args f a)) as Hna by done.
  destruct s as [|c [|d s]].
  1,2: destruct (interspersed f); [apply IH|]; auto.
  destruct (c <>c "-"); [destruct (interspersed f); [apply IH|]; auto|].
  destruct ((d =c "-") && _); [by apply P_args, P_dash|].
  destruct (d =c "-").
  - pose proof (parseLongArg_turn f (c :: d :: s) args Hn) as Ht.
    destruct (parseLongArg f (c :: d :: s) args) as [[g args'] err]. destruct Ht as [Ht _].
    destruct (turn_preserves f g err HP Hn Ht) as [HP' Hn']. destruct err; [done|]. by apply IH.
  - pose proof (short_preserves f (c :: d :: s) args HP Hn) as Ht.
    destruct (parseShortArg f (c :: d :: s) args) as [[g args'] err]. destruct Ht as (HP' & Hn' & _).
    destruct err; [done|]. by apply IH.
Qed.

Lemma parse_preserves f args g err : P None f → named f → FlagSet_Parse f args = (g, err) → P err g.
Proof.
  intros HP Hn E. unfold FlagSet_Parse, parseArgs in E.
  pose proof (args_loop_preserves (S (length args)) (set_args f []) args (P_args _ _ HP) Hn) as H.
  by rewrite E in H.
Qed.
End Preserves.

(* ------------------------------------------------------------------ *)
(** ** Fuel *)

Lemma short_loop_enough fuel : ∀ fuel' f letters args a, named f →
  length letters < fuel → length letters < fuel' →
  parse_short_loop fuel f letters args a = parse_short_loop fuel' f letters args a.
Proof.
  induction fuel as [|fuel IH]; intros fuel' f letters args a Hn H1 H2; [lia|].
  destruct fuel' as [|fuel']; [lia|]. cbn. destruct letters as [|c rest]; [done|].
  pose proof (parseSingleShortArg_turn f c rest args Hn) as Ht.
  destruct (parseSingleShortArg f c rest args) as [[[g out] a'] [e|]]; [done|].
  destruct Ht as (Ht & _ & Hl). cbn [length] in *.
  apply IH; [eapply named_decls; [by eapply flag_turn_decls|done]|lia|lia].
Qed.

Lemma args_loop_enough fuel : ∀ fuel' f args, named f →
  length args < fuel → length args < fuel' →
  parse_args_loop fuel f args = parse_args_loop fuel' f args.
Proof.
  induction fuel as [|fuel IH]; intros fuel' f args Hn H1 H2; [lia|].
  destruct fuel' as [|fuel']; [lia|]. cbn. destruct args as [|s args]; [done|].
  cbn [length] in *. assert (∀ a, named (set_args f a)) as Hna by done.
  destruct s as [|c [|d s]].
  1,2: destruct (interspersed f); [apply IH; [done|lia|lia]|done].
  destruct (c <>c "-"); [destruct (interspersed f); [apply IH; [done|lia|lia]|done]|].
  destruct ((d =c "-") && _); [done|].
  destruct (d =c "-").
  - pose proof (parseLongArg_turn f (c :: d :: s) args Hn) as Ht.
    destruct (parseLongArg f (c :: d :: s) args) as [[g args'] [e|]]; [done|]. destruct Ht as [Ht Hl].
    apply IH; [eapply named_decls; [by eapply flag_turn_decls|done]|lia|lia].
  - pose proof (short_preserves (λ _ g, True) ltac:(done) ltac:(done) f (c :: d :: s) args I Hn) as Ht.
    destruct (parseShortArg f (c :: d :: s) args) as [[g args'] [e|]]; [done|].
    destruct Ht as (_ & Hn' & Hl). by apply IH; [done|lia|lia].
Qed.

(* ------------------------------------------------------------------ *)
(** ** Command lines of known flags and positional arguments *)

Inductive item :=
| Positional (s : bytes)
| LongEq (name value : bytes)
| LongSp (name value : bytes)
| Long (name : bytes)
| ShortSp (c : ascii) (value : bytes)
| ShortEq (c : ascii) (value : bytes)
| Short (c : ascii).

(** The words of an item, as they are written. *)
Definition item_words (i : item) : list bytes :=
  match i with
  | Positional s => [s]
  | LongEq name value => [bs "--" ++ name ++ "="%char :: value]
  | LongSp name value => [bs "--" ++ name; value]
  | Long name => [bs "--" ++ name]
  | ShortSp c value => [["-"%char; c]; value]
  | ShortEq c value => ["-"%char :: c :: "="%char :: value]
  | Short c => [["-"%char; c]]
  end.
Definition words (items : list item) : list bytes := concat (map item_words items).

(** A text that no flag starts with. *)
Definition positional (s : bytes) : bool :=
  match s with c :: _ :: _ => c <>c "-" | _ => true end.

(** A text a flag of type [type] takes. *)
Definition accepts (type value : bytes) : bool :=
  bytes_equal type (bs "string") || returns (parse_bool value).

(** The flag an item assigns, and the text it assigns. *)
Definition item_assigns (f : FlagSet) (i : item) : option (bytes * bytes) :=
  match i with
  | Positional _ => None
  | LongEq name value | LongSp name value => Some (name, value)
  | Long name => d ← declared f name; Some (name, d_noopt d)
  | ShortSp c value | ShortEq c value => name ← shorthands f !! c; Some (name, value)
  | Short c => name ← shorthands f !! c; d ← declared f name; Some (name, d_noopt d)
  end.

(** The items a flag set understands: a flag that needs no argument takes
    one only after an equals sign. *)
Definition item_ok (f : FlagSet) (i : item) : Prop :=
  match i with
  | Positional s => positional s = true
  | LongEq name _ => "="%char ∉ name ∧ match name with [] => False | c :: _ => c ≠ "-"%char end
  | LongSp name _ =>
      "="%char ∉ name ∧ match name with [] => False | c :: _ => c ≠ "-"%char end ∧
      d_noopt <$> declared f name = Some []
  | Long name =>
      "="%char ∉ name ∧ match name with [] => False | c :: _ => c ≠ "-"%char end ∧
      ∃ d, declared f name = Some d ∧ d_noopt d ≠ []
  | ShortSp c _ => c ≠ "-"%char ∧ ∃ name, shorthands f !! c = Some name ∧ d_noopt <$> declared f name = Some []
  | ShortEq c value => c ≠ "-"%char ∧ value ≠ []
  | Short c => c ≠ "-"%char ∧ ∃ name d, shorthands f !! c = Some name ∧ declared f name = Some d ∧ d_noopt d ≠ []
  end ∧
  match i with
  | Positional _ => True
  | _ => ∃ name value d, item_assigns f i = Some (name, value) ∧ declared f name = Some d ∧
           accepts (d_type d) value = true
  end.

(** What an item does. *)
Definition apply_item (f : FlagSet) (i : item) : FlagSet :=
  match i with
  | Positional s => set_args f (fs_args f ++ [s])
  | _ => match item_assigns f i with
         | Some (name, value) => (FlagSet_Set f name value).1
         | None => f
         end
  end.

Lemma apply_item_decls f i : same_decls f (apply_item f i).
Proof.
  unfold apply_item. destruct (item_assigns f i) as [[name value]|]; destruct i; auto with go; reflexivity.
Qed.

Lemma item_assigns_decls f g i : same_decls f g → item_assigns f i = item_assigns g i.
Proof.
  intros [Hd Hs _ _]. destruct i; cbn; rewrite ?Hs, ?Hd; try done.
  destruct (shorthands g !! c) as [name|]; cbn; [by rewrite Hd|done].
Qed.

Lemma item_ok_decls f g i : same_decls f g → item_ok f i → item_ok g i.
Proof.
  intros Hsd. pose proof (item_assigns_decls _ _ i Hsd) as Ha. destruct Hsd as [Hd Hs _ _].
  unfold item_ok. rewrite Ha. intros [H1 H2]. split.
  - destruct i; cbn in *; rewrite <- ?Hs; first [exact H1|setoid_rewrite <- Hd; exact H1].
  - destruct i; [done|..]; setoid_rewrite <- Hd; exact H2.
Qed.

Lemma FlagSet_Set_accepts f name d value : declared f name = Some d →
  accepts (d_type d) value = true → (FlagSet_Set f name value).2 = None.
Proof.
  unfold declared, FlagSet_Set, accepts. destruct (formal f !! name) as [flag|]; [|done].
  intros [= <-]. cbn. destruct (f_Value flag) as [s|b]; cbn; [done|].
  destruct (parse_bool value); done.
Qed.

(** ** The parse of such a command line *)

Lemma cut_byte_absent c w : c ∉ w → cut_byte c w = (w, None).
Proof.
  induction w as [|d w IH]; [done|]. rewrite not_elem_of_cons. intros [Hd Hw]. cbn.
  destruct (Ascii.eqb_spec d c) as [->|_]; [done|]. by rewrite IH.
Qed.

(** The word of a long flag reaches [parseLongArg]. *)
Lemma long_word_ok name w : match name with [] => False | c :: _ => c ≠ "-"%char end → "="%char ∉ name →
  match name ++ w with [] => true | c :: _ => (c =c "-") || (c =c "=") end = false.
Proof.
  destruct name as [|c name]; [done|]. cbn. rewrite not_elem_of_cons. intros Hc [He _].
  apply not_eq_sym in He. by char_neq.
Qed.

Lemma assign_result f name d value : declared f name = Some d → accepts (d_type d) value = true →
  FlagSet_Set f name value = ((FlagSet_Set f name value).1, None).
Proof.
  intros Hd Ha. pose proof (FlagSet_Set_accepts f name d value Hd Ha) as H.
  destruct (FlagSet_Set f name value). cbn in *. by subst.
Qed.

Lemma declared_Some f name d : named f → declared f name = Some d →
  ∃ flag, formal f !! name = Some flag ∧ f_Name flag = name ∧ flag_decl flag = d.
Proof.
  unfold declared. intros Hn. destruct (formal f !! name) as [flag|] eqn:E; [|done].
  intros [= <-]. exists flag. split; [done|]. split; [by apply Hn|done].
Qed.

Section Items.
Context (f : FlagSet) (Hn : named f).

Lemma parseLong_eq name value d args :
  match name with [] => False | c :: _ => c ≠ "-"%char end → "="%char ∉ name →
  declared f name = Some d → accepts (d_type d) value = true →
  parseLongArg f (bs "--" ++ name ++ "="%char :: value) args = ((FlagSet_Set f name value).1, args, None).
Proof.
  intros Hc He Hd Ha. destruct (declared_Some _ _ _ Hn Hd) as (flag & E & En & Ed).
  unfold parseLongArg. change (drop 2 (bs "--" ++ ?w)) with w.
  rewrite long_word_ok, cut_byte_plain by done. rewrite E, En. by rewrite (assign_result f name d).
Qed.

Lemma parseLong_plain name d args :
  match name with [] => False | c :: _ => c ≠ "-"%char end → "="%char ∉ name →
  declared f name = Some d →
  (d_noopt d ≠ [] → accepts (d_type d) (d_noopt d) = true →
   parseLongArg f (bs "--" ++ name) args = ((FlagSet_Set f name (d_noopt d)).1, args, None)) ∧
  (∀ value, d_noopt d = [] → accepts (d_type d) value = true →
   parseLongArg f (bs "--" ++ name) (value :: args) = ((FlagSet_Set f name value).1, args, None)).
Proof.
  intros Hc He Hd. destruct (declared_Some _ _ _ Hn Hd) as (flag & E & En & Ed).
  assert (NoOptDefVal flag = d_noopt d) as Eo by by rewrite <- Ed.
  unfold parseLongArg. change (drop 2 (bs "--" ++ ?w)) with w.
  pose proof (long_word_ok name [] Hc He) as Hw. rewrite app_nil_r in Hw.
  rewrite Hw, cut_byte_absent by done. rewrite E, En, Eo. split.
  - intros Hne Ha. rewrite (assign_result f name d) by done. by destruct (d_noopt d).
  - intros value -> Ha. by rewrite (assign_result f name d).
Qed.

Lemma parseShort_word c rest name d args : shorthands f !! c = Some name → declared f name = Some d →
  (∀ value, rest = "="%char :: value → value ≠ [] → accepts (d_type d) value = true →
   parseShortArg f ("-"%char :: c :: rest) args = ((FlagSet_Set f name value).1, args, None)) ∧
  (rest = [] → d_noopt d ≠ [] → accepts (d_type d) (d_noopt d) = true →
   parseShortArg f ("-"%char :: c :: rest) args = ((FlagSet_Set f name (d_noopt d)).1, args, None)) ∧
  (∀ value args', rest = [] → d_noopt d = [] → args = value :: args' → accepts (d_type d) value = true →
   parseShortArg f ("-"%char :: c :: rest) args = ((FlagSet_Set f name value).1, args', None)).
Proof.
  intros Hs Hd. destruct (declared_Some _ _ _ Hn Hd) as (flag & E & En & Ed).
  assert (NoOptDefVal flag = d_noopt d) as Eo by by rewrite <- Ed.
  unfold parseShortArg. change (drop 1 ("-"%char :: c :: rest)) with (c :: rest).
  assert (∀ s, has_prefix [c] (bs "test.") = false ∧ has_prefix (c :: "="%char :: s) (bs "test.") = false) as Hp.
  { intros s. cbn [bs String.list_ascii_of_string has_prefix]. split; apply andb_false_r. }
  cbn [length parse_short_loop]. unfold parseSingleShortArg.
  repeat split.
  - intros value -> Hv Ha. rewrite (proj2 (Hp value)), Hs. cbn [mbind option_bind]. rewrite E.
    destruct value as [|v0 value]; [done|]. cbn [mbind option_bind Ascii.eqb Bool.eqb drop]. rewrite En.
    by rewrite (assign_result f name d).
  - intros -> Hne Ha. rewrite (proj1 (Hp [])), Hs. cbn [mbind option_bind]. rewrite E.
    cbn [mbind option_bind]. rewrite En, Eo.
    rewrite (assign_result f name d) by done. by destruct (d_noopt d).
  - intros value args' -> Hne -> Ha. rewrite (proj1 (Hp [])), Hs. cbn [mbind option_bind]. rewrite E.
    cbn [mbind option_bind]. rewrite En, Eo, Hne. by rewrite (assign_result f name d).
Qed.
End Items.
Lemma long_turn fuel f w args : w ≠ [] →
  parse_args_loop (S fuel) f ((bs "--" ++ w) :: args) =
  let '(g, args', err) := parseLongArg f (bs "--" ++ w) args in
  match err with Some _ => (g, err) | None => parse_args_loop fuel g args' end.
Proof. by destruct w. Qed.

Lemma short_turn fuel f c rest args : c ≠ "-"%char →
  parse_args_loop (S fuel) f (("-"%char :: c :: rest) :: args) =
  let '(g, args', err) := parseShortArg f ("-"%char :: c :: rest) args in
  match err with Some _ => (g, err) | None => parse_args_loop fuel g args' end.
Proof. intros Hc. cbn. by char_neq. Qed.

Lemma parse_item f i rest : named f → interspersed f = true → item_ok f i →
  ∀ fuel, length (item_words i ++ rest) < fuel →
  ∃ fuel', length rest < fuel' ∧
    parse_args_loop fuel f (item_words i ++ rest) = parse_args_loop fuel' (apply_item f i) rest.
Proof.
  intros Hn Hi [Hok Ha] fuel Hf. destruct fuel as [|fuel]; [lia|]. exists fuel.
  rewrite length_app in Hf. unfold apply_item.
  destruct i as [s|name value|name value|name|c value|c value|c];
    cbn [item_words app length] in *; (split; [lia|]).
  { cbn. unfold positional in Hok. destruct s as [|c [|d s]]; rewrite ?Hi; try done. by rewrite Hok. }
  all: destruct Ha as (nm & v & d & Has & Hd & Hacc); cbn [item_assigns] in Has |- *.
  - injection Has as <- <-. destruct Hok as [He Hc]. rewrite long_turn by by destruct name.
    by rewrite (parseLong_eq f Hn name value d).
  - injection Has as <- <-. destruct Hok as (He & Hc & Ho). rewrite long_turn by by destruct name.
    rewrite Hd in Ho. injection Ho as Ho.
    by rewrite (proj2 (parseLong_plain f Hn name d rest Hc He Hd)).
  - destruct Hok as (He & Hc & d' & Hd' & Ho). rewrite Hd' in Has. injection Has as <- <-.
    rewrite Hd in Hd'. injection Hd' as <-. rewrite long_turn by by destruct name. rewrite Hd.
    by rewrite (proj1 (parseLong_plain f Hn name d rest Hc He Hd)).
  - destruct Hok as (Hc & nm' & Hs & Ho). rewrite Hs in Has |- *. injection Has as -> ->.
    rewrite short_turn by done. rewrite Hd in Ho. injection Ho as Ho.
    by rewrite (proj2 (proj2 (parseShort_word f Hn c [] nm d (v :: rest) Hs Hd)) v rest).
  - destruct Hok as (Hc & Hv). destruct (shorthands f !! c) as [nm'|] eqn:Hs; [|done].
    injection Has as -> ->. rewrite short_turn by done.
    by rewrite (proj1 (parseShort_word f Hn c ("="%char :: v) nm d rest Hs Hd) v).
  - destruct Hok as (Hc & nm' & d' & Hs & Hd' & Ho). rewrite Hs in Has |- *. cbn [mbind option_bind] in Has |- *.
    rewrite Hd' in Has |- *. injection Has as -> <-. rewrite Hd in Hd'. injection Hd' as <-.
    rewrite short_turn by done.
    by rewrite (proj1 (proj2 (parseShort_word f Hn c [] nm d rest Hs Hd))).
Qed.

(** What a whole command line does. *)
Definition apply_items (f : FlagSet) (items : list item) : FlagSet := foldl apply_item f items.

Lemma apply_items_decls f items : same_decls f (apply_items f items).
Proof.
  unfold apply_items. revert f. induction items as [|i items IH]; intros f; cbn; [done|].
  etransitivity; [apply apply_item_decls|apply IH].
Qed.

(** After a [--], every word is an argument. *)
Definition ending (f : FlagSet) (rest : option (list bytes)) : FlagSet :=
  match rest with
  | None => f
  | Some args => set_args (set_dash f (Z.of_nat (length (fs_args f)))) (fs_args f ++ args)
  end.
Definition ending_words (rest : option (list bytes)) : list bytes :=
  match rest with None => [] | Some args => bs "--" :: args end.

Lemma parse_items items rest : ∀ f fuel, named f → interspersed f = true → Forall (item_ok f) items →
  length (words items ++ ending_words rest) < fuel →
  parse_args_loop fuel f (words items ++ ending_words rest) =
  (ending (apply_items f items) rest, None).
Proof.
  induction items as [|i items IH]; intros f fuel Hn Hi Hok Hf.
  - destruct fuel as [|fuel]; [lia|]. by destruct rest.
  - apply Forall_cons in Hok as [Hi1 Hok]. unfold words in *. cbn [map concat] in *.
    rewrite <- app_assoc in *.
    destruct (parse_item f i (concat (map item_words items) ++ ending_words rest) Hn Hi Hi1 fuel Hf)
      as (fuel' & Hf' & ->).
    pose proof (apply_item_decls f i) as Hd.
    rewrite IH; [done|by eapply named_decls| |by eapply Forall_impl; [|intros j; apply item_ok_decls]|done].
    by rewrite <- (sd_interspersed _ _ Hd).
Qed.

(* ------------------------------------------------------------------ *)
(** ** The flags after the assignments of a command line *)

Definition assignments (f : FlagSet) (items : list item) : list (bytes * bytes) :=
  omap (item_assigns f) items.
Definition positionals (items : list item) : list bytes :=
  omap (λ i, match i with Positional s => Some s | _ => None end) items.

(** The value of the flag [name] after assignments. *)
Definition value_after (name : bytes) (v : flag_value) (given : list (bytes * bytes)) : flag_value :=
  foldl (λ v a, if bytes_equal a.1 name then (value_Set v a.2).1 else v) v given.
Definition is_given (name : bytes) (given : list (bytes * bytes)) : bool :=
  existsb (λ a, bytes_equal a.1 name) given.

(** A flag, with its value assigned and its change recorded. *)
Definition flag_given (name : bytes) (flag : Flag) (given : list (bytes * bytes)) : Flag :=
  MkFlag (f_Name flag) (Shorthand flag) (value_after name (f_Value flag) given) (DefValue flag)
    (Changed flag || is_given name given) (NoOptDefVal flag) (f_Annotations flag).

Lemma Set_flag f name d value n flag : declared f name = Some d → accepts (d_type d) value = true →
  formal f !! n = Some flag →
  formal (FlagSet_Set f name value).1 !! n = Some (flag_given n flag [(name, value)]).
Proof.
  intros Hd Ha Hn. pose proof (FlagSet_Set_accepts _ _ _ _ Hd Ha) as Hok.
  unfold FlagSet_Set, declared in *. destruct (formal f !! name) as [flag'|] eqn:E; [|done].
  unfold flag_given, value_after, is_given. cbn [foldl existsb fst snd].
  destruct (value_Set (f_Value flag') value) as [v err] eqn:Ev. destruct err; [done|]. cbn [fst formal].
  destruct (decide (n = name)) as [->|Hne].
  - rewrite lookup_insert_eq. rewrite E in Hn. injection Hn as ->.
    rewrite (proj2 (bytes_equal_true name name)) by done. rewrite Ev. cbn. by rewrite orb_true_r.
  - rewrite lookup_insert_ne, Hn, (proj2 (bytes_equal_false _ _)) by done. cbn. rewrite orb_false_r. by destruct flag.
Qed.

Lemma flag_given_app n flag l k : flag_given n (flag_given n flag l) k = flag_given n flag (l ++ k).
Proof.
  unfold flag_given, value_after, is_given. cbn.
  by rewrite foldl_app, existsb_app, orb_assoc.
Qed.

Lemma apply_item_flag f i n flag : item_ok f i → formal f !! n = Some flag →
  formal (apply_item f i) !! n = Some (flag_given n flag (assignments f [i])).
Proof.
  intros [_ Ha] Hn.
  assert (∀ a, item_assigns f i = a → assignments f [i] = match a with Some x => [x] | None => [] end) as Has.
  { intros a <-. unfold assignments. cbn. by destruct (item_assigns f i). }
  destruct i as [s|name value|name value|name|c value|c value|c].
  { rewrite (Has None) by done. unfold apply_item, flag_given. cbn. rewrite Hn, orb_false_r. by destruct flag. }
  all: destruct Ha as (nm & v & d & E & Hd & Hacc); rewrite (Has _ E); unfold apply_item; rewrite E;
    by eapply Set_flag.
Qed.

Lemma apply_item_args f i : fs_args (apply_item f i) = fs_args f ++ positionals [i].
Proof.
  assert (∀ n v, fs_args (FlagSet_Set f n v).1 = fs_args f) as H.
  { intros n v. unfold FlagSet_Set. destruct (formal f !! n) as [flag|]; [|done].
    by destruct (value_Set (f_Value flag) v) as [? [?|]]. }
  unfold apply_item. destruct (item_assigns f i) as [[n v]|]; destruct i; cbn; by rewrite ?app_nil_r.
Qed.

Lemma apply_items_flag items : ∀ f n flag, Forall (item_ok f) items → formal f !! n = Some flag →
  formal (apply_items f items) !! n = Some (flag_given n flag (assignments f items)).
Proof.
  induction items as [|i items IH]; intros f n flag Hok Hn.
  - unfold flag_given. cbn. rewrite Hn, orb_false_r. by destruct flag.
  - apply Forall_cons in Hok as [Hi Hok]. cbn [apply_items foldl].
    pose proof (apply_item_decls f i) as Hd.
    change (foldl apply_item ?x items) with (apply_items x items).
    rewrite (IH _ _ _ (Forall_impl _ _ _ Hok (λ j, item_ok_decls _ _ j Hd)) (apply_item_flag _ _ _ _ Hi Hn)).
    rewrite flag_given_app. f_equal. f_equal. unfold assignments.
    change (i :: items) with ([i] ++ items). rewrite omap_app. f_equal.
    apply list_omap_ext. clear -Hd. induction items; constructor; [|done].
    symmetry. by apply item_assigns_decls.
Qed.

Lemma apply_items_args items : ∀ f, fs_args (apply_items f items) = fs_args f ++ positionals items.
Proof.
  induction items as [|i items IH]; intros f; [by rewrite app_nil_r|]. cbn [apply_items foldl].
  change (foldl apply_item ?x items) with (apply_items x items). rewrite IH, apply_item_args.
  rewrite <- app_assoc. f_equal. unfold positionals. by rewrite <- omap_app.
Qed.

(* ------------------------------------------------------------------ *)
(** ** Well-formed flag sets *)

(** The indexes of a flag set agree with its flags. *)
Record fs_wf (f : FlagSet) : Prop := {
  wf_named : named f;
  wf_nodup : NoDup (orderedFormal f);
  wf_ordered : ∀ n, n ∈ orderedFormal f ↔ is_Some (formal f !! n);
  wf_actual_nodup : NoDup (orderedActual f);
  wf_actual : ∀ n, n ∈ orderedActual f ↔ Changed <$> formal f !! n = Some true;
  wf_short : ∀ c n, shorthands f !! c = Some n ↔ Shorthand <$> formal f !! n = Some [c]
}.

Lemma NewFlagSet_wf name : fs_wf (NewFlagSet name).
Proof.
  split; cbn; try by constructor.
  - intros n flag. cbn. by rewrite lookup_empty.
  - intros n. rewrite lookup_empty, elem_of_nil. split; [done|]. by intros [? ?].
  - intros n. by rewrite lookup_empty, elem_of_nil.
Qed.

(** When [AddFlag] panics. *)
Definition AddFlag_ok (f : FlagSet) (flag : Flag) : Prop :=
  formal f !! f_Name flag = None ∧
  match Shorthand flag with [] => True | [c] => shorthands f !! c = None | _ => False end.

Lemma AddFlag_spec f flag : fs_wf f → Changed flag = false →
  (AddFlag f flag = Panic ∧ ¬ AddFlag_ok f flag) ∨
  (AddFlag_ok f flag ∧ ∃ g, AddFlag f flag = Ret g ∧ fs_wf g ∧
     formal g = <[f_Name flag := flag]> (formal f)).
Proof.
  intros [Wn Wd Wo Wad Wa Ws] Hc. unfold AddFlag, AddFlag_ok.
  destruct (formal f !! f_Name flag) as [old|] eqn:E; [left; naive_solver|].
  assert (f_Name flag ∉ orderedFormal f) as Hnew by (rewrite Wo, E; by intros [? ?]).
  assert (named (set_formal f (<[f_Name flag := flag]> (formal f)))) as Wn'.
  { intros n fl. cbn. rewrite lookup_insert_Some. intros [[<- <-]|[_ ?]]; [done|]. by apply Wn. }
  assert (NoDup (orderedFormal f ++ [f_Name flag])) as Wd'.
  { apply NoDup_app. split; [done|]. split; [|apply NoDup_singleton]. intros n Hn.
    rewrite list_elem_of_singleton. by intros ->. }
  assert (∀ n, n ∈ orderedFormal f ++ [f_Name flag] ↔
    is_Some (<[f_Name flag := flag]> (formal f) !! n)) as Wo'.
  { intros n. rewrite elem_of_app, list_elem_of_singleton, lookup_insert_is_Some, Wo.
    destruct (decide (f_Name flag = n)); naive_solver. }
  assert (∀ n, n ∈ orderedActual f ↔ Changed <$> <[f_Name flag := flag]> (formal f) !! n = Some true) as Wa'.
  { intros n. rewrite Wa. destruct (decide (n = f_Name flag)) as [->|].
    - rewrite lookup_insert_eq, E. cbn. by rewrite Hc.
    - by rewrite lookup_insert_ne. }
  assert (∀ c n, n ≠ f_Name flag → shorthands f !! c = Some n ↔
    Shorthand <$> <[f_Name flag := flag]> (formal f) !! n = Some [c]) as Ws'.
  { intros c n Hn. by rewrite Ws, lookup_insert_ne. }
  assert (∀ c, shorthands f !! c ≠ Some (f_Name flag)) as Wno by (intros c; by rewrite Ws, E).
  destruct (Shorthand flag) as [|c [|c' s]] eqn:Es; [right|destruct (shorthands f !! c) eqn:Ec|left; naive_solver].
  - split; [done|]. eexists. split; [reflexivity|]. split; [|done]. split; cbn; try done.
    intros c n. destruct (decide (n = f_Name flag)) as [->|]; [|by apply Ws'].
    rewrite lookup_insert_eq. cbn. rewrite Es. split; [by intros ?%Wno|done].
  - left. split; [done|]. naive_solver.
  - right. split; [done|]. eexists. split; [reflexivity|]. split; [|done]. split; cbn; try done.
    intros c' n. destruct (decide (n = f_Name flag)) as [->|].
    + rewrite lookup_insert_eq. cbn. rewrite Es. destruct (decide (c' = c)) as [->|].
      * by rewrite lookup_insert_eq.
      * rewrite lookup_insert_ne by done. split; [by intros ?%Wno|congruence].
    + rewrite <- Ws' by done. destruct (decide (c' = c)) as [->|]; [|by rewrite lookup_insert_ne].
      rewrite lookup_insert_eq, Ec. split; congruence.
Qed.

(** Replacing a flag by one with the same declaration and the same change. *)
Lemma FlagSet_Set_wf f name value : fs_wf f → fs_wf (FlagSet_Set f name value).1.
Proof.
  intros W. pose proof (FlagSet_Set_decls f name value) as [Sd Ss _ So].
  pose proof (named_decls _ _ (FlagSet_Set_decls f name value) (wf_named _ W)) as Wn.
  assert (∀ n, is_Some (formal (FlagSet_Set f name value).1 !! n) ↔ is_Some (formal f !! n)) as Hs.
  { intros n. specialize (Sd n). unfold declared in Sd. split; intros [x E]; rewrite E in Sd;
    by destruct (_ !! n). }
  assert (∀ n, Shorthand <$> formal (FlagSet_Set f name value).1 !! n = Shorthand <$> formal f !! n) as Hsh.
  { intros n. specialize (Sd n). unfold declared in Sd.
    assert (∀ m : option Flag, Shorthand <$> m = d_short <$> (flag_decl <$> m)) as Em by by intros [?|].
    by rewrite !Em, Sd. }
  destruct W as [_ Wd Wo Wad Wa Ws].
  split; [done|by rewrite <- So|by intros n; rewrite <- So, Wo, Hs| | |by intros c n; rewrite <- Ss, Ws, Hsh].
  - unfold FlagSet_Set. destruct (formal f !! name) as [flag|] eqn:E; [|done].
    destruct (value_Set (f_Value flag) value) as [v [e|]]; cbn; [done|].
    destruct (Changed flag) eqn:Ec; [done|]. apply NoDup_app. split; [done|].
    split; [|apply NoDup_singleton]. intros n Hn. rewrite list_elem_of_singleton. intros ->.
    rewrite Wa, E in Hn. cbn in Hn. congruence.
  - intros n. unfold FlagSet_Set. destruct (formal f !! name) as [flag|] eqn:E; [|done].
    destruct (value_Set (f_Value flag) value) as [v [e|]]; cbn.
    + rewrite Wa. destruct (decide (n = name)) as [->|]; [|by rewrite lookup_insert_ne].
      by rewrite lookup_insert_eq, E.
    + destruct (decide (n = name)) as [->|].
      * rewrite lookup_insert_eq. cbn. split; [done|]. intros _.
        destruct (Changed flag) eqn:Ec; [rewrite Wa, E; cbn; by rewrite Ec|].
        rewrite elem_of_app, list_elem_of_singleton. by right.
      * rewrite lookup_insert_ne by done. destruct (Changed flag); [done|].
        rewrite elem_of_app, list_elem_of_singleton, Wa. naive_solver.
Qed.

Lemma FlagSet_Parse_wf f args : fs_wf f → fs_wf (FlagSet_Parse f args).1.
Proof.
  intros W. destruct (FlagSet_Parse f args) as [g err] eqn:E.
  eapply (parse_preserves (λ _ g, fs_wf g)); [..|exact E]; try done; [|by destruct 1|by destruct 1|apply W].
  intros f' n v g' err' W' _ _ E'. pose proof (FlagSet_Set_wf f' n v W') as H. by rewrite E' in H.
Qed.

(** A flag that was not given keeps its default. *)
Definition default_kept (f : FlagSet) : Prop :=
  ∀ n flag, formal f !! n = Some flag → Changed flag = false → value_String (f_Value flag) = DefValue flag.

Lemma FlagSet_Set_default f name value g : default_kept f → FlagSet_Set f name value = (g, None) →
  default_kept g.
Proof.
  intros Hd. unfold FlagSet_Set. destruct (formal f !! name) as [flag|] eqn:E; [|done].
  destruct (value_Set (f_Value flag) value) as [v [e|]]; [done|]. intros [= <-] n fl. cbn.
  rewrite lookup_insert_Some. intros [[<- <-]|[_ Hn]]; [done|]. by eapply Hd.
Qed.

Lemma FlagSet_Parse_default f args g : default_kept f → named f → FlagSet_Parse f args = (g, None) →
  default_kept g.
Proof.
  intros Hd Hn E.
  apply (parse_preserves (λ err g, err = None → default_kept g)) with (f := f) (args := args) (err := None); auto.
  - intros f' n v g' err HP _ _ E' ->. by eapply FlagSet_Set_default; [apply HP|].
Qed.

(* ------------------------------------------------------------------ *)
(** ** Required flags *)

Lemma MarkFlagRequired_wf f name : fs_wf f → fs_wf (MarkFlagRequired f name).1.
Proof.
  intros W. unfold MarkFlagRequired, SetAnnotation. destruct (formal f !! name) as [flag|] eqn:E; [|done].
  destruct W as [Wn Wd Wo Wad Wa Ws]. cbn.
  assert (∀ {A} (p : Flag → A) n, (∀ fl, p (MkFlag (f_Name flag) (Shorthand flag) (f_Value flag)
    (DefValue flag) (Changed flag) (NoOptDefVal flag) fl) = p flag) →
    p <$> <[name := MkFlag (f_Name flag) (Shorthand flag) (f_Value flag)
    (DefValue flag) (Changed flag) (NoOptDefVal flag)
    (<[BashCompOneRequiredFlag := [bs "true"]]> (f_Annotations flag))]> (formal f) !! n = p <$> formal f !! n) as Hp.
  { intros A p n Hp. destruct (decide (n = name)) as [->|]; [|by rewrite lookup_insert_ne].
    rewrite lookup_insert_eq, E. cbn. by rewrite Hp. }
  split; cbn; try done.
  - intros n fl. cbn. rewrite lookup_insert_Some. intros [[<- <-]|[_ Hf]]; [exact (Wn _ _ E)|exact (Wn _ _ Hf)].
  - intros n. rewrite Wo, lookup_insert_is_Some. destruct (decide (name = n)) as [->|]; [rewrite E|]; naive_solver.
  - intros n. by rewrite Wa, Hp.
  - intros c n. by rewrite Ws, Hp.
Qed.

Lemma sortFlags_elem m flag : flag ∈ sortFlags m ↔ ∃ n, m !! n = Some flag.
Proof.
  unfold sortFlags. rewrite list_elem_of_omap. setoid_rewrite sort_perm. split.
  - intros (n & _ & E). by exists n.
  - intros [n E]. exists n. split; [|done]. rewrite list_elem_of_fmap. exists (n, flag).
    split; [done|]. by apply elem_of_map_to_list.
Qed.

Lemma missing_none f : missingFlagNames f = [] ↔
  ∀ n flag, formal f !! n = Some flag → missing_flag flag = false.
Proof.
  unfold missingFlagNames. split.
  - intros E%map_eq_nil n flag Hn. destruct (missing_flag flag) eqn:Em; [|done].
    assert (flag ∈ List.filter missing_flag (sortFlags (formal f))) as Hin.
    { rewrite list_elem_of_In, filter_In, <- list_elem_of_In, sortFlags_elem. split; [by exists n|done]. }
    rewrite E in Hin. by apply elem_of_nil in Hin.
  - intros H. destruct (List.filter missing_flag (sortFlags (formal f))) as [|flag l] eqn:E; [done|].
    assert (flag ∈ List.filter missing_flag (sortFlags (formal f))) as Hin by (rewrite E; by left).
    rewrite list_elem_of_In, filter_In, <- list_elem_of_In, sortFlags_elem in Hin.
    destruct Hin as [[n Hn] Hm]. by rewrite (H n flag Hn) in Hm.
Qed.

(* ------------------------------------------------------------------ *)
(** ** Executing a command *)

Lemma parse_bool_no_panic s : parse_bool s ≠ Panic.
Proof. unfold parse_bool. by destruct (existsb _ _); [|destruct (existsb _ _)]. Qed.

Lemma GetBool_no_panic f name : GetBool f name ≠ Panic.
Proof.
  unfold GetBool, getFlagType. destruct (Lookup f name) as [flag|]; [|done].
  destruct (negb _); [done|]. cbn. apply parse_bool_no_panic.
Qed.

(** The ways through [execute]. *)
Lemma execute_spec {W} (w : W) (c c0 : Command W) run a :
  InitDefaultHelpFlag c = Ret c0 → RunE c0 = Some run → DisableFlagParsing c0 = false →
  (∃ g, FlagSet_Parse (c_flags c0) a = (g, None) ∧ GetBool g (bs "help") = Ret false ∧
     ValidateArgs c0 (fs_args g) = None ∧
     (∀ n flag, formal g !! n = Some flag → missing_flag flag = false) ∧
     execute w c a = run w g (fs_args g)) ∨
  (∃ e, execute w c a = (w, Fail e)).
Proof.
  intros Hi Hr Hd. unfold execute, ParseFlags. rewrite Hi, Hd.
  destruct (FlagSet_Parse (c_flags c0) a) as [g [e|]]; [right; by eexists|].
  cbn [with_flags c_flags RunE DisableFlagParsing c_Args].
  pose proof (GetBool_no_panic g (bs "help")) as Hp.
  destruct (GetBool g (bs "help")) as [[]|e|] eqn:Eh; [right; by eexists| |right; by eexists|done].
  rewrite Hr, Hd. change (ValidateArgs (with_flags c0 g)) with (ValidateArgs c0).
  destruct (ValidateArgs c0 (fs_args g)) as [e|] eqn:Ev; [right; by eexists|].
  unfold validateRequiredFlags. cbn [with_flags c_flags].
  destruct (missingFlagNames g) as [|n ns] eqn:Em; [|right; by eexists].
  left. exists g. repeat split; try done. by apply missing_none.
Qed.
