(* ===== verification/QueryFacts.v ===== *)
(** * What a query of the InfluxDB client reports *)

From S2P Require Import Prelude GoStd GoStdFacts GoFloat GoTime ModelsTime Tags Point GoNet.
From S2P Require Import GoNetFacts Client Pflag CommandLineFacts.

Definition header (resp : response) (name : string) : bytes := default [] (rs_Header resp !! bs name).

Section Query.
Context `{Net} {V : Type} (json_Marshal : gmap bytes V → outcome bytes)
  (ParseMediaType : bytes → bytes) (json_Decode : outcome bytes → Response * option error).

(** An answer passes [checkResponse] when it says it is JSON, and comes
    from an InfluxDB or has no server error. *)
Lemma checkResponse_None resp : checkResponse ParseMediaType resp = None ↔
  (header resp "X-Influxdb-Version" ≠ [] ∨ (rs_StatusCode resp < 500)%Z) ∧
  ParseMediaType (header resp "Content-Type") = bs "application/json".
Proof.
  unfold checkResponse. fold (header resp "X-Influxdb-Version") (header resp "Content-Type").
  destruct (bytes_equal (header resp "X-Influxdb-Version") [] && (500 <=? rs_StatusCode resp)%Z) eqn:E.
  - apply andb_true_iff in E as [E1%bytes_equal_true E2%Z.leb_le].
    split; [by destruct (rs_Body resp) as [[|]| |]|]. intros [[|] _]; [done|lia].
  - assert (header resp "X-Influxdb-Version" ≠ [] ∨ (rs_StatusCode resp < 500)%Z) as Hv.
    { apply andb_false_iff in E as [E|E%Z.leb_gt]; [left|by right].
      intros Hn. rewrite Hn in E. by vm_compute in E. }
    destruct (bytes_equal (ParseMediaType _) _) eqn:Ec; cbn [negb].
    + apply bytes_equal_true in Ec. naive_solver.
    + split; [by destruct (read_or_empty _ _)|]. intros [_ Hc].
      apply bytes_equal_true in Hc. congruence.
Qed.

Definition ErrEOF : error := Errorf "EOF" [].

Lemma Query_trace c q req : createDefaultRequest json_Marshal c q = Ret req →
  trace (Query_ json_Marshal ParseMediaType json_Decode c q) = [req].
Proof.
  intros E. unfold Query_, mbind, io_bind. rewrite E. cbn [result trace lift send app].
  by destruct (http_Do req).
Qed.

Lemma Query_result c q req : createDefaultRequest json_Marshal c q = Ret req →
  result (Query_ json_Marshal ParseMediaType json_Decode c q) =
  (resp ← http_Do req;
   result (lift match checkResponse ParseMediaType resp with
   | Some e => Fail e
   | None =>
      let '(response, decErr) := json_Decode (rs_Body resp) in
      let decErr := match decErr with
                    | Some e => if bool_decide (e = ErrEOF) && negb (rs_StatusCode resp =? StatusOK)%Z
                                then None else Some e
                    | None => None
                    end in
      match decErr with
      | Some e => Fail (Wrapf "unable to decode json: received status code %d err: %s"
                          [format_int (rs_StatusCode resp)] e)
      | None =>
          if negb (rs_StatusCode resp =? StatusOK)%Z
             && match Response_Error response with None => true | Some _ => false end
          then Ret (response, Some (Errorf "received status code %d from server"
                                      [format_int (rs_StatusCode resp)]))
          else Ret (response, None)
      end
   end)).
Proof.
  intros E. unfold Query_, mbind, io_bind. rewrite E. cbn [result trace lift send app].
  by destruct (http_Do req).
Qed.
End Query.

(** A query sends its one request, and reports a response without an
    error exactly when the server is reached, its answer says it is JSON and
    is no server error from anything but an InfluxDB, the JSON decodes (an
    empty body will do when the status is not 200), and the status is 200 or
    the response itself carries an error; with any other status the caller
    gets an error of the client. *)
Theorem Query_outcome (net : Net) {V : Type} (json_Marshal : gmap bytes V → outcome bytes)
    (ParseMediaType : bytes → bytes) (json_Decode : outcome bytes → Response * option error)
    (c : client) (q : Query V) (req : request) (r : Response) :
  createDefaultRequest json_Marshal c q = Ret req →
  trace (Query_ json_Marshal ParseMediaType json_Decode c q) = [req] ∧
  (result (Query_ json_Marshal ParseMediaType json_Decode c q) = Ret (r, None) ↔
   ∃ resp, http_Do req = Ret resp ∧
     ParseMediaType (header resp "Content-Type") = bs "application/json" ∧
     (header resp "X-Influxdb-Version" ≠ [] ∨ (rs_StatusCode resp < 500)%Z) ∧
     (json_Decode (rs_Body resp) = (r, None) ∨
      json_Decode (rs_Body resp) = (r, Some ErrEOF) ∧ rs_StatusCode resp ≠ 200%Z) ∧
     (rs_StatusCode resp = 200%Z ∨ Response_Error r ≠ None)).
Proof.
  intros E. split; [by apply Query_trace|]. rewrite (Query_result _ _ _ _ _ req E).
  destruct (http_Do req) as [resp|e|]; cbn [mbind outcome_bind];
    [|split; [done|by intros (? & ? & _)]..]. cbn [result lift].
  destruct (checkResponse ParseMediaType resp) as [e|] eqn:Ec.
  { split; [done|]. intros (? & [= <-] & Hm & Hv & _).
    rewrite (proj2 (checkResponse_None ParseMediaType resp) (conj Hv Hm)) in Ec. done. }
  apply checkResponse_None in Ec as [Hv Hm].
  assert (∀ P : response → Prop, (∃ resp', Ret resp = Ret resp' ∧ P resp') ↔ P resp) as ->
    by (intros P; split; [by intros (? & [= <-] & ?)|by exists resp]).
  destruct (json_Decode (rs_Body resp)) as [r' d]. unfold StatusOK.
  destruct (Z.eqb_spec (rs_StatusCode resp) 200) as [Hs|Hs]; destruct d as [e|];
    try (case_bool_decide as He; [subst e|]); destruct (Response_Error r') eqn:Er; cbn [negb andb];
    (split; [intros [=]; subst|intros (_ & _ & [[=]|[[=] ?]] & ?); subst]); naive_solver.
Qed.

(** A server that answers [{}] with status 200, as JSON. *)
Definition json_net : Net :=
  {| url_Parse := λ s, Ret (MkURL (bs "http") (bs "h") (bs "/query") []); url_String := λ _, [];
     http_Do := λ _, Ret (MkResponse 200 {[bs "Content-Type" := bs "application/json"]} (Ret (bs "{}"))) |}.

Lemma Query_outcome_witness :
  let c := MkClient (MkURL (bs "http") (bs "h") [] []) [] [] [] false in
  result (@Query_ json_net bytes (λ _, Ret (bs "{}")) id (λ _, (MkResp [] [], None)) c
            (NewQuery (bs "SHOW DATABASES") [] [])) = Ret (MkResp [] [], None).
Proof.
  intros c.
  edestruct (Query_outcome json_net (V := bytes) (λ _, Ret (bs "{}")) id (λ _, (MkResp [] [], None)) c
    (NewQuery (bs "SHOW DATABASES") [] [])) as [_ H]; [reflexivity|].
  apply H. eexists. split; [reflexivity|]. split; [by vm_compute|].
  split; [right; reflexivity|]. split; left; reflexivity.
Defined.
