(* ===== verification/Handler.v ===== *)
(** * The handler ([sensu-influxdb-handler/main.go]) *)

From S2P Require Import Prelude GoStd GoFloat GoTime ModelsTime TimeWindow Sensu Tags Point.
From S2P Require Import EventJson GoNet Client Pflag Cobra.

(** The package variables the flags point to. *)
Record Config := MkConfig {
  addr : bytes; dbName : bytes; username : bytes; password : bytes; precision : bytes;
  insecureSkipVerify : bool
}.

(* ------------------------------------------------------------------ *)
(** ** [configureRootCommand] *)

(** [os.Getenv]. *)
Record Env := MkEnv { INFLUXDB_ADDR : bytes; INFLUXDB_USER : bytes; INFLUXDB_PASS : bytes }.

Definition root_flags (env : Env) : outcome FlagSet :=
  let f := NewFlagSet (bs "sensu-influxdb-handler") in
  f ← StringVarP f (bs "addr") (bs "a") (INFLUXDB_ADDR env);
  f ← StringVarP f (bs "username") (bs "u") (INFLUXDB_USER env);
  f ← StringVarP f (bs "password") (bs "p") (INFLUXDB_PASS env);
  f ← StringVarP f (bs "db-name") (bs "d") [];
  f ← StringVarP f (bs "precision") [] (bs "s");
  f ← BoolVarP f (bs "insecure-skip-verify") (bs "i") false;
  Ret (MarkFlagRequired f (bs "db-name")).1.

(** The variables, read from the flags that point to them. *)
Definition string_var (f : FlagSet) (name : string) : bytes :=
  match Lookup f (bs name) with
  | Some flag => match f_Value flag with stringValue s => s | boolValue _ => [] end
  | None => []
  end.
Definition bool_var (f : FlagSet) (name : string) : bool :=
  match Lookup f (bs name) with
  | Some flag => match f_Value flag with boolValue b => b | stringValue _ => false end
  | None => false
  end.
Definition config_of (f : FlagSet) : Config :=
  MkConfig (string_var f "addr") (string_var f "db-name") (string_var f "username")
    (string_var f "password") (string_var f "precision") (bool_var f "insecure-skip-verify").

(* ------------------------------------------------------------------ *)
(** ** [sendMetrics] *)

(** The measurement and the field key of a metric point. *)
Definition split_name (n : bytes) : bytes * bytes :=
  match split_byte "." n with
  | [] => ([], [])
  | name :: [] => (name, bs "value")
  | name :: rest => (name, join (bs ".") rest)
  end.

(** The timestamp: at most ten characters of its decimal text, as seconds. *)
Definition point_time (ts : Z) : outcome Time :=
  let stringTimestamp := format_int ts in
  let stringTimestamp := if (10 <? length stringTimestamp)%nat then take 10 stringTimestamp
                         else stringTimestamp in
  t ← parse_int stringTimestamp;
  Ret (Unix t 0).

(** [tags[tag.Name] = tag.Value] in turn; a nil tag is a panic. *)
Fixpoint add_tags (tags : gmap bytes bytes) (l : list (option MetricTag))
  : outcome (gmap bytes bytes) :=
  match l with
  | [] => Ret tags
  | None :: _ => Panic
  | Some tag :: l' => add_tags (<[mt_Name tag := mt_Value tag]> tags) l'
  end.

(** One turn of the loop over the points. *)
Definition make_point (entity : option Entity) (point : option MetricPoint) : outcome Client.Point :=
  match point with
  | None => Panic
  | Some point =>
      let '(name, tagKey) := split_name (mp_Name point) in
      let fields := [(tagKey, VFloat (mp_Value point))] in
      timestamp ← point_time (mp_Timestamp point);
      match entity with
      | None => Panic
      | Some entity =>
          tags ← add_tags {[bs "sensu_entity_name" := om_Name (e_Meta entity)]} (mp_Tags point);
          Client.NewPoint name tags fields [timestamp]
      end
  end.

Fixpoint add_points (bp : batchpoints) (entity : option Entity) (points : list (option MetricPoint))
  : outcome batchpoints :=
  match points with
  | [] => Ret bp
  | point :: points' =>
      pt ← make_point entity point;
      add_points (AddPoint bp (Some pt)) entity points'
  end.

(** The batch of an event. *)
Definition make_batch (cfg : Config) (event : Event) : outcome batchpoints :=
  bp ← NewBatchPoints (MkBatchConfig (precision cfg) (dbName cfg) [] []);
  match ev_Metrics event with
  | None => Panic
  | Some metrics => add_points bp (ev_Entity event) (Points metrics)
  end.

Section Run.
Context `{Net}.

Definition sendMetrics (cfg : Config) (event : Event) : io unit :=
  c ← lift (NewHTTPClient (MkHTTPConfig (addr cfg) (username cfg) (password cfg) []
                             (insecureSkipVerify cfg)));
  bp ← lift (make_batch cfg event);
  _ ← Write c bp;
  Close c.

(** The clock, and the parsers under [run]: of cron schedules
    ([robfig/cron]) and of expressions ([robertkrimen/otto]). *)
Context (ParseStandard_ok : bytes → bool)
  (ParseExpressions : list bytes → option error) (now : LocalTime).

Definition run (stdin : outcome bytes) (cfg : Config) (args : list bytes) : io unit :=
  if negb (length args =? 0)%nat then lift (Fail (Errorf "invalid argument(s) received" []))
  else
    let cfg := match addr cfg with
               | [] => MkConfig (bs "http://localhost:8086") (dbName cfg) (username cfg)
                         (password cfg) (precision cfg) (insecureSkipVerify cfg)
               | _ => cfg
               end in
    eventJSON ← lift (wrapped "failed to read stdin: %s" stdin);
    event ← lift (wrapped "failed to unmarshal stdin data: %s" (Unmarshal_event eventJSON));
    _ ← lift (wrapped "failed to validate event: %s"
                (Validate_event ParseStandard_ok ParseExpressions now event));
    if negb (HasMetrics event) then lift (Fail (Errorf "event does not contain metrics" []))
    else sendMetrics cfg event.

(** The root command; its world is the requests sent so far. *)
Definition root_command (env : Env) (stdin : outcome bytes) : outcome (Command (list request)) :=
  f ← root_flags env;
  Ret (MkCommand (bs "sensu-influxdb-handler") None false
         (Some (λ sent flags args, let r := run stdin (config_of flags) args in
                                   (sent ++ trace r, result r)))
         f).

(** [main]: the requests sent, and the exit status. *)
Definition main (env : Env) (stdin : outcome bytes) (args : list bytes) : list request * Z :=
  match root_command env stdin with
  | Ret c => match Execute [] c args with
             | (sent, Ret _) => (sent, 0%Z)
             | (sent, Fail _) => (sent, 1%Z)
             | (sent, Panic) => (sent, 2%Z)
             end
  | Fail _ => ([], 1%Z)
  | Panic => ([], 2%Z)
  end.
End Run.
