(* ===== verification/HandlerFacts.v ===== *)
(** * The handler, step by step: lemmas on [Client] and [Handler] *)

From S2P Require Import Prelude GoStd GoStdFacts GoFloat GoFloatFacts GoTime ModelsTime.
From S2P Require Import TimeWindow Sensu Escape EscapeFacts Scan ScanFacts Tags TagsFacts.
From S2P Require Import EventJson.
From S2P Require Import Point Parse FieldsFacts LineFacts GoNet GoNetFacts Client Delivery.
From S2P Require Import Pflag Cobra Handler.

(* ------------------------------------------------------------------ *)
(** ** Timestamps *)

(** The seconds of a metric timestamp: its ten first characters. *)
Definition seconds_of (ts : Z) : Z :=
  (if ts <? 0 then - (- ts / 10 ^ Z.of_nat (length (digits (- ts)) - 9))
   else ts / 10 ^ Z.of_nat (length (digits ts) - 10))%Z.

Lemma div_pow10 n k : (0 <= n)%Z → (1 <= k <= length (digits n))%nat →
  (0 <= n / 10 ^ Z.of_nat (length (digits n) - k) < 10 ^ Z.of_nat k)%Z ∧
  (n / 10 ^ Z.of_nat (length (digits n) - k) <= n)%Z.
Proof.
  intros Hn Hk. destruct (length_digits_bounds n Hn) as (Hb & _ & _).
  set (l := length (digits n)) in *. clearbody l.
  assert (0 < 10 ^ Z.of_nat (l - k))%Z as Hp by (apply Z.pow_pos_nonneg; lia).
  split; [split|].
  - apply Z.div_pos; lia.
  - apply Z.div_lt_upper_bound; [lia|]. rewrite <- Z.pow_add_r by lia.
    replace (Z.of_nat (l - k) + Z.of_nat k)%Z with (Z.of_nat l) by lia. done.
  - apply Z.div_le_upper_bound; [lia|]. nia.
Qed.

Lemma point_time_spec ts : in_i64 ts → point_time ts = Ret (Unix (seconds_of ts) 0).
Proof.
  intros Hts. unfold point_time, seconds_of, format_int. unfold in_i64, two63 in Hts.
  destruct (Z.ltb_spec ts 0) as [Hneg|Hpos].
  - cbn [length]. pose proof (length_digits_bounds (- ts) ltac:(lia)) as (_ & _ & Hl).
    destruct (Nat.ltb_spec 10 (S (length (digits (- ts))))).
    + change (take 10 ("-"%char :: digits (- ts))) with ("-"%char :: take 9 (digits (- ts))).
      rewrite take_digits by lia.
      destruct (div_pow10 (- ts) 9 ltac:(lia) ltac:(lia)) as [[H1 H2] H3].
      set (q := (- ts / 10 ^ Z.of_nat (length (digits (- ts)) - 9))%Z) in *.
      assert ("-"%char :: digits q = format_int (- q)) as ->.
      { assert (1 <= q)%Z.
        { subst q. apply Z.div_le_lower_bound; [apply Z.pow_pos_nonneg; lia|].
          destruct (length_digits_bounds (- ts) ltac:(lia)) as (_ & Hlow & _).
          specialize (Hlow ltac:(lia)). rewrite Z.mul_1_r. etransitivity; [|exact Hlow].
          apply Z.pow_le_mono_r; lia. }
        unfold format_int. destruct (Z.ltb_spec (- q) 0); [|lia]. by rewrite Z.opp_involutive. }
      rewrite parse_int_format_int by (unfold in_i64, two63; lia). done.
    + replace (length (digits (- ts)) - 9) with 0 by lia. rewrite Z.div_1_r, Z.opp_involutive.
      assert ("-"%char :: digits (- ts) = format_int ts) as ->.
      { unfold format_int. by rewrite (proj2 (Z.ltb_lt _ _)). }
      rewrite parse_int_format_int by (unfold in_i64, two63; lia). done.
  - pose proof (length_digits_bounds ts Hpos) as (_ & _ & Hl).
    destruct (Nat.ltb_spec 10 (length (digits ts))).
    + rewrite take_digits by lia. destruct (div_pow10 ts 10 ltac:(lia) ltac:(lia)) as [[H1 H2] H3].
      set (q := (ts / 10 ^ Z.of_nat (length (digits ts) - 10))%Z) in *.
      assert (digits q = format_int q) as ->.
      { unfold format_int. by rewrite (proj2 (Z.ltb_ge _ _)). }
      rewrite parse_int_format_int by (unfold in_i64, two63; lia). done.
    + replace (length (digits ts) - 10) with 0 by lia. rewrite Z.div_1_r.
      assert (digits ts = format_int ts) as ->.
      { unfold format_int. by rewrite (proj2 (Z.ltb_ge _ _)). }
      rewrite parse_int_format_int by (unfold in_i64, two63; lia). done.
Qed.

(** Timestamps in seconds, milliseconds, microseconds and nanoseconds, of
    the usual number of digits, keep their whole seconds. *)
Lemma seconds_of_digits ts k : (10 ≤ k) → (10 ^ (Z.of_nat k - 1) <= ts < 10 ^ Z.of_nat k)%Z →
  seconds_of ts = (ts / 10 ^ Z.of_nat (k - 10))%Z.
Proof.
  intros Hk Hts. unfold seconds_of.
  assert (0 < 10 ^ (Z.of_nat k - 1))%Z by (apply Z.pow_pos_nonneg; lia).
  rewrite (proj2 (Z.ltb_ge _ _)) by lia. rewrite (length_digits ts k); [done|lia|done].
Qed.

(** The instant of a whole number of seconds. *)
Lemma Unix_seconds_nano s : (MinNanoTime <= s * 1000000000 <= MaxNanoTime)%Z →
  Unix s 0 = Unix 0 (s * 1000000000).
Proof.
  intros Hs. rewrite Unix_nano by (by apply nano_in_i64).
  rewrite Z.div_mul, Z.mod_mul by lia.
  apply Unix_seconds; unfold in_i64, MinNanoTime, MaxNanoTime, two63, unixToInternal in *; lia.
Qed.

(* ------------------------------------------------------------------ *)
(** ** The points of an event *)

(** The tags of a metric point: the entity's name, then its own tags. *)
Definition metric_tags (entity : Entity) (tags : list MetricTag) : gmap bytes bytes :=
  foldl (λ m tag, <[mt_Name tag := mt_Value tag]> m)
    {[bs "sensu_entity_name" := om_Name (e_Meta entity)]} tags.

Lemma add_tags_Some m l : add_tags m (map Some l) =
  Ret (foldl (λ m tag, <[mt_Name tag := mt_Value tag]> m) m l).
Proof. revert m. induction l as [|t l IH]; intros m; [done|]. cbn. by rewrite IH. Qed.

(** What the handler asks the client to write for a metric point. *)
Definition input_of (entity : Entity) (mp : MetricPoint) (tags : list MetricTag) : input :=
  let '(name, tagKey) := split_name (mp_Name mp) in
  MkInput name (metric_tags entity tags) [(tagKey, VFloat (mp_Value mp))]
    (seconds_of (mp_Timestamp mp) * 1000000000).

(** A metric point without nil tags that line protocol carries. *)
Definition metric_ok (entity : Entity) (mp : MetricPoint) : Prop :=
  in_i64 (mp_Timestamp mp) ∧
  ∃ tags, mp_Tags mp = map Some tags ∧ sendable false (input_of entity mp tags).

Definition metric_input (entity : Entity) (mp : MetricPoint) : input :=
  input_of entity mp (omap id (mp_Tags mp)).

Lemma omap_Some {A} (l : list A) : omap id (map Some l) = l.
Proof. induction l as [|x l IH]; [done|]. cbn. by rewrite IH. Qed.

Lemma sendable_mono sup i : sendable false i → sendable sup i.
Proof.
  intros [H1 H2 H3 H4 H5 H6 H7 H8]. split; try done.
  eapply Forall_impl; [exact H5|]. intros [k v] [Hk Hv]. split; [done|].
  destruct v as [f|kd z|[] z|s|b|b| |s]; try done. by destruct Hv.
Qed.

Lemma metric_ok_input sup entity mp : metric_ok entity mp → sendable sup (metric_input entity mp).
Proof.
  intros (_ & tags & E & H). unfold metric_input. rewrite E, omap_Some. by apply sendable_mono.
Qed.

(** What the handler passes to [client.NewPoint]. *)
Lemma make_point_input entity mp tags : let i := metric_input entity mp in
  in_i64 (mp_Timestamp mp) → mp_Tags mp = map Some tags →
  (MinNanoTime <= in_nano i <= MaxNanoTime)%Z →
  make_point (Some entity) (Some mp) =
  Client.NewPoint (in_name i) (in_tags i) (in_fields i) [Unix 0 (in_nano i)].
Proof.
  intros i Hts E Ht. subst i. unfold metric_input in *. rewrite E, omap_Some in *.
  unfold make_point, input_of in *. destruct (split_name (mp_Name mp)) as [name tagKey].
  cbn [in_nano in_name in_tags in_fields] in *.
  rewrite point_time_spec by done. cbn [mbind outcome_bind].
  rewrite E, add_tags_Some. cbn [mbind outcome_bind].
  by rewrite Unix_seconds_nano.
Qed.

Lemma make_point_built entity mp : metric_ok entity mp →
  make_point (Some entity) (Some mp) = Ret (built (metric_input entity mp)).
Proof.
  intros Hok. pose proof (metric_ok_input false _ _ Hok) as Hs. destruct Hok as (Hts & tags & E & _).
  rewrite (make_point_input _ _ tags) by (done || by apply (sd_time false)).
  by apply (NewPoint_built false).
Qed.

Lemma add_points_built entity mps : ∀ bp, Forall (metric_ok entity) mps →
  add_points bp (Some entity) (map Some mps) =
  Ret (AddPoints bp (map (λ mp, Some (built (metric_input entity mp))) mps)).
Proof.
  induction mps as [|mp mps IH]; intros bp H.
  - destruct bp. cbn. unfold AddPoints. cbn. by rewrite app_nil_r.
  - apply Forall_cons in H as [Hmp H]. cbn [map add_points].
    rewrite make_point_built by done. cbn [mbind outcome_bind]. rewrite IH by done.
    unfold AddPoints, AddPoint. cbn. by rewrite <- app_assoc.
Qed.

(** A precision [NewBatchPoints] accepts, with the one the empty one means. *)
Definition precision_or_default (p : bytes) : bytes := match p with [] => bs "ns" | a :: l => a :: l end.
Definition precision_ok (p : bytes) : bool :=
  returns (ParseDuration ("1"%char :: precision_or_default p)).

(** An event the handler can deliver. *)
Record deliverable (cfg : Config) (event : Event) (entity : Entity) (mps : list MetricPoint) : Prop := {
  dl_precision : precision_ok (precision cfg) = true;
  dl_entity : ev_Entity event = Some entity;
  dl_metrics : ∃ handlers, ev_Metrics event = Some (MkMetrics handlers (map Some mps));
  dl_points : Forall (metric_ok entity) mps
}.

Definition batch_of (cfg : Config) (entity : Entity) (mps : list MetricPoint) : batchpoints :=
  MkBatch (map (λ mp, Some (built (metric_input entity mp))) mps) (dbName cfg)
    (precision_or_default (precision cfg)) [] [].

Lemma NewBatchPoints_ok p db rp wc : precision_ok p = true →
  NewBatchPoints (MkBatchConfig p db rp wc) = Ret (MkBatch [] db (precision_or_default p) rp wc).
Proof.
  intros Hp. unfold NewBatchPoints, precision_ok in *. cbn [bc_Precision].
  change (match p with [] => bs "ns" | a :: l => a :: l end) with (precision_or_default p). by destruct (ParseDuration _).
Qed.

Lemma make_batch_built cfg event entity mps : deliverable cfg event entity mps →
  make_batch cfg event = Ret (batch_of cfg entity mps).
Proof.
  intros [Hp He [h Hm] Hok]. unfold make_batch. rewrite NewBatchPoints_ok by done.
  cbn [mbind outcome_bind]. rewrite Hm, He. cbn [Points].
  rewrite add_points_built by done. done.
Qed.

Lemma make_batch_body cfg entity mps sup defaultTime : Forall (metric_ok entity) mps →
  ParsePointsWithPrecision sup (write_body (batch_of cfg entity mps)) defaultTime
    (bp_precision (batch_of cfg entity mps))
  = Ret (map (λ mp, parsed (bp_precision (batch_of cfg entity mps)) (metric_input entity mp)) mps, []).
Proof.
  intros H. unfold write_body, batch_of. cbn [bp_precision bp_points].
  set (p := precision_or_default (precision cfg)).
  rewrite <- (map_map (metric_input entity) (parsed p)).
  rewrite <- (map_map (metric_input entity) (λ i, Some (built i))).
  apply parse_written. apply Forall_map. eapply Forall_impl; [exact H|]. intros mp. apply metric_ok_input.
Qed.

(* ------------------------------------------------------------------ *)
(** ** The request of a batch *)

Lemma sorted_fields_one k v : sorted_fields [(k, v)] = [(k, v)].
Proof.
  unfold sorted_fields. cbn. unfold bytes_equal. by rewrite bytes_compare_refl.
Qed.

(** The request [Write] sends, when the address can be printed and parsed. *)
Lemma write_request_ok `{Net} c bp u :
  u = set_path (cl_url c) (path_Join [u_Path (cl_url c); bs "write"]) →
  url_Parse (url_String u) = Ret u →
  ∃ req, write_request c bp = Ret req ∧ rq_Body req = write_body bp ∧
    rq_Method req = bs "POST" ∧
    u_Path (rq_URL req) = path_Join [u_Path (cl_url c); bs "write"] ∧
    rq_BasicAuth req = match cl_username c with [] => None | n => Some (n, cl_password c) end ∧
    let q := ParseQuery (u_RawQuery (rq_URL req)) in
    Values_Get q (bs "db") = bp_database bp ∧
    Values_Get q (bs "rp") = bp_retentionPolicy bp ∧
    Values_Get q (bs "precision") = bp_precision bp ∧
    Values_Get q (bs "consistency") = bp_writeConsistency bp.
Proof.
  intros -> Hp. unfold write_request, NewRequest. rewrite Hp. cbn [mbind outcome_bind].
  eexists. split; [reflexivity|]. unfold default_headers.
  destruct (cl_username c) as [|n0 n]; cbn [rq_Body set_query rq_Method rq_URL u_Path set_header
    SetBasicAuth rq_BasicAuth u_RawQuery set_path].
  all: do 4 (split; [done|]).
  all: rewrite ParseQuery_Encode by auto 8 using Values_Set_nonempty, ParseQuery_nonempty.
  all: unfold Values_Get, Values_Set.
  all: repeat split; rewrite ?lookup_insert_ne by done; by rewrite lookup_insert_eq.
Qed.

(** The effect of [Write]. *)
Lemma Write_spec `{Net} c bp req : write_request c bp = Ret req →
  trace (Write c bp) = [req] ∧
  result (Write c bp) =
    (resp ← http_Do req; body ← rs_Body resp;
     if bool_decide (rs_StatusCode resp = 204%Z ∨ rs_StatusCode resp = 200%Z) then Ret ()
     else Fail (Errorf "%s" [body])).
Proof.
  intros E. unfold Write. rewrite E. unfold mbind at 1 2, io_bind at 1 2. cbn [result trace lift send].
  unfold mbind, io_bind, outcome_bind. cbn [result trace lift send app].
  destruct (http_Do req) as [resp|e|]; cbn [result trace]; [|done|done].
  destruct (rs_Body resp) as [body|e|]; cbn [result trace app]; [|done|done].
  split; [done|]. unfold StatusNoContent, StatusOK.
  destruct (Z.eqb_spec (rs_StatusCode resp) 204) as [->|H1]; [done|].
  destruct (Z.eqb_spec (rs_StatusCode resp) 200) as [->|H2]; [done|].
  by rewrite bool_decide_eq_false_2 by (intros [?|?]; done).
Qed.

Lemma Write_no_request `{Net} c bp : (∀ req, write_request c bp ≠ Ret req) →
  trace (Write c bp) = [] ∧ result (Write c bp) ≠ Ret ().
Proof.
  intros Hn. unfold Write. unfold mbind, io_bind. cbn [result trace lift].
  destruct (write_request c bp) as [req|e|]; [by destruct (Hn req)|done|done].
Qed.

(* ------------------------------------------------------------------ *)
(** ** [run], unfolded *)

Definition with_address (cfg : Config) : Config :=
  match addr cfg with
  | [] => MkConfig (bs "http://localhost:8086") (dbName cfg) (username cfg) (password cfg)
            (precision cfg) (insecureSkipVerify cfg)
  | _ => cfg
  end.

Section Run.
Context `{Net} (ParseStandard_ok : bytes → bool)
  (ParseExpressions : list bytes → option error) (now : LocalTime).

Lemma sendMetrics_spec cfg event :
  (∃ c bp req, NewHTTPClient (MkHTTPConfig (addr cfg) (username cfg) (password cfg) []
                                (insecureSkipVerify cfg)) = Ret c ∧
     make_batch cfg event = Ret bp ∧ write_request c bp = Ret req ∧
     trace (sendMetrics cfg event) = [req] ∧
     result (sendMetrics cfg event) = result (Write c bp)) ∨
  (trace (sendMetrics cfg event) = [] ∧ result (sendMetrics cfg event) ≠ Ret ()).
Proof.
  unfold sendMetrics. unfold mbind, io_bind. cbn [result trace lift].
  destruct (NewHTTPClient _) as [c|e|] eqn:Ec; [|by right|by right].
  cbn [result trace app].
  destruct (make_batch cfg event) as [bp|e|] eqn:Eb; [|by right|by right].
  cbn [result trace app].
  destruct (write_request c bp) as [req|e|] eqn:Er.
  - left. exists c, bp, req. destruct (Write_spec c bp req Er) as [Ht Hr].
    repeat split; try done; destruct (result (Write c bp)) as [[]|e|]; cbn; by rewrite ?app_nil_r, ?Ht.
  - right. destruct (Write_no_request c bp) as [Ht Hr]; [by rewrite Er|].
    destruct (result (Write c bp)) as [[]|e'|]; [done| |]; cbn; by rewrite Ht.
  - right. destruct (Write_no_request c bp) as [Ht Hr]; [by rewrite Er|].
    destruct (result (Write c bp)) as [[]|e'|]; [done| |]; cbn; by rewrite Ht.
Qed.

(** The way through [sendMetrics] when nothing fails. *)
Lemma sendMetrics_ok cfg event c bp req resp body :
  NewHTTPClient (MkHTTPConfig (addr cfg) (username cfg) (password cfg) []
                   (insecureSkipVerify cfg)) = Ret c →
  make_batch cfg event = Ret bp → write_request c bp = Ret req →
  http_Do req = Ret resp → rs_Body resp = Ret body →
  rs_StatusCode resp = 204%Z ∨ rs_StatusCode resp = 200%Z →
  sendMetrics cfg event = IO [req] (Ret ()).
Proof.
  intros Ec Eb Er Ed Ey Es. unfold sendMetrics, Write. rewrite Ec, Eb.
  unfold mbind, io_bind. cbn [result trace lift send app]. rewrite Er. cbn [result trace app].
  rewrite Ed. cbn [result trace app]. rewrite Ey. cbn [result trace app lift]. by destruct Es as [-> | ->].
Qed.

(** The way through [run] up to [sendMetrics]. *)
Lemma run_ok text event cfg : Unmarshal_event text = Ret event →
  Validate_event ParseStandard_ok ParseExpressions now event = Ret () → HasMetrics event = true →
  run ParseStandard_ok ParseExpressions now (Ret text) cfg [] =
  sendMetrics (with_address cfg) event.
Proof.
  intros Hj Hv Hm. unfold run. cbn [length Nat.eqb negb wrapped].
  unfold mbind, io_bind. cbn [result trace lift wrapped app]. rewrite Hj.
  cbn [result trace lift wrapped app]. rewrite Hv. cbn [result trace lift wrapped app].
  rewrite Hm. cbn [negb].
  unfold with_address. destruct (addr cfg); by destruct (sendMetrics _ _) as [? [[]|?|]].
Qed.

Lemma run_spec stdin cfg args :
  (args = [] ∧ ∃ text event, stdin = Ret text ∧ Unmarshal_event text = Ret event ∧
     Validate_event ParseStandard_ok ParseExpressions now event = Ret () ∧ HasMetrics event = true ∧
     run ParseStandard_ok ParseExpressions now stdin cfg args =
     sendMetrics (with_address cfg) event) ∨
  (trace (run ParseStandard_ok ParseExpressions now stdin cfg args) = [] ∧
   result (run ParseStandard_ok ParseExpressions now stdin cfg args) ≠ Ret ()).
Proof.
  unfold run. destruct args as [|a args]; [|by right]. cbn [length Nat.eqb negb].
  unfold mbind, io_bind. cbn [result trace lift].
  destruct stdin as [text|e|]; cbn [wrapped]; [|by right|by right].
  cbn [result trace app]. destruct (Unmarshal_event text) as [event|e|] eqn:Ej; cbn [wrapped];
    [|by right|by right].
  cbn [result trace app].
  destruct (Validate_event _ _ _ event) as [[]|e|] eqn:Ev; cbn [wrapped]; [|by right|by right].
  cbn [result trace app].
  destruct (HasMetrics event) eqn:Em; cbn [negb]; [|by right].
  left. split; [done|]. exists text, event. repeat split; try done.
  unfold with_address. destruct (addr cfg); by destruct (sendMetrics _ _).
Qed.
End Run.
