(* ===== verification/HandlerCommand.v ===== *)
(** * The handler's command line: its flags, and what [main] does with them *)

From S2P Require Import Prelude GoStd GoStdFacts GoFloat GoTime ModelsTime TimeWindow Sensu.
From S2P Require Import EventJson.
From S2P Require Import Tags Point GoNet GoNetFacts Client Pflag CommandLineFacts Cobra.
From S2P Require Import CommandLineFacts Handler HandlerFacts.

(* ------------------------------------------------------------------ *)
(** ** The flags of the root command *)

(** The flags with the help flag cobra adds. *)
Definition all_flags (env : Env) : outcome FlagSet :=
  f ← root_flags env; BoolVarP f (bs "help") (bs "h") false.
Definition command_flags (env : Env) : FlagSet :=
  match all_flags env with Ret f => f | _ => NewFlagSet [] end.

#[local] Arguments command_flags : simpl never.

Lemma root_flags_ok env : ∃ f, root_flags env = Ret f ∧ Lookup f (bs "help") = None ∧
  BoolVarP f (bs "help") (bs "h") false = Ret (command_flags env).
Proof.
  assert (returns (all_flags env) = true) as H by by vm_compute.
  unfold command_flags, all_flags in *. destruct (root_flags env) as [f|e|]; try done.
  exists f. cbn [mbind outcome_bind] in *. split; [done|].
  destruct (BoolVarP f (bs "help") (bs "h") false) as [g|e|] eqn:E; try done. split; [|done].
  destruct (Lookup f (bs "help")) as [fl|] eqn:E'; [|done]. unfold Lookup in E'.
  unfold BoolVarP, AddFlag in E. cbn [f_Name VarPF] in E. by rewrite E' in E.
Qed.

Lemma add_wf f value name short f' : fs_wf f → AddFlag f (VarPF value name short) = Ret f' → fs_wf f'.
Proof.
  intros W E. destruct (AddFlag_spec f (VarPF value name short) W) as [[E' _]|(_ & g & E' & W' & _)];
    [done|congruence|congruence].
Qed.

Lemma add_bool_wf f name short b f' : fs_wf f → BoolVarP f name short b = Ret f' → fs_wf f'.
Proof.
  intros W E. unfold BoolVarP in E. match type of E with AddFlag _ ?fl = _ =>
    destruct (AddFlag_spec f fl W) as [[E' _]|(_ & g & E' & W' & _)] end; [done|congruence|congruence].
Qed.

Lemma command_flags_wf env : fs_wf (command_flags env).
Proof.
  destruct (root_flags_ok env) as (f & E & _ & Eb). eapply add_bool_wf; [|exact Eb].
  unfold root_flags in E. unfold mbind, outcome_bind in E.
  repeat match type of E with
  | match ?m with _ => _ end = _ =>
      let Em := fresh "Em" in destruct m eqn:Em; try done
  end.
  injection E as <-. apply MarkFlagRequired_wf.
  repeat match goal with
  | H : StringVarP _ _ _ _ = Ret ?g |- fs_wf ?g => eapply add_wf; [|exact H]
  | H : BoolVarP _ _ _ _ = Ret ?g |- fs_wf ?g => eapply add_bool_wf; [|exact H]
  end.
  apply NewFlagSet_wf.
Qed.

(** The flags, by name: shorthand, initial value, value without argument,
    and whether the flag is required. *)
Definition flag_table (env : Env) : list (bytes * (bytes * flag_value * bytes * bool)) :=
  [(bs "addr", (bs "a", stringValue (INFLUXDB_ADDR env), [], false));
   (bs "username", (bs "u", stringValue (INFLUXDB_USER env), [], false));
   (bs "password", (bs "p", stringValue (INFLUXDB_PASS env), [], false));
   (bs "db-name", (bs "d", stringValue [], [], true));
   (bs "precision", ([], stringValue (bs "s"), [], false));
   (bs "insecure-skip-verify", (bs "i", boolValue false, bs "true", false));
   (bs "help", (bs "h", boolValue false, bs "true", false))].

Definition required_flag (flag : Flag) : bool :=
  match f_Annotations flag !! BashCompOneRequiredFlag with
  | Some (a :: _) => bytes_equal a (bs "true")
  | _ => false
  end.
Lemma missing_required flag : missing_flag flag = required_flag flag && negb (Changed flag).
Proof. unfold missing_flag, required_flag. by destruct (f_Annotations flag !! _) as [[|a l]|]. Qed.

Definition row_of (flag : Flag) : bytes * (bytes * flag_value * bytes * bool) :=
  (f_Name flag, (Shorthand flag, f_Value flag, NoOptDefVal flag, required_flag flag)).

Lemma flag_of_row env row : row ∈ flag_table env →
  ∃ flag, formal (command_flags env) !! row.1 = Some flag ∧ row_of flag = row ∧ Changed flag = false.
Proof.
  intros Hrow.
  assert ((λ flag, (row_of flag, Changed flag)) <$> formal (command_flags env) !! row.1
          = Some (row, false)) as (flag & E & Ef)%fmap_Some.
  { revert Hrow. unfold flag_table. rewrite !elem_of_cons, elem_of_nil.
    intros [->|[->|[->|[->|[->|[->|[->|[]]]]]]]]; by vm_compute. }
  exists flag. injection Ef as Er Ec. by split; [exact E|split].
Qed.

Lemma row_of_flag env name flag : formal (command_flags env) !! name = Some flag →
  row_of flag ∈ flag_table env ∧ f_Name flag = name ∧ Changed flag = false.
Proof.
  intros E. assert (name ∈ orderedFormal (command_flags env)) as Hin
    by (apply (wf_ordered _ (command_flags_wf env)); by eexists).
  assert (orderedFormal (command_flags env) = (flag_table env).*1) as Ho by by vm_compute.
  rewrite Ho, list_elem_of_fmap in Hin. destruct Hin as (row & -> & Hin).
  destruct (flag_of_row env row Hin) as (flag' & E' & Er & Hc). rewrite E in E'. injection E' as ->.
  split; [by rewrite Er|]. split; [|exact Hc]. by rewrite <- Er.
Qed.

#[local] Opaque command_flags.

(* ------------------------------------------------------------------ *)
(** ** What a command line gives the variables *)

(** The last text given for a flag, or its default. *)
Definition given_text (name : string) (default : bytes) (given : list (bytes * bytes)) : bytes :=
  match value_after (bs name) (stringValue default) given with
  | stringValue s => s
  | boolValue _ => default
  end.
Definition given_bool (name : string) (given : list (bytes * bytes)) : bool :=
  match value_after (bs name) (boolValue false) given with
  | boolValue b => b
  | stringValue _ => false
  end.

(** The variables after a command line: the flags given, else the
    environment, else the defaults of the program. *)
Definition config_given (env : Env) (given : list (bytes * bytes)) : Config :=
  MkConfig (given_text "addr" (INFLUXDB_ADDR env) given) (given_text "db-name" [] given)
    (given_text "username" (INFLUXDB_USER env) given)
    (given_text "password" (INFLUXDB_PASS env) given)
    (given_text "precision" (bs "s") given) (given_bool "insecure-skip-verify" given).

Lemma value_after_type name given : ∀ v, value_Type (value_after name v given) = value_Type v.
Proof.
  unfold value_after. induction given as [|[n t] given IH]; intros v; cbn; [done|].
  rewrite IH. destruct (bytes_equal n name); [apply value_Set_type|done].
Qed.

Section Given.
Context (env : Env) (items : list item) (rest : option (list bytes)).
Context (Hok : Forall (item_ok (command_flags env)) items).
Context (given : list (bytes * bytes)) (given_eq : given = assignments (command_flags env) items).
Context (g : FlagSet)
  (g_eq : g = ending (apply_items (set_args (command_flags env) []) items) rest).

Lemma formal_g : formal g = formal (apply_items (set_args (command_flags env) []) items).
Proof. rewrite g_eq. by destruct rest. Qed.

Lemma flag_after row : row ∈ flag_table env →
  ∃ flag, formal g !! row.1 = Some flag ∧ f_Name flag = row.1 ∧
    f_Value flag = value_after row.1 row.2.1.1.2 given ∧
    Changed flag = is_given row.1 given ∧ required_flag flag = row.2.2.
Proof.
  intros Hrow. destruct (flag_of_row env row Hrow) as (flag & E & Er & Ec).
  exists (flag_given row.1 flag given). split.
  - rewrite formal_g, given_eq. pose proof (set_args_decls (command_flags env) []) as Hd.
    rewrite (apply_items_flag items (set_args (command_flags env) []) row.1 flag);
      [|eapply Forall_impl; [exact Hok|intros j; by apply item_ok_decls]|exact E].
    reflexivity.
  - unfold flag_given. cbn [f_Name f_Value Changed]. clear -Ec Er. subst row. rewrite Ec. cbn [row_of fst snd orb]. repeat split.
Qed.

Lemma text_given k name short d noopt req :
  flag_table env !! k = Some (bs name, (short, stringValue d, noopt, req)) →
  string_var g name = given_text name d given.
Proof.
  intros Hk%list_elem_of_lookup_2. destruct (flag_after _ Hk) as (flag & E & _ & Ev & _).
  cbn [fst snd] in E, Ev. unfold string_var, given_text, Lookup. rewrite E, Ev.
  pose proof (value_after_type (bs name) given (stringValue d)).
  by destruct (value_after (bs name) (stringValue d) given).
Qed.

Lemma bool_given k name short noopt req :
  flag_table env !! k = Some (bs name, (short, boolValue false, noopt, req)) →
  bool_var g name = given_bool name given.
Proof.
  intros Hk%list_elem_of_lookup_2. destruct (flag_after _ Hk) as (flag & E & _ & Ev & _).
  cbn [fst snd] in E, Ev. unfold bool_var, given_bool, Lookup. by rewrite E, Ev.
Qed.

Lemma config_of_given : config_of g = config_given env given.
Proof.
  unfold config_of, config_given. f_equal.
  - by eapply (text_given 0).
  - by eapply (text_given 3).
  - by eapply (text_given 1).
  - by eapply (text_given 2).
  - by eapply (text_given 4).
  - by eapply (bool_given 5).
Qed.

Lemma help_given : GetBool g (bs "help") = Ret (given_bool "help" given).
Proof.
  assert (flag_table env !! 6 = Some (bs "help", (bs "h", boolValue false, bs "true", false))) as Hk by done.
  apply list_elem_of_lookup_2 in Hk. destruct (flag_after _ Hk) as (flag & E & _ & Ev & _).
  cbn [fst snd] in E, Ev. unfold GetBool, getFlagType, Lookup, given_bool. rewrite E, Ev.
  pose proof (value_after_type (bs "help") given (boolValue false)) as Ht.
  destruct (value_after (bs "help") (boolValue false) given) as [s|b]; [done|].
  destruct b; by vm_compute.
Qed.

Lemma required_given :
  (∀ n flag, formal g !! n = Some flag → missing_flag flag = false) ↔
  is_given (bs "db-name") given = true.
Proof.
  split.
  - intros H.
    assert (flag_table env !! 3 = Some (bs "db-name", (bs "d", stringValue [], [], true))) as Hk by done.
    apply list_elem_of_lookup_2 in Hk. destruct (flag_after _ Hk) as (flag & E & _ & _ & Ec & Er).
    specialize (H _ _ E). rewrite missing_required, Er, Ec in H. cbn [fst snd andb] in H.
    by destruct (is_given _ _).
  - intros H n flag E.
    assert (∃ flag0, formal (command_flags env) !! n = Some flag0) as [flag0 E0].
    { pose proof (sd_declared _ _ (apply_items_decls (set_args (command_flags env) []) items) n) as Hd.
      rewrite formal_g in E. unfold declared in Hd. rewrite E in Hd. cbn [formal set_args] in Hd.
      destruct (formal (command_flags env) !! n) as [flag0|]; [by exists flag0|done]. }
    destruct (row_of_flag env n flag0 E0) as (Hrow & Hname & _).
    destruct (flag_after _ Hrow) as (flag' & E' & _ & _ & Ec & Er).
    assert ((row_of flag0).1 = n) as Hn1 by exact Hname. rewrite Hn1, E in E'. injection E' as <-.
    rewrite missing_required, Er, Ec, Hn1. clear -Hrow H Hn1.
    assert (∀ row, row ∈ flag_table env → row.2.2 = true → row.1 = bs "db-name") as Hr.
    { intros row. unfold flag_table. rewrite !elem_of_cons, elem_of_nil.
      intros [->|[->|[->|[->|[->|[->|[->|[]]]]]]]]; done. }
    destruct ((row_of flag0).2.2) eqn:E2; [|done]. specialize (Hr _ Hrow E2). rewrite Hn1 in Hr.
    by rewrite Hr, H.
Qed.
End Given.

(* ------------------------------------------------------------------ *)
(** ** [main] *)

Definition exit_status (r : outcome unit) : Z :=
  match r with Ret _ => 0 | Fail _ => 1 | Panic => 2 end.

Lemma parse_given env items rest : Forall (item_ok (command_flags env)) items →
  FlagSet_Parse (command_flags env) (words items ++ ending_words rest) =
  (ending (apply_items (set_args (command_flags env) []) items) rest, None).
Proof.
  intros Hok. unfold FlagSet_Parse, parseArgs. apply parse_items.
  - intros n flag E. by apply (wf_named _ (command_flags_wf env)).
  - cbn [interspersed set_args]. by vm_compute.
  - eapply Forall_impl; [exact Hok|]. intros j. apply item_ok_decls, set_args_decls.
  - lia.
Qed.

(** An assignment keeps a flag required. *)
Lemma parse_keeps_required f args g err n : fs_wf f → required_flag <$> formal f !! n = Some true →
  FlagSet_Parse f args = (g, err) → required_flag <$> formal g !! n = Some true.
Proof.
  intros W H E.
  eapply (parse_preserves (λ _ g, required_flag <$> formal g !! n = Some true)); [..|exact E]; try done;
    [|by apply wf_named].
  intros f' name v g' err' H' _ _ E'. unfold FlagSet_Set in E'.
  destruct (formal f' !! name) as [flag|] eqn:Ef; [|by injection E' as <- <-].
  destruct (value_Set (f_Value flag) v) as [v' [e|]]; injection E' as <- <-; cbn;
    (destruct (decide (n = name)) as [->|]; [|by rewrite lookup_insert_ne]);
    rewrite lookup_insert_eq; rewrite Ef in H'; exact H'.
Qed.

Section Main.
Context `{Net} (ParseStandard_ok : bytes → bool)
  (ParseExpressions : list bytes → option error) (now : LocalTime).

Lemma main_items env stdin items rest : Forall (item_ok (command_flags env)) items →
  let given := assignments (command_flags env) items in
  let args := positionals items ++ default [] rest in
  let r := run ParseStandard_ok ParseExpressions now stdin
             (config_given env given) args in
  result r ≠ Fail ErrHelp →
  main ParseStandard_ok ParseExpressions now env stdin
    (words items ++ ending_words rest) =
  if given_bool "help" given then ([], 0%Z)
  else if is_given (bs "db-name") given then (trace r, exit_status (result r))
  else ([], 1%Z).
Proof.
  intros Hok given args r Hr. destruct (root_flags_ok env) as (f & Ef & El & Eb).
  unfold main, root_command. rewrite Ef. cbn [mbind outcome_bind].
  unfold Execute, Find. cbn [c_Args legacyArgs]. unfold execute, InitDefaultHelpFlag.
  cbn [c_flags]. rewrite El, Eb. cbn [mbind outcome_bind].
  unfold ParseFlags. cbn [with_flags DisableFlagParsing c_flags RunE Use c_Args].
  rewrite parse_given by done.
  remember (ending (apply_items (set_args (command_flags env) []) items) rest) as g eqn:Eg.
  assert (fs_args g = args) as Ea.
  { rewrite Eg. unfold ending. destruct rest as [l|]; cbn; rewrite apply_items_args; [done|].
    unfold args. by rewrite app_nil_r. }
  cbn [with_flags DisableFlagParsing c_flags RunE Use c_Args].
  rewrite (help_given env items rest Hok given eq_refl g Eg).
  destruct (given_bool "help" given); [reflexivity|].
  unfold ValidateArgs. cbn [c_Args with_flags].
  pose proof (required_given env items rest Hok given eq_refl g Eg) as Hreq.
  rewrite <- missing_none in Hreq. unfold validateRequiredFlags. cbn [c_flags with_flags].
  destruct (missingFlagNames g) as [|n ns].
  - rewrite (proj1 Hreq) by done. rewrite Ea, (config_of_given env items rest Hok given eq_refl g Eg).
    fold r. clearbody r. destruct (result r) as [[]|e|]; cbn [exit_status app]; [reflexivity| |reflexivity].
    rewrite bool_decide_eq_false_2; [reflexivity|]. intros ->. by apply Hr.
  - destruct (is_given (bs "db-name") given); [|done]. 
    destruct Hreq as [_ Hreq]. specialize (Hreq eq_refl). discriminate Hreq.
Qed.

(** Nothing is sent without a parse that gives the database. *)
Lemma main_sends env stdin args :
  (main ParseStandard_ok ParseExpressions now env stdin args).1 ≠ [] →
  ∃ g, FlagSet_Parse (command_flags env) args = (g, None) ∧
    GetBool g (bs "help") = Ret false ∧
    Changed <$> Lookup g (bs "db-name") = Some true ∧
    (main ParseStandard_ok ParseExpressions now env stdin args).1 =
      trace (run ParseStandard_ok ParseExpressions now stdin (config_of g) (fs_args g)).
Proof.
  destruct (root_flags_ok env) as (f & Ef & El & Eb).
  unfold main, root_command. rewrite Ef. cbn [mbind outcome_bind].
  unfold Execute, Find. cbn [c_Args legacyArgs].
  match goal with |- context [execute [] ?c args] =>
    destruct (execute_spec [] c (with_flags c (command_flags env))
      (λ sent flags args, let r := run ParseStandard_ok ParseExpressions now stdin
         (config_of flags) args in (sent ++ trace r, result r)) args)
      as [(g & Hp & Hh & _ & Hm & ->)|[e ->]] end.
  - unfold InitDefaultHelpFlag. cbn [c_flags]. by rewrite El, Eb.
  - done.
  - done.
  - cbn [with_flags c_flags] in Hp. intros Hne. exists g. split; [done|]. split; [done|]. split.
    + assert (flag_table env !! 3 = Some (bs "db-name", (bs "d", stringValue [], [], true))) as Hk by done.
      apply list_elem_of_lookup_2 in Hk.
      destruct (flag_of_row env _ Hk) as (flag0 & E0 & Er & _). injection Er as _ _ _ _ Er.
      cbn [fst] in E0.
      assert (required_flag <$> formal g !! bs "db-name" = Some true) as (flag & E & Hreq)%fmap_Some.
      { eapply parse_keeps_required; [| |exact Hp]; [apply command_flags_wf|].
        rewrite E0. cbn. by rewrite Er. }
      specialize (Hm _ _ E). rewrite missing_required, <- Hreq in Hm. unfold Lookup. rewrite E.
      cbn [andb] in Hm. apply negb_false_iff in Hm. cbn [fmap option_fmap option_map]. rewrite Hm.
      reflexivity.
    + cbn [app]. destruct (result _) as [[]|e|]; [reflexivity| |reflexivity].
      destruct (bool_decide _); reflexivity.
  - intros Hne. destruct Hne. destruct (bool_decide _); reflexivity.
Qed.
End Main.
