(* ===== verification/HandlerGuarantees.v ===== *)
(** * What the handler guarantees, end to end *)

From S2P Require Import Prelude GoStd GoStdFacts GoFloat GoFloatFacts GoTime ModelsTime.
From S2P Require Import TimeWindow Sensu Escape EscapeFacts Scan ScanFacts Tags TagsFacts.
From S2P Require Import Json EventJson.
From S2P Require Import Point Parse FieldsFacts LineFacts GoNet GoNetFacts Client Delivery.
From S2P Require Import Pflag Cobra Handler HandlerFacts.

(* ------------------------------------------------------------------ *)
(** ** A server to try the theorems on *)

(** An address is a scheme, [://], a host, and a path from the next slash. *)
Definition toy_parse (s : bytes) : outcome url :=
  match cut_byte ":" s with
  | (scheme, Some rest) =>
      match cut_byte "/" (drop 2 rest) with
      | (host, Some p) => Ret (MkURL scheme host ("/"%char :: p) [])
      | (host, None) => Ret (MkURL scheme host [] [])
      end
  | _ => Fail (Errorf "missing protocol scheme" [])
  end.
Definition toy_string (u : url) : bytes :=
  u_Scheme u ++ bs "://" ++ u_Rest u ++
  match u_Path u with [] => [] | c :: _ => if c =c "/" then u_Path u else "/"%char :: u_Path u end.

(** A server that answers every request with one status. *)
Definition toy_net (status : Z) : Net :=
  {| url_Parse := toy_parse; url_String := toy_string;
     http_Do := λ _, Ret (MkResponse status ∅ (Ret (bs "body"))) |}.

Definition toy_entity : Entity :=
  MkEntity (MkMeta (bs "entity1") (bs "default") None None) (bs "host") [] 0 false [].
Definition toy_point : MetricPoint :=
  MkMetricPoint (bs "answer") (float_of_decimal false 42 0) 1552506033
    [Some (MkMetricTag (bs "foo") (bs "bar"))].
Definition toy_event : Event :=
  MkEvent (MkMeta [] [] None None) 1552506033 (Some toy_entity) None
    (Some (MkMetrics [] [Some toy_point])).
Definition toy_text : bytes := js
  "{'timestamp':1552506033,
    'entity':{'entity_class':'host','metadata':{'name':'entity1','namespace':'default'}},
    'metrics':{'points':[{'name':'answer','value':42,'timestamp':1552506033,
                          'tags':[{'name':'foo','value':'b\u0061r'}]}]}}".
Definition toy_config : Config :=
  MkConfig (bs "http://localhost:8086/") (bs "metrics") (bs "bar") (bs "baz") (bs "s") false.
Definition toy_now : LocalTime := MkUTC Mon 0.

Lemma toy_text_decodes : Unmarshal_event toy_text = Ret toy_event.
Proof. by vm_compute. Qed.

Lemma toy_point_ok : metric_ok toy_entity toy_point.
Proof.
  split; [vm_compute; split; [discriminate|reflexivity]|].
  exists [MkMetricTag (bs "foo") (bs "bar")]. split; [reflexivity|].
  apply (bool_decide_unpack _). by vm_compute.
Qed.

Lemma toy_deliverable : deliverable toy_config toy_event toy_entity [toy_point].
Proof.
  split; [by vm_compute|reflexivity|by exists []|]. constructor; [apply toy_point_ok|constructor].
Qed.

(* ------------------------------------------------------------------ *)
(** ** Delivery *)

(** A point the server reads for a metric point: the measurement and field
    of its name, the entity's name and its tags, its value, and the seconds
    of its timestamp. *)
Definition metric_delivered (entity : Entity) (mp : MetricPoint) (p : point) : Prop :=
  let '(name, key) := split_name (mp_Name mp) in
  Name p = name ∧ Map (point_tags p) = metric_tags entity (omap id (mp_Tags mp)) ∧
  point_Fields p = Ret [(key, VFloat (mp_Value mp))] ∧
  p_time p = Unix (seconds_of (mp_Timestamp mp)) 0.

Lemma delivered_metric entity mp p pr : metric_ok entity mp →
  (1000000000 mod GetPrecisionMultiplier pr = 0)%Z →
  delivered pr (metric_input entity mp) p → metric_delivered entity mp p.
Proof.
  intros Hok Hpr (H1 & H2 & H3 & H4).
  pose proof (sd_time _ _ (metric_ok_input false _ _ Hok)) as Ht.
  unfold metric_input, input_of, metric_delivered in *.
  destruct (split_name (mp_Name mp)) as [name key]. cbn [in_name in_tags in_fields in_nano] in *.
  rewrite sorted_fields_one in H3. repeat split; try done. rewrite H4.
  apply Z.mod_divide in Hpr as [q Hq]; [|pose proof (multiplier_pos pr); lia].
  pose proof (multiplier_pos pr). rewrite Hq at 1. rewrite Z.mul_assoc, Z.quot_mul by lia.
  rewrite <- Z.mul_assoc, <- Hq. symmetry. by apply Unix_seconds_nano.
Qed.





(** The time of a metric point is its timestamp cut to ten characters
    and read as seconds, and this never fails: a timestamp of [k >= 10]
    digits loses its last [k - 10], so that the usual ones in seconds,
    milliseconds, microseconds and nanoseconds keep their whole seconds. *)
Theorem point_time_seconds (ts : Z) (k : nat) :
  in_i64 ts → 10 ≤ k →
  point_time ts = Ret (Unix (seconds_of ts) 0) ∧
  ((10 ^ (Z.of_nat k - 1) <= ts < 10 ^ Z.of_nat k)%Z →
   point_time ts = Ret (Unix (ts / 10 ^ Z.of_nat (k - 10)) 0)).
Proof.
  intros Hts Hk. split; [by apply point_time_spec|]. intros Hr.
  rewrite point_time_spec by done. by rewrite (seconds_of_digits ts k).
Qed.

Lemma point_time_seconds_witness :
  point_time 1552506033123456789 = Ret (Unix (seconds_of 1552506033123456789) 0) ∧
  ((10 ^ (Z.of_nat 19 - 1) <= 1552506033123456789 < 10 ^ Z.of_nat 19)%Z →
   point_time 1552506033123456789 = Ret (Unix (1552506033123456789 / 10 ^ Z.of_nat (19 - 10)) 0)).
Proof. apply (point_time_seconds 1552506033123456789 19); [unfold in_i64, two63|]; lia. Defined.

(** C9: [Write] sends the one request it builds and succeeds exactly when
    the server is reached, its answer can be read, and its status is 200 or
    204; any other status is an error that carries the answer. *)
Theorem Write_outcome (net : Net) (c : client) (bp : batchpoints) (req : request) :
  write_request c bp = Ret req →
  trace (Write c bp) = [req] ∧
  (result (Write c bp) = Ret () ↔
   ∃ resp body, http_Do req = Ret resp ∧ rs_Body resp = Ret body ∧
     (rs_StatusCode resp = 204%Z ∨ rs_StatusCode resp = 200%Z)) ∧
  (∀ resp body, http_Do req = Ret resp → rs_Body resp = Ret body →
     rs_StatusCode resp ≠ 204%Z → rs_StatusCode resp ≠ 200%Z →
     result (Write c bp) = Fail (Errorf "%s" [body])).
Proof.
  intros Hr. destruct (Write_spec c bp req Hr) as [Ht Hres]. split; [done|]. rewrite Hres.
  unfold mbind, outcome_bind. split.
  - split.
    + destruct (http_Do req) as [resp|e|]; [|done|done].
      destruct (rs_Body resp) as [body|e|] eqn:Eb; [|done|done].
      case_bool_decide; [|done]. intros _. by exists resp, body.
    + intros (resp & body & -> & -> & Hs). by rewrite bool_decide_eq_true_2.
  - intros resp body -> -> H1 H2. by rewrite bool_decide_eq_false_2 by naive_solver.
Qed.

Definition toy_client : client :=
  MkClient (MkURL (bs "http") (bs "localhost:8086") [] []) (bs "u") (bs "p") (bs "a") false.
Definition toy_batch : batchpoints := batch_of toy_config toy_entity [toy_point].

Lemma Write_outcome_witness :
  ∃ req, trace (@Write (toy_net 400) toy_client toy_batch) = [req] ∧
    result (@Write (toy_net 400) toy_client toy_batch) = Fail (Errorf "%s" [bs "body"]).
Proof.
  eexists. edestruct (Write_outcome (toy_net 400) toy_client toy_batch) as (H1 & _ & H3);
    [reflexivity|].
  split; [exact H1|].
  apply (H3 (MkResponse 400 ∅ (Ret (bs "body"))) (bs "body")); done.
Defined.


