(* ===== verification/HandlerSafety.v ===== *)
(** * Panics of the handler, and the metric points it loses *)

From S2P Require Import Prelude GoStd GoStdFacts GoFloat GoFloatFacts GoTime ModelsTime.
From S2P Require Import TimeWindow Sensu Escape EscapeFacts Scan ScanFacts Tags TagsFacts.
From S2P Require Import EventJson EventJsonFacts.
From S2P Require Import Point Parse FieldsFacts LineFacts GoNet GoNetFacts Client Delivery.
From S2P Require Import Pflag CommandLineFacts Cobra Handler HandlerFacts HandlerGuarantees.
From S2P Require Import PointFacts CutFacts.

(* ------------------------------------------------------------------ *)
(** ** What never panics *)

(** Case analysis on every test of a result that is no panic. *)
Ltac no_panic :=
  repeat match goal with
  | |- (let '(_, _) := ?m in _) ≠ Panic => destruct m
  | |- match ?m with _ => _ end ≠ Panic => destruct m; try done
  end; try done.

Lemma bind_no_panic {A B} (m : outcome A) (f : A → outcome B) :
  m ≠ Panic → (∀ a, m = Ret a → f a ≠ Panic) → (a ← m; f a) ≠ Panic.
Proof. destruct m as [a|e|]; cbn; intros H Hf; [by apply Hf|done|done]. Qed.

Lemma parse_int_no_panic s : parse_int s ≠ Panic.
Proof. unfold parse_int. no_panic. Qed.

Lemma duration_loop_no_panic fuel : ∀ orig s d, duration_loop fuel orig s d ≠ Panic.
Proof.
  induction fuel as [|fuel IH]; intros orig s d; [done|]. cbn [duration_loop].
  destruct s as [|c s]; [done|]. destruct (negb _); [done|].
  destruct (leadingInt (c :: s) 0) as [[v s1]|]; [|done].
  destruct (match s1 with [] => _ | _ => _ end) as [[[f scale] post] s2].
  destruct (_ && _); [done|]. destruct (take_unit s2) as [[|u0 u] s3]; [done|].
  destruct (unitMap _); [|done].
  destruct (_ <? _)%Z; [done|]. destruct (_ <? 0)%Z; [done|]. destruct (_ <? 0)%Z; [done|]. apply IH.
Qed.

Lemma ParseDuration_no_panic s : ParseDuration s ≠ Panic.
Proof.
  unfold ParseDuration. destruct (match s with [] => _ | _ => _ end) as [neg [|c s']].
  - by destruct (bytes_equal _ _).
  - destruct (bytes_equal _ _); [done|]. apply bind_no_panic; [apply duration_loop_no_panic|done].
Qed.

Lemma NewPoint_no_panic name tags fields t : Client.NewPoint name tags fields t ≠ Panic.
Proof.
  unfold Client.NewPoint. apply bind_no_panic; [|done]. unfold Point.NewPoint.
  apply bind_no_panic; [|done]. unfold pointKey. destruct fields; [done|].
  destruct (if negb _ then _ else None); [done|]. destruct (first_error _ _); [done|].
  by destruct (first_error _ _).
Qed.

Lemma add_tags_no_panic l : ∀ m, None ∉ l → add_tags m l ≠ Panic.
Proof.
  induction l as [|[t|] l IH]; intros m Hl; [done| |].
  - apply IH. by apply not_elem_of_cons in Hl as [_ ?].
  - by apply not_elem_of_cons in Hl as [? _].
Qed.

(** An event without nil points and nil tags. *)
Definition no_nil (points : list (option MetricPoint)) : Prop :=
  Forall (λ p, ∃ mp, p = Some mp ∧ None ∉ mp_Tags mp) points.

Lemma make_point_no_panic entity mp : None ∉ mp_Tags mp → make_point (Some entity) (Some mp) ≠ Panic.
Proof.
  intros Ht. unfold make_point. destruct (split_name (mp_Name mp)) as [name key].
  apply bind_no_panic.
  - unfold point_time. apply bind_no_panic; [apply parse_int_no_panic|done].
  - intros t _. apply bind_no_panic; [by apply add_tags_no_panic|]. intros tags _. apply NewPoint_no_panic.
Qed.

Lemma add_points_no_panic entity points : ∀ bp, no_nil points →
  add_points bp (Some entity) points ≠ Panic.
Proof.
  induction points as [|p points IH]; intros bp H; [done|].
  apply Forall_cons in H as [(mp & -> & Ht) H]. cbn [add_points].
  apply bind_no_panic; [by apply make_point_no_panic|]. intros pt _. by apply IH.
Qed.

Lemma NewBatchPoints_no_panic c : NewBatchPoints c ≠ Panic.
Proof. unfold NewBatchPoints. apply bind_no_panic; [apply ParseDuration_no_panic|done]. Qed.

(** A network whose operations do not panic. *)
Class NetSafe (net : Net) : Prop := {
  parse_safe s : url_Parse s ≠ Panic;
  do_safe req : http_Do req ≠ Panic;
  body_safe req resp : http_Do req = Ret resp → rs_Body resp ≠ Panic
}.

#[export] Instance toy_net_safe status : NetSafe (toy_net status).
Proof.
  split; cbn.
  - intros s. unfold toy_parse. destruct (cut_byte ":" s) as [scheme [rest|]]; [|done].
    by destruct (cut_byte "/" (drop 2 rest)) as [host [p|]].
  - done.
  - intros req resp [= <-]. done.
Qed.

Lemma sendMetrics_no_panic `{NetSafe} cfg event entity m : ev_Entity event = Some entity →
  ev_Metrics event = Some m → no_nil (Points m) → result (sendMetrics cfg event) ≠ Panic.
Proof.
  intros He Hm Hn. unfold sendMetrics. unfold mbind, io_bind. cbn [result trace lift].
  destruct (NewHTTPClient _) as [c|e|] eqn:Ec; [|done|].
  2:{ exfalso. revert Ec. unfold NewHTTPClient. apply bind_no_panic; [apply parse_safe|]. intros u _.
      by destruct (_ && _). }
  cbn [result trace].
  destruct (make_batch cfg event) as [bp|e|] eqn:Eb; [|done|].
  2:{ exfalso. revert Eb. unfold make_batch. apply bind_no_panic; [apply NewBatchPoints_no_panic|].
      intros bp _. rewrite Hm, He. by apply add_points_no_panic. }
  cbn [result trace].
  assert (result (Write c bp) ≠ Panic) as Hw; [|by destruct (result (Write c bp)) as [[]|?|]].
  destruct (write_request c bp) as [req|e|] eqn:Er.
  - destruct (Write_spec c bp req Er) as [_ ->].
    apply bind_no_panic; [apply do_safe|]. intros resp Hr.
    apply bind_no_panic; [by eapply body_safe|]. intros body _. by case_bool_decide.
  - unfold Write. rewrite Er. done.
  - exfalso. revert Er. unfold write_request. apply bind_no_panic; [|done]. unfold NewRequest.
    apply bind_no_panic; [apply parse_safe|done].
Qed.

(** The windows of a check hold no nil. *)
Definition windows_ok (c : Check_) : Prop :=
  ∀ w, Subdue c = Some w → None ∉ concat (MapTimeWindows (Days w)).

Lemma of_error_no_panic e : of_error e ≠ Panic.
Proof. by destruct e. Qed.

Lemma wrapped_no_panic {A} text (m : outcome A) : m ≠ Panic → wrapped text m ≠ Panic.
Proof. by destruct m. Qed.

Lemma Validate_event_no_panic cron_ok js_ok now event :
  (∀ c, ev_Check event = Some c → windows_ok c) → Validate_event cron_ok js_ok now event ≠ Panic.
Proof.
  intros Hw. unfold Validate_event. destruct (ev_Entity event) as [entity|]; [|done].
  apply bind_no_panic; [apply of_error_no_panic|]. intros _ _.
  apply bind_no_panic; [|intros _ _; apply of_error_no_panic].
  destruct (ev_Check event) as [c|]; [|done]. apply wrapped_no_panic. unfold Validate_check.
  destruct (bytes_equal _ _); [done|]. apply bind_no_panic; [apply of_error_no_panic|]. intros _ _.
  unfold Validate_windows. destruct (Subdue c) as [w|] eqn:E; [|done].
  apply validate_ranges_no_panic. by apply (Hw c).
Qed.

(** C8: the handler does not panic, whatever its input, when the network
    does not and the event decoded, if the input decodes, holds no nil
    metric point, no nil tag and no nil time window. *)
Theorem run_never_panics (net : Net) (safe : NetSafe net)
    (ParseStandard_ok : bytes → bool) (ParseExpressions : list bytes → option error)
    (now : LocalTime) (stdin : outcome bytes) (cfg : Config) (args : list bytes) :
  stdin ≠ Panic →
  (∀ text event, stdin = Ret text → Unmarshal_event text = Ret event →
     (∀ m, ev_Metrics event = Some m → no_nil (Points m)) ∧
     (∀ c, ev_Check event = Some c → windows_ok c)) →
  result (run ParseStandard_ok ParseExpressions now stdin cfg args) ≠ Panic.
Proof.
  intros Hs Hn. unfold run. destruct (negb _); [done|].
  unfold mbind, io_bind. cbn [result trace lift].
  destruct stdin as [text|e|]; [|done|done]. cbn [wrapped result trace lift].
  pose proof (Unmarshal_event_no_panic text) as Hj. destruct (Unmarshal_event text) as [event|e|] eqn:Ej; [|done|done].
  cbn [wrapped result trace lift]. destruct (Hn _ _ eq_refl Ej) as [Hp Hw].
  pose proof (Validate_event_no_panic ParseStandard_ok ParseExpressions now event Hw) as Hv.
  destruct (Validate_event _ _ _ event) as [[]|e|] eqn:Ev; [|done|done].
  cbn [wrapped result trace lift]. destruct (HasMetrics event) eqn:Hm; [|done]. cbn [negb].
  unfold HasMetrics in Hm. destruct (ev_Metrics event) as [m|] eqn:Em; [|done].
  unfold Validate_event in Ev. destruct (ev_Entity event) as [entity|] eqn:Ee; [|done].
  eapply sendMetrics_no_panic; [done|done|by apply Hp].
Qed.

Lemma run_never_panics_witness :
  result (@run (toy_net 500) (λ _, true) (λ _, None) toy_now (Ret toy_text) toy_config [])
  ≠ Panic.
Proof.
  apply (run_never_panics (toy_net 500) (toy_net_safe 500)); [done|].
  intros text event [= <-] [= <-]%(eq_trans (eq_sym toy_text_decodes)). split; [|done]. intros m [= <-]. repeat constructor. eexists. split; [reflexivity|].
  intros Hin%list_elem_of_singleton. discriminate.
Defined.

(** A null time window of a check makes validation panic, unless a window
    before it is in error. *)
Theorem null_window_panics (ParseStandard_ok : bytes → bool)
    (ParseExpressions : list bytes → option error) (now : LocalTime) (c : Check_) (w : TimeWindowWhen)
    (before after : list (option TimeWindowTimeRange)) :
  om_Name (c_Meta c) ≠ undocumentedTestCheckName →
  Validate_fields ParseStandard_ok ParseExpressions c = None → Subdue c = Some w →
  concat (MapTimeWindows (Days w)) = before ++ None :: after → validate_ranges before now = Ret () →
  Validate_check ParseStandard_ok ParseExpressions now c = Panic.
Proof.
  intros Ht Hf Hs Hw Hb. unfold Validate_check.
  destruct (bytes_equal _ _) eqn:E; [by apply bytes_equal_true in E|]. rewrite Hf. cbn [of_error mbind outcome_bind].
  unfold Validate_windows. rewrite Hs, Hw. revert Hb. clear.
  induction before as [|x before IH]; [done|]. cbn [app validate_ranges].
  destruct (InWindow x now) as [b|e|]; [|done|done]. cbn [mbind outcome_bind]. exact IH.
Qed.

Lemma add_points_nil entity before after : ∀ bp, Forall (metric_ok entity) before →
  add_points bp (Some entity) (map Some before ++ None :: after) = Panic.
Proof.
  induction before as [|mp before IH]; intros bp H; [done|]. apply Forall_cons in H as [Hmp H].
  cbn [map app add_points]. rewrite make_point_built by done. by apply IH.
Qed.

(** A null metric point behind points that the handler accepts makes it
    panic: nothing of the event is sent. *)
Theorem null_point_panics (net : Net) (cfg : Config) (event : Event) (entity : Entity)
    (before : list MetricPoint) (after : list (option MetricPoint)) (handlers : list bytes) (c : client) :
  ev_Entity event = Some entity →
  ev_Metrics event = Some (MkMetrics handlers (map Some before ++ None :: after)) →
  precision_ok (precision cfg) = true → Forall (metric_ok entity) before →
  NewHTTPClient (MkHTTPConfig (addr cfg) (username cfg) (password cfg) [] (insecureSkipVerify cfg)) = Ret c →
  sendMetrics cfg event = IO [] Panic.
Proof.
  intros He Hm Hp Hb Hc. unfold sendMetrics. rewrite Hc. unfold mbind, io_bind. cbn [result trace lift app].
  assert (make_batch cfg event = Panic) as ->; [|done].
  unfold make_batch. rewrite NewBatchPoints_ok by done. cbn [mbind outcome_bind]. rewrite He, Hm.
  cbn [Points]. by apply add_points_nil.
Qed.

Lemma null_point_panics_witness :
  let event := MkEvent (MkMeta [] [] None None) 0 (Some toy_entity) None
                 (Some (MkMetrics [] [Some toy_point; None])) in
  @sendMetrics (toy_net 204) toy_config event = IO [] Panic.
Proof.
  intros event. eapply (null_point_panics (toy_net 204) toy_config event toy_entity [toy_point] [] []);
    [reflexivity|reflexivity|by vm_compute|constructor; [apply toy_point_ok|constructor]|by vm_compute].
Defined.

(* ------------------------------------------------------------------ *)
(** ** Points that are sent and not read *)

Lemma MakeKey_no_name m k v : m !! k = Some v → v ≠ [] →
  ∃ rest, MakeKey [] (NewTags m) = ","%char :: rest.
Proof.
  intros Hk Hv. rewrite MakeKey_text by apply not_elem_of_nil. cbn [esc app].
  assert (MkTag k v ∈ NewTags m) as Hin by by apply NewTags_elem.
  induction (NewTags m) as [|t l IH]; [by apply elem_of_nil in Hin|]. cbn [map concat].
  unfold tag_text at 1. destruct (Value (escape_tag_pair t)) as [|x xs] eqn:E; [|by eexists].
  apply elem_of_cons in Hin as [<-|Hin]; [|by apply IH].
  unfold escape_tag_pair in E. cbn [Value] in E. rewrite escapeTag_spec in E. by apply esc_nil_inv in E.
Qed.

Lemma add_tags_result l : ∀ m tags, add_tags m l = Ret tags →
  tags = foldl (λ m tag, <[mt_Name tag := mt_Value tag]> m) m (omap id l).
Proof.
  induction l as [|[tag|] l IH]; intros m tags Et; [by injection Et|exact (IH _ _ Et)|done].
Qed.

(** A metric named with a leading dot, or with no name, is a point with
    an empty measurement, which the client accepts and writes, and whose
    line every reader of line protocol refuses: "missing measurement". *)
Theorem empty_measurement_lost (entity : Entity) (mp : MetricPoint) (p : Client.Point) (k v : bytes)
    (sup : bool) (precision precision' : bytes) (defaultTime : Time) :
  (split_name (mp_Name mp)).1 = [] →
  make_point (Some entity) (Some mp) = Ret p →
  metric_tags entity (omap id (mp_Tags mp)) !! k = Some v → v ≠ [] →
  parsePoint sup (cp_PrecisionString p precision) defaultTime precision' =
  Fail (Errorf "missing measurement" []).
Proof.
  intros Hn Hp Hk Hv. unfold make_point in Hp. destruct (split_name (mp_Name mp)) as [name key].
  cbn in Hn. subst name. destruct (point_time _) as [t|e|]; [|done|done]. cbn [mbind outcome_bind] in Hp.
  destruct (add_tags _ (mp_Tags mp)) as [tags|e|] eqn:Et; [|done|done]. cbn [mbind outcome_bind] in Hp.
  assert (tags = metric_tags entity (omap id (mp_Tags mp))) as ->.
  { by apply add_tags_result in Et. }
  unfold Client.NewPoint in Hp. destruct (Point.NewPoint _ _ _ _) as [pt|e|] eqn:Ep; [|done|done].
  injection Hp as <-. apply NewPoint_iff in Ep as [_ ->].
  destruct (MakeKey_no_name _ _ _ Hk Hv) as [rest E].
  unfold cp_PrecisionString, PrecisionString. cbn [pt p_time p_key p_fields]. rewrite E.
  by destruct (IsZero t).
Qed.

Definition dot_point : MetricPoint :=
  MkMetricPoint (bs ".value") (float_of_decimal false 42 0) 1552506033 [].

Lemma empty_measurement_lost_witness :
  ∃ p, make_point (Some toy_entity) (Some dot_point) = Ret p ∧
    parsePoint false (cp_PrecisionString p (bs "s")) zeroTime (bs "s") =
    Fail (Errorf "missing measurement" []).
Proof.
  eexists. split; [vm_compute; reflexivity|].
  eapply (empty_measurement_lost toy_entity dot_point _ (bs "sensu_entity_name") (bs "entity1"));
    [by vm_compute|by vm_compute|by vm_compute|done].
Defined.

(** C40: a newline in a tag is not escaped: of a metric point with a tag
    value [a], newline, [evil], the server refuses the first half, and reads
    a point of a measurement nobody named, [evil], with the value of the
    metric point and only the tags that sort behind the cut one; the points
    behind it in the batch are delivered. *)
Theorem newline_splits_point (sup : bool) (defaultTime : Time) (db precision : bytes)
    (entity : Entity) (mp : MetricPoint) (tags : list MetricTag) (mps : list MetricPoint)
    (k a evil : bytes) :
  let i := metric_input entity mp in
  in_i64 (mp_Timestamp mp) → mp_Tags mp = map Some tags → cut_tag sup i k a evil →
  Forall (metric_ok entity) mps →
  ∃ bp q qs l1 l2,
    add_points (MkBatch [] db precision [] []) (Some entity) (map Some (mp :: mps)) = Ret bp ∧
    NewTags (metric_tags entity tags) = l1 ++ MkTag k (a ++ newline :: evil) :: l2 ∧
    ParsePointsWithPrecision sup (write_body bp) defaultTime precision =
      Ret (q :: qs, [(MakeKey (in_name i) (l1 ++ [MkTag k a]), Errorf "missing fields" [])]) ∧
    Name q = evil ∧ point_tags q = l2 ∧
    point_Fields q = Ret [((split_name (mp_Name mp)).2, VFloat (mp_Value mp))] ∧
    Forall2 (λ mp, delivered precision (metric_input entity mp)) mps qs.
Proof.
  intros i Hts Htags Hcut Hmps.
  pose proof (sd_time _ _ (ct_rest _ _ _ _ _ Hcut)) as Htm. cbn [in_nano] in Htm.
  assert (Forall (sendable sup) (map (metric_input entity) mps)) as Hs.
  { apply Forall_map. eapply Forall_impl; [exact Hmps|]. intros ?. apply metric_ok_input. }
  destruct (parse_cut sup i k a evil defaultTime precision _ Hcut Hs) as (l1 & l2 & E & Hl2 & Hp).
  eexists _, _, _, l1, l2. repeat split.
  - cbn [map add_points]. rewrite (make_point_input _ _ tags) by done. fold i.
    rewrite (NewPoint_cut _ _ _ _ _ Hcut). cbn [mbind outcome_bind]. by apply add_points_built.
  - rewrite <- E. unfold i, metric_input, input_of. rewrite Htags, omap_Some.
    by destruct (split_name _).
  - unfold write_body. cbn [AddPoints AddPoint bp_points bp_precision app].
    rewrite <- (map_map (metric_input entity) (λ i, Some (built i))). exact Hp.
  - apply Name_MakeKey; [apply Hcut|done].
  - unfold point_tags. cbn [p_key]. apply parseTags_MakeKey; [apply Hcut|done].
  - pose proof (ct_rest _ _ _ _ _ Hcut) as [_ _ _ Hd Hf _ _ _]. cbn [in_fields] in *.
    rewrite (fields_read_back sup).
    + unfold i, metric_input, input_of. destruct (split_name _). cbn [in_fields snd].
      by rewrite sorted_fields_one.
    + done.
    + eapply Forall_impl; [exact Hf|]. by intros kv [[? _] ?].
  - clear -Hs. induction mps as [|m mps IH]; cbn [map] in *; constructor.
    + apply Forall_cons in Hs as [Hm _]. by eapply parsed_delivered.
    + apply Forall_cons in Hs as [_ Hs]. by apply IH.
Qed.

(** A tag value of two lines. *)
Definition two_line_tag : MetricTag := MkMetricTag (bs "t") (bs "a" ++ [newline] ++ bs "evil").
Definition two_line_point : MetricPoint :=
  MkMetricPoint (bs "m") (float_of_decimal false 42 0) 1552506033
    [Some two_line_tag; Some (MkMetricTag (bs "u") (bs "w"))].

Lemma two_line_cut : cut_tag false (metric_input toy_entity two_line_point) (bs "t") (bs "a") (bs "evil").
Proof. split; [by vm_compute|apply (bool_decide_unpack _); by vm_compute..]. Qed.

Lemma newline_splits_point_witness :
  ∃ bp q qs l1 l2,
    add_points (MkBatch [] (bs "db") (bs "s") [] []) (Some toy_entity)
      (map Some [two_line_point; toy_point]) = Ret bp ∧
    NewTags (metric_tags toy_entity [two_line_tag; MkMetricTag (bs "u") (bs "w")]) =
      l1 ++ MkTag (bs "t") (bs "a" ++ newline :: bs "evil") :: l2 ∧
    ParsePointsWithPrecision false (write_body bp) zeroTime (bs "s") =
      Ret (q :: qs, [(MakeKey (bs "m") (l1 ++ [MkTag (bs "t") (bs "a")]), Errorf "missing fields" [])]) ∧
    Name q = bs "evil" ∧ point_tags q = l2 ∧
    point_Fields q = Ret [(bs "value", VFloat (mp_Value two_line_point))] ∧
    Forall2 (λ mp, delivered (bs "s") (metric_input toy_entity mp)) [toy_point] qs.
Proof.
  apply (newline_splits_point false zeroTime (bs "db") (bs "s") toy_entity two_line_point
    [two_line_tag; MkMetricTag (bs "u") (bs "w")] [toy_point] (bs "t") (bs "a") (bs "evil")).
  - vm_compute. split; [discriminate|reflexivity].
  - reflexivity.
  - apply two_line_cut.
  - constructor; [apply toy_point_ok|constructor].
Defined.

(** The precisions of the batch and of its lines agree on [ns], [ms],
    [s], [m] and [h]; [us] is accepted and its times written in
    nanoseconds; [u] and [n], the names line protocol has for microseconds
    and nanoseconds, are refused. *)
Theorem precision_names :
  (∀ p, p ∈ map bs ["ns"; "ms"; "s"; "m"; "h"]%string →
     ParseDuration ("1"%char :: p) = Ret (GetPrecisionMultiplier p) ∧ precision_ok p = true) ∧
  (precision_ok (bs "us") = true ∧ ParseDuration (bs "1us") = Ret 1000%Z ∧
   GetPrecisionMultiplier (bs "us") = 1%Z) ∧
  (precision_ok (bs "u") = false ∧ GetPrecisionMultiplier (bs "u") = 1000%Z ∧
   precision_ok (bs "n") = false ∧ GetPrecisionMultiplier (bs "n") = 1%Z).
Proof.
  split; [|by vm_compute]. intros p. cbn [map]. rewrite !elem_of_cons, elem_of_nil.
  intros [->|[->|[->|[->|[->|[]]]]]]; by vm_compute.
Qed.
