(* ===== verification/CommandLine.v ===== *)
(** * The guarantees of the command line *)

From S2P Require Import Prelude GoStd GoStdFacts GoFloat GoTime ModelsTime TimeWindow Sensu.
From S2P Require Import EventJson.
From S2P Require Import Tags Point GoNet GoNetFacts Client Pflag CommandLineFacts Cobra.
From S2P Require Import CommandLineFacts Handler HandlerFacts HandlerCommand HandlerGuarantees.

(* ------------------------------------------------------------------ *)
(** ** The handler *)

Definition toy_env : Env := MkEnv (bs "http://env:8086") (bs "envuser") [].

(** The items of [-d metrics --precision=ms -i --addr http://h]. *)
Definition toy_items : list item :=
  [ShortSp "d" (bs "metrics"); LongEq (bs "precision") (bs "ms"); Short "i";
   LongSp (bs "addr") (bs "http://localhost:8086")].

Ltac item_fact :=
  lazymatch goal with
  | |- item_ok _ _ => unfold item_ok; item_fact
  | |- _ ∧ _ => split; item_fact
  | |- ∃ _, _ => eexists; item_fact
  | |- _ ∉ _ => apply (bool_decide_unpack _); vm_compute; exact I
  | |- _ = _ => vm_compute; reflexivity
  | |- _ => vm_compute; discriminate
  end.

Lemma toy_items_ok : Forall (item_ok (command_flags toy_env)) toy_items.
Proof. unfold toy_items. repeat (apply Forall_cons; split; [item_fact|]). constructor. Qed.

(** C4: a command line of flags the handler knows, in any of the spellings
    [--name=v], [--name v], [--name], [-n v], [-n=v] and [-n], mixed with
    arguments and closed by an optional [--], does this: help exits with
    status 0, a missing database with status 1, both without a request;
    otherwise [run] is called with the last text given for each flag, else
    the environment's address, user and password, else the defaults, and
    with the arguments in order; the exit status is 0 exactly when it
    succeeds, 1 for an error. *)
Theorem main_command_line (net : Net)
    (ParseStandard_ok : bytes → bool) (ParseExpressions : list bytes → option error)
    (now : LocalTime) (env : Env) (stdin : outcome bytes) (items : list item)
    (rest : option (list bytes)) :
  Forall (item_ok (command_flags env)) items →
  let given := assignments (command_flags env) items in
  let args := positionals items ++ default [] rest in
  let r := run ParseStandard_ok ParseExpressions now stdin
             (config_given env given) args in
  result r ≠ Fail ErrHelp →
  main ParseStandard_ok ParseExpressions now env stdin
    (words items ++ ending_words rest) =
  if given_bool "help" given then ([], 0%Z)
  else if is_given (bs "db-name") given then (trace r, exit_status (result r))
  else ([], 1%Z).
Proof. apply main_items. Qed.

Lemma main_command_line_witness :
  @main (toy_net 204) (λ _, true) (λ _, None) toy_now toy_env (Ret toy_text)
    (map bs ["-d"; "metrics"; "--precision=ms"; "-i"; "--addr"; "http://localhost:8086"]%string)
  = (trace (@run (toy_net 204) (λ _, true) (λ _, None) toy_now (Ret toy_text)
       (MkConfig (bs "http://localhost:8086") (bs "metrics") (bs "envuser") [] (bs "ms") true) []), 0%Z).
Proof.
  assert (config_given toy_env (assignments (command_flags toy_env) toy_items) =
    MkConfig (bs "http://localhost:8086") (bs "metrics") (bs "envuser") [] (bs "ms") true) as <-
    by (vm_compute; reflexivity).
  etransitivity; [apply (main_command_line (toy_net 204) (λ _, true) (λ _, None)
    toy_now toy_env (Ret toy_text) toy_items None toy_items_ok)|].
  - vm_compute. discriminate.
  - vm_compute. reflexivity.
Defined.

(** C5: whatever the command line, nothing is sent unless it parses without
    an error, does not ask for help, and sets the database; what is sent is
    then what [run] sends with the values parsed and the arguments left. *)
Theorem main_requires_database (net : Net)
    (ParseStandard_ok : bytes → bool) (ParseExpressions : list bytes → option error)
    (now : LocalTime) (env : Env) (stdin : outcome bytes) (args : list bytes) :
  let m := main ParseStandard_ok ParseExpressions now env stdin args in
  m.1 ≠ [] →
  ∃ g, FlagSet_Parse (command_flags env) args = (g, None) ∧
    GetBool g (bs "help") = Ret false ∧
    Changed <$> Lookup g (bs "db-name") = Some true ∧
    m.1 = trace (run ParseStandard_ok ParseExpressions now stdin (config_of g) (fs_args g)).
Proof. apply main_sends. Qed.

Lemma main_requires_database_witness :
  let m := @main (toy_net 204) (λ _, true) (λ _, None) toy_now toy_env (Ret toy_text)
    (words toy_items) in
  ∃ g, FlagSet_Parse (command_flags toy_env) (words toy_items) = (g, None) ∧
    GetBool g (bs "help") = Ret false ∧
    Changed <$> Lookup g (bs "db-name") = Some true ∧
    m.1 = trace (@run (toy_net 204) (λ _, true) (λ _, None) toy_now (Ret toy_text)
            (config_of g) (fs_args g)).
Proof.
  apply (main_requires_database (toy_net 204) (λ _, true) (λ _, None) toy_now
    toy_env (Ret toy_text) (words toy_items)).
  vm_compute. discriminate.
Defined.

(* ------------------------------------------------------------------ *)
(** ** Flag sets *)

(** The indexes of a flag set agree with its flags, and stay so: a new
    set is well formed; [AddFlag] panics exactly when the name is taken or
    the shorthand is taken or longer than a letter, and otherwise registers
    the flag; assigning and parsing, failed or not, keep the set well
    formed, and after a parse that succeeds every flag that was not given
    has its default. *)
Theorem flag_sets_well_formed (f : FlagSet) (flag : Flag) (args : list bytes) (name value : bytes) :
  fs_wf f → Changed flag = false → default_kept f →
  (∀ n, fs_wf (NewFlagSet n)) ∧
  (AddFlag f flag = Panic ↔ ¬ AddFlag_ok f flag) ∧
  (∀ g, AddFlag f flag = Ret g → fs_wf g ∧ Lookup g (f_Name flag) = Some flag) ∧
  fs_wf (FlagSet_Set f name value).1 ∧
  fs_wf (FlagSet_Parse f args).1 ∧
  ((FlagSet_Parse f args).2 = None → default_kept (FlagSet_Parse f args).1).
Proof.
  intros W Hc Hd. split; [apply NewFlagSet_wf|].
  split; [|split; [|split; [by apply FlagSet_Set_wf|split; [by apply FlagSet_Parse_wf|]]]].
  - destruct (AddFlag_spec f flag W Hc) as [[E H]|(H & g & E & _)]; rewrite E; naive_solver.
  - intros g Eg. destruct (AddFlag_spec f flag W Hc) as [[E H]|(H & g' & E & W' & Ef)]; [congruence|].
    rewrite E in Eg. injection Eg as <-. split; [done|]. unfold Lookup. by rewrite Ef, lookup_insert_eq.
  - intros E. eapply (FlagSet_Parse_default f args); [done|apply W|]. rewrite <- E.
    by destruct (FlagSet_Parse f args).
Qed.

Lemma flag_sets_well_formed_witness :
  let f := NewFlagSet (bs "p") in
  let flag := VarPF (stringValue (bs "s")) (bs "precision") (bs "x") in
  (∀ n, fs_wf (NewFlagSet n)) ∧
  (AddFlag f flag = Panic ↔ ¬ AddFlag_ok f flag) ∧
  (∀ g, AddFlag f flag = Ret g → fs_wf g ∧ Lookup g (f_Name flag) = Some flag) ∧
  fs_wf (FlagSet_Set f (bs "a") []).1 ∧
  fs_wf (FlagSet_Parse f [bs "-q"]).1 ∧
  ((FlagSet_Parse f [bs "-q"]).2 = None → default_kept (FlagSet_Parse f [bs "-q"]).1).
Proof.
  intros f flag. apply (flag_sets_well_formed f flag [bs "-q"] (bs "a") []).
  - apply NewFlagSet_wf.
  - reflexivity.
  - intros n fl E. subst f. cbn in E. by rewrite lookup_empty in E.
Defined.

(** Parsing known flags, in any spelling and order, with arguments among
    them and after a [--], succeeds: every flag of the set then holds the
    last text assigned to it, is marked as changed exactly when it was
    given, and keeps its other properties; the arguments are the others, in
    order. *)
Theorem parse_known_flags (f : FlagSet) (items : list item) (rest : option (list bytes)) :
  fs_wf f → interspersed f = true → Forall (item_ok f) items →
  ∃ g, FlagSet_Parse f (words items ++ ending_words rest) = (g, None) ∧
    (∀ n flag, Lookup f n = Some flag →
       Lookup g n = Some (flag_given n flag (assignments f items))) ∧
    fs_args g = positionals items ++ default [] rest.
Proof.
  intros W Hi Hok. pose proof (set_args_decls f []) as Hd.
  assert (Forall (item_ok (set_args f [])) items) as Hok'
    by (eapply Forall_impl; [exact Hok|intros j; by apply item_ok_decls]).
  eexists. unfold FlagSet_Parse, parseArgs. split; [apply parse_items; [apply W|done..|lia]|]. split.
  - intros n flag E. pose proof (apply_items_flag items (set_args f []) n flag Hok' E) as H.
    unfold Lookup. by destruct rest.
  - destruct rest as [l|]; cbn [ending fs_args set_args]; rewrite apply_items_args; [done|].
    by rewrite app_nil_r.
Qed.

Lemma parse_known_flags_witness :
  ∃ g, FlagSet_Parse (command_flags toy_env) (words toy_items ++ ending_words (Some [bs "-x"])) = (g, None) ∧
    (∀ n flag, Lookup (command_flags toy_env) n = Some flag →
       Lookup g n = Some (flag_given n flag (assignments (command_flags toy_env) toy_items))) ∧
    fs_args g = [bs "-x"].
Proof.
  apply (parse_known_flags (command_flags toy_env) toy_items (Some [bs "-x"])).
  - apply command_flags_wf.
  - vm_compute. reflexivity.
  - apply toy_items_ok.
Defined.

(** Parsing terminates: the loops over the arguments and over the
    letters of a word have the same result for every fuel above the number
    of arguments, or of letters. *)
Theorem parse_terminates (f : FlagSet) (args : list bytes) (s : bytes) (n : nat) :
  fs_wf f →
  (length args < n → parse_args_loop n f args = parseArgs f args) ∧
  (length (drop 1 s) < n → parse_short_loop n f (drop 1 s) args args = parseShortArg f s args).
Proof.
  intros W. split; intros Hn.
  - apply args_loop_enough; [apply W|done|lia].
  - apply short_loop_enough; [apply W|done|lia].
Qed.

Lemma parse_terminates_witness :
  parse_args_loop 9 (command_flags toy_env) [bs "-x"] = parseArgs (command_flags toy_env) [bs "-x"].
Proof.
  apply (parse_terminates (command_flags toy_env) [bs "-x"] [] 9 (command_flags_wf toy_env)).
  apply Nat.leb_le. reflexivity.
Defined.

(* ------------------------------------------------------------------ *)
(** ** Commands *)

(** A command with required flags does its work only when the flags
    parse, help was not asked for, the arguments are valid and every
    required flag was given; then it does it on the parsed flags and the
    arguments left.  Otherwise the world is as before and there is an
    error; a missing flag is named in it. *)
Theorem execute_guards {W : Type} (w : W) (c c0 : Command W) (a : list bytes)
    (run : W → FlagSet → list bytes → W * outcome unit) (g : FlagSet) :
  InitDefaultHelpFlag c = Ret c0 → RunE c0 = Some run → DisableFlagParsing c0 = false →
  FlagSet_Parse (c_flags c0) a = (g, None) →
  let allowed := GetBool g (bs "help") = Ret false ∧ ValidateArgs c0 (fs_args g) = None ∧
                 ∀ n flag, Lookup g n = Some flag → missing_flag flag = false in
  (allowed → execute w c a = run w g (fs_args g)) ∧
  (¬ allowed → ∃ e, execute w c a = (w, Fail e)) ∧
  (∀ n flag, Lookup g n = Some flag → missing_flag flag = true → f_Name flag ∈ missingFlagNames g).
Proof.
  intros Hi Hr Hd Hp allowed. split; [|split].
  - intros (Hh & Hv & Hm). apply missing_none in Hm.
    unfold execute, ParseFlags. rewrite Hi, Hd, Hp. cbn [with_flags c_flags RunE DisableFlagParsing c_Args].
    rewrite Hh, Hr, Hd. change (ValidateArgs (with_flags c0 g)) with (ValidateArgs c0). rewrite Hv.
    unfold validateRequiredFlags. cbn [with_flags c_flags]. by rewrite Hm.
  - intros Hna. destruct (execute_spec w c c0 run a Hi Hr Hd) as [(g' & Hp' & Hh & Hv & Hm & _)|He]; [|done].
    rewrite Hp in Hp'. injection Hp' as <-. by destruct Hna.
  - intros n flag E Hm. unfold missingFlagNames. apply list_elem_of_In, in_map, list_elem_of_In.
    rewrite list_elem_of_In, filter_In, <- list_elem_of_In, sortFlags_elem. split; [by exists n|done].
Qed.

Definition toy_command : Command nat :=
  MkCommand (bs "c") None false (Some (λ w _ _, (S w, Ret ()))) (NewFlagSet (bs "c")).

Lemma execute_guards_witness : execute 0 toy_command [bs "x"] = (1, Ret ()).
Proof.
  eapply (proj1 (execute_guards 0 toy_command _ [bs "x"] (λ w _ _, (S w, Ret ())) _ eq_refl eq_refl
    eq_refl eq_refl)).
  split; [vm_compute; reflexivity|]. split; [reflexivity|].
  apply missing_none. vm_compute. reflexivity.
Defined.

(** The validators accept by number of arguments as their names say, and
    [ExactArgs n] accepts as [RangeArgs n n], which accepts as both bounds
    together; [OnlyValidArgs] accepts when every argument is one of the
    valid ones, or none is declared. *)
Theorem argument_validators (path : bytes) (valid args : list bytes) (n m : nat) :
  (NoArgs path args = None ↔ args = []) ∧
  (ExactArgs n args = None ↔ length args = n) ∧
  (MinimumNArgs n args = None ↔ n ≤ length args) ∧
  (MaximumNArgs m args = None ↔ length args ≤ m) ∧
  (RangeArgs n m args = None ↔ MinimumNArgs n args = None ∧ MaximumNArgs m args = None) ∧
  (ExactArgs n args = None ↔ RangeArgs n n args = None) ∧
  (OnlyValidArgs path valid args = None ↔ valid = [] ∨ ∀ a, a ∈ args → a ∈ valid) ∧
  (ExactValidArgs path valid n args = None ↔
     ExactArgs n args = None ∧ OnlyValidArgs path valid args = None).
Proof.
  unfold ExactArgs, MinimumNArgs, MaximumNArgs, RangeArgs, ExactValidArgs, ExactArgs.
  split; [by destruct args|].
  assert (∀ (b : bool) (e : error), (if b then Some e else None) = None ↔ b = false) as Hb by by intros [] e.
  rewrite !Hb, negb_false_iff, orb_false_iff, Nat.eqb_eq, !orb_false_iff, !Nat.ltb_ge.
  do 3 (split; [done|]). split; [done|]. split; [lia|]. split.
  - unfold OnlyValidArgs. destruct valid as [|v0 valid0]; [naive_solver|]. set (valid := v0 :: valid0).
    assert (valid ≠ []) as Hne by done. clearbody valid.
    destruct (List.find _ args) as [v|] eqn:E.
    + apply find_some in E as [Hin Hv]. split; [done|]. intros [|H]; [done|].
      apply list_elem_of_In, H in Hin. apply negb_true_iff in Hv.
      assert (existsb (bytes_equal v) valid = true); [|congruence].
      apply existsb_exists. exists v. split; [by apply list_elem_of_In|]. by apply bytes_equal_true.
    + split; [|done]. intros _. right. intros a Ha%list_elem_of_In.
      pose proof (find_none _ _ E a Ha) as Hv. cbn in Hv. apply negb_false_iff, existsb_exists in Hv.
      destruct Hv as (x & Hx & ->%bytes_equal_true). by apply list_elem_of_In.
  - destruct (Nat.eqb_spec (length args) n); cbn; [by intuition|naive_solver].
Qed.
