(* ===== verification/SensuFacts.v ===== *)
(** * Lemmas on the Sensu side: names, checks, windows and histories *)

From S2P Require Import Prelude GoStd GoStdFacts GoTime TimeWindow GoNet GoNetFacts Pflag.
From S2P Require Import CommandLineFacts Sensu.

(* ------------------------------------------------------------------ *)
(** ** Sequences of checks *)

Lemma or_else_None a b : (a ||| b) = None ↔ a = None ∧ b = None.
Proof. destruct a; cbn; naive_solver. Qed.
Lemma prefix_error_None text e : prefix_error text e = None ↔ e = None.
Proof. by destruct e. Qed.
Lemma fail_if_None g text : fail_if g text = None ↔ g = false.
Proof. by destruct g. Qed.
Lemma of_error_Ret e : of_error e = Ret () ↔ e = None.
Proof. by destruct e. Qed.
Lemma bind_Ret_unit {A} (m : outcome unit) (k : outcome A) (a : A) :
  (_ ← m; k) = Ret a ↔ m = Ret () ∧ k = Ret a.
Proof. destruct m as [[]|e|]; cbn; naive_solver. Qed.
Lemma of_error_bind {A} (e : option error) (k : outcome A) (a : A) :
  (_ ← of_error e; k) = Ret a ↔ e = None ∧ k = Ret a.
Proof. by rewrite bind_Ret_unit, of_error_Ret. Qed.
Lemma wrapped_Ret {A} text (m : outcome A) a : wrapped text m = Ret a ↔ m = Ret a.
Proof. by destruct m. Qed.
Lemma when_None (g : bool) (e : option error) : (if g then e else None) = None ↔ (g = true → e = None).
Proof. destruct g; naive_solver. Qed.
Lemma is_empty_true s : is_empty s = true ↔ s = [].
Proof. by destruct s. Qed.
Lemma is_empty_false s : is_empty s = false ↔ s ≠ [].
Proof. by destruct s. Qed.

Lemma forallb_Forall {A} (p : A → bool) l : forallb p l = true ↔ Forall (λ x, p x = true) l.
Proof. rewrite forallb_forall, Forall_forall. by setoid_rewrite list_elem_of_In. Qed.

(* ------------------------------------------------------------------ *)
(** ** Names *)

(** A word of a character class. *)
Definition word_of (class : ascii → bool) (s : bytes) : Prop :=
  s ≠ [] ∧ Forall (λ c, class c = true) s.

(** The language of [\A[class]+\:?[class]+\z]. *)
Definition subscription_of (class : ascii → bool) (s : bytes) : Prop :=
  ∃ a sep b, s = a ++ sep ++ b ∧ (sep = [] ∨ sep = bs ":") ∧ word_of class a ∧ word_of class b.

Lemma match_plus_iff class s : match_plus class s = true ↔ word_of class s.
Proof.
  unfold match_plus, word_of. rewrite <- forallb_Forall. destruct s; naive_solver.
Qed.

Lemma validateName_iff rexp s : rexp [] = false → validateNameWithPattern rexp s = None ↔ rexp s = true.
Proof.
  intros H. unfold validateNameWithPattern. destruct s as [|c s]; [by rewrite H|].
  by destruct (rexp (c :: s)).
Qed.

Lemma word_of_app class a b : word_of class a → word_of class b → word_of class (a ++ b).
Proof.
  intros [Ha Fa] [Hb Fb]. split; [by destruct a|]. by apply Forall_app.
Qed.

Lemma match_subscription_iff class s : class ":"%char = false →
  match_subscription class s = true ↔ subscription_of class s.
Proof.
  intros Hc. assert (∀ w, word_of class w → ":"%char ∉ w) as Hno.
  { intros w [_ Hw] Hin. rewrite Forall_forall in Hw. by rewrite (Hw _ Hin) in Hc. }
  unfold match_subscription. pose proof (cut_byte_spec ":" s) as Hs.
  destruct (cut_byte ":" s) as [a [b|]] eqn:Ecut; destruct Hs as [-> Ha].
  - rewrite andb_true_iff, !match_plus_iff. split.
    + intros [? ?]. exists a, (bs ":"), b. naive_solver.
    + intros (a' & sep & b' & E & [-> | ->] & Ha' & Hb').
      * exfalso. apply (Hno _ (word_of_app _ _ _ Ha' Hb')). cbn in E. rewrite <- E.
        rewrite elem_of_app. right. by left.
      * cbn in E. rewrite (E : a ++ ":"%char :: b = a' ++ ":"%char :: b') in Ecut.
        rewrite cut_byte_plain in Ecut by by apply Hno. by injection Ecut as <- <-.
  - rewrite andb_true_iff, match_plus_iff, Nat.leb_le. split.
    + intros [[_ Hw] Hl]. destruct s as [|c1 [|c2 s]]; [cbn in Hl; lia|cbn in Hl; lia|].
      exists [c1], [], (c2 :: s). apply Forall_cons in Hw as [H1 Hw].
      repeat split; try done; [by left|by constructor].
    + intros (a' & sep & b' & -> & [-> | ->] & Ha' & Hb').
      * split; [by apply word_of_app|]. destruct Ha' as [Ha' _], Hb' as [Hb' _].
        destruct a', b'; try done. cbn. rewrite length_app. cbn. lia.
      * exfalso. apply Ha. rewrite elem_of_app. right. by left.
Qed.

(** A loop that stops at the first error. *)
Lemma assets_None l : validate_assets l = None ↔ Forall (word_of asset_class) l.
Proof.
  induction l as [|a l IH]; [split; [constructor|done]|].
  change (validate_assets (a :: l)) with
    (prefix_error "asset's %s" (ValidateAssetName a) ||| validate_assets l).
  rewrite or_else_None, prefix_error_None, IH, Forall_cons, <- match_plus_iff.
  assert (ValidateAssetName a = None ↔ match_plus asset_class a = true) as ->; [|done].
  unfold ValidateAssetName. destruct a as [|c a]; [done|]. by destruct (match_plus _ _).
Qed.

(* ------------------------------------------------------------------ *)
(** ** Environment variables *)

(** [FOO=BAR]. *)
Definition assignment (v k x : bytes) : Prop :=
  v = k ++ "="%char :: x ∧ k ≠ [] ∧ x ≠ [] ∧ "="%char ∉ k ∧ "="%char ∉ x.

Lemma validateVar_iff v : validateVar v = None ↔ ∃ k x, assignment v k x.
Proof.
  unfold validateVar, assignment. split.
  - destruct (split_byte "=" v) as [|a [|b [|]]] eqn:E; try done.
    apply split_byte_two in E as (-> & Ha & Hb). intros Hl.
    exists a, b. destruct a as [|a0 a]; [done|]. by destruct b as [|b0 b].
  - intros (k & x & -> & Hk & Hx & Hk' & Hx').
    rewrite (proj2 (split_byte_two "=" _ k x)) by done. by destruct k, x.
Qed.

Lemma ValidateEnvVars_iff vars : ValidateEnvVars vars = None ↔ Forall (λ v, ∃ k x, assignment v k x) vars.
Proof.
  induction vars as [|v vars IH]; [split; [constructor|done]|]. cbn. rewrite Forall_cons, <- validateVar_iff, <- IH.
  destruct (validateVar v); naive_solver.
Qed.
