(* ===== verification/SensuGuarantees.v ===== *)
(** * The guarantees of the Sensu side: validation, time windows, silencing
    and check histories *)

From stdpp Require Import sorting.
From S2P Require Import Prelude GoStd GoStdFacts GoFloat GoTime TimeWindow GoNet GoNetFacts.
From S2P Require Import Pflag CommandLineFacts Sensu SensuFacts.

(* ------------------------------------------------------------------ *)
(** ** Validation *)

(** The validators of names accept exactly the languages of their
    expressions: non-empty words of letters, digits, [_], [.] and [-];
    the same without upper case; and, for a subscription, two such words
    next to each other or around one colon, so that a subscription of one
    character is refused. *)
Theorem name_validators (s : bytes) :
  (ValidateName s = None ↔ word_of word_dot_dash s) ∧
  (ValidateNameStrict s = None ↔ word_of strict_class s) ∧
  (ValidateSubscriptionName s = None ↔ subscription_of word_dot_dash s) ∧
  (∀ c, ValidateSubscriptionName [c] ≠ None).
Proof.
  unfold ValidateName, ValidateNameStrict, ValidateSubscriptionName.
  assert (∀ r, validateNameWithPattern (match_subscription word_dot_dash) r = None ↔
    subscription_of word_dot_dash r) as Hsub
    by (intros r; rewrite validateName_iff, match_subscription_iff by done; done).
  rewrite Hsub, !validateName_iff, !match_plus_iff by done.
  do 3 (split; [done|]). intros c.
  rewrite Hsub. intros (a & sep & b & E & _ & [Ha _] & [Hb _]).
  apply (f_equal length) in E. rewrite !length_app in E. destruct a, b; try done. cbn in E. lia.
Qed.

Section Check.
Context (ParseStandard_ok : bytes → bool) (ParseExpressions : list bytes → option error)
  (now : LocalTime).

(** What a check must satisfy. *)
Record valid_check (c : Check_) : Prop := {
  vc_name : word_of word_dot_dash (om_Name (c_Meta c));
  vc_schedule : if decide (Cron c = []) then (1 <= Interval c)%Z
                else (Interval c <= 0)%Z ∧ ParseStandard_ok (Cron c) = true;
  vc_ttl : (0 < Ttl c → Interval c < Ttl c ∧ 5 <= Ttl c)%Z;
  vc_assets : Forall (word_of asset_class) (RuntimeAssets c);
  vc_proxy : c_ProxyEntityName c = [] ∨ word_of word_dot_dash (c_ProxyEntityName c);
  vc_requests : ∀ p, c_ProxyRequests c = Some p →
    (SplayCoverage p <= 100)%Z ∧ (Splay p = true → SplayCoverage p ≠ 0%Z) ∧
    ParseExpressions (EntityAttributes p) = None;
  vc_format : OutputMetricFormat c = [] ∨ OutputMetricFormat c ∈ OutputMetricFormats;
  vc_flap : LowFlapThreshold c = 0%Z ∨ HighFlapThreshold c = 0%Z ∨
            (LowFlapThreshold c < HighFlapThreshold c)%Z;
  vc_env : Forall (λ v, ∃ k x, assignment v k x) (EnvVars c);
  vc_output : (0 <= MaxOutputSize c)%Z;
  vc_subdue : Validate_windows (Subdue c) now = Ret ()
}.

Definition is_test_check (c : Check_) : Prop :=
  om_Name (c_Meta c) = undocumentedTestCheckName.

Lemma ValidateName_iff s : ValidateName s = None ↔ word_of word_dot_dash s.
Proof. unfold ValidateName. by rewrite validateName_iff, match_plus_iff. Qed.

Lemma InArray_iff x l : x ≠ [] → InArray x l = true ↔ x ∈ l.
Proof.
  intros Hx. unfold InArray. destruct x as [|a x]; [done|].
  rewrite existsb_exists. split.
  - intros (y & Hy & ->%bytes_equal_true). by apply list_elem_of_In.
  - intros H. exists (a :: x). split; [by apply list_elem_of_In|by apply bytes_equal_true].
Qed.

Lemma proxy_iff p : Validate_proxy ParseExpressions p = None ↔
  (SplayCoverage p <= 100)%Z ∧ (Splay p = true → SplayCoverage p ≠ 0%Z) ∧
  ParseExpressions (EntityAttributes p) = None.
Proof.
  unfold Validate_proxy. rewrite !or_else_None, !fail_if_None, andb_false_iff, Z.eqb_neq, Z.ltb_ge.
  destruct (Splay p); naive_solver.
Qed.

Lemma format_iff s : (if negb (is_empty s) then ValidateOutputMetricFormat s else None) = None ↔
  s = [] ∨ s ∈ OutputMetricFormats.
Proof.
  unfold ValidateOutputMetricFormat. destruct (is_empty s) eqn:E.
  - apply is_empty_true in E as ->. cbn. naive_solver.
  - apply is_empty_false in E. cbn. rewrite fail_if_None, negb_false_iff, InArray_iff by done.
    naive_solver.
Qed.

Lemma schedule_iff c :
  (if negb (is_empty (Cron c)) then
     fail_if (0 <? Interval c)%Z "must only specify either an interval or a cron schedule"
     ||| fail_if (negb (ParseStandard_ok (Cron c))) "check cron string is invalid"
   else fail_if (Interval c <? 1)%Z "check interval must be greater than or equal to 1") = None ↔
  if decide (Cron c = []) then (1 <= Interval c)%Z
  else (Interval c <= 0)%Z ∧ ParseStandard_ok (Cron c) = true.
Proof.
  destruct (is_empty (Cron c)) eqn:E; cbn [negb].
  - apply is_empty_true in E. rewrite decide_True by done. by rewrite fail_if_None, Z.ltb_ge.
  - apply is_empty_false in E. rewrite decide_False by done.
    by rewrite or_else_None, !fail_if_None, negb_false_iff, Z.ltb_ge.
Qed.

Lemma proxy_name_iff s :
  (if negb (is_empty s) then prefix_error "proxy entity name " (ValidateName s) else None) = None ↔
  s = [] ∨ word_of word_dot_dash s.
Proof.
  destruct (is_empty s) eqn:E; cbn [negb].
  - apply is_empty_true in E. naive_solver.
  - apply is_empty_false in E. rewrite prefix_error_None, ValidateName_iff. naive_solver.
Qed.

Lemma requests_iff r :
  match r with Some p => Validate_proxy ParseExpressions p | None => None end = None ↔
  ∀ p, r = Some p → (SplayCoverage p <= 100)%Z ∧ (Splay p = true → SplayCoverage p ≠ 0%Z) ∧
    ParseExpressions (EntityAttributes p) = None.
Proof. destruct r as [p|]; [rewrite proxy_iff|]; naive_solver. Qed.

Lemma Validate_check_iff c :
  Validate_check ParseStandard_ok ParseExpressions now c = Ret () ↔ is_test_check c ∨ valid_check c.
Proof.
  unfold Validate_check, Validate_fields, is_test_check.
  destruct (bytes_equal (om_Name (c_Meta c)) undocumentedTestCheckName) eqn:Et.
  { apply bytes_equal_true in Et. naive_solver. }
  assert (om_Name (c_Meta c) ≠ undocumentedTestCheckName) as Ht
    by (intros E; apply bytes_equal_true in E; congruence).
  rewrite of_error_bind, !or_else_None, schedule_iff, proxy_name_iff, requests_iff, prefix_error_None,
    ValidateName_iff, assets_None, format_iff, ValidateEnvVars_iff, !fail_if_None, !andb_false_iff,
    !negb_false_iff, !Z.eqb_eq, !Z.ltb_ge, !Z.leb_gt.
  split.
  - intros H. right. destruct_and! H. split; try done; lia.
  - intros [|[]]; [done|]. repeat (split; [|by try lia]); by try lia.
Qed.

Lemma entity_iff e : Validate_entity e = None ↔
  word_of word_dot_dash (om_Name (e_Meta e)) ∧ word_of word_dot_dash (EntityClass e) ∧
  Namespace (e_Meta e) ≠ [].
Proof.
  unfold Validate_entity.
  rewrite !or_else_None, !prefix_error_None, !ValidateName_iff, fail_if_None, is_empty_false. naive_solver.
Qed.
End Check.

(** C34: an event validates exactly when it has an entity with a valid name,
    class and namespace, has a check or metrics, its check if any is the
    undocumented test check or satisfies every rule of a check (name,
    interval or cron, ttl, assets, proxy, metric format, flap thresholds,
    environment, output size, subdue windows), and it has no name of its
    own. *)
Theorem event_validation (ParseStandard_ok : bytes → bool)
    (ParseExpressions : list bytes → option error) (now : LocalTime) (e : Event) :
  Validate_event ParseStandard_ok ParseExpressions now e = Ret () ↔
  (∃ entity, ev_Entity e = Some entity ∧ word_of word_dot_dash (om_Name (e_Meta entity)) ∧
     word_of word_dot_dash (EntityClass entity) ∧ Namespace (e_Meta entity) ≠ []) ∧
  (is_Some (ev_Check e) ∨ is_Some (ev_Metrics e)) ∧
  (∀ c, ev_Check e = Some c →
     is_test_check c ∨ valid_check ParseStandard_ok ParseExpressions now c) ∧
  om_Name (ev_Meta e) = [].
Proof.
  unfold Validate_event. destruct (ev_Entity e) as [entity|]; [|split; [done|by intros [(? & ? & _) _]]].
  rewrite of_error_bind, or_else_None, prefix_error_None, entity_iff, fail_if_None.
  assert (negb (HasCheck e) && negb (HasMetrics e) = false ↔
    is_Some (ev_Check e) ∨ is_Some (ev_Metrics e)) as ->.
  { unfold HasCheck, HasMetrics. destruct (ev_Check e), (ev_Metrics e); cbn; try naive_solver. }
  assert (match ev_Check e with
          | Some c => wrapped "check is invalid: " (Validate_check ParseStandard_ok ParseExpressions now c)
          | None => Ret () end = Ret () ↔
          ∀ c, ev_Check e = Some c → is_test_check c ∨ valid_check ParseStandard_ok ParseExpressions now c) as Ec.
  { destruct (ev_Check e) as [c|]; [rewrite wrapped_Ret, Validate_check_iff|]; naive_solver. }
  rewrite bind_Ret_unit, Ec, of_error_Ret, or_else_None, fail_if_None, negb_false_iff, is_empty_true.
  assert (match ev_Metrics e with
          | Some m => prefix_error "metrics are invalid: " (Validate_metrics m) | None => None end = None) as Em
    by by destruct (ev_Metrics e).
  naive_solver.
Qed.

(** Environment variables validate exactly when each is [K=V] with one
    equals sign and both sides non-empty; [EnvVarsToMap] then maps every key
    to the value of its last assignment, and has no other key. *)
Theorem env_vars (vars : list bytes) :
  (ValidateEnvVars vars = None ↔ ∃ pairs, Forall2 (λ v p, assignment v p.1 p.2) vars pairs) ∧
  (∀ pairs, Forall2 (λ v p, assignment v p.1 p.2) vars pairs →
     EnvVarsToMap vars = list_to_map (reverse pairs)).
Proof.
  split.
  - rewrite ValidateEnvVars_iff. split.
    + induction 1 as [|v vars (k & x & H) _ [pairs IH]]; [by exists []|]. exists ((k, x) :: pairs).
      by constructor.
    + intros [pairs H]. induction H as [|v [k x] vars pairs Hv _ IH]; constructor; [by exists k, x|done].
  - intros pairs H. unfold EnvVarsToMap.
    assert (∀ m : gmap bytes bytes, foldl (λ result v, match split_byte "=" v with
        | a :: b :: _ => <[a := b]> result | _ => result end) m vars
      = list_to_map (reverse pairs) ∪ m) as Hm; [|by rewrite Hm, (right_id_L ∅ (∪))].
    induction H as [|v [k x] vars pairs (-> & _ & _ & Hk & Hx) _ IH]; intros m; cbn [foldl].
    + cbn. by rewrite (left_id_L ∅ (∪)).
    + rewrite (proj2 (split_byte_two "=" _ k x)) by done. rewrite IH, reverse_cons, list_to_map_app.
      cbn [list_to_map foldr fst snd]. rewrite <- (assoc_L (∪)). by rewrite <- insert_union_l, (left_id_L ∅ (∪)).
Qed.

(* ------------------------------------------------------------------ *)
(** ** Time windows *)

(** A window whose ends parse contains the instants from its begin to its
    end, both included; when the end is before the begin it contains the
    instants of the day before the end and those from the begin on, so that
    its very end is left out. The day is the date of the current time in its
    own location, and the hours are in UTC. *)
Theorem window_membership (t : TimeWindowTimeRange) (current : LocalTime) (bh bm eh em : Z) :
  parse_kitchen (replace_all (Begin t) (bs " ") []) = Ret (bh, bm) →
  parse_kitchen (replace_all (End_ t) (bs " ") []) = Ret (eh, em) →
  let now := (nano_of_day current - zone_offset current)%Z in
  let b := day_nano bh bm in
  let e := day_nano eh em in
  ∃ inside, InWindow (Some t) current = Ret inside ∧
    (inside = true ↔ if (e <? b)%Z then (0 <= now < e ∨ b <= now < 24 * Hour)%Z else (b <= now <= e)%Z).
Proof.
  intros Eb Ee now b e. unfold InWindow. rewrite Eb. cbn [mbind outcome_bind]. rewrite Ee.
  cbn [mbind outcome_bind]. unfold since_midnight. fold now b e.
  destruct (Z.ltb_spec e b); [destruct (Z.ltb_spec now e)|]; eexists; (split; [reflexivity|]);
    rewrite andb_true_iff, !Z.leb_le;
    unfold Hour, Minute, Second, Millisecond, Microsecond, Nanosecond; lia.
Qed.

(** At two in the morning in UTC, a location five hours to the west has the
    evening before, and the window from one to three is missed. *)
Lemma window_membership_witness :
  let t := MkRange (bs "1:00 AM") (bs "3:00AM") in
  InWindow (Some t) (MkUTC Tue (2 * Hour)) = Ret true ∧
  InWindow (Some t) (MkLocal Mon (21 * Hour) (-5 * Hour)) = Ret false.
Proof.
  assert (∀ current, _) as H by
    (intros current; exact (window_membership (MkRange (bs "1:00 AM") (bs "3:00AM")) current
       1 0 3 0 ltac:(by vm_compute) ltac:(by vm_compute))).
  split.
  - destruct (H (MkUTC Tue (2 * Hour))) as ([] & -> & Hi); [done|].
    exfalso. enough (false = true) by done. apply Hi. by vm_compute.
  - destruct (H (MkLocal Mon (21 * Hour) (-5 * Hour))) as ([] & -> & Hi); [|done].
    exfalso. destruct (proj1 Hi eq_refl) as [_ Hc]. by vm_compute in Hc.
Defined.

Lemma in_windows_spec ws current : (∀ w, w ∈ ws → ∃ b, InWindow w current = Ret b) →
  ∃ inside, in_windows ws current = Ret inside ∧
    (inside = true ↔ ∃ w, w ∈ ws ∧ InWindow w current = Ret true).
Proof.
  induction ws as [|w ws IH]; intros H.
  - exists false. split; [done|]. split; [done|]. by intros (w & ?%elem_of_nil & _).
  - destruct (H w) as [b E]; [by left|]. cbn. rewrite E. cbn [mbind outcome_bind].
    destruct b.
    + exists true. split; [done|]. split; [|done]. intros _. exists w. split; [by left|done].
    + destruct IH as (inside & -> & Hi); [intros w' Hw'; apply H; by right|].
      exists inside. split; [done|]. rewrite Hi. split; intros (w' & Hw' & E').
      * exists w'. split; [by right|done].
      * apply elem_of_cons in Hw' as [->|Hw']; [congruence|]. by exists w'.
Qed.

(** Windows that validate never make [InWindows] fail, at any time: it
    answers whether some window of every day, or of the current weekday,
    contains the current time. *)
Theorem validated_windows (t : TimeWindowWhen) (now current : LocalTime) :
  Validate_windows (Some t) now = Ret () →
  ∃ inside, InWindows t current = Ret inside ∧
    (inside = true ↔ ∃ w, w ∈ All (Days t) ++ day_windows (Days t) (weekday current) ∧
                          InWindow w current = Ret true).
Proof.
  intros H. unfold InWindows. apply in_windows_spec. intros w Hw.
  destruct (proj1 (validate_ranges_ok _ _) H w) as [b Eb].
  - revert Hw. unfold MapTimeWindows. cbn [concat]. rewrite !elem_of_app.
    destruct (weekday current); cbn [day_windows]; tauto.
  - rewrite (InWindow_any w current now), Eb. destruct (InWindow w current) as [b'|e|] eqn:E; [by exists b'|..];
      rewrite (InWindow_any w now current), E in Eb; done.
Qed.

Definition toy_windows : TimeWindowWhen :=
  MkWhen (MkDays [Some (MkRange (bs "1:00AM") (bs "2:00AM"))] [] [Some (MkRange (bs "9:00PM") (bs "3:00AM"))]
            [] [] [] [] []).

Lemma validated_windows_witness :
  ∃ inside, InWindows toy_windows (MkUTC Mon (90 * Minute)) = Ret inside ∧
    (inside = true ↔ ∃ w, w ∈ All (Days toy_windows) ++ Monday (Days toy_windows) ∧
                          InWindow w (MkUTC Mon (90 * Minute)) = Ret true).
Proof.
  apply (validated_windows toy_windows (MkUTC Sun 0) (MkUTC Mon (90 * Minute))). vm_compute. reflexivity.
Defined.

(* ------------------------------------------------------------------ *)
(** ** Silencing *)

(** An entry silences the check [check] on [entity], subscribed as [subs]. *)
Definition silences (check : bytes) (subs : list bytes) (entity : Entity) (now : Z) (s : Silenced) : Prop :=
  (s_Begin s = 0 ∨ s_Begin s < now)%Z ∧
  (om_Name (s_Meta s) = bs "*:" ++ check ∨
   ∃ sub, (sub = GetEntitySubscription (om_Name (e_Meta entity)) ∨
           sub ≠ [] ∧ sub ∈ subs ∧ sub ∈ e_Subscriptions entity) ∧
     (om_Name (s_Meta s) = sub ++ bs ":*" ∨ om_Name (s_Meta s) = sub ++ bs ":" ++ check)).

Lemma by_subscription_iff name check entity_subs subs :
  silenced_by_subscription name check entity_subs subs = true ↔
  ∃ sub, (sub ≠ [] ∧ sub ∈ subs ∧ sub ∈ entity_subs) ∧
    (name = sub ++ bs ":*" ∨ name = sub ++ bs ":" ++ check).
Proof.
  assert (∀ s, InArray s entity_subs = true ↔ s ≠ [] ∧ s ∈ entity_subs) as Hin.
  { intros s. destruct s as [|x s]; [split; [done|naive_solver]|]. rewrite InArray_iff by done. naive_solver. }
  induction subs as [|s subs IH]; cbn [silenced_by_subscription].
  - split; [done|]. by intros (? & (_ & ?%elem_of_nil & _) & _).
  - setoid_rewrite elem_of_cons. destruct (InArray s entity_subs) eqn:E; cbn [negb].
    + apply Hin in E.
      destruct (bytes_equal name (s ++ bs ":*")) eqn:E1; [apply bytes_equal_true in E1; naive_solver|].
      destruct (bytes_equal name (s ++ bs ":" ++ check)) eqn:E2; [apply bytes_equal_true in E2; naive_solver|].
      rewrite IH. split; [naive_solver|]. intros (sub & (Hne & [->|Hs] & He) & [Hn|Hn]); [..|naive_solver|naive_solver].
      * apply bytes_equal_true in Hn. congruence.
      * apply bytes_equal_true in Hn. congruence.
    + rewrite IH. split; [naive_solver|]. intros (sub & (Hne & [->|Hs] & He) & Hn); [|naive_solver].
      assert (InArray s entity_subs = true) by (by apply Hin). congruence.
Qed.

Lemma IsSilencedBy_iff e c entity s now : ev_Check e = Some c → ev_Entity e = Some entity →
  ∃ b, IsSilencedBy e s now = Ret b ∧
    (b = true ↔ silences (om_Name (c_Meta c)) (c_Subscriptions c) entity now s).
Proof.
  intros Ec Ee. unfold IsSilencedBy, silences, StartSilence. rewrite Ec, Ee.
  set (name := om_Name (s_Meta s)). set (check := om_Name (c_Meta c)).
  set (esub := GetEntitySubscription (om_Name (e_Meta entity))). clearbody name check esub.
  assert ((s_Begin s = 0 ∨ s_Begin s < now)%Z ↔
    (if (s_Begin s =? 0)%Z then true else (s_Begin s <? now)%Z) = true) as Hst.
  { destruct (Z.eqb_spec (s_Begin s) 0); [naive_solver|]. rewrite Z.ltb_lt. naive_solver. }
  destruct (if (s_Begin s =? 0)%Z then true else (s_Begin s <? now)%Z); cbn [negb];
    [|exists false; naive_solver].
  destruct (bytes_equal name (bs "*:" ++ check)) eqn:E0; [apply bytes_equal_true in E0; exists true; naive_solver|].
  destruct (bytes_equal name (esub ++ bs ":*")) eqn:E1; [apply bytes_equal_true in E1; exists true; naive_solver|].
  destruct (bytes_equal name (esub ++ bs ":" ++ check)) eqn:E2;
    [apply bytes_equal_true in E2; exists true; naive_solver|].
  eexists. split; [reflexivity|]. rewrite by_subscription_iff.
  assert (∀ a b, bytes_equal a b = false → a ≠ b) as Hne
    by (intros a b E ->; rewrite (proj2 (bytes_equal_true b b)) in E; done).
  apply Hne in E0, E1, E2. naive_solver.
Qed.

(** The silences that apply to the event of a check are, in order, the
    entries that have started and whose name is the check's for all
    subscriptions, or that of the entity's subscription or of a subscription
    the check and the entity share, for every check or for this one. *)
Theorem silencing (e : Event) (c : Check_) (entity : Entity) (entries : list Silenced) (now : Z) :
  ev_Check e = Some c → ev_Entity e = Some entity →
  ∃ p, SilencedBy e entries now = Ret (List.filter p entries) ∧
    ∀ s, p s = true ↔ silences (om_Name (c_Meta c)) (c_Subscriptions c) entity now s.
Proof.
  intros Ec Ee.
  exists (λ s, match IsSilencedBy e s now with Ret b => b | _ => false end). split.
  - unfold SilencedBy, HasCheck. rewrite Ec. cbn [negb].
    induction entries as [|s entries IH]; [done|]. cbn [silenced_by List.filter].
    destruct (IsSilencedBy_iff e c entity s now Ec Ee) as (b & -> & _). cbn [mbind outcome_bind].
    rewrite IH. cbn [mbind outcome_bind]. by destruct b.
  - intros s. by destruct (IsSilencedBy_iff e c entity s now Ec Ee) as (b & -> & H).
Qed.

Definition toy_check : Check_ :=
  MkCheck (MkMeta (bs "cpu") (bs "default") None None) 10 [] 0 0 [bs "linux"; bs "web"] [] [] [] None None
    [] [] 0 0 0 2 [] 100 [] 0 0 0 0 [] [] false.
Definition silence_entity : Entity :=
  MkEntity (MkMeta (bs "e1") (bs "default") None None) (bs "host") [bs "linux"] 0 false [].
Definition silence_event : Event :=
  MkEvent (MkMeta [] [] None None) 0 (Some silence_entity) (Some toy_check) None.
Definition entry (name : string) (begin : Z) : Silenced :=
  MkSilenced (MkMeta (bs name) [] None None) [] [] begin 0 false.

Lemma silencing_witness :
  let entries := [entry "linux:cpu" 0; entry "web:cpu" 0; entry "entity:e1:*" 200; entry "*:cpu" 50] in
  ∃ p, SilencedBy silence_event entries 100 = Ret (List.filter p entries) ∧
    ∀ s, p s = true ↔ silences (bs "cpu") [bs "linux"; bs "web"] silence_entity 100 s.
Proof. intros entries. apply (silencing silence_event toy_check silence_entity entries 100); reflexivity. Defined.

(* ------------------------------------------------------------------ *)
(** ** Check histories *)

Definition executed_le (a b : CheckHistory) : Prop := (h_Executed a <= h_Executed b)%Z.

(** The check flaps at [total] percent, from its state on arrival. *)
Definition flaps (c : Check_) (total : Z) : Prop :=
  LowFlapThreshold c ≠ 0%Z ∧ HighFlapThreshold c ≠ 0%Z ∧
  if decide (State c = EventFlappingState) then (LowFlapThreshold c < total)%Z
  else (HighFlapThreshold c <= total)%Z.

Lemma totalStateChange_history a b : History a = History b → totalStateChange a = totalStateChange b.
Proof. unfold totalStateChange. by intros ->. Qed.

Lemma isFlapping_iff c : isFlapping c = true ↔ flaps c (TotalStateChange c).
Proof.
  unfold isFlapping, flaps.
  destruct (Z.eqb_spec (LowFlapThreshold c) 0); [naive_solver|].
  destruct (Z.eqb_spec (HighFlapThreshold c) 0); [naive_solver|]. cbn [orb].
  destruct (decide (State c = EventFlappingState)) as [E|E].
  - apply bytes_equal_true in E as ->. rewrite Z.ltb_lt. naive_solver.
  - rewrite (proj2 (bytes_equal_false _ _)) by done. rewrite Z.leb_le. naive_solver.
Qed.

(** What [updateCheckState] sets. *)
Lemma updateCheckState_spec c :
  let c' := updateCheckState c in
  History c' = History c ∧ Occurrences c' = Occurrences c ∧
  OccurrencesWatermark c' = OccurrencesWatermark c ∧ TotalStateChange c' = totalStateChange c ∧
  ((flaps c (totalStateChange c) ∧ State c' = EventFlappingState ∧ LastOK c' = LastOK c) ∨
   (¬ flaps c (totalStateChange c) ∧ Status c = 0%Z ∧ State c' = EventPassingState ∧
      LastOK c' = Executed c) ∨
   (¬ flaps c (totalStateChange c) ∧ Status c ≠ 0%Z ∧ State c' = EventFailingState ∧
      LastOK c' = LastOK c)).
Proof.
  intros c'. subst c'. unfold updateCheckState.
  pose proof (isFlapping_iff (set_change c (totalStateChange c) (State c) (LastOK c))) as Hf.
  change (flaps (set_change c (totalStateChange c) (State c) (LastOK c)) _)
    with (flaps c (totalStateChange c)) in Hf.
  destruct (isFlapping _).
  - repeat split. left. by split; [apply Hf|].
  - assert (¬ flaps c (totalStateChange c)) as Hn by (intros H; by apply Hf in H).
    cbn [Status set_change]. destruct (Z.eqb_spec (Status c) 0); repeat split; right; [left|right]; done.
Qed.

(** Merging a check with its previous one adds its status to the history
    in the order of execution, drops the oldest entry beyond 21 so that the
    history never exceeds 21, copies the last OK time and the occurrences,
    and sets the state: flapping by the thresholds and the total change,
    with hysteresis; else passing, which updates the last OK time; else
    failing.  This holds for any sort that [sort.Sort] may be. *)
Theorem check_merge (sort_history : list CheckHistory → list CheckHistory) (c prev : Check_) :
  (∀ l, sort_history l ≡ₚ l ∧ StronglySorted executed_le (sort_history l)) →
  length (History prev) <= 21 →
  let c' := MergeWith sort_history c prev in
  length (History c') ≤ 21 ∧
  StronglySorted executed_le (History c') ∧
  (∃ dropped, dropped ++ History c' ≡ₚ History prev ++ [MkHistory (Status c) (Executed c)] ∧
     length dropped = length (History prev) - 20 ∧
     ∀ old h, old ∈ dropped → h ∈ History c' → executed_le old h) ∧
  Occurrences c' = Occurrences prev ∧ OccurrencesWatermark c' = OccurrencesWatermark prev ∧
  TotalStateChange c' = totalStateChange c' ∧
  ((flaps c (TotalStateChange c') ∧ State c' = EventFlappingState ∧ LastOK c' = LastOK prev) ∨
   (¬ flaps c (TotalStateChange c') ∧ Status c = 0%Z ∧ State c' = EventPassingState ∧
      LastOK c' = Executed c) ∨
   (¬ flaps c (TotalStateChange c') ∧ Status c ≠ 0%Z ∧ State c' = EventFailingState ∧
      LastOK c' = LastOK prev)).
Proof.
  intros Hsort Hlen c'.
  destruct (Hsort (History prev ++ [MkHistory (Status c) (Executed c)])) as [Hp Hs].
  set (sorted := sort_history (History prev ++ [MkHistory (Status c) (Executed c)])) in *.
  set (kept := if (21 <? length sorted)%nat then drop 1 sorted else sorted).
  assert (length sorted = S (length (History prev))) as Hl
    by (rewrite Hp, length_app; cbn; lia).
  destruct (updateCheckState_spec (set_history c kept prev)) as (Eh & Eo & Ew & Et & Es).
  change (updateCheckState (set_history c kept prev)) with c' in *.
  rewrite (totalStateChange_history c' (set_history c kept prev)) by done.
  rewrite Eh, Eo, Ew, Et. change (History (set_history c kept prev)) with kept.
  assert (∃ dropped, dropped ++ kept = sorted ∧ length dropped = length (History prev) - 20) as (dropped & Ed & El).
  { unfold kept. destruct (Nat.ltb_spec 21 (length sorted)).
    - exists (take 1 sorted). rewrite take_drop, length_take. split; [done|lia].
    - exists []. cbn. split; [done|lia]. }
  assert (length kept = length sorted - length dropped) as Hk by (rewrite <- Ed, length_app; lia).
  split; [lia|].
  rewrite <- Ed in Hs. apply StronglySorted_app in Hs as (Hord & _ & Hs).
  split; [done|]. split; [|by repeat split].
  exists dropped. rewrite Ed. split; [done|]. split; [done|]. intros old h Ho Hh. by apply Hord.
Qed.

Definition history_lt (a b : CheckHistory) : bool := (h_Executed a <? h_Executed b)%Z.

Lemma sort_history_ok l : sort history_lt l ≡ₚ l ∧ StronglySorted executed_le (sort history_lt l).
Proof.
  split; [apply sort_perm|]. induction l as [|x l IH]; [constructor|]. cbn.
  induction IH as [|y l' Hs IH Hy]; cbn; [repeat constructor|].
  unfold history_lt at 1. destruct (Z.ltb_spec (h_Executed y) (h_Executed x)) as [H|H].
  - constructor; [done|]. rewrite sort_insert_perm. constructor; [unfold executed_le; lia|done].
  - constructor; [by constructor|]. constructor; [done|].
    eapply Forall_impl; [exact Hy|]. unfold executed_le. intros z Hz. lia.
Qed.

Lemma check_merge_witness :
  let c' := MergeWith (sort history_lt) toy_check toy_check in
  length (History c') ≤ 21 ∧ State c' = EventFailingState.
Proof.
  destruct (check_merge (sort history_lt) toy_check toy_check sort_history_ok) as (H & _ & _ & _ & _ & _ & Hs).
  - vm_compute. apply Nat.leb_le. reflexivity.
  - split; [exact H|]. destruct Hs as [(_ & E & _)|[(_ & E & _)|(_ & _ & E & _)]]; [|done|exact E].
    vm_compute in E. discriminate.
Defined.
