(* ===== verification/StoreGuarantees.v ===== *)
(** * The guarantees of the store: its methods, and its keys *)

From S2P Require Import Prelude GoStd GoStdFacts GoNet GoTime TimeWindow Sensu SensuFacts.
From S2P Require Import StoreKeys StoreKeysFacts EtcdClient EtcdStore EtcdStoreFacts.

(** C30: whatever an etcd that behaves as documented holds, every method of the
    store does to its keys what its specification says, or returns the error
    of a call: [Create] writes a key that is not there, [Update] one that is,
    both only when the namespace is there, and an error of the right type
    otherwise; [Get] reads and [Delete] removes one key; [CreateOrUpdate]
    writes, and panics when the namespace is not there; [DeleteNamespace]
    leaves a namespace with checks, entities, assets, handlers or mutators. *)
Theorem store_methods `{EtcdLaws St} {object : Type} (Marshal : object → outcome bytes)
    (unmarshal : bytes → outcome object) (key namespace : bytes) (o : object) :
  refines (Create Marshal key namespace o) (spec_Create Marshal key namespace o) ∧
  refines (Update Marshal key namespace o) (spec_Update Marshal key namespace o) ∧
  refines (CreateOrUpdate Marshal key namespace o) (spec_CreateOrUpdate Marshal key namespace o) ∧
  refines (Get unmarshal key) (spec_Get unmarshal key) ∧
  refines (Delete key) (spec_Delete key) ∧
  refines (DeleteNamespace namespace) (spec_DeleteNamespace namespace).
Proof.
  split_and!; [apply Create_refines|apply Update_refines|apply CreateOrUpdate_refines|apply Get_refines
              |apply Delete_refines|apply DeleteNamespace_refines].
Qed.


(** Two assets of one name, in two namespaces. *)
Definition toy_meta (namespace name : bytes) : ObjectMeta := MkMeta name namespace None None.


(** Names that pass validation and are not plain make keys of other
    places: a check named by two dots has the key of all checks of all
    namespaces, one named by a dot that of its namespace, and an asset whose
    name climbs has the key of an asset of another namespace. *)
Theorem store_keys_escape (namespace other tool : bytes) :
  plain_name namespace → plain_name other → plain_name tool →
  Forall (λ c, asset_class c = true) (other ++ tool) →
  let check name := resource_path checkKeyBuilder (toy_meta namespace name) in
  let climbing := bs "../" ++ other ++ bs "/" ++ tool in
  ValidateName (bs "..") = None ∧ check (bs "..") = bs "/sensu.io/checks" ∧
  ValidateName (bs ".") = None ∧ check (bs ".") = bs "/sensu.io/checks/" ++ namespace ∧
  ValidateAssetName climbing = None ∧
  resource_path assetKeyBuilder (toy_meta namespace climbing) =
    resource_path assetKeyBuilder (toy_meta other tool).
Proof.
  intros Hns Ho Ht Hclass check climbing.
  assert (negb (is_empty namespace) = true) as Hf by (destruct namespace; [by destruct (plain_filled _ Hns)|done]).
  assert (split_byte slash namespace = [namespace]) as Sn by apply split_byte_plain, Hns.
  assert (∀ type name, plain_name type → name ≠ [] →
    resource_path (NewKeyBuilder type) (toy_meta namespace name) =
    slash :: join keySeparator (rev (foldl (clean_step true) [namespace; type; bs "sensu.io"] (split_byte slash name)))) as Hp.
  { intros type name Hty Hname. unfold resource_path, Build.
    cbn [kb_namespace WithNamespace Namespace toy_meta om_Name resourceName NewKeyBuilder app].
    rewrite Hf, path_Join_fold. cbn [map concat last]. rewrite Sn, split_byte_plain, app_nil_r by apply Hty.
    cbn [app foldl]. rewrite !clean_step_plain by done. by destruct name. }
  assert (plain_name (bs "checks") ∧ plain_name (bs "assets")) as [Hc Ha]
    by (repeat split; try discriminate; by apply (bool_decide_unpack _)).
  split_and!; [done| |done| |..].
  - unfold check. change checkKeyBuilder with (NewKeyBuilder (bs "checks")). rewrite Hp by done.
    change (split_byte slash (bs "..")) with [bs ".."]. cbn [foldl]. by rewrite clean_step_up.
  - unfold check. change checkKeyBuilder with (NewKeyBuilder (bs "checks")). by rewrite Hp by done.
  - unfold ValidateAssetName, match_plus, climbing. cbn [bs app String.list_ascii_of_string].
    assert (forallb asset_class (other ++ slash :: tool) = true) as E; [|cbn [forallb]; by rewrite E].
    apply Forall_app in Hclass as [H1 H2]. apply forallb_forall. intros c Hin. apply in_app_or in Hin.
    rewrite Forall_forall in H1, H2. destruct Hin as [Hin|[<-|Hin]]; [|done|];
      apply list_elem_of_In in Hin; [by apply H1|by apply H2].
  - rewrite (resource_path_plain _ (toy_meta other tool)) by (try done; repeat constructor; done).
    change assetKeyBuilder with (NewKeyBuilder (bs "assets")). rewrite Hp by done.
    assert (split_byte slash climbing = [bs ".."; other; tool]) as ->.
    { unfold climbing. change (split_byte slash (bs "../" ++ other ++ bs "/" ++ tool)) with
        (bs ".." :: split_byte slash (other ++ slash :: tool)). f_equal.
      rewrite split_byte_app by apply Ho. f_equal. apply split_byte_plain, Ht. }
    cbn [foldl]. rewrite clean_step_up, !clean_step_plain by done. reflexivity.
Qed.

Lemma store_keys_escape_witness :
  ValidateAssetName (bs "../prod/tool") = None ∧
  resource_path assetKeyBuilder (toy_meta (bs "dev") (bs "../prod/tool")) =
    resource_path assetKeyBuilder (toy_meta (bs "prod") (bs "tool")).
Proof.
  assert (plain_name (bs "dev") ∧ plain_name (bs "prod") ∧ plain_name (bs "tool")) as (H1 & H2 & H3)
    by (repeat split; try discriminate; by apply (bool_decide_unpack _)).
  destruct (store_keys_escape (bs "dev") (bs "prod") (bs "tool") H1 H2 H3) as (_ & _ & _ & _ & Hv & He);
    [repeat constructor|]. split; [exact Hv|exact He].
Defined.

(** C32: a client that lists the objects of a namespace by pages of any size,
    and asks for the next page as long as there is a token, comes to an end
    and has read every object of the namespace, once and in the order of the
    keys, and nothing of another namespace; or it has the error of a call. *)
Theorem list_pages `{EtcdLaws St} {object : Type} (unmarshal : bytes → outcome object) (init : object → object)
    (name_of : object → bytes) (b : KeyBuilder) (namespace : bytes) (kos : list (bytes * object))
    (limit : Z) (s : St) :
  tame_builder b → plain_name namespace → (0 ≤ limit)%Z →
  well_stored unmarshal init name_of b namespace (contents s) kos →
  (∃ e, call_fails e ∧
     (all_pages unmarshal init name_of b namespace (S (length kos)) limit [] s).1 = Ret (inr (other_error e))) ∨
  ∃ s', all_pages unmarshal init name_of b namespace (S (length kos)) limit [] s =
      (Ret (inl (map (λ ko, init ko.2) kos)), s') ∧
    contents s' = contents s.
Proof.
  intros Hb Hns Hl Hw.
  apply (all_pages_ok unmarshal init name_of b namespace Hb Hns _ kos limit Hw Hl (S (length kos)) [] kos s); [done|done|lia].
Qed.

(** Three checks of a namespace and one of another, by pages of two. *)
Definition toy_checks (ns : bytes) (names : list bytes) : gmap bytes bytes :=
  list_to_map (map (λ n, (resource_path checkKeyBuilder (toy_meta ns n), n)) names).

Lemma list_pages_witness :
  let m := toy_checks (bs "dev") [bs "disk"; bs "cpu"; bs "mem"] ∪ toy_checks (bs "dev-2") [bs "cpu"] in
  (all_pages (St := gmap bytes bytes) Ret id id checkKeyBuilder (bs "dev") 4 2 [] m).1 = Ret (inl [bs "cpu"; bs "disk"; bs "mem"]).
Proof.
  intros m.
  assert (well_stored Ret id id checkKeyBuilder (bs "dev") (contents m)
            [(bs "cpu", bs "cpu"); (bs "disk", bs "disk"); (bs "mem", bs "mem")]) as Hw.
  { split; [vm_compute; reflexivity|].
    repeat (apply Forall_cons; split); [..|by apply Forall_nil];
      (split; [repeat split; try discriminate; by apply (bool_decide_unpack _)|split; [reflexivity|]]).
    - exists (bs "cpu"). split; [vm_compute; reflexivity|reflexivity].
    - exists (bs "disk"). split; [vm_compute; reflexivity|reflexivity].
    - exists (bs "mem"). split; [vm_compute; reflexivity|reflexivity]. }
  assert (tame_builder checkKeyBuilder) as Hb by (repeat constructor; done).
  assert (plain_name (bs "dev")) as Hd by (repeat split; try discriminate; by apply (bool_decide_unpack _)).
  pose proof (list_pages (St := gmap bytes bytes) Ret id id checkKeyBuilder (bs "dev") _ 2 m Hb Hd ltac:(lia) Hw) as Hp.
  clear Hw. cbn [length map snd] in Hp. clearbody m.
  destruct Hp as [(e & [(? & ? & ? & m' & E)|[(? & ? & E)|[(? & ? & ? & E)|(? & ? & ? & E)]]] & _)|(m' & E & _)].
  - cbn in E. destruct (txn_on_map _ _ _ _). discriminate E.
  - discriminate E.
  - discriminate E.
  - cbn in E. discriminate E.
  - by rewrite E.
Defined.

(** A namespace whose name begins another's takes it along: the prefix of
    [DeleteNamespace] is the path without a separator; and it reports that
    the namespace does not exist. *)
Lemma delete_namespace_siblings :
  let dev := getNamespacePath (bs "dev") in
  let dev2 := getNamespacePath (bs "dev-2") in
  DeleteNamespace (bs "dev") (<[dev := bs "a"]> (<[dev2 := bs "b"]> ∅)) =
  (Ret (inr (other_error (Errorf "namespace %s does not exist" [bs "dev"]))), ∅).
Proof. vm_compute. reflexivity. Qed.
