(* ===== verification/EventHistory.v ===== *)
(** * Histories of checks: checks that stop changing stop flapping, and the
    occurrences of a result are counted *)

From stdpp Require Import sorting.
From S2P Require Import Prelude GoStd GoFloat GoTime TimeWindow Sensu EventJsonFacts SensuFacts.
From S2P Require Import SensuGuarantees GoStdFacts GoNet StoreKeys EtcdClient EtcdStore EventStore.

(* ------------------------------------------------------------------ *)
(** ** The change of a constant history *)

Lemma state_changes_constant s rest w : Forall (λ h, h_Status h = s) rest → ∀ changes,
  state_changes rest s changes w = changes.
Proof.
  intros H. revert w. induction H as [|h rest Hh _ IH]; intros w changes; [done|]. cbn [state_changes].
  rewrite Hh, Z.eqb_refl. apply IH.
Qed.

Lemma totalStateChange_constant c s : Forall (λ h, h_Status h = s) (History c) → totalStateChange c = 0%Z.
Proof.
  intros H. unfold totalStateChange. destruct (_ <? _)%nat; [done|]. apply Forall_rev in H.
  destruct (rev (History c)) as [|h rest]; [done|]. apply Forall_cons in H as [-> H].
  rewrite state_changes_constant by done. by vm_compute.
Qed.

(* ------------------------------------------------------------------ *)
(** ** Merging in turn *)

Definition result_entry (c : Check_) : CheckHistory := MkHistory (Status c) (Executed c).
Definition earlier (a b : CheckHistory) : Prop := (h_Executed a < h_Executed b)%Z.

(** The results of a check, merged in turn into the one stored before. *)
Definition merge_all (sort_history : list CheckHistory → list CheckHistory) (prev : Check_) (cs : list Check_)
  : Check_ := fold_left (λ prev c, MergeWith sort_history c prev) cs prev.

Section Merges.
Context (sort_history : list CheckHistory → list CheckHistory)
  (sort_ok : ∀ l, sort_history l ≡ₚ l ∧ StronglySorted executed_le (sort_history l)).

(** The history behind a merge: the one before with the new entry, less one
    of its oldest entries beyond 21. *)
Lemma merge_history c prev : length (History prev) ≤ 21 →
  length (History (MergeWith sort_history c prev)) ≤ 21 ∧
  (History (MergeWith sort_history c prev) ≡ₚ History prev ++ [result_entry c] ∨
   length (History prev) = 21 ∧
   ∃ d, d :: History (MergeWith sort_history c prev) ≡ₚ History prev ++ [result_entry c] ∧
     Forall (executed_le d) (History (MergeWith sort_history c prev))).
Proof.
  intros Hl. unfold MergeWith.
  match goal with |- context [updateCheckState ?c0] => destruct (updateCheckState_spec c0) as (-> & _) end.
  cbn [History set_history]. destruct (sort_ok (History prev ++ [result_entry c])) as [Hp Hs].
  change (MkHistory (Status c) (Executed c)) with (result_entry c).
  assert (length (sort_history (History prev ++ [result_entry c])) = S (length (History prev))) as El
    by (rewrite Hp, length_app; cbn; lia).
  destruct (Nat.ltb_spec 21 (length (sort_history (History prev ++ [result_entry c])))) as [H|H].
  - destruct (sort_history _) as [|d l]; [cbn in H; lia|]. cbn [drop length] in *. rewrite drop_0.
    split; [lia|]. right. split; [lia|]. exists d. split; [by rewrite Hp|]. by apply StronglySorted_inv in Hs as [_ ?].
  - split; [lia|]. by left.
Qed.

(** Behind [k] merges: the entries the store held before, and at least the
    [k] new ones, or new ones only. *)
Definition settling (s : Z) (k : nat) (rest : list Check_) (p : Check_) : Prop :=
  length (History p) ≤ 21 ∧ ∃ old new, History p ≡ₚ old ++ new ∧ (old ≠ [] → k ≤ length new) ∧
    Forall (λ h, h_Status h = s) new ∧ Forall (λ o, Forall (earlier o) new) old ∧
    Forall (λ c, Forall (λ h, earlier h (result_entry c)) (old ++ new)) rest.

Lemma settling_step s k c rest p : Status c = s → Forall (λ c', earlier (result_entry c) (result_entry c')) rest →
  settling s k (c :: rest) p → settling s (S k) rest (MergeWith sort_history c p).
Proof.
  intros Hc Hr (Hl & old & new & Hp & Hk & Hn & Ho & Hrest). apply Forall_cons in Hrest as [Hce Hrest].
  destruct (merge_history c p Hl) as [Hl' Hm]. split; [done|].
  assert (Forall (λ c', Forall (λ h, earlier h (result_entry c')) (old ++ new ++ [result_entry c])) rest) as Hrest'.
  { rewrite Forall_forall in Hrest, Hr |- *. intros c' Hin. rewrite app_assoc. apply Forall_app.
    split; [by apply Hrest|]. constructor; [by apply Hr|constructor]. }
  assert (Forall (λ h, h_Status h = s) (new ++ [result_entry c])) as Hn' by (apply Forall_app; by repeat constructor).
  assert (Forall (λ o, Forall (earlier o) (new ++ [result_entry c])) old) as Ho'.
  { apply Forall_app in Hce as [Hce _]. rewrite Forall_forall in Ho, Hce |- *. intros o Hin.
    apply Forall_app. split; [by apply Ho|]. constructor; [by apply Hce|constructor]. }
  destruct Hm as [Hm|(E21 & d & Hm & Hd)]; rewrite Hp, <- app_assoc in Hm.
  - exists old, (new ++ [result_entry c]). repeat split; try done. intros Hne. rewrite length_app. cbn. specialize (Hk Hne). lia.
  - destruct old as [|o old].
    + cbn [app] in *.
      assert (∀ P, Forall P (new ++ [result_entry c]) → Forall P (History (MergeWith sort_history c p))) as Hsub.
      { intros P HP. assert (Forall P (d :: History (MergeWith sort_history c p))) as [_ ?]%Forall_cons by (by rewrite Hm).
        done. }
      exists [], (History (MergeWith sort_history c p)). repeat split; try done; [by apply Hsub|].
      eapply Forall_impl; [exact Hrest'|]. cbn beta. intros c' H. by apply Hsub.
    + assert (d ∈ o :: old) as Hd'.
      { assert (d ∈ (o :: old) ++ new ++ [result_entry c]) as Hin by (rewrite <- Hm; by left).
        apply elem_of_app in Hin as [Hin|Hin]; [done|exfalso].
        apply Forall_cons in Ho' as [Ho' _]. rewrite Forall_forall in Ho'. apply Ho' in Hin as Hlt.
        assert (o ∈ d :: History (MergeWith sort_history c p)) as Hod by (rewrite Hm; by left).
        unfold earlier in Hlt. apply elem_of_cons in Hod as [->|Hod]; [lia|].
        rewrite Forall_forall in Hd. apply Hd in Hod. unfold executed_le in Hod. lia. }
      apply list_elem_of_split in Hd' as (l1 & l2 & E). rewrite E in *.
      exists (l1 ++ l2), (new ++ [result_entry c]).
      assert (History (MergeWith sort_history c p) ≡ₚ (l1 ++ l2) ++ new ++ [result_entry c]) as Hm'.
      { apply (Permutation_cons_inv (a := d)). rewrite Hm. by rewrite <- Permutation_middle, <- app_comm_cons. }
      repeat split; try done.
      * intros _. rewrite length_app. cbn. assert (l1 ++ d :: l2 ≠ []) as Hne by (by destruct l1). specialize (Hk Hne). lia.
      * apply Forall_app in Ho' as [? [_ ?]%Forall_cons]. by apply Forall_app.
      * eapply Forall_impl; [exact Hrest'|]. cbn beta. intros c'. rewrite !Forall_app, !Forall_cons. tauto.
Qed.

Lemma settling_all s cs : Forall (λ c, Status c = s) cs → StronglySorted earlier (map result_entry cs) → ∀ k p,
  settling s k cs p → settling s (k + length cs) [] (merge_all sort_history p cs).
Proof.
  induction 1 as [|c cs Hc _ IH]; intros Hs k p H; [by rewrite Nat.add_0_r|].
  cbn [map] in Hs. apply StronglySorted_inv in Hs as [Hs He]. cbn [length merge_all fold_left].
  rewrite Nat.add_succ_r. apply (IH Hs (S k)). apply settling_step; [done| |done]. exact (proj1 (Forall_map _ _ _) He).
Qed.

(** Behind 21 equal results the history is made of them. *)
Lemma settled_history s k p : settling s k [] p → 21 ≤ k → Forall (λ h, h_Status h = s) (History p).
Proof.
  intros (Hl & old & new & Hp & Hk & Hn & _) H21. rewrite Hp. apply Forall_app. split; [|done].
  destruct old as [|o old]; [done|]. specialize (Hk ltac:(done)). rewrite Hp, length_app in Hl. cbn in Hl. lia.
Qed.

(** The state behind a merge that leaves no change in the history. *)
Lemma MergeWith_settled c prev s : in_u32 (LowFlapThreshold c) → in_u32 (HighFlapThreshold c) → Status c = s →
  Forall (λ h, h_Status h = s) (History (MergeWith sort_history c prev)) →
  let c' := MergeWith sort_history c prev in
  TotalStateChange c' = 0%Z ∧ State c' = (if (s =? 0)%Z then EventPassingState else EventFailingState) ∧
  LastOK c' = (if (s =? 0)%Z then Executed c else LastOK prev).
Proof.
  intros Hlow Hhigh Hs Hh c'. unfold in_u32 in Hlow, Hhigh. apply totalStateChange_constant in Hh. revert Hh. subst c'. unfold MergeWith.
  set (c0 := set_history c _ prev). destruct (updateCheckState_spec c0) as (Eh & _ & _ & Et & Hst).
  rewrite (totalStateChange_history _ c0 Eh). intros H0. rewrite Et, H0 in *.
  assert (¬ flaps c0 0) as Hn.
  { intros (H1 & H2 & H3). change (LowFlapThreshold c0) with (LowFlapThreshold c) in *.
    change (HighFlapThreshold c0) with (HighFlapThreshold c) in *. case_decide; lia. }
  change (Status c0) with (Status c) in Hst. rewrite Hs in Hst. split; [done|].
  destruct (Z.eqb_spec s 0), Hst as [(? & _)|[(_ & ? & ? & ?)|(_ & ? & ? & ?)]]; by try (split; done).
Qed.
End Merges.


(** A check that flapped between 0 and 2, and then passes 21 times. *)
Definition flapping_check : Check_ :=
  set_history (set_change toy_check 90 EventFlappingState 0)
    (map (λ i, MkHistory (if Nat.even i then 0 else 2)%Z (Z.of_nat i)) (List.seq 0 21)) toy_check.
Definition passing_result (i : nat) : Check_ :=
  MkCheck (c_Meta toy_check) 60 [] 0 0 [] [] [] [] None None [] [] 0 20 60 0 EventFlappingState
    (Z.of_nat (100 + i)) [] 0 0 0 0 [] [] false.


Section Results.
Context (sort_history : list CheckHistory → list CheckHistory)
  (sort_ok : ∀ l, sort_history l ≡ₚ l ∧ StronglySorted executed_le (sort_history l)).

(** What [UpdateEvent] makes of a result and of the check stored before. *)
Definition step (prev c : Check_) : Check_ := updateOccurrences (MergeWith sort_history c prev).
Definition results (prev : Check_) (cs : list Check_) : Check_ := fold_left step cs prev.

(** Results executed one after the other, after all of the history. *)
Definition in_order (prev : Check_) (cs : list Check_) : Prop :=
  StronglySorted earlier (History prev ++ map result_entry cs).

Lemma sort_in_order l : StronglySorted earlier l → sort_history l = l.
Proof.
  intros Hl. destruct (sort_ok l) as [Hp Hs].
  apply (StronglySorted_unique_strong executed_le); [|done| |done].
  - intros x y Hx Hy Hxy Hyx. rewrite Hp in Hx.
    assert (x = y ∨ earlier x y ∨ earlier y x) as [?|[H|H]]; [|done|unfold earlier, executed_le in *; lia..].
    clear Hp Hs Hxy Hyx. induction Hl as [|z l Hl IH Hz]; [by apply elem_of_nil in Hx|].
    rewrite Forall_forall in Hz. apply elem_of_cons in Hx as [->|Hx]; apply elem_of_cons in Hy as [->|Hy]; auto.
  - clear Hp Hs. induction Hl as [|x l' _ IH Hx]; [constructor|]. constructor; [done|].
    eapply Forall_impl; [exact Hx|]. intros y. unfold earlier, executed_le. lia.
Qed.

(** The history keeps the newest 21 entries. *)
Lemma step_history prev c : StronglySorted earlier (History prev ++ [result_entry c]) → length (History prev) ≤ 21 →
  History (step prev c) = drop (length (History prev) - 20) (History prev ++ [result_entry c]).
Proof.
  intros Hs Hl.
  assert (History (step prev c) = History (MergeWith sort_history c prev)) as ->.
  { unfold step, updateOccurrences. by repeat case_match. }
  unfold MergeWith. change (MkHistory (Status c) (Executed c)) with (result_entry c). rewrite sort_in_order by done.
  match goal with |- context [updateCheckState ?c0] => destruct (updateCheckState_spec c0) as (-> & _) end.
  cbn [History set_history]. rewrite length_app. cbn [length].
  destruct (Nat.ltb_spec 21 (length (History prev) + 1)).
  - by replace (length (History prev) - 20) with 1 by lia.
  - replace (length (History prev) - 20) with 0 by lia. by rewrite drop_0.
Qed.
Lemma step_last prev c : StronglySorted earlier (History prev ++ [result_entry c]) → length (History prev) ≤ 21 →
  length (History (step prev c)) ≤ 21 ∧
  (∃ k, History (step prev c) = drop k (History prev ++ [result_entry c])) ∧
  match last (History prev) with
  | None => rev (History (step prev c)) = [result_entry c]
  | Some h => ∃ rest, rev (History (step prev c)) = result_entry c :: h :: rest
  end.
Proof.
  intros Hs Hl. rewrite step_history by done. split_and!; [rewrite length_drop, length_app; cbn; lia|by eexists|].
  destruct (last (History prev)) as [h|] eqn:El.
  - apply last_Some in El as [l El]. rewrite El in *. rewrite length_app in *. cbn [length] in *.
    exists (rev (drop (length l - 19) l)). rewrite <- (assoc_L (++)), drop_app_le by lia.
    replace (length l + 1 - 20) with (length l - 19) by lia. by rewrite rev_app_distr.
  - apply last_None in El as ->. reflexivity.
Qed.

(** The counters of a result, whose check was stored with these before. *)
Lemma step_counters prev c : StronglySorted earlier (History prev ++ [result_entry c]) → length (History prev) ≤ 21 →
  (0 ≤ Occurrences prev ≤ OccurrencesWatermark prev)%Z → (OccurrencesWatermark prev + 1 < two63)%Z →
  let same := match last (History prev) with Some h => (Status c =? h_Status h)%Z | None => false end in
  let reset := match last (History prev) with Some h => negb (Status c =? 0)%Z && (h_Status h =? 0)%Z | None => false end in
  Occurrences (step prev c) = (if same then Occurrences prev + 1 else 1)%Z ∧
  OccurrencesWatermark (step prev c) =
    (if reset then 1 else OccurrencesWatermark prev `max` Occurrences (step prev c))%Z.
Proof.
  intros Hs Hl Hocc Hw. destruct (step_last prev c Hs Hl) as (_ & _ & Hlast).
  assert (Occurrences (MergeWith sort_history c prev) = Occurrences prev ∧
    OccurrencesWatermark (MergeWith sort_history c prev) = OccurrencesWatermark prev) as [Eo Ew].
  { unfold MergeWith. match goal with |- context [updateCheckState ?c0] => destruct (updateCheckState_spec c0) as (_ & -> & -> & _) end.
    done. }
  assert (History (step prev c) = History (MergeWith sort_history c prev)) as Eh.
  { unfold step, updateOccurrences. by repeat case_match. }
  rewrite Eh in Hlast. unfold step, updateOccurrences. rewrite Eo, Ew.
  assert (∀ z, (0 ≤ z ≤ OccurrencesWatermark prev + 1)%Z → i64 z = z) as Hi.
  { intros z Hz. apply i64_id. unfold in_i64. lia. }
  destruct (last (History prev)) as [h|].
  - destruct Hlast as [rest ->]. cbn [h_Status result_entry].
    destruct (Z.eqb_spec (Status c) (h_Status h)) as [E|E];
      destruct (negb (Status c =? 0)%Z && (h_Status h =? 0)%Z) eqn:Er;
      cbn [Occurrences OccurrencesWatermark set_occurrences]; rewrite ?Ew, ?Hi by lia; try (split; [done|done]);
      case_match; cbn [Occurrences OccurrencesWatermark set_occurrences]; rewrite ?Ew, ?Hi by lia; lia.
  - rewrite Hlast. cbn [Occurrences OccurrencesWatermark set_occurrences]. rewrite ?Ew.
    destruct (Z.leb_spec 1 (OccurrencesWatermark prev)); cbn [Occurrences OccurrencesWatermark set_occurrences];
      rewrite ?Ew, ?Hi by lia; lia.
Qed.
(** Room for [n] more results in the history and the counters. *)
Record counted (n : nat) (p : Check_) : Prop := {
  counted_history : length (History p) ≤ 21;
  counted_order : (0 ≤ Occurrences p ≤ OccurrencesWatermark p)%Z;
  counted_room : (OccurrencesWatermark p + Z.of_nat n < two63)%Z
}.

Lemma StronglySorted_suffix {A} (R : A → A → Prop) l m : StronglySorted R (l ++ m) → StronglySorted R m.
Proof. by intros (_ & _ & H)%StronglySorted_app. Qed.

Lemma in_order_head prev c cs : in_order prev (c :: cs) → StronglySorted earlier (History prev ++ [result_entry c]).
Proof.
  unfold in_order. cbn [map]. change (result_entry c :: map result_entry cs) with ([result_entry c] ++ map result_entry cs).
  rewrite (assoc_L (++)). by intros (_ & ? & _)%StronglySorted_app.
Qed.

Lemma step_keeps n prev c cs : counted (S n) prev → in_order prev (c :: cs) →
  counted n (step prev c) ∧ in_order (step prev c) cs ∧ last (History (step prev c)) = Some (result_entry c).
Proof.
  intros [Hl Ho Hw] Hin. pose proof (in_order_head _ _ _ Hin) as Hs.
  destruct (step_last prev c Hs Hl) as (Hl' & [k Hk] & Hlast).
  destruct (step_counters prev c Hs Hl Ho ltac:(lia)) as [Eo Ew].
  split_and!.
  - constructor; [done| |]; rewrite Ew, ?Eo; repeat case_match; lia.
  - unfold in_order in Hin |- *. rewrite Hk. apply (StronglySorted_suffix _ (take k (History prev ++ [result_entry c]))).
    rewrite (assoc_L (++)), take_drop. by rewrite <- (assoc_L (++)).
  - assert (∃ rest, rev (History (step prev c)) = result_entry c :: rest) as [rest E]
      by (destruct (last (History prev)); [destruct Hlast as [rest ->]|rewrite Hlast]; by eexists).
    apply (f_equal (@rev _)) in E. rewrite rev_involutive in E. rewrite E. cbn [rev]. by rewrite last_snoc.
Qed.

Lemma results_keep cs : ∀ n prev, counted (length cs + n) prev → in_order prev cs →
  counted n (results prev cs) ∧ (cs ≠ [] → last (History (results prev cs)) = result_entry <$> last cs).
Proof.
  induction cs as [|c cs IH]; intros n prev Hc Hin; [done|]. cbn [length Nat.add] in Hc.
  destruct (step_keeps _ _ _ _ Hc Hin) as (Hc' & Hin' & Hl). cbn [results fold_left]. fold (results (step prev c) cs).
  destruct (IH n _ Hc' Hin') as [H1 H2]. split; [done|]. intros _. destruct cs as [|d cs]; [done|].
  change (last (c :: d :: cs)) with (last (d :: cs)). by apply H2.
Qed.

Lemma in_order_app prev cs ds n : counted (length cs + n) prev → in_order prev (cs ++ ds) →
  in_order prev cs ∧ in_order (results prev cs) ds.
Proof.
  revert prev. induction cs as [|c cs IH]; intros prev Hc Hin; cbn [app] in *.
  - split; [|done]. unfold in_order in *. cbn [map]. rewrite app_nil_r. by apply StronglySorted_app in Hin as (_ & ? & _).
  - cbn [length Nat.add] in Hc. destruct (step_keeps _ _ _ _ Hc Hin) as (Hc' & Hin' & _).
    destruct (IH _ Hc' Hin') as [_ H2]. split; [|done]. unfold in_order in Hin |- *.
    rewrite app_comm_cons, map_app, (assoc_L (++)) in Hin. by apply StronglySorted_app in Hin as (_ & ? & _).
Qed.

(** Results of the status that was stored last. *)
Lemma results_same s cs : Forall (λ c, Status c = s) cs → ∀ prev h, counted (length cs) prev → in_order prev cs →
  last (History prev) = Some h → h_Status h = s →
  Occurrences (results prev cs) = (Occurrences prev + Z.of_nat (length cs))%Z ∧
  OccurrencesWatermark (results prev cs) =
    (OccurrencesWatermark prev `max` (Occurrences prev + Z.of_nat (length cs)))%Z.
Proof.
  induction 1 as [|c cs Hc _ IH]; intros prev h Hn Hin Hh Hs.
  { cbn. destruct Hn. lia. }
  destruct (step_keeps _ _ _ _ Hn Hin) as (Hn' & Hin' & Hlast).
  pose proof (in_order_head _ _ _ Hin) as Hsort.
  destruct Hn as [Hl Ho Hw]. destruct (step_counters prev c Hsort Hl Ho ltac:(cbn in Hw; lia)) as [Eo Ew].
  rewrite Hh, Hc, Hs, Z.eqb_refl in Eo. rewrite Hh, Hc, Hs in Ew.
  assert (negb (s =? 0)%Z && (s =? 0)%Z = false) as Er by (by destruct (s =? 0)%Z).
  rewrite Er in Ew. cbn [results fold_left]. fold (results (step prev c) cs).
  destruct (IH _ _ Hn' Hin' Hlast Hc) as [-> ->]. rewrite Ew, Eo. cbn [length]. lia.
Qed.
End Results.


(** A check of the given status, executed at the given time. *)
Definition result_at (status executed : Z) : Check_ :=
  MkCheck (c_Meta toy_check) 60 [] 0 0 [] [] [] [] None None [] [] 0 0 0 status [] executed [] 0 0 0 0 [] [] false.


(** The first result of a check is stored as it is, and enters no history:
    the second one has one occurrence, whatever its status. *)
Lemma first_result_forgotten (sort_history : list CheckHistory → list CheckHistory) (first c : Check_) :
  (∀ l, sort_history l ≡ₚ l ∧ StronglySorted executed_le (sort_history l)) →
  History first = [] → Occurrences first = 0%Z → OccurrencesWatermark first = 0%Z →
  let second := step sort_history (updateOccurrences first) c in
  History second = [result_entry c] ∧ Occurrences second = 1%Z.
Proof.
  intros Hsort Hh Ho Hw second.
  assert (updateOccurrences first = set_occurrences first 1 1) as E.
  { unfold updateOccurrences. rewrite Hh. cbn [rev]. cbn [Occurrences OccurrencesWatermark set_occurrences].
    rewrite Hw. reflexivity. }
  subst second. rewrite E.
  assert (StronglySorted earlier (History (set_occurrences first 1 1) ++ [result_entry c])) as Hs
    by (cbn [History set_occurrences]; rewrite Hh; repeat constructor).
  assert (length (History (set_occurrences first 1 1)) ≤ 21) as Hl by (cbn [History set_occurrences]; rewrite Hh; cbn; lia).
  rewrite (step_history _ Hsort) by done. cbn [History set_occurrences]. rewrite Hh. split; [done|].
  destruct (step_counters _ Hsort _ _ Hs Hl) as [-> _]; cbn [History Occurrences OccurrencesWatermark set_occurrences];
    [lia|unfold two63; lia|by rewrite Hh].
Qed.
