(* ===== verification/EventStoreGuarantees.v ===== *)
(** * What storing an event reads and writes *)

From S2P Require Import Prelude GoStd GoStdFacts GoNet GoTime TimeWindow Sensu SensuFacts.
From S2P Require Import SensuGuarantees EventHistory StoreKeys StoreKeysFacts EtcdClient EtcdStore.
From S2P Require Import EtcdStoreFacts EventStore EventHistory StoreGuarantees.

(* ------------------------------------------------------------------ *)
(** ** Inversion of a method that succeeds *)

Section Inversion.
Context {St : Type}.

Lemma bind_inl {A B} (m : store_m St A) (f : A → store_m St B) s b s' :
  (m ≫= f) s = (Ret (inl b), s') → ∃ a s1, m s = (Ret (inl a), s1) ∧ f a s1 = (Ret (inl b), s').
Proof.
  unfold mbind, store_bind. destruct (m s) as [[[a|e]|e|] s1]; try discriminate. intros H. by exists a, s1.
Qed.

Lemma checked_inl {A} (wrap : error → store_error) (r : outcome A) (s : St) a s' :
  checked wrap r s = (Ret (inl a), s') → r = Ret a ∧ s' = s.
Proof. unfold checked. destruct r; try discriminate. by intros [= -> ->]. Qed.

Lemma call_inl_inv {A} (f : St → (A + error) * St) s a s' :
  call f s = (Ret (inl a), s') → f s = (inl a, s').
Proof. unfold call. destruct (f s) as [[?|?] ?]; try discriminate. by intros [= -> ->]. Qed.

Lemma ret_inl {A} (a b : A) (s s' : St) : (mret a : store_m St A) s = (Ret (inl b), s') → a = b ∧ s = s'.
Proof. by intros [= -> ->]. Qed.
End Inversion.

Section Events.
Context {St : Type} `{EtcdLaws St} (Marshal_event : Event → outcome bytes) (unmarshal_event : bytes → outcome Event).

(* ------------------------------------------------------------------ *)
(** ** Reading an event *)

Lemma getEventWithCheckPath_event event entity check : ev_Entity event = Some entity → ev_Check event = Some check →
  Namespace (e_Meta entity) ≠ [] →
  getEventWithCheckPath (Namespace (e_Meta entity)) (om_Name (e_Meta entity)) (om_Name (c_Meta check)) = getEventPath event.
Proof.
  intros He Hc Hn. unfold getEventWithCheckPath, getEventPath. rewrite He, Hc.
  by destruct (Namespace (e_Meta entity)).
Qed.

(** The value an event is read from: that of the first key that begins with
    its path. *)
Definition found (m : gmap bytes bytes) (path : bytes) : option bytes :=
  match range_keys m path with_prefix with [] => None | k :: _ => m !! k end.

Lemma found_there m path v : m !! path = Some v → found m path = Some v.
Proof.
  intros Hv. unfold found. destruct (range_keys_first m path) as [rest ->]; [by exists v|done].
Qed.

(** No key has the path as its beginning. *)
Definition no_sibling (m : gmap bytes bytes) (path : bytes) : Prop :=
  ∀ k, is_Some (m !! k) → has_prefix k path = true → k = path.

Lemma found_no_sibling m path : no_sibling m path → found m path = m !! path.
Proof.
  intros Hn. destruct (m !! path) as [v|] eqn:E; [by apply found_there|]. unfold found.
  destruct (range_keys m path with_prefix) as [|k rest] eqn:Er; [done|].
  assert (k ∈ range_keys m path with_prefix) as Hin by (rewrite Er; by left).
  apply elem_range_keys in Hin as [Hp Hk]. by rewrite (Hn k Hk Hp).
Qed.

Lemma get_event_inl namespace entity check path s prev s' :
  getEventWithCheckPath namespace entity check = Ret path →
  GetEventByEntityCheck unmarshal_event namespace entity check s = (Ret (inl prev), s') →
  contents s' = contents s ∧
  match found (contents s) path with
  | None => prev = None
  | Some v => ∃ e, unmarshal_event v = Ret e ∧ prev = Some (fill_event e)
  end.
Proof.
  intros Hp. unfold GetEventByEntityCheck. destruct (is_empty entity || is_empty check); [discriminate|].
  intros (p & s1 & [E ->]%checked_inl & (resp & s2 & Eg%call_inl_inv & E2)%bind_inl)%bind_inl.
  assert (p = path) as -> by congruence. apply get_law in Eg as [-> Ec]. revert E2. unfold range_of_map.
  cbn [Kvs g_Key g_End g_Limit g_CountOnly Z.eqb]. unfold found.
  destruct (range_keys (contents s) path with_prefix) as [|k rest] eqn:Er; cbn [map].
  - by intros [<- <-]%ret_inl.
  - intros (e & s3 & [Ee ->]%checked_inl & [<- <-]%ret_inl)%bind_inl. split; [done|].
    assert (k ∈ range_keys (contents s) path with_prefix) as Hin by (rewrite Er; by left).
    apply elem_range_keys in Hin as [_ [v Hv]]. rewrite Hv in *. by exists e.
Qed.

(* ------------------------------------------------------------------ *)
(** ** Storing an event *)

Section Update.
Context (ParseStandard_ok : bytes → bool) (ParseExpressions : list bytes → option error)
  (local_now : LocalTime) (sort_history : list CheckHistory → list CheckHistory) (now : Z).

Abbreviation update := (UpdateEvent Marshal_event unmarshal_event ParseStandard_ok ParseExpressions local_now
  sort_history now).

(** The check that is merged, by the value found under the path. *)
Definition merged_with (check : Check_) (value : option bytes) (prev : option Event) (c : Check_) : Prop :=
  match value with
  | None => prev = None ∧ c = check
  | Some v => ∃ e p, unmarshal_event v = Ret e ∧ prev = Some (fill_event e) ∧ ev_Check e = Some p ∧
                c = MergeWith sort_history check p
  end.

Inductive stored (event event' : Event) (prev : option Event) (m m' : gmap bytes bytes) : Prop :=
| is_stored entity check c path b
    (stored_entity : ev_Entity event = Some entity)
    (stored_check : ev_Check event = Some check)
    (check_valid : Validate_check ParseStandard_ok ParseExpressions local_now check = Ret ())
    (entity_valid : Validate_entity entity = None)
    (stored_namespace : there m (getNamespacePath (Namespace (e_Meta entity))) = true)
    (stored_path : getEventPath event = Ret path)
    (stored_merged : merged_with check (found m path) prev c)
    (stored_event : event' = (persisted now (set_check event (updateOccurrences c)) (updateOccurrences c)).2)
    (stored_bytes :
       Marshal_event (persisted now (set_check event (updateOccurrences c)) (updateOccurrences c)).1 = Ret b)
    (stored_keys : m' = <[path := b]> m).

Lemma persisted_path e check : getEventPath (persisted now e check).2 = getEventPath e.
Proof. unfold persisted. by repeat case_match; simplify_eq. Qed.

Lemma updateOccurrences_meta c : c_Meta (updateOccurrences c) = c_Meta c.
Proof. unfold updateOccurrences. by repeat case_match. Qed.

Lemma MergeWith_meta c prev : c_Meta (MergeWith sort_history c prev) = c_Meta c.
Proof. unfold MergeWith, updateCheckState. by repeat case_match. Qed.

Lemma UpdateEvent_inl event s event' prev s' :
  update (Some event) s = (Ret (inl (event', prev)), s') → stored event event' prev (contents s) (contents s').
Proof.
  unfold UpdateEvent. destruct (ev_Check event) as [check|] eqn:Ec; [|discriminate].
  intros ([] & s1 & [Ev ->]%checked_inl & E)%bind_inl.
  destruct (ev_Entity event) as [entity|] eqn:Ee; [|discriminate].
  apply bind_inl in E as ([] & s2 & [Ve ->]%checked_inl & E).
  apply bind_inl in E as (pv & s3 & Eg & (c & s4 & Em & E)%bind_inl).
  assert (Validate_entity entity = None) as Ve' by (by destruct (Validate_entity entity)).
  assert (Namespace (e_Meta entity) ≠ []) as Hns.
  { intros E0. unfold Validate_entity in Ve'. rewrite E0 in Ve'. cbn [is_empty] in Ve'.
    by apply or_else_None in Ve' as [_ ?]. }
  assert (∃ path, getEventPath event = Ret path) as [path Ep].
  { unfold getEventPath. rewrite Ee, Ec. by eexists. }
  pose proof (getEventWithCheckPath_event _ _ _ Ee Ec Hns) as Epp. rewrite Ep in Epp.
  destruct (get_event_inl _ _ _ _ _ _ _ Epp Eg) as [Es3 Hf].
  assert (s4 = s3 ∧ merged_with check (found (contents s) path) pv c) as [-> Hm].
  { unfold merged_with. unfold merged in Em. destruct (found (contents s) path) as [v|].
    - destruct Hf as (e & Eu & ->). change (ev_Check (fill_event e)) with (ev_Check e) in Em.
      destruct (ev_Check e) as [p|] eqn:Ep'; [|discriminate]. apply ret_inl in Em as [<- ->]. split; [done|]. by exists e, p.
    - subst pv. apply ret_inl in Em as [<- ->]. done. }
  destruct (persisted now (set_check event (updateOccurrences c)) (updateOccurrences c)) as [pe e1] eqn:Epe.
  apply bind_inl in E as (b & s5 & [Eb ->]%checked_inl & E).
  apply bind_inl in E as (path' & s6 & [Ep' ->]%checked_inl & E).
  apply bind_inl in E as (res & s7 & Et%call_inl_inv & E).
  apply txn_law in Et. unfold txn_on_map in Et. cbn [forallb holds run_ops] in Et. rewrite andb_true_r in Et.
  assert (Ret path' = Ret path) as [= ->].
  { rewrite <- Ep, <- Ep'. change e1 with (pe, e1).2. rewrite <- Epe, persisted_path. unfold getEventPath.
    cbn [set_check ev_Entity ev_Check]. rewrite Ee, Ec. rewrite updateOccurrences_meta.
    assert (c_Meta c = c_Meta check) as ->; [|done].
    unfold merged_with in Hm. destruct (found _ _); [|by destruct Hm as [_ ->]].
    destruct Hm as (? & ? & _ & _ & _ & ->). apply MergeWith_meta. }
  rewrite Es3 in Et. destruct (contents s !! getNamespacePath (Namespace (e_Meta entity))) as [w|] eqn:Ew.
  - cbn [run_ops] in Et. injection Et as -> Ek. cbn [Succeeded negb] in E. apply ret_inl in E as [[= <- <-] <-].
    apply (is_stored _ _ _ _ _ entity check c path b); try done; [by unfold there; rewrite Ew|by rewrite Epe|by rewrite Epe].
  - cbn [run_ops] in Et. injection Et as -> Ek. discriminate E.
Qed.
End Update.
End Events.

(** What a merge reads of the check stored before. *)
Record same_record (p q : Check_) : Prop := {
  same_history : History p = History q;
  same_last_ok : LastOK p = LastOK q;
  same_occurrences : Occurrences p = Occurrences q;
  same_watermark : OccurrencesWatermark p = OccurrencesWatermark q
}.

Lemma step_same sort_history p q c : same_record p q → step sort_history p c = step sort_history q c.
Proof. intros [H1 H2 H3 H4]. unfold step, MergeWith, set_history. by rewrite H1, H2, H3, H4. Qed.

(** A codec of events keeps that much: what is written is read back. *)
Definition keeps_record (Marshal_event : Event → outcome bytes) (unmarshal_event : bytes → outcome Event) : Prop :=
  ∀ e b c, Marshal_event e = Ret b → ev_Check e = Some c →
    ∃ e' c', unmarshal_event b = Ret e' ∧ ev_Check e' = Some c' ∧ same_record c c'.

Section Sequence.
Context {St : Type} `{EtcdLaws St} (Marshal_event : Event → outcome bytes) (unmarshal_event : bytes → outcome Event)
  (codec : keeps_record Marshal_event unmarshal_event) (ParseStandard_ok : bytes → bool)
  (ParseExpressions : list bytes → option error) (sort_history : list CheckHistory → list CheckHistory).

(** Events stored one after the other, each at its time. *)
Fixpoint update_all (events : list (LocalTime * Z * Event)) : store_m St (list Event) :=
  match events with
  | [] => mret []
  | (local_now, now, e) :: events' =>
      r ← UpdateEvent Marshal_event unmarshal_event ParseStandard_ok ParseExpressions local_now sort_history now (Some e);
      rs ← update_all events'; mret (r.1 :: rs)
  end.

(** The stored record of a check. *)
Definition holds_record (m : gmap bytes bytes) (path : bytes) (p : Check_) : Prop :=
  ∃ v e c, m !! path = Some v ∧ unmarshal_event v = Ret e ∧ ev_Check e = Some c ∧ same_record p c.

Lemma persisted_check now e c : ev_Check e = Some c →
  ∃ c1, ev_Check (persisted now e c).1 = Some c1 ∧ same_record c c1 ∧ ev_Check (persisted now e c).2 = Some c.
Proof.
  intros He. unfold persisted.
  assert (∀ t, ev_Check (set_timestamp e t) = Some c) as Ht by done.
  assert (∀ m, ev_Check (set_metrics e m) = Some c) as Hm by done.
  assert (ev_Check (if (ev_Timestamp e =? 0)%Z then set_timestamp e now else e) = Some c) as Hs by (by case_match).
  destruct (too_long c); [eexists; split; [done|]; by split|].
  destruct (HasMetrics e); by eexists.
Qed.

Lemma update_step local_now now e c path p s e' prev s' :
  getEventPath e = Ret path → ev_Check e = Some c → holds_record (contents s) path p →
  UpdateEvent Marshal_event unmarshal_event ParseStandard_ok ParseExpressions local_now sort_history now (Some e) s =
    (Ret (inl (e', prev)), s') →
  ev_Check e' = Some (step sort_history p c) ∧ holds_record (contents s') path (step sort_history p c).
Proof.
  intros Hp Hc (v & e0 & c0 & Hv & He0 & Hc0 & Hsame) E. apply UpdateEvent_inl in E.
  destruct E as [entity check merged path' b _ Ec _ _ _ Ep Em Ee Eb Ek].
  assert (path' = path) as -> by congruence. assert (check = c) as -> by congruence.
  rewrite (found_there _ _ _ Hv) in Em. destruct Em as (e1 & p1 & E1 & _ & Ep1 & ->).
  assert (p1 = c0) as -> by congruence. change (updateOccurrences (MergeWith sort_history c c0)) with (step sort_history c0 c) in *.
  rewrite <- (step_same _ _ _ _ Hsame) in *.
  destruct (persisted_check now (set_check e (step sort_history p c)) (step sort_history p c)) as (c1 & P1 & P2 & P3); [done|].
  split; [by subst e'|]. destruct (codec _ _ _ Eb P1) as (e2 & c2 & U1 & U2 & U3).
  exists b, e2, c2. split_and!; [rewrite Ek; apply lookup_insert_eq|done|done|].
  destruct P2 as [? ? ? ?], U3 as [? ? ? ?]. constructor; congruence.
Qed.

Lemma update_all_results path events cs :
  Forall2 (λ e c, getEventPath e.2 = Ret path ∧ ev_Check e.2 = Some c) events cs →
  ∀ p s es s', holds_record (contents s) path p → update_all events s = (Ret (inl es), s') →
  (∀ i e, es !! i = Some e → ev_Check e = Some (results sort_history p (take (S i) cs))) ∧
  holds_record (contents s') path (results sort_history p cs).
Proof.
  induction 1 as [|[[l n] e] c events cs [Hp Hc] _ IH]; intros p s es s' Hr E.
  { apply ret_inl in E as [<- <-]. done. }
  cbn [update_all] in E. apply bind_inl in E as ([e' prev] & s1 & E1 & (rs & s2 & E2 & [<- <-]%ret_inl)%bind_inl).
  destruct (update_step _ _ _ _ _ _ _ _ _ _ Hp Hc Hr E1) as [He' Hr']. destruct (IH _ _ _ _ Hr' E2) as [Hi Hr2].
  split; [|done]. intros [|i] x Hx; cbn in Hx; [injection Hx as <-; done|]. by apply Hi.
Qed.
End Sequence.

(** C23: events stored one after the other for one entity and one check, where
    a check was stored before, are merged in their order: the check of each
    event that comes back is what the results up to it make of the check
    stored before, and so is the record that the store holds at the end,
    whatever else etcd holds, metrics and long outputs cut or not. *)
Theorem stored_results `{EtcdLaws St} (Marshal_event : Event → outcome bytes) (unmarshal_event : bytes → outcome Event)
    (ParseStandard_ok : bytes → bool) (ParseExpressions : list bytes → option error)
    (sort_history : list CheckHistory → list CheckHistory) (path : bytes) (p : Check_)
    (events : list (LocalTime * Z * Event)) (cs : list Check_) (s s' : St) (es : list Event) :
  keeps_record Marshal_event unmarshal_event →
  Forall2 (λ e c, getEventPath e.2 = Ret path ∧ ev_Check e.2 = Some c) events cs →
  holds_record unmarshal_event (contents s) path p →
  update_all Marshal_event unmarshal_event ParseStandard_ok ParseExpressions sort_history events s = (Ret (inl es), s') →
  (∀ i e, es !! i = Some e → ev_Check e = Some (results sort_history p (take (S i) cs))) ∧
  holds_record unmarshal_event (contents s') path (results sort_history p cs).
Proof. intros Hc He Hr E. by eapply update_all_results. Qed.

(** A codec of the records of a table. *)
#[export] Instance history_eq_dec : EqDecision CheckHistory.
Proof. solve_decision. Defined.
Definition record_of (c : Check_) : list CheckHistory * Z * Z * Z :=
  (History c, LastOK c, Occurrences c, OccurrencesWatermark c).
Section Table.
Context (table : list Event).
Definition same_entry (e e' : Event) : Prop := record_of <$> ev_Check e = record_of <$> ev_Check e'.
#[local] Instance same_entry_dec e e' : Decision (same_entry e e').
Proof. unfold same_entry. apply _. Defined.
Definition table_Marshal (e : Event) : outcome bytes :=
  match list_find (same_entry e) table with
  | Some (i, _) => Ret (replicate i "x"%char)
  | None => Fail (Errorf "not in the table" [])
  end.
Definition table_unmarshal (b : bytes) : outcome Event :=
  match table !! length b with Some e => Ret e | None => Fail (Errorf "not in the table" []) end.

Lemma table_keeps : keeps_record table_Marshal table_unmarshal.
Proof.
  intros e b c Hb Hc. unfold table_Marshal in Hb. destruct (list_find _ table) as [[i x]|] eqn:Ef; [|discriminate].
  injection Hb as <-. apply list_find_Some in Ef as (Hi & Hx & _). unfold same_entry in Hx. rewrite Hc in Hx.
  destruct (ev_Check x) as [c'|] eqn:Ex; [|discriminate]. injection Hx as H1 H2 H3 H4.
  exists x, c'. unfold table_unmarshal. rewrite length_replicate, Hi. split_and!; [done|done|by constructor].
Qed.
End Table.

(** A check that passes, then fails twice. *)
Definition toy_result (status executed : Z) : Event :=
  set_check silence_event (result_at status executed).
Definition toy_results : list Check_ := [result_at 0 1; result_at 2 2; result_at 2 3].
Definition toy_table : list Event :=
  map (λ n, set_check silence_event (results (sort history_lt) (result_at 0 0) (take n toy_results))) [0; 1; 2; 3].
Definition toy_events : list (LocalTime * Z * Event) :=
  map (λ c, (MkUTC Wed 0, 1%Z, set_check silence_event c)) toy_results.
Definition toy_path : bytes := bs "/sensu.io/events/default/e1/cpu".
Definition toy_keys : gmap bytes bytes := <[toy_path := []]> (<[getNamespacePath (bs "default") := []]> ∅).

Definition returns_inl {A B C} (r : outcome (A + B) * C) : bool :=
  match r with (Ret (inl _), _) => true | _ => false end.
Lemma returns_inl_ex {A B C} (r : outcome (A + B) * C) : returns_inl r = true → ∃ a c, r = (Ret (inl a), c).
Proof. destruct r as [[[a|b]|e|] c]; try discriminate. by exists a, c. Qed.

Lemma stored_results_witness :
  ∃ es s', update_all (table_Marshal toy_table) (table_unmarshal toy_table) (λ _, true) (λ _, None)
      (sort history_lt) toy_events toy_keys = (Ret (inl es), s') ∧
    holds_record (table_unmarshal toy_table) s' toy_path (results (sort history_lt) (result_at 0 0) toy_results).
Proof.
  destruct (returns_inl_ex (update_all (table_Marshal toy_table) (table_unmarshal toy_table) (λ _, true) (λ _, None)
    (sort history_lt) toy_events toy_keys)) as (es & s' & E); [vm_compute; reflexivity|].
  exists es, s'. split; [exact E|].
  refine (proj2 (stored_results (table_Marshal toy_table) (table_unmarshal toy_table) (λ _, true) (λ _, None)
    (sort history_lt) toy_path (result_at 0 0) toy_events toy_results toy_keys s' es _ _ _ _)).
  - apply table_keeps.
  - repeat constructor.
  - exists [], (set_check silence_event (result_at 0 0)), (result_at 0 0).
    split_and!; [vm_compute; reflexivity|vm_compute; reflexivity|reflexivity|by constructor].
  - exact E.
Defined.

(** The event before is looked for by the beginning of its key: where no
    event is stored for a check, and one is for another check of the entity
    whose name goes on from its name, that event is returned, and its check
    is merged as if it were the same. *)
Theorem siblings_are_merged `{EtcdLaws St} (Marshal_event : Event → outcome bytes) (unmarshal_event : bytes → outcome Event)
    (ParseStandard_ok : bytes → bool) (ParseExpressions : list bytes → option error) (local_now : LocalTime)
    (sort_history : list CheckHistory → list CheckHistory) (now : Z) (event other event' : Event) (prev : option Event)
    (check check' : Check_) (s s' : St) (path suffix v : bytes) :
  getEventPath event = Ret path → ev_Check event = Some check →
  contents s !! path = None → contents s !! (path ++ suffix) = Some v →
  (∀ k, is_Some (contents s !! k) → has_prefix k path = true → k = path ++ suffix) →
  unmarshal_event v = Ret other → ev_Check other = Some check' →
  UpdateEvent Marshal_event unmarshal_event ParseStandard_ok ParseExpressions local_now sort_history now (Some event) s =
    (Ret (inl (event', prev)), s') →
  prev = Some (fill_event other) ∧
  ev_Check event' = Some (step sort_history check' check).
Proof.
  intros Hp Hc Hnone Hsome Honly Hu Hc' E. apply UpdateEvent_inl in E.
  destruct E as [entity c merged path' b _ Ec _ _ _ Ep Em Ee _ _].
  assert (path' = path) as -> by congruence. assert (c = check) as -> by congruence.
  assert (found (contents s) path = Some v) as Ef.
  { unfold found. assert ((path ++ suffix) ∈ range_keys (contents s) path with_prefix) as Hin.
    { apply elem_range_keys. split; [|by exists v]. cbn [in_range_of]. apply has_prefix_iff. by exists suffix. }
    destruct (range_keys (contents s) path with_prefix) as [|k rest] eqn:Er; [by apply elem_of_nil in Hin|].
    assert (k ∈ range_keys (contents s) path with_prefix) as Hk by (rewrite Er; by left).
    apply elem_range_keys in Hk as [Hk1 Hk2]. by rewrite (Honly k Hk2 Hk1). }
  rewrite Ef in Em. destruct Em as (e & p & E1 & E2 & E3 & ->).
  assert (e = other) as -> by congruence. assert (p = check') as -> by congruence. split; [done|].
  destruct (persisted_check now (set_check event (step sort_history check' check)) (step sort_history check' check))
    as (c1 & _ & _ & P3); [done|]. by subst event'.
Qed.

(** The event of the check [cpu-load], with an event of the check [cpu]. *)
Definition sibling_keys : gmap bytes bytes :=
  <[toy_path ++ bs "-load" := []]> (<[getNamespacePath (bs "default") := []]> ∅).
Definition sibling_event : Event := set_check silence_event (result_at 2 7).
Definition sibling_table : list Event :=
  [sibling_event; set_check silence_event (step (sort history_lt) (result_at 2 7) (result_at 0 8))].

Lemma siblings_are_merged_witness :
  ∃ event' s', UpdateEvent (table_Marshal sibling_table) (table_unmarshal sibling_table) (λ _, true) (λ _, None)
      (MkUTC Wed 0) (sort history_lt) 1 (Some (set_check silence_event (result_at 0 8))) sibling_keys =
    (Ret (inl (event', Some (fill_event sibling_event))), s') ∧
    ev_Check event' = Some (step (sort history_lt) (result_at 2 7) (result_at 0 8)).
Proof.
  destruct (returns_inl_ex (UpdateEvent (table_Marshal sibling_table) (table_unmarshal sibling_table) (λ _, true)
    (λ _, None) (MkUTC Wed 0) (sort history_lt) 1 (Some (set_check silence_event (result_at 0 8))) sibling_keys))
    as ([event' prev] & s' & E); [vm_compute; reflexivity|].
  destruct (siblings_are_merged (table_Marshal sibling_table) (table_unmarshal sibling_table) (λ _, true)
    (λ _, None) (MkUTC Wed 0) (sort history_lt) 1 (set_check silence_event (result_at 0 8)) sibling_event event' prev
    (result_at 0 8) (result_at 2 7) sibling_keys s' toy_path (bs "-load") []) as [Hp Hc];
    [reflexivity|reflexivity|vm_compute; reflexivity|vm_compute; reflexivity| |reflexivity|reflexivity|exact E|].
  - intros k [v Hk] Hpre. unfold contents, map_etcd_laws, sibling_keys, id in Hk.
    apply lookup_insert_Some in Hk as [[<- _]|[_ Hk]]; [done|].
    apply lookup_insert_Some in Hk as [[<- _]|[_ Hk]]; [vm_compute in Hpre; discriminate|]. by rewrite lookup_empty in Hk.
  - exists event', s'. rewrite Hp in E. split; [exact E|exact Hc].
Defined.
