(* ===== verification/EventGuarantees.v ===== *)
(** * The guarantees of the decoders: events, lists of hooks, and the errors
    of a run *)

From S2P Require Import Prelude GoStd GoStdFacts GoFloat GoUtf8 Json JsonFacts JsonDecode.
From S2P Require Import JsonIter JsonIterFacts GoTime ModelsTime TimeWindow Sensu SensuFacts.
From S2P Require Import Hook HookFacts EventJson EventJsonFacts GoNet GoNetFacts Client Pflag Cobra.
From S2P Require Import Handler HandlerFacts HandlerGuarantees.

(* ------------------------------------------------------------------ *)
(** ** Events *)

(** C7: whatever the input, decoding it does not panic, and the events it can
    give are exactly the well-formed ones: integers of their width, finite
    numbers, strings in UTF-8; such an event is decoded from its text. *)
Theorem decoded_events_exact (event : Event) :
  (∀ text, Unmarshal_event text ≠ Panic) ∧
  ((∃ text, Unmarshal_event text = Ret event) ↔ event_wf event) ∧
  (event_wf event → Unmarshal_event (event_text event) = Ret event).
Proof.
  split; [apply Unmarshal_event_no_panic|]. split; [|apply Unmarshal_event_text].
  split; [|intros H; by eexists; apply Unmarshal_event_text].
  intros [text H]. by eapply Unmarshal_event_wf.
Qed.

(** C6: a run that does not come to sending fails with the error of its step,
    and sends nothing: for arguments, an input that cannot be read, a text
    that is no JSON, a text that is no event, an event that is not valid, and
    one without metrics. *)
Theorem run_errors (net : Net) (ParseStandard_ok : bytes → bool)
    (ParseExpressions : list bytes → option error) (now : LocalTime) (cfg : Config) :
  let fails_with stdin args e :=
    run ParseStandard_ok ParseExpressions now stdin cfg args = IO [] (Fail e) in
  (∀ stdin arg args, fails_with stdin (arg :: args) (Errorf "invalid argument(s) received" [])) ∧
  (∀ e, fails_with (Fail e) [] (Wrapf "failed to read stdin: %s" [] e)) ∧
  (∀ text, (¬ ∃ j, json_text text j) →
     ∃ e, fails_with (Ret text) [] (Wrapf "failed to unmarshal stdin data: %s" [] e)) ∧
  (∀ text e, Unmarshal_event text = Fail e →
     fails_with (Ret text) [] (Wrapf "failed to unmarshal stdin data: %s" [] e)) ∧
  (∀ text event e, Unmarshal_event text = Ret event →
     Validate_event ParseStandard_ok ParseExpressions now event = Fail e →
     fails_with (Ret text) [] (Wrapf "failed to validate event: %s" [] e)) ∧
  (∀ text event, Unmarshal_event text = Ret event →
     Validate_event ParseStandard_ok ParseExpressions now event = Ret () → ev_Metrics event = None →
     fails_with (Ret text) [] (Errorf "event does not contain metrics" [])).
Proof.
  intros fails_with. subst fails_with. cbn beta.
  assert (∀ text e, Unmarshal_event text = Fail e →
    run ParseStandard_ok ParseExpressions now (Ret text) cfg [] =
    IO [] (Fail (Wrapf "failed to unmarshal stdin data: %s" [] e))) as Hu.
  { intros text e E. unfold run, mbind, io_bind. cbn [length Nat.eqb negb wrapped result trace lift app].
    by rewrite E. }
  split_and!; [done|done| |exact Hu| |].
  - intros text Hj. assert (Unmarshal_event text = Fail (Errorf "invalid JSON" [])) as E; [|by eexists; apply Hu].
    unfold Unmarshal_event, Unmarshal. destruct (Parse text) as [j|] eqn:Ep; [|done].
    destruct Hj. exists j. by apply Parse_iff.
  - intros text event e Ej Ev. unfold run, mbind, io_bind.
    cbn [length Nat.eqb negb wrapped result trace lift app]. rewrite Ej. cbn [wrapped result trace lift app]. by rewrite Ev.
  - intros text event Ej Ev Em. unfold run, mbind, io_bind.
    cbn [length Nat.eqb negb wrapped result trace lift app]. rewrite Ej. cbn [wrapped result trace lift app].
    rewrite Ev. cbn [wrapped result trace lift app]. unfold HasMetrics. by rewrite Em.
Qed.

(* ------------------------------------------------------------------ *)
(** ** Hooks *)

(** Reading a list of hooks returns on any bytes. A JSON text is accepted
    exactly when it is null, or an object whose members are null or arrays of
    strings and nulls, and then the members are set in the order of the map;
    [lit_reads] says what is read of a string literal. *)
Theorem hook_list_json (range : Jsoniter.string_map → list (bytes * option (list bytes))) (h : HookList) :
  (∀ b, UnmarshalJSON range h b ≠ Panic) ∧
  (∀ text j, json_text text j →
     ((∃ h', UnmarshalJSON range h text = Ret h') ↔ map_ok j = true) ∧
     (map_ok j = true → ∃ m, map_reads j m) ∧
     (∀ m, map_reads j m → UnmarshalJSON range h text = Ret (set_members h (range m)))).
Proof.
  split.
  - intros b. unfold UnmarshalJSON. pose proof (JsonIterFacts.Unmarshal_no_panic b).
    by destruct (Jsoniter.Unmarshal b).
  - intros text j Hj.
    assert (∀ m, map_reads j m → UnmarshalJSON range h text = Ret (set_members h (range m))) as Hr.
    { intros m Hm. unfold UnmarshalJSON. by rewrite (Unmarshal_reads text j m). }
    pose proof (map_reads_total text j Hj) as Ht. repeat split; [|intros Hok|exact Ht|exact Hr].
    + intros [h' E]. destruct (map_ok j) eqn:Ej; [done|].
      destruct (Unmarshal_rejects text j Hj Ej) as [e Ee]. unfold UnmarshalJSON in E. by rewrite Ee in E.
    + destruct (Ht Hok) as [m Hm]. eexists. by apply Hr.
Qed.

(** C33: a list of hooks in UTF-8 is read back from its JSON text, nil and
    empty lists apart, whatever the receiver held. *)
Theorem hook_list_json_roundtrip (range : Jsoniter.string_map → list (bytes * option (list bytes)))
    (h h0 : HookList) :
  map_order range → utf8 (hl_Type h) → opt_utf8 (hl_Hooks h) →
  UnmarshalJSON range h0 (MarshalJSON h) = Ret h.
Proof. apply hook_list_roundtrip. Qed.

Lemma hook_list_json_roundtrip_witness :
  let h := MkHookList (Some [bs "restart"; EncodeRune 233; []]) (bs "non-zero") in
  UnmarshalJSON map_to_list (MkHookList None (bs "ok")) (MarshalJSON h) = Ret h.
Proof.
  intros h. apply (hook_list_json_roundtrip map_to_list h (MkHookList None (bs "ok"))); [by intros m| |].
  - exists (map code (bs "non-zero")). split; [repeat constructor|reflexivity].
  - repeat constructor; [exists (map code (bs "restart"))|exists [233%Z]|exists []];
      (split; [repeat constructor|reflexivity]).
Defined.

(** The order of a map decides which list of an object of two members stays. *)
Lemma hook_list_order :
  let text := js "{'ok':['a'],'1':['b']}" in
  map_order map_to_list ∧ map_order (λ m, rev (map_to_list m)) ∧
  UnmarshalJSON map_to_list (MkHookList None []) text ≠
  UnmarshalJSON (λ m, rev (map_to_list m)) (MkHookList None []) text.
Proof.
  split; [by intros m|]. split; [intros m; symmetry; apply Permutation_rev|]. vm_compute. discriminate.
Qed.
