(* ===== verification/Messaging.v ===== *)
(** * The message bus ([backend/messaging/wizard_bus.go],
    [wizard_topic.go], [message_bus.go])

    Every call of a method is a thread of its own, of which the steps are the
    critical sections and the sends of the source; the threads, the consumers
    and new calls interleave freely. *)

From stdpp Require Import relations.
From S2P Require Import Prelude GoStd.

(** [SubscriptionTopic]. *)
Definition TopicSubscriptions : bytes := bs "sensu:check".
Definition SubscriptionTopic (namespace sub : bytes) : bytes :=
  TopicSubscriptions ++ bs ":" ++ namespace ++ bs ":" ++ sub.

(* ------------------------------------------------------------------ *)
(** ** Topics *)

(** A topic: its bindings from consumers to channels, whether [done] is
    closed, and whether its mutex is held by a call that has returned. *)
Record wizardTopic := MkTopic { bindings : gmap bytes nat; t_done : bool; t_held : bool }.

(** [createTopic]; the topic is kept under its name. *)
Definition createTopic : wizardTopic := MkTopic ∅ false false.

Definition topic_Subscribe (id : bytes) (sub : nat) (t : wizardTopic) : wizardTopic :=
  MkTopic (<[id := sub]> (bindings t)) (t_done t) (t_held t).

Definition unsubscribe (id : bytes) (t : wizardTopic) : wizardTopic :=
  let left := delete id (bindings t) in
  MkTopic left (t_done t || bool_decide (left = ∅)) (t_held t).

(** [Close]: where [done] is closed already, it returns with the mutex
    locked. *)
Definition topic_Close (t : wizardTopic) : wizardTopic :=
  if t_done t then MkTopic (bindings t) true true else MkTopic ∅ true (t_held t).

Definition IsClosed (t : wizardTopic) : bool := t_done t.

(* ------------------------------------------------------------------ *)
(** ** The bus *)

Section Bus.
Context {message : Type}.

(** A channel of a consumer: its capacity, what it holds, what the consumer
    has received, and whether the consumer has closed it. A message is kept
    with the call that published it. *)
Record channel := MkChannel {
  ch_cap : nat; ch_buffer : list (nat * message); ch_received : list (nat * message); ch_closed : bool
}.

(** Where a call is. *)
Inductive thread :=
| Publishing (topic : bytes) (rest : list message)
| Looking (topic : bytes) (m : message) (rest : list message)
| Found (t : nat) (m : message) (topic : bytes) (rest : list message)
| Sending (t : nat) (m : message) (todo : list nat) (topic : bytes) (rest : list message)
| Subscribing (topic consumer : bytes) (sub : nat)
| Locking (topic consumer : bytes) (sub : nat)
| Binding (t : nat) (consumer : bytes) (sub : nat)
| Cancelling (t : nat) (consumer : bytes)
| Starting
| Stopping
| StopLocking
| Closing (ts : list nat)
| Returned (r : option error)
| Panicked.

(** The calls a program makes: [Publish] for messages one after another,
    [Subscribe], the [Cancel] of a subscription, [Start] and [Stop]. *)
Inductive call :=
| Publish (topic : bytes) (ms : list message)
| Subscribe (topic consumer : bytes) (sub : nat)
| Cancel (t : nat) (consumer : bytes)
| Start
| Stop.

Definition begin_call (c : call) : thread :=
  match c with
  | Publish topic ms => Publishing topic ms
  | Subscribe topic consumer sub => Subscribing topic consumer sub
  | Cancel t consumer => Cancelling t consumer
  | Start => Starting
  | Stop => Stopping
  end.

(** The bus, its topics in a heap, the channels and the threads. [running] is
    an [atomic.Value]; [topicsMu] is the thread that holds the lock. *)
Record WizardBus := MkBus {
  running : option bool; errchan_closed : bool; topicsMu : option nat;
  topics : gmap bytes nat; heap : gmap nat wizardTopic;
  channels : gmap nat channel; threads : gmap nat thread
}.

Definition NewWizardBus : WizardBus := MkBus None false None ∅ ∅ ∅ ∅.

Definition with_threads (s : WizardBus) ts :=
  MkBus (running s) (errchan_closed s) (topicsMu s) (topics s) (heap s) (channels s) ts.
Definition with_channels (s : WizardBus) cs :=
  MkBus (running s) (errchan_closed s) (topicsMu s) (topics s) (heap s) cs (threads s).
Definition with_heap (s : WizardBus) h :=
  MkBus (running s) (errchan_closed s) (topicsMu s) (topics s) h (channels s) (threads s).
Definition with_mu (s : WizardBus) mu :=
  MkBus (running s) (errchan_closed s) mu (topics s) (heap s) (channels s) (threads s).
Definition with_topics (s : WizardBus) ts :=
  MkBus (running s) (errchan_closed s) (topicsMu s) ts (heap s) (channels s) (threads s).

Definition goto (s : WizardBus) (i : nat) (t : thread) : WizardBus := with_threads s (<[i := t]> (threads s)).

Definition bus_stopped : error := Errorf "bus no longer running" [].

(** [b.running.Load().(bool)], which panics before [Start]. *)
Definition check_running (s : WizardBus) (go : thread) : thread :=
  match running s with
  | None => Panicked
  | Some true => go
  | Some false => Returned (Some bus_stopped)
  end.

(** The topic that [Subscribe] binds to: that of the name, or a new one. *)
Definition open_topic (s : WizardBus) (topic : bytes) : option nat :=
  match topics s !! topic with
  | None => None
  | Some t => match heap s !! t with
              | Some wt => if IsClosed wt then None else Some t
              | None => None
              end
  end.

(** The mutex of a topic is free. *)
Definition unlocked (s : WizardBus) (t : nat) (wt : wizardTopic) : Prop :=
  heap s !! t = Some wt ∧ t_held wt = false.

Definition push (i : nat) (m : message) (ch : channel) : channel :=
  MkChannel (ch_cap ch) (ch_buffer ch ++ [(i, m)]) (ch_received ch) (ch_closed ch).
Definition hand_over (i : nat) (m : message) (ch : channel) : channel :=
  MkChannel (ch_cap ch) (ch_buffer ch) (ch_received ch ++ [(i, m)]) (ch_closed ch).
Definition close_channel (ch : channel) : channel :=
  MkChannel (ch_cap ch) (ch_buffer ch) (ch_received ch) true.

(** [Publish] goes on with the next message. *)
Inductive thread_step (s : WizardBus) (i : nat) : thread → WizardBus → Prop :=
| publish_done topic :
    thread_step s i (Publishing topic []) (goto s i (Returned None))
| publish_running topic m rest :
    thread_step s i (Publishing topic (m :: rest)) (goto s i (check_running s (Looking topic m rest)))
| publish_found topic m rest t :
    topicsMu s = None → topics s !! topic = Some t →
    thread_step s i (Looking topic m rest) (goto s i (Found t m topic rest))
| publish_no_topic topic m rest :
    topicsMu s = None → topics s !! topic = None →
    thread_step s i (Looking topic m rest) (goto s i (Publishing topic rest))
| send_snapshot t wt m topic rest todo :
    unlocked s t wt → todo ≡ₚ (map_to_list (bindings wt)).*2 →
    thread_step s i (Found t m topic rest) (goto s i (Sending t m todo topic rest))
| send_buffered t m c ch todo topic rest :
    channels s !! c = Some ch → ch_closed ch = false → length (ch_buffer ch) < ch_cap ch →
    thread_step s i (Sending t m (c :: todo) topic rest)
      (goto (with_channels s (<[c := push i m ch]> (channels s))) i (Sending t m todo topic rest))
| send_handed t m c ch todo topic rest :
    channels s !! c = Some ch → ch_closed ch = false → ch_buffer ch = [] →
    thread_step s i (Sending t m (c :: todo) topic rest)
      (goto (with_channels s (<[c := hand_over i m ch]> (channels s))) i (Sending t m todo topic rest))
| send_closed t m c ch todo topic rest :
    channels s !! c = Some ch → ch_closed ch = true →
    thread_step s i (Sending t m (c :: todo) topic rest) (goto s i Panicked)
| send_dropped t wt m c todo topic rest :
    heap s !! t = Some wt → t_done wt = true →
    thread_step s i (Sending t m (c :: todo) topic rest) (goto s i (Publishing topic rest))
| send_done t m topic rest :
    thread_step s i (Sending t m [] topic rest) (goto s i (Publishing topic rest))
| subscribe_running topic consumer sub :
    thread_step s i (Subscribing topic consumer sub) (goto s i (check_running s (Locking topic consumer sub)))
| subscribe_found topic consumer sub t :
    topicsMu s = None → open_topic s topic = Some t →
    thread_step s i (Locking topic consumer sub) (goto (with_mu s (Some i)) i (Binding t consumer sub))
| subscribe_created topic consumer sub t :
    topicsMu s = None → open_topic s topic = None → heap s !! t = None →
    thread_step s i (Locking topic consumer sub)
      (goto (with_mu (with_topics (with_heap s (<[t := createTopic]> (heap s))) (<[topic := t]> (topics s))) (Some i))
         i (Binding t consumer sub))
| subscribe_bound t wt consumer sub :
    unlocked s t wt →
    thread_step s i (Binding t consumer sub)
      (goto (with_mu (with_heap s (<[t := topic_Subscribe consumer sub wt]> (heap s))) None) i (Returned None))
| cancel_unbound t wt consumer :
    unlocked s t wt →
    thread_step s i (Cancelling t consumer)
      (goto (with_heap s (<[t := unsubscribe consumer wt]> (heap s))) i (Returned None))
| start_running :
    thread_step s i Starting
      (goto (MkBus (Some true) (errchan_closed s) (topicsMu s) (topics s) (heap s) (channels s) (threads s)) i
         (Returned None))
| stop_errchan :
    thread_step s i Stopping
      (goto (MkBus (Some false) true (topicsMu s) (topics s) (heap s) (channels s) (threads s)) i
         (if errchan_closed s then Panicked else StopLocking))
| stop_locked ts :
    topicsMu s = None → ts ≡ₚ (map_to_list (topics s)).*2 →
    thread_step s i StopLocking (goto (with_mu s (Some i)) i (Closing ts))
| stop_close t wt ts :
    unlocked s t wt →
    thread_step s i (Closing (t :: ts))
      (goto (with_heap s (<[t := topic_Close wt]> (heap s))) i (Closing ts))
| stop_unlocked :
    thread_step s i (Closing []) (goto (with_mu s None) i (Returned None)).

(** What a call needs: a subscription to cancel, a channel to bind. *)
Definition callable (s : WizardBus) (c : call) : Prop :=
  match c with
  | Subscribe _ _ sub => is_Some (channels s !! sub)
  | Cancel t _ => is_Some (heap s !! t)
  | _ => True
  end.

(** A step of the program: of a thread, of a consumer, or a new call out of
    those [allowed]; [closes] are the channels the consumers may close. *)
Inductive step (allowed : call → Prop) (closes : nat → Prop) (s : WizardBus) : WizardBus → Prop :=
| step_thread i th s' :
    threads s !! i = Some th → thread_step s i th s' → step allowed closes s s'
| step_receive c ch x rest :
    channels s !! c = Some ch → ch_buffer ch = x :: rest →
    step allowed closes s (with_channels s
      (<[c := MkChannel (ch_cap ch) rest (ch_received ch ++ [x]) (ch_closed ch)]> (channels s)))
| step_close c ch :
    channels s !! c = Some ch → ch_closed ch = false → closes c →
    step allowed closes s (with_channels s (<[c := close_channel ch]> (channels s)))
| step_make c cap :
    channels s !! c = None →
    step allowed closes s (with_channels s (<[c := MkChannel cap [] [] false]> (channels s)))
| step_call i c :
    threads s !! i = None → callable s c → allowed c →
    step allowed closes s (goto s i (begin_call c)).

(** What has been sent to a channel, in order. *)
Definition log (ch : channel) : list (nat * message) := ch_received ch ++ ch_buffer ch.
Definition sent_by (i : nat) (ch : channel) : list message :=
  (filter (λ x, x.1 = i) (log ch)).*2.
End Bus.

Arguments channel : clear implicits.
Arguments thread : clear implicits.
Arguments call : clear implicits.
Arguments WizardBus : clear implicits.
