(* ===== verification/MessagingGuarantees.v ===== *)
(** * The message bus: its invariant, what is sent to a consumer, progress,
    and what goes wrong when it stops *)

From stdpp Require Import relations.
From S2P Require Import Prelude GoStd Messaging.

Section Facts.
Context {message : Type}.
Implicit Types (s : WizardBus message) (th : thread message) (i t c : nat) (m : message).

(** The lock of the topics is held between two steps by a call that binds,
    and by one that closes. *)
Definition holds th : bool := match th with Binding _ _ _ | Closing _ => true | _ => false end.
Definition mu_ok (mu : option nat) (ths : gmap nat (thread message)) : Prop :=
  ∀ i, mu = Some i ↔ ∃ th, ths !! i = Some th ∧ holds th = true.

Definition known s t : Prop := is_Some (heap s !! t).
Definition has_channel s c : Prop := is_Some (channels s !! c).

(** What a thread refers to is there. *)
Definition thread_ok s th : Prop :=
  match th with
  | Found t _ _ _ | Cancelling t _ => known s t
  | Sending t _ todo _ _ => known s t ∧ Forall (has_channel s) todo
  | Subscribing _ _ sub | Locking _ _ sub => has_channel s sub
  | Binding t _ sub => known s t ∧ has_channel s sub
  | Closing ts => Forall (known s) ts
  | _ => True
  end.

Definition channel_ok s (ch : channel message) : Prop :=
  length (ch_buffer ch) ≤ ch_cap ch ∧ Forall (λ x, is_Some (threads s !! x.1)) (log ch).

Record bus_ok s : Prop := {
  ok_topics : ∀ n t, topics s !! n = Some t → known s t;
  ok_names : ∀ n n' t, topics s !! n = Some t → topics s !! n' = Some t → n = n';
  ok_mu : mu_ok (topicsMu s) (threads s);
  ok_threads : ∀ i th, threads s !! i = Some th → thread_ok s th;
  ok_bindings : ∀ t wt k c, heap s !! t = Some wt → bindings wt !! k = Some c → has_channel s c;
  ok_channels : ∀ c ch, channels s !! c = Some ch → channel_ok s ch
}.

Lemma bus_ok_new : bus_ok NewWizardBus.
Proof.
  split; try (intros *; cbn; rewrite lookup_empty; discriminate).
  intros i. cbn. split; [discriminate|]. intros (th & E & _). by rewrite lookup_empty in E.
Qed.

(* ------------------------------------------------------------------ *)
(** ** The lock *)

Lemma mu_ok_other mu ths i th' :
  mu_ok mu ths → (∀ th, ths !! i = Some th → holds th = holds th') → (ths !! i = None → holds th' = false) →
  mu_ok mu (<[i := th']> ths).
Proof.
  intros Hm He Hn j. rewrite (Hm j). destruct (decide (i = j)) as [<-|Hij]; [|by rewrite lookup_insert_ne].
  rewrite lookup_insert_eq. destruct (ths !! i) as [th|] eqn:E; split; intros (x & [= <-] & Hx).
  - exists th'. by rewrite <- (He th).
  - exists th. by rewrite (He th).
  - by rewrite (Hn eq_refl) in Hx.
Qed.

Lemma mu_ok_take ths i th : mu_ok None ths → holds th = true → mu_ok (Some i) (<[i := th]> ths).
Proof.
  intros Hm Ht j. destruct (decide (i = j)) as [<-|Hij].
  - rewrite lookup_insert_eq. split; [by eauto|done].
  - rewrite lookup_insert_ne by done. rewrite <- (Hm j). split; [intros [= ?]; congruence|done].
Qed.

Lemma mu_ok_release mu ths i th th' :
  mu_ok mu ths → ths !! i = Some th → holds th = true → holds th' = false → mu_ok None (<[i := th']> ths).
Proof.
  intros Hm Hi Ht Ht' j. split; [done|]. intros (x & E & Hx). exfalso. destruct (decide (i = j)) as [<-|Hij].
  - rewrite lookup_insert_eq in E. congruence.
  - rewrite lookup_insert_ne in E by done.
    assert (mu = Some i) as -> by (apply Hm; eauto). apply Hij. assert (Some i = Some j) as [= ->]; [|done].
    apply Hm. eauto.
Qed.

(* ------------------------------------------------------------------ *)
(** ** Nothing goes away *)

Record grows s s' : Prop := {
  grows_heap : ∀ t, known s t → known s' t;
  grows_channels : ∀ c, has_channel s c → has_channel s' c;
  grows_threads : ∀ i, is_Some (threads s !! i) → is_Some (threads s' !! i)
}.

Lemma insert_some {K A} `{Countable K} (m : gmap K A) k k' x : is_Some (m !! k) → is_Some (<[k' := x]> m !! k).
Proof. intros [y Hy]. destruct (decide (k' = k)) as [<-|]; [rewrite lookup_insert_eq|rewrite lookup_insert_ne by done]; eauto. Qed.
Hint Resolve insert_some : core.

Lemma thread_step_grows s i th s' : thread_step s i th s' → grows s s'.
Proof. by destruct 1; split; unfold known, has_channel; cbn; auto. Qed.

Lemma step_grows allowed closes s s' : step allowed closes s s' → grows s s'.
Proof. destruct 1; [by eapply thread_step_grows|..]; by split; unfold known, has_channel; cbn; auto. Qed.

Lemma thread_ok_grows s s' th : grows s s' → thread_ok s th → thread_ok s' th.
Proof.
  intros [Hh Hc _]. destruct th; cbn; auto; try (intros [? ?]; split; auto);
    try (intros; eapply Forall_impl; [eassumption|]; auto).
Qed.

Lemma channel_ok_grows s s' ch : grows s s' → channel_ok s ch → channel_ok s' ch.
Proof. intros [_ _ Ht] [Hl Hf]. split; [done|]. eapply Forall_impl; [exact Hf|]. auto. Qed.

(* ------------------------------------------------------------------ *)
(** ** Steps keep the invariant *)

Lemma ok_goto s mu i th : bus_ok s → mu_ok mu (<[i := th]> (threads s)) → thread_ok s th → bus_ok (goto (with_mu s mu) i th).
Proof.
  intros [] Hm Ht.
  assert (grows s (goto (with_mu s mu) i th)) as G by (split; unfold known, has_channel; cbn; auto).
  split; cbn; try done.
  - intros j x. destruct (decide (i = j)) as [<-|]; [rewrite lookup_insert_eq; intros [= <-]|rewrite lookup_insert_ne by done; intros Hx];
      eapply thread_ok_grows; eauto.
  - intros c ch Hc. eapply channel_ok_grows; eauto.
Qed.

Lemma goto_mu s i th : goto s i th = goto (with_mu s (topicsMu s)) i th.
Proof. by destruct s. Qed.

(** A step that keeps the lock where it was. *)
Lemma ok_goto_same s i th th' :
  bus_ok s → threads s !! i = Some th → holds th = holds th' → thread_ok s th' → bus_ok (goto s i th').
Proof.
  intros H Hi Hh Ht. rewrite goto_mu. apply ok_goto; [done| |done].
  apply mu_ok_other; [apply H|intros ? ?; congruence|congruence].
Qed.

Lemma ok_heap s t wt wt' :
  bus_ok s → heap s !! t = Some wt → (∀ k c, bindings wt' !! k = Some c → has_channel s c) →
  bus_ok (with_heap s (<[t := wt']> (heap s))).
Proof.
  intros [] Ht Hb.
  assert (grows s (with_heap s (<[t := wt']> (heap s)))) as G by (split; unfold known, has_channel; cbn; auto).
  split; cbn; try done.
  - intros n x Hx. apply (grows_heap _ _ G). eauto.
  - intros i th Hi. eapply thread_ok_grows; eauto.
  - intros x w k c. destruct (decide (t = x)) as [<-|]; [rewrite lookup_insert_eq; intros [= <-]; apply Hb|].
    rewrite lookup_insert_ne by done. apply ok_bindings0.
Qed.

Lemma ok_channel s c ch' : bus_ok s → channel_ok s ch' → bus_ok (with_channels s (<[c := ch']> (channels s))).
Proof.
  intros [] Hch.
  assert (grows s (with_channels s (<[c := ch']> (channels s)))) as G by (split; unfold known, has_channel; cbn; auto).
  split; cbn; try done.
  - intros i th Hi. eapply thread_ok_grows; eauto.
  - intros t wt k x Ht Hk. apply (grows_channels _ _ G). eauto.
  - intros x y. destruct (decide (c = x)) as [<-|]; [rewrite lookup_insert_eq; intros [= <-]; done|].
    rewrite lookup_insert_ne by done. apply ok_channels0.
Qed.

Lemma ok_create s topic t :
  bus_ok s → heap s !! t = None →
  bus_ok (with_topics (with_heap s (<[t := createTopic]> (heap s))) (<[topic := t]> (topics s))).
Proof.
  intros [] Ht.
  assert (∀ n, topics s !! n ≠ Some t) as Hnew by (intros n Hn; apply ok_topics0 in Hn as [? Hn]; congruence).
  split; cbn; try done.
  - intros n x. unfold known. cbn. destruct (decide (topic = n)) as [<-|].
    + rewrite lookup_insert_eq. intros [= <-]. rewrite lookup_insert_eq. eauto.
    + rewrite lookup_insert_ne by done. intros Hx. apply insert_some. by eapply ok_topics0.
  - intros n n' x. destruct (decide (topic = n)) as [<-|], (decide (topic = n')) as [<-|]; try done;
      rewrite ?lookup_insert_eq, ?lookup_insert_ne by done; eauto; intros; simplify_eq; by edestruct Hnew.
  - intros i th Hi. eapply thread_ok_grows; [|by eapply ok_threads0]. split; unfold known, has_channel; cbn; auto.
  - intros x w k c. destruct (decide (t = x)) as [<-|]; [rewrite lookup_insert_eq; intros [= <-]; by cbn|].
    rewrite lookup_insert_ne by done. apply ok_bindings0.
Qed.

Lemma ok_running s r e :
  bus_ok s → bus_ok (MkBus r e (topicsMu s) (topics s) (heap s) (channels s) (threads s)).
Proof. by intros []. Qed.

Lemma channel_ok_log s ch i m ch' :
  channel_ok s ch → is_Some (threads s !! i) → length (ch_buffer ch') ≤ ch_cap ch' → log ch' = log ch ++ [(i, m)] →
  channel_ok s ch'.
Proof. intros [_ Hf] Hi Hl E. split; [done|]. rewrite E. apply Forall_app. split; [done|]. by repeat constructor. Qed.

Lemma log_push i m (ch : channel message) : log (push i m ch) = log ch ++ [(i, m)].
Proof. unfold log. cbn. by rewrite (assoc_L (++)). Qed.
Lemma log_hand_over i m (ch : channel message) : ch_buffer ch = [] → log (hand_over i m ch) = log ch ++ [(i, m)].
Proof. unfold log. cbn. intros ->. by rewrite !app_nil_r. Qed.

Lemma ok_check_running s i th th' :
  bus_ok s → threads s !! i = Some th → holds th = false → holds th' = false → thread_ok s th' →
  bus_ok (goto s i (check_running s th')).
Proof.
  intros H Hi Hh Hh' Ht. unfold check_running.
  destruct (running s) as [[]|]; (eapply ok_goto_same; [exact H|exact Hi|cbn; congruence|done]).
Qed.

Lemma thread_step_ok s i th s' : bus_ok s → threads s !! i = Some th → thread_step s i th s' → bus_ok s'.
Proof.
  intros H Hi Hs. pose proof (ok_threads s H i th Hi) as Ht.
  destruct Hs; cbn in Ht;
    try (eapply ok_goto_same; [exact H|exact Hi|done|]; cbn; intuition; fail);
    try (by eapply ok_check_running).
  - eapply ok_goto_same; [exact H|exact Hi|done|]. eapply (ok_topics s H); eassumption.
  - destruct H0 as [Hwt _]. eapply ok_goto_same; [exact H|exact Hi|done|]. split; [done|]. rewrite H1.
    apply Forall_fmap, Forall_forall. intros [k c] Hk%elem_of_map_to_list. eapply (ok_bindings s H); eassumption.
  - destruct Ht as [Ht Hc]. apply Forall_cons in Hc as [_ Hc].
    eapply (ok_goto_same (with_channels _ _)); [apply ok_channel; [exact H|]|exact Hi|done|].
    + eapply channel_ok_log; [by eapply (ok_channels s H)|by eauto| |apply log_push]. cbn. rewrite length_app. cbn. lia.
    + split; [done|]. eapply Forall_impl; [exact Hc|]. intros x Hx. by apply insert_some.
  - destruct Ht as [Ht Hc]. apply Forall_cons in Hc as [_ Hc].
    eapply (ok_goto_same (with_channels _ _)); [apply ok_channel; [exact H|]|exact Hi|done|].
    + eapply channel_ok_log; [by eapply (ok_channels s H)|by eauto| |by apply log_hand_over].
      by apply (ok_channels s H) in H0 as [? _].
    + split; [done|]. eapply Forall_impl; [exact Hc|]. intros x Hx. by apply insert_some.
  - apply ok_goto; [done| |]. { apply mu_ok_take; [rewrite <- H0; apply H|done]. }
    split; [|done]. unfold open_topic in H1. destruct (topics s !! topic) as [t'|] eqn:E; [|done].
    destruct (heap s !! t') as [wt|] eqn:Eh; [|done]. destruct (IsClosed wt); [done|]. injection H1 as ->. by exists wt.
  - eapply (ok_goto (with_topics _ _)); [by apply ok_create| |].
    { cbn. apply mu_ok_take; [rewrite <- H0; apply H|done]. }
    split; [|done]. unfold known. cbn. rewrite lookup_insert_eq. eauto.
  - destruct H0 as [Hwt _]. eapply (ok_goto (with_heap _ _)); [eapply ok_heap; [done|exact Hwt|]| |done].
    + cbn. intros k c. destruct (decide (consumer = k)) as [<-|]; [rewrite lookup_insert_eq; intros [= <-]; apply Ht|].
      rewrite lookup_insert_ne by done. by eapply (ok_bindings s H).
    + eapply mu_ok_release; [apply H|exact Hi|done|done].
  - destruct H0 as [Hwt _]. eapply (ok_goto_same (with_heap _ _)); [eapply ok_heap; [done|exact Hwt|]|exact Hi|done|done].
    cbn. intros k c [_ Hk]%lookup_delete_Some. by eapply (ok_bindings s H).
  - eapply (ok_goto_same (MkBus _ _ _ _ _ _ _)); [by apply ok_running|exact Hi|done|done].
  - eapply (ok_goto_same (MkBus _ _ _ _ _ _ _)); [by apply ok_running|exact Hi|by destruct (errchan_closed s)|by destruct (errchan_closed s)].
  - apply ok_goto; [done| |]. { apply mu_ok_take; [rewrite <- H0; apply H|done]. }
    cbn. rewrite H1. apply Forall_fmap, Forall_forall. intros [n t] Hn%elem_of_map_to_list. by eapply (ok_topics s H).
  - destruct H0 as [Hwt _]. apply Forall_cons in Ht as [_ Ht].
    eapply (ok_goto_same (with_heap _ _)); [eapply ok_heap; [done|exact Hwt|]|exact Hi|done|].
    + unfold topic_Close. destruct (t_done wt); cbn; [|done]. intros k c. by eapply (ok_bindings s H).
    + eapply Forall_impl; [exact Ht|]. intros x Hx. by apply insert_some.
  - apply ok_goto; [done| |done]. eapply mu_ok_release; [apply H|exact Hi|done|done].
Qed.

Lemma step_ok allowed closes s s' : bus_ok s → step allowed closes s s' → bus_ok s'.
Proof.
  intros H. destruct 1.
  - by eapply thread_step_ok.
  - apply ok_channel; [done|]. destruct (ok_channels s H c ch H0) as [Hl Hf]. split.
    + cbn. rewrite H1 in Hl. cbn in Hl. lia.
    + unfold log in *. cbn. rewrite H1 in Hf. by rewrite <- (assoc_L (++)).
  - apply ok_channel; [done|]. by destruct (ok_channels s H c ch H0).
  - apply ok_channel; [done|]. split; [cbn; lia|constructor].
  - rewrite goto_mu. apply ok_goto; [done| |].
    + apply mu_ok_other; [apply H|congruence|]. by destruct c.
    + by destruct c.
Qed.

(** A state the program reaches. *)
Definition reachable allowed closes s : Prop := rtc (step allowed closes) NewWizardBus s.

Lemma reachable_ok allowed closes s : reachable allowed closes s → bus_ok s.
Proof.
  intros H. unfold reachable in H. revert s H. apply (rtc_ind_r bus_ok); [apply bus_ok_new|].
  intros y z _ Hs Hy. by eapply step_ok.
Qed.
End Facts.

Section Delivery.
Context {message : Type}.
Implicit Types (s : WizardBus message) (th : thread message) (i t : nat) (m : message).

(** A consumer [k] of the topic [T], which is kept at [p], with its channel
    [c]. *)
Context (T k : bytes) (p c : nat).

(** It is bound, to an open topic, once, and its channel is open. *)
Record bound s : Prop := {
  bound_running : running s = Some true;
  bound_topic : topics s !! T = Some p;
  bound_here : ∃ wt, heap s !! p = Some wt ∧ t_done wt = false ∧ bindings wt !! k = Some c;
  bound_once : ∀ t wt n, heap s !! t = Some wt → bindings wt !! n = Some c → t = p ∧ n = k;
  bound_open : ∃ ch, channels s !! c = Some ch ∧ ch_closed ch = false
}.

(** A call that is not about this consumer, and does not stop the bus. *)
Definition harmless th : Prop :=
  match th with
  | Subscribing topic consumer sub | Locking topic consumer sub => sub ≠ c ∧ (topic, consumer) ≠ (T, k)
  | Binding t consumer sub => sub ≠ c ∧ (t, consumer) ≠ (p, k)
  | Cancelling t consumer => (t, consumer) ≠ (p, k)
  | Stopping | StopLocking | Closing _ => False
  | _ => True
  end.
Definition quiet s : Prop := ∀ i th, threads s !! i = Some th → harmless th.
Definition undisturbing (x : call message) : Prop := harmless (begin_call x).

Lemma check_running_bound s th : running s = Some true → check_running s th = th.
Proof. unfold check_running. by intros ->. Qed.

Lemma quiet_goto s s' i th : quiet s → threads s' = <[i := th]> (threads s) → harmless th → quiet s'.
Proof.
  intros Hq E Hh j x. rewrite E. destruct (decide (i = j)) as [<-|]; [by rewrite lookup_insert_eq; intros [= <-]|].
  rewrite lookup_insert_ne by done. apply Hq.
Qed.

Lemma bound_channel s c' ch ch' :
  bound s → channels s !! c' = Some ch → ch_closed ch' = ch_closed ch ∨ c' ≠ c →
  bound (with_channels s (<[c' := ch']> (channels s))).
Proof.
  intros [] Hc Hcl. split; cbn; try done. destruct bound_open0 as (x & Hx & Ho).
  destruct (decide (c' = c)) as [->|]; [rewrite lookup_insert_eq|by rewrite lookup_insert_ne by done; eauto].
  exists ch'. split; [done|]. destruct Hcl; congruence.
Qed.

Lemma bound_heap s t wt wt' :
  bound s → heap s !! t = Some wt →
  (t = p → t_done wt' = t_done wt ∧ bindings wt' !! k = bindings wt !! k) →
  (∀ n, bindings wt' !! n = Some c → bindings wt !! n = Some c) →
  bound (with_heap s (<[t := wt']> (heap s))).
Proof.
  intros [] Ht Hp Hn. split; cbn; try done.
  - destruct bound_here0 as (w & Hw & Hd & Hk). destruct (decide (t = p)) as [->|].
    + rewrite lookup_insert_eq. simplify_eq. destruct (Hp eq_refl) as [E1 E2]. exists wt'. by rewrite E1, E2.
    + rewrite lookup_insert_ne by done. eauto.
  - intros x w n. destruct (decide (t = x)) as [<-|]; [rewrite lookup_insert_eq; intros [= <-] Hx; eauto|].
    rewrite lookup_insert_ne by done. eauto.
Qed.

Lemma thread_step_bound s i th s' :
  bus_ok s → bound s → quiet s → threads s !! i = Some th → thread_step s i th s' → bound s' ∧ quiet s'.
Proof.
  intros Ho Hb Hq Hi Hs. pose proof (Hq i th Hi) as Hh.
  assert (∀ s0, bound s0 → ∀ ths, bound (with_threads s0 ths)) as Bt by (by intros s0 []; split).
  assert (∀ s0, bound s0 → ∀ mu, bound (with_mu s0 mu)) as Bm by (by intros s0 []; split).
  destruct Hs; cbn in Hh; try done;
    rewrite ?check_running_bound by apply Hb;
    try (split; [by apply Bt|by eapply quiet_goto]; fail).
  - split; [apply Bt; eapply bound_channel; [done|eassumption|by left]|by eapply quiet_goto].
  - split; [apply Bt; eapply bound_channel; [done|eassumption|by left]|by eapply quiet_goto].
  - split; [by apply Bt, Bm|eapply quiet_goto; [done|done|]]. destruct Hh as [? Hne]. split; [done|].
    intros [= -> ->]. apply Hne. unfold open_topic in H0. destruct (topics s !! topic) as [t'|] eqn:E; [|done].
    destruct (heap s !! t') as [wt|]; [|done]. destruct (IsClosed wt); [done|]. injection H0 as ->.
    f_equal. eapply (ok_names s Ho); [exact E|apply Hb].
  - destruct Hh as [? Hne]. destruct Hb as [? B2 B3 B4 B5]. assert (t ≠ p) as Htp by (intros ->; destruct B3 as (? & ? & _); congruence).
    split; [apply Bt, Bm; split; cbn; try done|].
    + rewrite lookup_insert_ne; [done|]. intros ->. unfold open_topic in H0. destruct B3 as (wt & Hw & Hd & _).
      rewrite B2, Hw in H0. unfold IsClosed in H0. by rewrite Hd in H0.
    + rewrite lookup_insert_ne by done. done.
    + intros x w n. destruct (decide (t = x)) as [<-|]; [rewrite lookup_insert_eq; intros [= <-]; by cbn|].
      rewrite lookup_insert_ne by done. eauto.
    + eapply quiet_goto; [done|done|]. split; [done|]. by intros [= ? ?].
  - destruct Hh as [? Hne], H as [Hwt _]. split; [|by eapply quiet_goto].
    apply Bt, (Bm (with_heap _ _)). eapply bound_heap; [done|exact Hwt| |]; cbn.
    + intros ->. split; [done|]. rewrite lookup_insert_ne; [done|congruence].
    + intros n. destruct (decide (consumer = n)) as [<-|]; [rewrite lookup_insert_eq; congruence|by rewrite lookup_insert_ne].
  - destruct H as [Hwt _]. split; [|by eapply quiet_goto]. apply Bt. eapply bound_heap; [done|exact Hwt| |]; cbn.
    + intros ->. assert (consumer ≠ k) as Hne by congruence.
      destruct (bound_here s Hb) as (w & Hw & Hd & Hk). simplify_eq. rewrite lookup_delete_ne by done. split; [|done].
      rewrite Hd. apply orb_false_iff. split; [done|]. apply bool_decide_eq_false. intros E.
      assert (delete consumer (bindings wt) !! k = Some c) as Hx by by rewrite lookup_delete_ne. by rewrite E in Hx.
    + by intros n [_ ?]%lookup_delete_Some.
  - split; [|by eapply quiet_goto]. apply Bt. by destruct Hb; split.
Qed.

(* ------------------------------------------------------------------ *)
(** ** What a call has sent *)

Definition sent_in i (l : list (nat * message)) : list message := (filter (λ x, x.1 = i) l).*2.

Lemma sent_in_snoc i j m l : sent_in i (l ++ [(j, m)]) = sent_in i l ++ (if decide (j = i) then [m] else []).
Proof.
  unfold sent_in. rewrite filter_app, fmap_app. f_equal. rewrite filter_cons. cbn [fst]. by destruct (decide (j = i)).
Qed.

(** How often the channel is still to be served. *)
Definition due (todo : list nat) : nat := length (filter (λ x, x = c) todo).

Lemma due_snapshot (b : gmap bytes nat) todo :
  b !! k = Some c → (∀ n, b !! n = Some c → n = k) → todo ≡ₚ (map_to_list b).*2 → due todo = 1.
Proof.
  intros Hk Hone E. unfold due. rewrite E. rewrite <- (insert_delete_id b k c Hk), map_to_list_insert by apply lookup_delete_eq.
  rewrite fmap_cons, filter_cons. cbn [snd]. destruct (decide (c = c)) as [_|]; [|done]. cbn [length]. f_equal.
  apply length_zero_iff_nil. destruct (filter _ _) as [|x l] eqn:Ef; [done|exfalso].
  assert (x ∈ filter (λ x, x = c) (map_to_list (delete k b)).*2) as Hx by (rewrite Ef; by left).
  apply list_elem_of_filter in Hx as [-> Hx]. apply list_elem_of_fmap in Hx as ([n y] & -> & Hn%elem_of_map_to_list).
  apply lookup_delete_Some in Hn as [Hne Hn]. apply Hne. symmetry. by apply Hone.
Qed.

Lemma due_cons x todo : due (x :: todo) = (if decide (x = c) then 1 else 0) + due todo.
Proof. unfold due. rewrite filter_cons. by destruct (decide (x = c)). Qed.

(** How far a publisher of the messages [ms] is, that has sent some. *)
Definition progress (ms : list message) th (sent : list message) : Prop :=
  match th with
  | Publishing topic rest => topic = T ∧ ms = sent ++ rest
  | Looking topic m rest => topic = T ∧ ms = sent ++ m :: rest
  | Found t m topic rest => t = p ∧ topic = T ∧ ms = sent ++ m :: rest
  | Sending t m todo topic rest =>
      t = p ∧ topic = T ∧ (due todo = 1 ∧ ms = sent ++ m :: rest ∨ due todo = 0 ∧ ms = sent ++ rest)
  | Returned r => r = None ∧ ms = sent
  | Panicked => ∃ rest, ms = sent ++ rest
  | _ => False
  end.

Definition log_of s : list (nat * message) := from_option log [] (channels s !! c).

Record published i ms s : Prop := {
  pub_ok : bus_ok s; pub_bound : bound s; pub_quiet : quiet s;
  pub_progress : ∃ th, threads s !! i = Some th ∧ progress ms th (sent_in i (log_of s))
}.

Lemma log_of_insert s c' ch :
  log_of (with_channels s (<[c' := ch]> (channels s))) = if decide (c' = c) then log ch else log_of s.
Proof.
  unfold log_of. cbn. destruct (decide (c' = c)) as [->|]; [by rewrite lookup_insert_eq|by rewrite lookup_insert_ne].
Qed.

Lemma log_of_some s ch : channels s !! c = Some ch → log_of s = log ch.
Proof. unfold log_of. by intros ->. Qed.

Lemma log_of_goto s i th : log_of (goto s i th) = log_of s.
Proof. done. Qed.

(** A send to another channel, or of another thread, is not seen. *)
Lemma log_of_send s i j m c' ch ch' :
  channels s !! c' = Some ch → log ch' = log ch ++ [(j, m)] →
  sent_in i (log_of (with_channels s (<[c' := ch']> (channels s)))) =
  sent_in i (log_of s) ++ (if decide (c' = c ∧ j = i) then [m] else []).
Proof.
  intros Hc Hl. rewrite log_of_insert. destruct (decide (c' = c)) as [->|Hne].
  - rewrite Hl, sent_in_snoc, (log_of_some _ _ Hc). f_equal. by destruct (decide (j = i)), (decide (c = c ∧ j = i)); naive_solver.
  - destruct (decide (c' = c ∧ j = i)) as [[? _]|]; [done|]. by rewrite app_nil_r.
Qed.

Lemma thread_step_other i j ms th s s' :
  i ≠ j → threads s !! j = Some th → thread_step s j th s' →
  (∃ x, threads s !! i = Some x ∧ progress ms x (sent_in i (log_of s))) →
  ∃ x, threads s' !! i = Some x ∧ progress ms x (sent_in i (log_of s')).
Proof.
  intros Hij Hj Hs (x & Hx & Hp). exists x.
  assert (threads s' !! i = Some x) as Hx' by (destruct Hs; cbn; by rewrite lookup_insert_ne).
  split; [done|]. enough (sent_in i (log_of s') = sent_in i (log_of s)) as -> by done.
  destruct Hs; try done.
  - rewrite log_of_goto. erewrite (log_of_send _ i j) by (exact H || apply log_push).
    destruct (decide (c0 = c ∧ j = i)) as [[_ ?]|]; [congruence|apply app_nil_r].
  - rewrite log_of_goto. erewrite (log_of_send _ i j) by (exact H || by apply log_hand_over).
    destruct (decide (c0 = c ∧ j = i)) as [[_ ?]|]; [congruence|apply app_nil_r].
Qed.

Lemma sending_step i ms m c' todo topic rest sent :
  progress ms (Sending p m (c' :: todo) topic rest) sent →
  progress ms (Sending p m todo topic rest) (sent ++ (if decide (c' = c ∧ i = i) then [m] else [])).
Proof.
  cbn [progress]. rewrite due_cons. intros (_ & -> & H). split_and!; [done..|].
  destruct (decide (c' = c)) as [->|Hne], (decide (_ ∧ _)) as [Hd|Hd]; try naive_solver.
  - destruct H as [[H E]|[H E]]; [|lia]. right. split; [lia|]. by rewrite <- (assoc_L (++)).
  - rewrite app_nil_r. naive_solver.
Qed.

Lemma thread_step_self i ms th s s' :
  bus_ok s → bound s → quiet s → threads s !! i = Some th → thread_step s i th s' →
  progress ms th (sent_in i (log_of s)) →
  ∃ x, threads s' !! i = Some x ∧ progress ms x (sent_in i (log_of s')).
Proof.
  intros Ho Hb Hq Hi Hs Hp.
  destruct Hs; cbn [threads goto with_threads with_channels with_heap with_mu with_topics]; rewrite lookup_insert_eq;
    eexists; (split; [reflexivity|]); rewrite ?check_running_bound by apply Hb; try exact Hp; try done.
  - destruct Hp as [_ ->]. split; [done|]. by rewrite app_nil_r.
  - destruct Hp as [-> Hp]. split_and!; [|done..]. rewrite (bound_topic s Hb) in H0. congruence.
  - destruct Hp as [-> Hp]. rewrite (bound_topic s Hb) in H0. discriminate.
  - destruct Hp as (-> & -> & Hp). split_and!; [done..|]. left. split; [|done].
    destruct (bound_here s Hb) as (w & Hw & _ & Hk), H as [Hwt _]. simplify_eq.
    eapply due_snapshot; [exact Hk| |exact H0]. intros n Hn. by eapply (bound_once s Hb).
  - pose proof Hp as (-> & _). rewrite log_of_goto. erewrite (log_of_send _ i i) by (exact H || apply log_push). by apply sending_step.
  - pose proof Hp as (-> & _). rewrite log_of_goto. erewrite (log_of_send _ i i) by (exact H || by apply log_hand_over). by apply sending_step.
  - destruct Hp as (_ & _ & [[_ Hp]|[_ Hp]]); eexists; exact Hp.
  - destruct Hp as (-> & _). destruct (bound_here s Hb) as (w & Hw & Hd & _). congruence.
  - destruct Hp as (_ & -> & [[Hd _]|[_ Hp]]); [discriminate Hd|done].
Qed.

Lemma step_published (allowed : call message → Prop) closes i ms s s' :
  (∀ x, allowed x → undisturbing x) → ¬ closes c →
  published i ms s → step allowed closes s s' → published i ms s'.
Proof.
  intros Ha Hc [Ho Hb Hq Hp] Hs. assert (bus_ok s') as Ho' by by eapply step_ok.
  destruct Hs as [j th s' Hj Hs|c' ch x rest Hch Hbuf|c' ch Hch Hopen Hcl|c' cap Hch|j x Hj Hx Hal].
  - destruct (thread_step_bound _ _ _ _ Ho Hb Hq Hj Hs) as [Hb' Hq']. split; [done..|].
    destruct (decide (i = j)) as [<-|Hne]; [|by eapply thread_step_other].
    destruct Hp as (x & Hx & Hp). simplify_eq. exact (thread_step_self _ _ _ _ _ Ho Hb Hq Hx Hs Hp).
  - split; [done| |done|]; [eapply bound_channel; [done|exact Hch|by left]|].
    assert (log_of (with_channels s (<[c' := MkChannel (ch_cap ch) rest (ch_received ch ++ [x]) (ch_closed ch)]> (channels s))) = log_of s) as E.
    { rewrite log_of_insert. destruct (decide (c' = c)) as [->|]; [|done]. rewrite (log_of_some _ _ Hch).
      unfold log. cbn. rewrite Hbuf, <- (assoc_L (++)). done. }
    rewrite E. exact Hp.
  - split; [done| |done|]; [eapply bound_channel; [done|exact Hch|right; congruence]|].
    rewrite log_of_insert. destruct (decide (c' = c)) as [->|]; [done|exact Hp].
  - destruct (bound_open s Hb) as (ch & Hch' & Ho2).
    assert (c' ≠ c) as Hne by congruence.
    split; [done| |done|].
    + destruct Hb; split; cbn; try done. rewrite lookup_insert_ne by done. eauto.
    + rewrite log_of_insert. destruct (decide (c' = c)) as [->|]; [done|exact Hp].
  - split; [done| | |].
    + by destruct Hb; split.
    + eapply quiet_goto; [done|done|]. by apply Ha.
    + destruct Hp as (y & Hy & Hp). exists y. split; [|done]. cbn. rewrite lookup_insert_ne; [done|congruence].
Qed.
End Delivery.

(* ------------------------------------------------------------------ *)
(** ** Topics whose mutex stays locked *)

Section Locked.
Context {message : Type}.
Implicit Types (s : WizardBus message) (th : thread message).

(** A thread whose next step takes the mutex of the topic. *)
Definition waits_for (t : nat) th : Prop :=
  match th with
  | Found t' _ _ _ | Binding t' _ _ | Cancelling t' _ => t' = t
  | Closing ts => head ts = Some t
  | _ => False
  end.

Definition left_locked s (t : nat) : Prop := ∃ wt, heap s !! t = Some wt ∧ t_held wt = true.

Lemma thread_step_locked s t i th s' :
  left_locked s t → thread_step s i th s' → left_locked s' t ∧ ¬ waits_for t th.
Proof.
  intros (wt & Hw & Hh) Hs.
  assert (∀ t' w w', heap s !! t' = Some w → t_held w = false →
            left_locked (with_heap s (<[t' := w']> (heap s))) t ∧ t' ≠ t) as Hne.
  { intros t' w w' Hw' Hf. assert (t' ≠ t) as Hn by (intros ->; congruence). split; [|done].
    exists wt. cbn. by rewrite lookup_insert_ne by done. }
  destruct Hs; try (split; [by exists wt|first [by intros []|by intros [=]]]; fail).
  - split; [by exists wt|]. cbn. intros ->. destruct H as [? ?]. congruence.
  - split; [|by intros []]. exists wt. cbn. rewrite lookup_insert_ne; [done|congruence].
  - destruct H as [H1 H2]. destruct (Hne t0 wt0 (topic_Subscribe consumer sub wt0) H1 H2). by split.
  - destruct H as [H1 H2]. destruct (Hne t0 wt0 (unsubscribe consumer wt0) H1 H2). by split.
  - destruct H as [H1 H2]. destruct (Hne t0 wt0 (topic_Close wt0) H1 H2). split; [done|]. cbn. congruence.
Qed.

Lemma thread_step_keeps s i j th s' x :
  thread_step s i th s' → i ≠ j → threads s !! j = Some x → threads s' !! j = Some x.
Proof. intros Hs Hij Hx. destruct Hs; cbn; by rewrite lookup_insert_ne. Qed.

(** What waits for it waits for ever. *)
Lemma locked_forever allowed closes s s' t i th :
  left_locked s t → threads s !! i = Some th → waits_for t th → rtc (step allowed closes) s s' →
  left_locked s' t ∧ threads s' !! i = Some th.
Proof.
  intros Hl Hi Hw Hs. induction Hs as [s|s s1 s2 Hs _ IH]; [done|]. apply IH; destruct Hs; try done.
  - by eapply thread_step_locked.
  - destruct (decide (i0 = i)) as [->|Hne]; [|by eapply thread_step_keeps].
    simplify_eq. by apply (thread_step_locked s t i th s') in H0 as [_ []].
  - cbn. rewrite lookup_insert_ne; [done|congruence].
Qed.
End Locked.

(* ------------------------------------------------------------------ *)
(** ** The properties *)

(** C20: a consumer that is bound to a topic, to which nobody else refers and
    which no call disturbs, is sent the messages of every publisher of that
    topic, whatever the other publishers and consumers of the bus do at the
    same time: once, in the order they were published, and all of them when
    [Publish] has returned, which returns no error. *)
Theorem bus_delivery {message : Type} (T k : bytes) (p c i : nat) (ms : list message)
    (a : call message → Prop) (b : nat → Prop) (allowed : call message → Prop) (closes : nat → Prop)
    (s0 s : WizardBus message) :
  reachable a b s0 → bound T k p c s0 → quiet T k p c s0 → threads s0 !! i = None →
  (∀ x, allowed x → undisturbing T k p c x) → ¬ closes c →
  rtc (step allowed closes) (goto s0 i (begin_call (Publish T ms))) s →
  ∃ ch th rest, channels s !! c = Some ch ∧ threads s !! i = Some th ∧
    ms = sent_by i ch ++ rest ∧
    (∀ r, th = Returned r → r = None ∧ rest = []).
Proof.
  intros Hr Hb Hq Hi Ha Hc Hs. apply reachable_ok in Hr as Ho.
  assert (published T k p c i ms (goto s0 i (begin_call (Publish T ms)))) as Hp.
  { split; [| |by eapply quiet_goto|].
    - rewrite goto_mu. apply ok_goto; [done| |done]. apply mu_ok_other; [apply Ho|congruence|done].
    - by destruct Hb; split.
    - exists (Publishing T ms). cbn. rewrite lookup_insert_eq. split_and!; [done..|].
      assert (sent_in i (log_of c (goto s0 i (Publishing T ms))) = []) as ->; [|done].
      rewrite log_of_goto. destruct (bound_open T k p c s0 Hb) as (ch & Hch & _). rewrite (log_of_some _ _ _ Hch).
      destruct (ok_channels s0 Ho c ch Hch) as [_ Hf]. unfold sent_in.
      assert (filter (λ x, x.1 = i) (log ch) = []) as ->; [|done].
      apply elem_of_nil_inv. intros x [E Hx]%list_elem_of_filter. rewrite Forall_forall in Hf.
      destruct (Hf x Hx) as [y Hy]. congruence. }
  assert (published T k p c i ms s) as [_ Hb' _ (th & Hth & Hpr)].
  { clear -Hp Hs Ha Hc. induction Hs as [|x y z Hx _ IH]; [done|]. apply IH. by eapply step_published. }
  destruct (bound_open T k p c s Hb') as (ch & Hch & _). exists ch, th.
  rewrite (log_of_some _ _ _ Hch) in Hpr. change (sent_by i ch) with (sent_in i (log ch)).
  destruct th; cbn in Hpr; try done; try (destruct_and? Hpr; eexists; split_and!; [done..|eassumption|discriminate]).
  - destruct Hpr as (_ & _ & [[_ E]|[_ E]]); eexists; (split_and!; [done..|exact E|discriminate]).
  - destruct Hpr as [-> ->]. exists []. rewrite app_nil_r. split_and!; [done..|]. by intros r [= <-].
  - destruct Hpr as [rest ->]. exists rest. by split_and!.
Qed.

(** Runs of concrete programs: the steps of a thread, the lookups computed. *)
Ltac computed := vm_compute; reflexivity.
Ltac run_call i c := eapply rtc_l; [apply (step_call _ _ _ i c); [computed|try done|done]|].
Ltac run_thread i tac := eapply rtc_l; [eapply (step_thread _ _ _ i); [computed|tac]|].

Definition toy_topic : bytes := bs "sensu:event".
Definition toy_name : bytes := bs "pipelined".

(** A bus with one consumer that is bound. *)
Definition toy_bus : WizardBus nat :=
  MkBus (Some true) false None {[toy_topic := 0]} {[0 := MkTopic {[toy_name := 0]} false false]}
    {[0 := MkChannel 1 [] [] false]} {[0 := Returned None; 1 := Returned None]}.

Lemma toy_bus_reachable : reachable (λ _, True) (λ _, True) toy_bus.
Proof.
  unfold reachable. run_call 0 (Start (message := nat)). run_thread 0 ltac:(apply start_running).
  eapply rtc_l; [apply (step_make _ _ _ 0 1); computed|].
  run_call 1 (Subscribe (message := nat) toy_topic toy_name 0); [eexists; computed|].
  run_thread 1 ltac:(apply subscribe_running).
  run_thread 1 ltac:(apply (subscribe_created _ _ _ _ _ 0); computed).
  run_thread 1 ltac:(eapply subscribe_bound; split; computed).
  match goal with |- rtc _ ?s _ => replace s with toy_bus by computed end. apply rtc_refl.
Qed.

Lemma toy_bus_bound : bound toy_topic toy_name 0 0 toy_bus ∧ quiet toy_topic toy_name 0 0 toy_bus.
Proof.
  split; [split|].
  - done.
  - computed.
  - eexists. split_and!; computed.
  - intros t wt n. unfold toy_bus. cbn [heap]. rewrite lookup_singleton_Some. intros [<- <-]. cbn [bindings].
    rewrite lookup_singleton_Some. by intros [<- _].
  - eexists. split; computed.
  - intros i th. unfold toy_bus. cbn [threads]. rewrite lookup_insert_Some, lookup_singleton_Some.
    by intros [[<- <-]|[_ [<- <-]]].
Qed.

(** Two publishers at a time, each after its first message. *)
Definition toy_midway : WizardBus nat :=
  MkBus (Some true) false None {[toy_topic := 0]} {[0 := MkTopic {[toy_name := 0]} false false]}
    {[0 := MkChannel 1 [] [(3, 7); (2, 1)] false]}
    {[0 := Returned None; 1 := Returned None; 2 := Publishing toy_topic [2; 3]; 3 := Publishing toy_topic [8]]}.

Lemma toy_midway_reached :
  rtc (step (λ x, x = Publish toy_topic [7; 8]) (λ _, False))
    (goto toy_bus 2 (begin_call (Publish toy_topic [1; 2; 3]))) toy_midway.
Proof.
  run_thread 2 ltac:(apply publish_running). run_thread 2 ltac:(eapply publish_found; computed).
  run_call 3 (Publish toy_topic [7; 8]).
  run_thread 3 ltac:(apply publish_running). run_thread 3 ltac:(eapply publish_found; computed).
  run_thread 3 ltac:(eapply send_snapshot; [split; computed|vm_compute; reflexivity]).
  run_thread 2 ltac:(eapply send_snapshot; [split; computed|vm_compute; reflexivity]).
  run_thread 3 ltac:(eapply send_buffered; [computed|computed|vm_compute; lia]).
  eapply rtc_l; [eapply (step_receive _ _ _ 0); computed|].
  run_thread 2 ltac:(eapply send_handed; computed).
  run_thread 2 ltac:(apply send_done). run_thread 3 ltac:(apply send_done).
  match goal with |- rtc _ ?s _ => replace s with toy_midway by computed end. apply rtc_refl.
Qed.

Lemma bus_delivery_witness :
  ∃ ch th rest, channels toy_midway !! 0 = Some ch ∧ threads toy_midway !! 2 = Some th ∧
    [1; 2; 3] = sent_by 2 ch ++ rest ∧ (∀ r, th = Returned r → r = None ∧ rest = []).
Proof.
  destruct toy_bus_bound as [Hb Hq].
  apply (bus_delivery toy_topic toy_name 0 0 2 [1; 2; 3] (λ _, True) (λ _, True) (λ x, x = Publish toy_topic [7; 8])
           (λ _, False) toy_bus toy_midway toy_bus_reachable Hb Hq eq_refl); [|by intros []|apply toy_midway_reached].
  by intros x ->.
Defined.

(* ------------------------------------------------------------------ *)
(** ** Progress *)

Section Progress.
Context {message : Type}.

Definition can_step (s : WizardBus message) (i : nat) : Prop :=
  ∃ th s', threads s !! i = Some th ∧ thread_step s i th s'.

Definition finished (th : thread message) : Prop :=
  match th with Returned _ | Panicked => True | _ => False end.

(** It sends to an open channel that is full. *)
Definition waits_for_consumer (s : WizardBus message) (th : thread message) : Prop :=
  ∃ t m c todo topic rest ch, th = Sending t m (c :: todo) topic rest ∧
    channels s !! c = Some ch ∧ ch_closed ch = false ∧ ch_buffer ch ≠ [] ∧ length (ch_buffer ch) = ch_cap ch.

Definition none_left_locked (s : WizardBus message) : Prop := ∀ t, ¬ left_locked s t.

Lemma known_unlocked s t : none_left_locked s → known s t → ∃ wt, unlocked s t wt.
Proof.
  intros Hn [wt Hwt]. exists wt. split; [done|]. destruct (t_held wt) eqn:E; [|done]. destruct (Hn t). by exists wt.
Qed.

Lemma holder_steps s i th : bus_ok s → none_left_locked s → threads s !! i = Some th → holds th = true → can_step s i.
Proof.
  intros Ho Hn Hi Hh. pose proof (ok_threads s Ho i th Hi) as Ht. destruct th; try discriminate Hh; cbn in Ht.
  - destruct (known_unlocked s t Hn (proj1 Ht)) as [wt Hu]. do 2 eexists. split; [exact Hi|]. by eapply subscribe_bound.
  - destruct ts as [|t ts]; [do 2 eexists; split; [exact Hi|apply stop_unlocked]|].
    apply Forall_cons in Ht as [Ht _]. destruct (known_unlocked s t Hn Ht) as [wt Hu].
    do 2 eexists. split; [exact Hi|]. by eapply stop_close.
Qed.

Lemma sending_steps s i t m todo topic rest :
  bus_ok s → threads s !! i = Some (Sending t m todo topic rest) →
  can_step s i ∨ waits_for_consumer s (Sending t m todo topic rest).
Proof.
  intros Ho Hi. destruct todo as [|c todo]; [left; do 2 eexists; split; [exact Hi|apply send_done]|].
  destruct (ok_threads s Ho i _ Hi) as [_ [[ch Hch] _]%Forall_cons].
  destruct (ch_closed ch) eqn:Ec; [left; do 2 eexists; split; [exact Hi|by eapply send_closed]|].
  destruct (ch_buffer ch) as [|x buf] eqn:Eb; [left; do 2 eexists; split; [exact Hi|by eapply send_handed]|].
  destruct (decide (length (ch_buffer ch) < ch_cap ch)) as [Hl|Hl]; [left; do 2 eexists; split; [exact Hi|by eapply send_buffered]|].
  right. do 7 eexists. split_and!; [done..|by rewrite Eb|]. destruct (ok_channels s Ho c ch Hch) as [? _]. lia.
Qed.

End Progress.


(** C35: two runs of a bus that is shut down while a message is published.
    The consumer cancels its subscription, which closes the topic, and the bus
    is stopped: [Stop] returns with the mutex of the topic locked, and the
    publisher waits for it for ever. Or the publisher has taken its snapshot
    of the consumers: the consumer cancels, and closes its channel when
    [Cancel] has returned, as eventd does, and the publisher panics. *)
Theorem shutdown_races :
  (∃ s, rtc (step (λ _, True) (λ _, False)) toy_bus s ∧
     threads s !! 4 = Some (Returned None) ∧
     ∀ allowed closes s', rtc (step allowed closes) s s' →
       threads s' !! 2 = Some (Found 0 1 toy_topic [])) ∧
  (∃ s s', rtc (step (λ _, True) (λ _, False)) toy_bus s ∧
     threads s !! 3 = Some (Returned None) ∧
     rtc (step (λ _, False) (λ c, c = 0)) s s' ∧ threads s' !! 2 = Some Panicked).
Proof.
  split.
  - eexists. split.
    + run_call 2 (Publish toy_topic [1]). run_thread 2 ltac:(apply publish_running).
      run_thread 2 ltac:(eapply publish_found; computed).
      run_call 3 (Cancel (message := nat) 0 toy_name); [eexists; computed|].
      run_thread 3 ltac:(eapply cancel_unbound; split; computed).
      run_call 4 (Stop (message := nat)). run_thread 4 ltac:(apply stop_errchan).
      run_thread 4 ltac:(eapply stop_locked; [computed|reflexivity]).
      run_thread 4 ltac:(eapply stop_close; split; computed).
      run_thread 4 ltac:(apply stop_unlocked). apply rtc_refl.
    + split; [computed|]. intros allowed closes s' Hs.
      refine (proj2 (locked_forever allowed closes _ s' 0 2 (Found 0 1 toy_topic []) _ _ _ Hs)); [|computed|done].
      eexists. split; computed.
  - do 2 eexists. split_and!.
    + run_call 2 (Publish toy_topic [1]). run_thread 2 ltac:(apply publish_running).
      run_thread 2 ltac:(eapply publish_found; computed).
      run_thread 2 ltac:(eapply send_snapshot; [split; computed|vm_compute; reflexivity]).
      run_call 3 (Cancel (message := nat) 0 toy_name); [eexists; computed|].
      run_thread 3 ltac:(eapply cancel_unbound; split; computed). apply rtc_refl.
    + computed.
    + eapply rtc_l; [eapply (step_close _ _ _ 0); [computed|computed|done]|].
      run_thread 2 ltac:(eapply send_closed; computed). apply rtc_refl.
    + computed.
Qed.
