(* ===== verification/Environment.v ===== *)
(** * Environments of commands ([util/environment/environment.go],
    [environment_posix.go]) *)

From S2P Require Import Prelude GoStd GoStdFacts GoNet GoNetFacts.

Definition pathListSeparator : bytes := bs ":".

(** [coerceKey] of the POSIX systems. *)
Definition coerceKey (k : bytes) : bytes := k.

(** [toMap]: a text without an equals sign is left out. *)
Definition toMap (s : list bytes) : gmap bytes bytes :=
  fold_left (λ m v, match cut_byte "=" v with
                    | (_, None) => m
                    | (k, Some x) => <[coerceKey k := x]> m
                    end) s ∅.

Definition env_entry (kv : bytes * bytes) : bytes := kv.1 ++ bs "=" ++ kv.2.

(** [fromMap]: the texts are distinct, so that any sort gives this list. *)
Definition fromMap (m : gmap bytes bytes) : list bytes := sort bytes_ltb (map env_entry (map_to_list m)).

Definition path_like (k : bytes) : bool :=
  bytes_equal k (bs "PATH") || bytes_equal k (bs "CPATH") || bytes_equal k (bs "LD_LIBRARY_PATH").

(** One turn of the inner loop, for a variable. *)
Definition merge_var (envs : gmap bytes bytes) (kv : bytes * bytes) : gmap bytes bytes :=
  let '(k, v) := kv in
  if path_like k then <[k := join pathListSeparator [v; default [] (envs !! k)]]> envs
  else <[k := v]> envs.

(** The inner loop, over the variables of a set in some order. *)
Definition merge_env (envs : gmap bytes bytes) (env : list bytes) : gmap bytes bytes :=
  fold_left merge_var (map_to_list (toMap env)) envs.

Definition MergeEnvironments (ea : list bytes) (es : list (list bytes)) : list bytes :=
  fromMap (fold_left merge_env es (toMap ea)).

(* ------------------------------------------------------------------ *)
(** ** Lemmas *)

(** Names of variables have no equals sign. *)
Definition names_ok (m : gmap bytes bytes) : Prop := ∀ k v, m !! k = Some v → "="%char ∉ k.

Lemma names_ok_insert m k v : names_ok m → "="%char ∉ k → names_ok (<[k := v]> m).
Proof. intros Hm Hk k' v' [[<- _]|[_ E]]%lookup_insert_Some; eauto. Qed.

Lemma toMap_snoc s v :
  toMap (s ++ [v]) = match cut_byte "=" v with (_, None) => toMap s | (k, Some x) => <[k := x]> (toMap s) end.
Proof. unfold toMap. by rewrite fold_left_app. Qed.

Lemma toMap_names s : names_ok (toMap s).
Proof.
  induction s as [|v s IH] using rev_ind; [intros k v E; exfalso; revert E; cbn; by rewrite lookup_empty|]. rewrite toMap_snoc.
  pose proof (cut_byte_spec "=" v) as Hc. destruct (cut_byte "=" v) as [k [x|]]; [|done].
  apply names_ok_insert; [done|apply Hc].
Qed.

Lemma merge_var_names envs kv : names_ok envs → "="%char ∉ kv.1 → names_ok (merge_var envs kv).
Proof. destruct kv as [k v]. intros. unfold merge_var. destruct (path_like k); by apply names_ok_insert. Qed.

Lemma merge_env_names envs env : names_ok envs → names_ok (merge_env envs env).
Proof.
  unfold merge_env. assert (Forall (λ kv, "="%char ∉ kv.1) (map_to_list (toMap env))) as Hn.
  { apply Forall_forall. intros [k v] Hk%elem_of_map_to_list. by eapply toMap_names. }
  revert envs. induction Hn as [|kv l Hk _ IH]; intros envs He; [done|]. by apply IH, merge_var_names.
Qed.

(** What a variable becomes. *)
Lemma merge_var_other envs k v k' : k ≠ k' → merge_var envs (k, v) !! k' = envs !! k'.
Proof. intros. unfold merge_var. destruct (path_like k); by rewrite lookup_insert_ne. Qed.

Definition merged_value (k : bytes) (old : option bytes) (new : option bytes) : option bytes :=
  match new with
  | None => old
  | Some v => Some (if path_like k then v ++ pathListSeparator ++ default [] old else v)
  end.

Lemma merge_env_lookup envs env k : merge_env envs env !! k = merged_value k (envs !! k) (toMap env !! k).
Proof.
  unfold merge_env. pose proof (NoDup_fst_map_to_list (toMap env)) as Hd.
  assert (toMap env !! k = list_to_map (M := gmap bytes bytes) (map_to_list (toMap env)) !! k) as -> by by rewrite list_to_map_to_list.
  revert envs. induction (map_to_list (toMap env)) as [|[k' v] l IH]; intros envs; [done|].
  apply NoDup_cons in Hd as [Hk' Hd]. cbn [fold_left list_to_map fst snd uncurry foldr]. rewrite IH by done.
  destruct (decide (k' = k)) as [->|Hne].
  - rewrite lookup_insert_eq. assert (list_to_map (M := gmap bytes bytes) l !! k = None) as -> by by apply not_elem_of_list_to_map.
    cbn [merged_value]. unfold merge_var. destruct (path_like k); by rewrite lookup_insert_eq.
  - rewrite merge_var_other, lookup_insert_ne by done. done.
Qed.

(** A map is read back from its texts. *)
Lemma toMap_entries l : NoDup l.*1 → Forall (λ kv, "="%char ∉ kv.1) l → toMap (map env_entry l) = list_to_map (rev l).
Proof.
  intros Hd Hk. induction l as [|[k v] l IH] using rev_ind; [done|].
  rewrite map_app, rev_app_distr. cbn [map rev app]. rewrite toMap_snoc. unfold env_entry at 1. cbn [fst snd].
  rewrite fmap_app, NoDup_app in Hd. destruct Hd as (Hd & _ & _). apply Forall_app in Hk as [Hk [Hv _]%Forall_cons].
  change (bs "=") with ["="%char]. cbn [app]. rewrite cut_byte_plain by exact Hv. cbn [list_to_map fst snd uncurry foldr].
  by rewrite IH.
Qed.

Lemma list_to_map_perm (l k : list (bytes * bytes)) :
  NoDup l.*1 → l ≡ₚ k → list_to_map (M := gmap bytes bytes) l = list_to_map k.
Proof. intros. by apply list_to_map_proper. Qed.

Lemma fromMap_sorted m : names_ok m → increasing bytes_ltb (fromMap m) ∧ toMap (fromMap m) = m.
Proof.
  intros Hm. assert (NoDup (map_to_list m).*1 ∧ Forall (λ kv, "="%char ∉ kv.1) (map_to_list m)) as [Hd Hk].
  { split; [apply NoDup_fst_map_to_list|]. apply Forall_forall. intros [k v] Hk%elem_of_map_to_list. by eapply Hm. }
  unfold fromMap. split.
  - apply sort_keys_increasing. apply NoDup_fmap_2_strong; [|apply NoDup_map_to_list].
    intros [k v] [k' v'] H1 H2 E. rewrite Forall_forall in Hk. apply Hk in H1, H2. cbn in H1, H2.
    unfold env_entry in E. apply (f_equal (cut_byte "=")) in E. cbn in E. rewrite !cut_byte_plain in E by done. congruence.
  - (* the sorted texts are those of the sorted entries *)
    assert (∃ l, sort bytes_ltb (map env_entry (map_to_list m)) = map env_entry l ∧ l ≡ₚ map_to_list m) as (l & -> & Hl).
    { pose proof (sort_perm bytes_ltb (map env_entry (map_to_list m))) as Hp.
      apply Permutation_map_inv in Hp as (l & -> & Hl). exists l. by split. }
    rewrite toMap_entries; [|by rewrite Hl|by rewrite Hl].
    rewrite (list_to_map_perm _ (map_to_list m)); [apply list_to_map_to_list| |].
    + by rewrite <- (Permutation_rev l), Hl.
    + by rewrite <- Permutation_rev.
Qed.

Lemma join_cons sep v l : l ≠ [] → join sep (v :: l) = v ++ sep ++ join sep l.
Proof. by destruct l. Qed.

(** C22: merged environments are sorted, and a variable has the value of the
    last set that has it; those that hold lists of paths have the values of
    all sets, the last one first, and an empty one where the first set has
    none. *)
Theorem merge_environments (ea : list bytes) (es : list (list bytes)) :
  increasing bytes_ltb (MergeEnvironments ea es) ∧
  ∀ k, toMap (MergeEnvironments ea es) !! k =
    let set_in := omap (λ e, toMap e !! k) es in
    if path_like k then
      match set_in with
      | [] => toMap ea !! k
      | _ => Some (join pathListSeparator (rev (default [] (toMap ea !! k) :: set_in)))
      end
    else match last set_in with Some v => Some v | None => toMap ea !! k end.
Proof.
  unfold MergeEnvironments.
  assert (names_ok (fold_left merge_env es (toMap ea))) as Hn.
  { generalize (toMap_names ea). generalize (toMap ea). induction es as [|e es IH]; intros m Hm; [done|]. by apply IH, merge_env_names. }
  destruct (fromMap_sorted _ Hn) as [Hs ->]. split; [done|]. clear Hn Hs. intros k.
  induction es as [|e es IH] using rev_ind; [by destruct (path_like k)|].
  rewrite fold_left_app. cbn [fold_left]. rewrite merge_env_lookup, IH, omap_app. cbn [omap list_omap].
  destruct (toMap e !! k) as [v|]; cbn [merged_value]; [|by rewrite app_nil_r].
  destruct (path_like k).
  - f_equal. set (a := default [] (toMap ea !! k)). destruct (omap _ es) as [|x xs] eqn:Ex; [done|].
    change (x :: xs ++ [v]) with ((x :: xs) ++ [v]).
    rewrite app_comm_cons, rev_app_distr. cbn [rev app default]. unfold id. rewrite join_cons; [done|].
    by intros [_ E]%app_nil.
  - by rewrite last_snoc.
Qed.
