(* ===== verification/Resources.v ===== *)
(** * The resources of the event pipeline: handlers, mutators, filters,
    extensions, and the redaction of entities ([api/core/v2],
    [util/strings/strings.go]) *)

From S2P Require Import Prelude GoStd GoUtf8 GoTime TimeWindow Sensu.

#[local] Open Scope Z_scope.

(** The runes of a text, as a [range] over it gives them; every step takes a
    byte at least. *)
Fixpoint runes_fuel (fuel : nat) (s : bytes) : list Z :=
  match fuel, s with
  | S f, _ :: _ => let '(r, n) := DecodeRune s in r :: runes_fuel f (drop n s)
  | _, _ => []
  end.
Definition runes (s : bytes) : list Z := runes_fuel (length s) s.

Section Redaction.
(** The tables of Unicode above ASCII: [unicode.IsDigit], [unicode.ToLower]. *)
Context (unicode_digit : Z → bool) (unicode_lower : Z → Z).

Definition IsDigit (r : Z) : bool := if r <? 128 then (48 <=? r) && (r <=? 57) else unicode_digit r.
Definition rune_ToLower (r : Z) : Z :=
  if r <? 128 then (if (65 <=? r) && (r <=? 90) then r + 32 else r) else unicode_lower r.

Definition isAlpha (r : Z) : bool := (97 <=? r) && (r <=? 122).
Definition alphaNumeric (s : list Z) : bool := forallb (λ r, IsDigit r || isAlpha r) s.

(** [normalize], to the runes of the text. *)
Definition normalize (s : bytes) : list Z :=
  if alphaNumeric (runes s) then runes s
  else
    let lowered := map rune_ToLower (runes s) in
    if alphaNumeric lowered then lowered else List.filter isAlpha lowered.

Definition FoundInArray (item : bytes) (array : list bytes) : bool :=
  if is_empty item || (length array =? 0)%nat then false
  else existsb (λ x, bool_decide (normalize x = normalize item)) array.

Definition Redacted : bytes := bs "REDACTED".
Definition DefaultRedactFields : list bytes :=
  map bs ["password"; "passwd"; "pass"; "api_key"; "api_token"; "access_key"; "secret_key"; "private_key"; "secret"]%string.

(** [redactMap]; a nil map has no entries. *)
Definition redactMap (m : option (gmap bytes bytes)) (redact : list bytes) : gmap bytes bytes :=
  let redact := if (length redact =? 0)%nat then DefaultRedactFields else redact in
  map_imap (λ k v, Some (if FoundInArray k redact then Redacted else v)) (default ∅ m).

Definition GetRedactedEntity (e : option Entity) : option Entity :=
  match e with
  | None => None
  | Some e =>
      match Labels (e_Meta e), Annotations (e_Meta e) with
      | None, None => Some e
      | l, a =>
          Some (MkEntity (MkMeta (om_Name (e_Meta e)) (Namespace (e_Meta e))
                            (Some (redactMap l (Redact e))) (Some (redactMap a (Redact e))))
                  (EntityClass e) (e_Subscriptions e) (LastSeen e) (Deregister e) (Redact e))
      end
  end.

(** Only labels and annotations change. *)
Lemma redacted_fields e e' : GetRedactedEntity (Some e) = Some e' →
  om_Name (e_Meta e') = om_Name (e_Meta e) ∧ Namespace (e_Meta e') = Namespace (e_Meta e) ∧
  EntityClass e' = EntityClass e ∧ e_Subscriptions e' = e_Subscriptions e ∧
  LastSeen e' = LastSeen e ∧ Deregister e' = Deregister e ∧ Redact e' = Redact e.
Proof.
  unfold GetRedactedEntity. destruct (Labels (e_Meta e)), (Annotations (e_Meta e)); by intros [= <-].
Qed.

Lemma redactMap_lookup m redact k :
  redactMap m redact !! k =
  (λ v, if FoundInArray k (if (length redact =? 0)%nat then DefaultRedactFields else redact) then Redacted else v)
    <$> default ∅ m !! k.
Proof. unfold redactMap. rewrite map_lookup_imap. by destruct (default ∅ m !! k). Qed.

Lemma redactMap_twice m redact : redactMap (Some (redactMap m redact)) redact = redactMap m redact.
Proof.
  apply map_eq. intros k. rewrite redactMap_lookup.
  change (default ∅ (Some (redactMap m redact))) with (redactMap m redact). rewrite redactMap_lookup.
  destruct (default ∅ m !! k) as [v|]; [|done]. cbn. by destruct (FoundInArray k _).
Qed.

(** To redact again changes nothing. *)
Lemma redacted_twice e : GetRedactedEntity (GetRedactedEntity e) = GetRedactedEntity e.
Proof.
  destruct e as [[[n ns l a] cl su ls de rd]|]; [|done]. cbn.
  destruct l as [l|], a as [a|]; cbn; rewrite ?redactMap_twice; done.
Qed.
End Redaction.

(** The names that are redacted: case, digits and punctuation do not count,
    unless there is nothing else. *)
Example password_names :
  map (λ k, FoundInArray (λ _, false) id (bs k) DefaultRedactFields)
    ["password"; "Api-Key"; "api_key2"; "apikey"; "apikey2"; "passphrase"]%string = [true; true; true; true; false; false].
Proof. vm_compute. reflexivity. Qed.

#[local] Close Scope Z_scope.

Record HandlerSocket := MkSocket { Host : bytes; Port : Z }.

Record Handler_ := MkHandler {
  h_Meta : ObjectMeta; h_Type : bytes; h_Mutator : bytes; h_Command : bytes; h_Timeout : Z;
  Socket : option HandlerSocket; h_Handlers : list bytes; Filters : list bytes;
  h_EnvVars : list bytes; h_RuntimeAssets : list bytes
}.

Record Mutator_ := MkMutator {
  mu_Meta : ObjectMeta; mu_Command : bytes; mu_Timeout : Z; mu_EnvVars : list bytes; mu_RuntimeAssets : list bytes
}.

Record EventFilter := MkFilter {
  f_Meta : ObjectMeta; Action : bytes; Expressions : list bytes; When : option TimeWindowWhen;
  f_RuntimeAssets : list bytes
}.

Record Extension := MkExtension { x_Meta : ObjectMeta; URL : bytes }.

(* ------------------------------------------------------------------ *)
(** ** Validation *)

(** [HandlerSocket.Validate], of a pointer. *)
Definition Validate_socket (s : option HandlerSocket) : option error :=
  match s with
  | None => Some (Errorf "tcp and udp handlers need a valid socket" [])
  | Some s =>
      fail_if (is_empty (Host s)) "socket host undefined"
      ||| fail_if (Port s =? 0)%Z "socket port undefined"
  end.

Definition is_type (t : bytes) (s : string) : bool := bytes_equal t (bs s).

Definition validateType (h : Handler_) : option error :=
  fail_if (is_empty (h_Type h)) "empty handler type"
  ||| if is_type (h_Type h) "pipe" || is_type (h_Type h) "set" || is_type (h_Type h) "grpc" then None
      else if is_type (h_Type h) "tcp" || is_type (h_Type h) "udp" then Validate_socket (Socket h)
      else Some (Errorf "unknown handler type: %s" [h_Type h]).

Definition Validate_handler (h : Handler_) : option error :=
  prefix_error "handler name %s" (ValidateName (om_Name (h_Meta h)))
  ||| validateType h
  ||| fail_if (is_empty (Namespace (h_Meta h))) "namespace must be set".

Definition Validate_mutator (m : Mutator_) : option error :=
  prefix_error "mutator name %s" (ValidateName (om_Name (mu_Meta m)))
  ||| fail_if (is_empty (mu_Command m)) "mutator command must be set"
  ||| fail_if (is_empty (Namespace (mu_Meta m))) "namespace must be set".

Definition EventFilterAllActions : list bytes := [bs "allow"; bs "deny"].

Definition Validate_filter (ParseExpressions : list bytes → option error) (f : EventFilter) : option error :=
  prefix_error "filter name %s" (ValidateName (om_Name (f_Meta f)))
  ||| (if InArray (Action f) EventFilterAllActions then None else Some (Errorf "action '%s' is not valid" [Action f]))
  ||| fail_if (length (Expressions f) =? 0)%nat "filter must have one or more expressions"
  ||| ParseExpressions (Expressions f)
  ||| fail_if (is_empty (Namespace (f_Meta f))) "namespace must be set".

Definition Validate_extension (e : Extension) : option error :=
  ValidateName (om_Name (x_Meta e))
  ||| fail_if (is_empty (URL e)) "empty URL"
  ||| fail_if (is_empty (Namespace (x_Meta e))) "empty namespace".

(* ------------------------------------------------------------------ *)
(** ** Updates of selected fields *)

(** [Mutator.Update]: the fields in turn; those before an unsupported one are
    set. *)
Fixpoint Update_mutator (m from : Mutator_) (fields : list bytes) : Mutator_ * option error :=
  match fields with
  | [] => (m, None)
  | f :: fields' =>
      if bytes_equal f (bs "Command") then
        Update_mutator (MkMutator (mu_Meta m) (mu_Command from) (mu_Timeout m) (mu_EnvVars m) (mu_RuntimeAssets m)) from fields'
      else if bytes_equal f (bs "Timeout") then
        Update_mutator (MkMutator (mu_Meta m) (mu_Command m) (mu_Timeout from) (mu_EnvVars m) (mu_RuntimeAssets m)) from fields'
      else if bytes_equal f (bs "EnvVars") then
        Update_mutator (MkMutator (mu_Meta m) (mu_Command m) (mu_Timeout m) (mu_EnvVars from) (mu_RuntimeAssets m)) from fields'
      else if bytes_equal f (bs "RuntimeAssets") then
        Update_mutator (MkMutator (mu_Meta m) (mu_Command m) (mu_Timeout m) (mu_EnvVars m) (mu_RuntimeAssets from)) from fields'
      else (m, Some (Errorf "unsupported field: %q" [f]))
  end.

(** [EventFilter.Update]; its error prints the filter, of which the text is
    left out. *)
Fixpoint Update_filter (f from : EventFilter) (fields : list bytes) : EventFilter * option error :=
  match fields with
  | [] => (f, None)
  | field :: fields' =>
      if bytes_equal field (bs "Action") then
        Update_filter (MkFilter (f_Meta f) (Action from) (Expressions f) (When f) (f_RuntimeAssets f)) from fields'
      else if bytes_equal field (bs "When") then
        Update_filter (MkFilter (f_Meta f) (Action f) (Expressions f) (When from) (f_RuntimeAssets f)) from fields'
      else if bytes_equal field (bs "Expressions") then
        Update_filter (MkFilter (f_Meta f) (Action f) (Expressions from) (When f) (f_RuntimeAssets f)) from fields'
      else if bytes_equal field (bs "RuntimeAssets") then
        Update_filter (MkFilter (f_Meta f) (Action f) (Expressions f) (When f) (f_RuntimeAssets from)) from fields'
      else (f, Some (Errorf "unsupported field: %q" []))
  end.
