(* ===== verification/Pipelined.v ===== *)
(** * The event pipeline: filters, mutators and handlers
    ([backend/pipelined])

    An event goes through the filters, the mutator and the handler of every
    handler it names. The event is shared: a filter redacts its entity for
    whatever comes after. What the pipeline does to the outside is a list of
    actions; the answers of the outside depend on all that was done before. *)

From S2P Require Import Prelude GoStd GoNet GoTime TimeWindow Sensu Resources Environment.

(** [command.ExecutionRequest] and [ExecutionResponse], the fields that are
    set and read. *)
Record ExecutionRequest := MkExecution { x_Command : bytes; x_Env : list bytes; x_Input : bytes; x_Timeout : Z }.
Record ExecutionResponse := MkExecuted { x_Output : bytes; x_Status : Z }.

Inductive action :=
| Ran (req : ExecutionRequest)
| Dialled (protocol address : bytes) (timeout : Z)
| Wrote (data : bytes)
| FilteredBy (ext : Extension) (event : Event)
| MutatedBy (ext : Extension) (event : Event)
| HandledBy (ext : Extension) (event : Event) (data : bytes).

(** The store, by namespace and name; a resource that is not there is nil. *)
Class PipeStore := {
  GetHandlerByName : bytes → bytes → option Handler_ + error;
  GetMutatorByName : bytes → bytes → option Mutator_ + error;
  GetEventFilterByName : bytes → bytes → option EventFilter + error;
  GetExtension : bytes → bytes → Extension + error
}.
Definition ErrNoExtension : error := Errorf "the extension does not exist" [].

(** The outside: processes, sockets, extensions, assets, JavaScript,
    [json.Marshal], the environment and the clock. *)
Class World := {
  Execute : list action → ExecutionRequest → ExecutionResponse + error;
  DialTimeout : list action → bytes → bytes → Z → option error;
  extensionExecutor : Extension → option error;
  FilterEvent : list action → Extension → Event → bool + error;
  MutateEvent : list action → Extension → Event → bytes + error;
  RuntimeAssetSet : Type;
  GetAll : bytes → list bytes → RuntimeAssetSet + error;
  assets_Env : RuntimeAssetSet → list bytes;
  js_Evaluate : bytes → Event → option RuntimeAssetSet → bool * option error;
  Marshal : Event → outcome bytes;
  Environ : list bytes;
  time_Now : LocalTime
}.

(* ------------------------------------------------------------------ *)
(** ** Computations on a shared event *)

Definition pipe (A : Type) : Type := Event * list action → outcome A * (Event * list action).
#[export] Instance pipe_ret : MRet pipe := λ A a s, (Ret a, s).
#[export] Instance pipe_bind : MBind pipe := λ A B f m s,
  match m s with (Ret a, s) => f a s | (Fail e, s) => (Fail e, s) | (Panic, s) => (Panic, s) end.

Definition lift {A} (r : outcome A) : pipe A := λ s, (r, s).
Definition failed {A} (e : error) : pipe A := lift (Fail e).
Definition crashes {A} : pipe A := lift Panic.
Definition the_event : pipe Event := λ s, (Ret s.1, s).
Definition perform (a : action) : pipe (list action) := λ s, (Ret s.2, (s.1, s.2 ++ [a])).

(** A result, the error of which the caller looks at. *)
Definition attempt {A} (m : pipe A) : pipe (A + error) := λ s,
  match m s with (Ret a, s) => (Ret (inl a), s) | (Fail e, s) => (Ret (inr e), s) | (Panic, s) => (Panic, s) end.

Definition redact_entity (digit : Z → bool) (lower : Z → Z) (e : Event) : Event :=
  MkEvent (ev_Meta e) (ev_Timestamp e) (GetRedactedEntity digit lower (ev_Entity e)) (ev_Check e) (ev_Metrics e).

(** [utillogging.EventFields] without debugging, which reads the name of the
    first metric point. *)
Definition EventFields (e : Event) : outcome () :=
  match ev_Entity e, ev_Metrics e with
  | Some _, Some m => match Points m with None :: _ => Panic | _ => Ret () end
  | _, _ => Ret ()
  end.
Definition log_fields : pipe () := e ← the_event; lift (EventFields e).

Record handlerExtensionUnion := MkUnion { u_Handler : Handler_; u_Extension : option Extension }.
Abbreviation expansion := (gmap bytes handlerExtensionUnion).

Section Pipelined.
Context (digit : Z → bool) (lower : Z → Z) `{PipeStore} `{World}.

(* ------------------------------------------------------------------ *)
(** ** [filter.go] *)

Definition evaluateJSFilter (event : Event) (expr : bytes) (assets : option RuntimeAssetSet) : bool :=
  (js_Evaluate expr event assets).1.

(** The loop over the expressions; [None] when it comes to its end. *)
Fixpoint evaluate_expressions (action : bytes) (synth : Event) (assets : option RuntimeAssetSet)
    (expressions : list bytes) : option bool :=
  match expressions with
  | [] => None
  | e :: rest =>
      let match_ := evaluateJSFilter synth e assets in
      if bytes_equal action (bs "allow") && negb match_ then Some true
      else if bytes_equal action (bs "deny") && negb match_ then Some false
      else evaluate_expressions action synth assets rest
  end.

Definition after_window (filter : EventFilter) (assets : option RuntimeAssetSet) (event : Event) : bool :=
  match evaluate_expressions (Action filter) event assets (Expressions filter) with
  | Some filtered => filtered
  | None =>
      if bytes_equal (Action filter) (bs "allow") then false
      else bytes_equal (Action filter) (bs "deny")
  end.

(** [evaluateEventFilter]: true when the event is denied. *)
Definition evaluateEventFilter (filter : EventFilter) (assets : option RuntimeAssetSet) : pipe bool :=
  event ← the_event;
  _ ← (λ s, (Ret (), (redact_entity digit lower event, s.2)));
  _ ← log_fields;
  event ← the_event;
  match When filter with
  | None => mret (after_window filter assets event)
  | Some when =>
      match InWindows when time_Now with
      | Panic => crashes
      | Fail _ => mret false
      | Ret inWindows =>
          if bytes_equal (Action filter) (bs "allow") && negb inWindows then mret true
          else if bytes_equal (Action filter) (bs "deny") && negb inWindows then mret false
          else mret (after_window filter assets event)
      end
  end.

(** [asset.GetAssets] and [GetAll]. *)
Definition assets_of (namespace : bytes) (names : list bytes) : option RuntimeAssetSet :=
  match GetAll namespace names with inl a => Some a | inr _ => None end.

(** What a name in the list of filters says: that the event is denied, that
    it is not, or that the other filters are not asked. *)
Inductive verdict := Denied | Passed | GaveUp.

(** The filter of an extension. *)
Definition extension_filter (namespace filterName : bytes) : pipe verdict :=
  match GetExtension namespace filterName with
  | inr _ => mret Passed
  | inl ext =>
      match extensionExecutor ext with
      | Some _ => mret Passed
      | None =>
          event ← the_event;
          history ← perform (FilteredBy ext event);
          match FilterEvent history ext event with
          | inr _ => mret Passed
          | inl filtered => mret (if (filtered : bool) then Denied else Passed)
          end
      end
  end.

Definition apply_filter (filterName : bytes) : pipe verdict :=
  event ← the_event;
  if bytes_equal filterName (bs "is_incident") then
    mret (if negb (IsIncident event) && negb (IsResolution event) then Denied else Passed)
  else if bytes_equal filterName (bs "has_metrics") then
    mret (if negb (HasMetrics event) then Denied else Passed)
  else if bytes_equal filterName (bs "not_silenced") then
    mret (if IsSilenced event then Denied else Passed)
  else
    match ev_Entity event with
    | None => crashes
    | Some entity =>
        let namespace := Namespace (e_Meta entity) in
        match GetEventFilterByName namespace filterName with
        | inr _ => mret GaveUp
        | inl (Some filter) =>
            filtered ← evaluateEventFilter filter (assets_of (Namespace (f_Meta filter)) (f_RuntimeAssets filter));
            mret (if (filtered : bool) then Denied else Passed)
        | inl None => extension_filter namespace filterName
        end
    end.

Fixpoint filter_loop (filters : list bytes) : pipe bool :=
  match filters with
  | [] => mret false
  | name :: rest =>
      v ← apply_filter name;
      match v with Denied => mret true | GaveUp => mret false | Passed => filter_loop rest end
  end.

(** [filterEvent]: true when the event is denied. *)
Definition filterEvent (handler : Handler_) : pipe bool :=
  _ ← log_fields; filter_loop (Filters handler).

(* ------------------------------------------------------------------ *)
(** ** [mutate.go] *)

Definition jsonMutator : pipe bytes := event ← the_event; lift (Marshal event).

Definition onlyCheckOutputMutator (event : Event) : bytes :=
  match ev_Check event with Some c => Output c | None => [] end.

(** The environment of a command. *)
Definition command_env (namespace : bytes) (assets : list bytes) (vars : list bytes) : list bytes :=
  if (length assets =? 0)%nat then MergeEnvironments Environ [vars]
  else match assets_of namespace assets with
       | None => MergeEnvironments Environ [vars]
       | Some a => MergeEnvironments Environ [assets_Env a; vars]
       end.

Definition execute_command (req : ExecutionRequest) : pipe ExecutionResponse :=
  history ← perform (Ran req);
  match Execute history req with inl r => mret r | inr e => failed e end.

Definition pipeMutator (mutator : Mutator_) : pipe bytes :=
  event ← the_event;
  eventData ← lift (Marshal event);
  result ← execute_command (MkExecution (mu_Command mutator)
    (command_env (Namespace (mu_Meta mutator)) (mu_RuntimeAssets mutator) (mu_EnvVars mutator))
    eventData (mu_Timeout mutator));
  if negb (x_Status result =? 0)%Z then failed (Errorf "pipe mutator execution returned non-zero exit status" [])
  else mret (x_Output result).

(** The mutator that is an extension; no mutator of the name makes no data. *)
Definition extension_mutator (namespace name : bytes) : pipe bytes :=
  match GetExtension namespace name with
  | inr e => if decide (e = ErrNoExtension) then mret [] else failed e
  | inl ext =>
      match extensionExecutor ext with
      | Some e => failed e
      | None =>
          event ← the_event;
          history ← perform (MutatedBy ext event);
          match MutateEvent history ext event with inl data => mret data | inr e => failed e end
      end
  end.

Definition stored_mutator (handler : Handler_) : pipe bytes :=
  event ← the_event;
  match ev_Entity event with
  | None => crashes
  | Some entity =>
      let namespace := Namespace (e_Meta entity) in
      match GetMutatorByName namespace (h_Mutator handler) with
      | inr e => failed e
      | inl (Some mutator) => pipeMutator mutator
      | inl None => extension_mutator namespace (h_Mutator handler)
      end
  end.

Definition mutateEvent (handler : Handler_) : pipe bytes :=
  _ ← log_fields;
  if is_empty (h_Mutator handler) then jsonMutator
  else
    event ← the_event;
    if bytes_equal (h_Mutator handler) (bs "only_check_output") && HasCheck event then
      mret (onlyCheckOutputMutator event)
    else stored_mutator handler.

(* ------------------------------------------------------------------ *)
(** ** [handle.go] *)

Definition DefaultSocketTimeout : Z := 60.

Definition pipeHandler (handler : Handler_) (eventData : bytes) : pipe ExecutionResponse :=
  execute_command (MkExecution (h_Command handler)
    (command_env (Namespace (h_Meta handler)) (h_RuntimeAssets handler) (h_EnvVars handler))
    eventData (h_Timeout handler)).

Definition socketHandler (handler : Handler_) (eventData : bytes) : pipe () :=
  match Socket handler with
  | None => crashes
  | Some socket =>
      let timeout := if (h_Timeout handler =? 0)%Z then DefaultSocketTimeout else h_Timeout handler in
      let address := Host socket ++ bs ":" ++ format_int (Port socket) in
      history ← perform (Dialled (h_Type handler) address timeout);
      match DialTimeout history (h_Type handler) address timeout with
      | Some e => failed e
      | None => _ ← perform (Wrote eventData); mret ()
      end
  end.

(** The name of a nil extension is read, to log it. *)
Definition grpcHandler (ext : option Extension) (mutated : bytes) : pipe () :=
  match ext with
  | None => crashes
  | Some ext =>
      match extensionExecutor ext with
      | Some e => failed e
      | None => event ← the_event; _ ← perform (HandledBy ext event mutated); mret ()
      end
  end.

Definition no_result {A} (m : pipe A) : pipe () := _ ← attempt m; mret ().

(** The switch over the types of handlers. *)
Definition send_to_handler (u : handlerExtensionUnion) (eventData : bytes) : pipe () :=
  let handler := u_Handler u in
  if is_type (h_Type handler) "pipe" then no_result (pipeHandler handler eventData)
  else if is_type (h_Type handler) "tcp" || is_type (h_Type handler) "udp" then
    no_result (socketHandler handler eventData)
  else if is_type (h_Type handler) "grpc" then no_result (grpcHandler (u_Extension u) eventData)
  else failed (Errorf "unknown handler type" []).

(** One turn of the loop of [handleEvent]; an error ends the loop. *)
Definition handle_one (u : handlerExtensionUnion) : pipe () :=
  filtered ← filterEvent (u_Handler u);
  if (filtered : bool) then mret ()
  else
    mutated ← attempt (mutateEvent (u_Handler u));
    match mutated with inr _ => mret () | inl eventData => send_to_handler u eventData end.

Fixpoint handle_all (us : list handlerExtensionUnion) : pipe () :=
  match us with [] => mret () | u :: us' => _ ← handle_one u; handle_all us' end.

(** The handler of a name: of the store, or made of an extension; a name of
    which there is none, or an error, is left out. *)
Definition find_handler (namespace name : bytes) : option handlerExtensionUnion :=
  match GetHandlerByName namespace name with
  | inr _ => None
  | inl (Some h) => Some (MkUnion h None)
  | inl None =>
      match GetExtension namespace name with
      | inr _ => None
      | inl ext =>
          Some (MkUnion (MkHandler (MkMeta (URL ext) [] None None) (bs "grpc") [] [] 0 None [] [] [] []) (Some ext))
      end
  end.

Definition too_deep : error := Errorf "handler sets cannot be deeply nested" [].
Definition is_set (u : handlerExtensionUnion) : bool := is_type (h_Type (u_Handler u)) "set".
Definition handler_name (u : handlerExtensionUnion) : bytes := om_Name (h_Meta (u_Handler u)).

(** A handler out of a set is kept without its extension. *)
Definition out_of_set (u : handlerExtensionUnion) : handlerExtensionUnion := MkUnion (u_Handler u) None.

(** The loop of [expandHandlers] over the names: every set raises the level,
    for the names after it too; a set that cannot be expanded is left out. *)
Fixpoint expand_loop (expand : list bytes → nat → expansion + error) (namespace : bytes)
    (handlers : list bytes) (level : nat) (expanded : expansion) : expansion :=
  match handlers with
  | [] => expanded
  | name :: rest =>
      match find_handler namespace name with
      | None => expand_loop expand namespace rest level expanded
      | Some u =>
          if is_set u then
            match expand (h_Handlers (u_Handler u)) (S level) with
            | inr _ => expand_loop expand namespace rest (S level) expanded
            | inl setHandlers => expand_loop expand namespace rest (S level) (expanded ∪ (out_of_set <$> setHandlers))
            end
          else
            expand_loop expand namespace rest level
              (match expanded !! handler_name u with Some _ => expanded | None => <[handler_name u := u]> expanded end)
      end
  end.

Fixpoint expandHandlers (fuel : nat) (namespace : bytes) (handlers : list bytes) (level : nat) : expansion + error :=
  if (3 <? level)%nat then inr too_deep
  else match fuel with
  | O => inr too_deep
  | S f => inl (expand_loop (expandHandlers f namespace) namespace handlers level ∅)
  end.

(** The names of the handlers of an event. *)
Definition handler_names (event : Event) : list bytes :=
  match ev_Check event with Some c => c_Handlers c | None => [] end
  ++ match ev_Metrics event with Some m => m_Handlers m | None => [] end.

(** [handleEvent]; [visit] is the order in which the map is walked. *)
Definition handleEvent (visit : expansion → list (bytes * handlerExtensionUnion)) : pipe () :=
  event ← the_event;
  match ev_Entity event with
  | None => crashes
  | Some entity =>
      _ ← log_fields;
      match expandHandlers 3 (Namespace (e_Meta entity)) (handler_names event) 1 with
      | inr e => failed e
      | inl handlers => handle_all (visit handlers).*2
      end
  end.
End Pipelined.
