(* ===== verification/PipelinedGuarantees.v ===== *)
(** * The event pipeline: the handlers a list of names expands to, what becomes
    of the event, and of the handler behind it *)

From S2P Require Import Prelude GoStd GoStdFacts GoFloat GoTime TimeWindow Sensu Json EventJson GoNet Client Handler.
From S2P Require Import Resources Environment Pipelined.

Section Expansion.
Context `{PipeStore} (namespace : bytes).

Definition sets_in (names : list bytes) : nat :=
  length (List.filter (λ n, match find_handler namespace n with Some u => is_set u | None => false end) names).

(** A handler that a list of names leads to, directly or through a set. A
    set counts for the level of the sets behind it in the list too. *)
Inductive expands : nat → list bytes → handlerExtensionUnion → Prop :=
| expands_named level names name u :
    level ≤ 3 → name ∈ names → find_handler namespace name = Some u → is_set u = false →
    expands level names u
| expands_in_set level pre name post s u :
    level ≤ 3 → find_handler namespace name = Some s → is_set s = true →
    expands (level + S (sets_in pre)) (h_Handlers (u_Handler s)) u →
    expands level (pre ++ name :: post) (out_of_set u).

(** The same for the rest of a list, the level of which may be any. *)
Definition leads_to (level : nat) (names : list bytes) (u : handlerExtensionUnion) : Prop :=
  (∃ name, name ∈ names ∧ find_handler namespace name = Some u ∧ is_set u = false) ∨
  (∃ pre name post s u', names = pre ++ name :: post ∧ find_handler namespace name = Some s ∧ is_set s = true ∧
     expands (level + S (sets_in pre)) (h_Handlers (u_Handler s)) u' ∧ u = out_of_set u').

Lemma expands_leads level names u : expands level names u ↔ level ≤ 3 ∧ leads_to level names u.
Proof.
  split.
  - destruct 1; (split; [done|]); [left; eauto|right; do 5 eexists; eauto].
  - intros [Hl [(name & H1 & H2 & H3)|(pre & name & post & s & u' & -> & H1 & H2 & H3 & ->)]];
      [by eapply expands_named|by eapply expands_in_set].
Qed.

Lemma sets_in_cons name names :
  sets_in (name :: names) =
  (match find_handler namespace name with Some u => if is_set u then 1 else 0 | None => 0 end) + sets_in names.
Proof.
  unfold sets_in. cbn [List.filter]. destruct (find_handler namespace name) as [u|]; [|done]. by destruct (is_set u).
Qed.

(** The first name, or the names behind it. *)
Lemma leads_to_cons level name names u :
  leads_to level (name :: names) u ↔
  match find_handler namespace name with
  | None => leads_to level names u
  | Some s =>
      if is_set s then
        (∃ u', expands (S level) (h_Handlers (u_Handler s)) u' ∧ u = out_of_set u') ∨ leads_to (S level) names u
      else u = s ∨ leads_to level names u
  end.
Proof.
  destruct (find_handler namespace name) as [s|] eqn:E; [destruct (is_set s) eqn:Es|].
  - split.
    + intros [(n & [->|Hn]%elem_of_cons & Hf & Hs)|(pre & n & post & s' & u' & Eq & Hf & Hs & He & ->)].
      * congruence.
      * right. left. eauto.
      * destruct pre as [|p pre]; injection Eq as -> ->.
        -- left. assert (s' = s) as -> by congruence. exists u'. split; [|done].
           by replace (S level) with (level + S (sets_in [])) by (cbn; lia).
        -- right. right. exists pre, n, post, s', u'. split_and!; try done.
           rewrite sets_in_cons, E, Es in He. by replace (S level + S (sets_in pre)) with (level + S (1 + sets_in pre)) by lia.
    + intros [(u' & He & ->)|[(n & Hn & Hf & Hs)|(pre & n & post & s' & u' & -> & Hf & Hs & He & ->)]].
      * right. exists [], name, names, s, u'. split_and!; try done. by replace (level + S (sets_in [])) with (S level) by (cbn; lia).
      * left. exists n. split; [by right|done].
      * right. exists (name :: pre), n, post, s', u'. split_and!; try done. rewrite sets_in_cons, E, Es.
        by replace (level + S (1 + sets_in pre)) with (S level + S (sets_in pre)) by lia.
  - split.
    + intros [(n & [->|Hn]%elem_of_cons & Hf & Hs)|(pre & n & post & s' & u' & Eq & Hf & Hs & He & ->)].
      * left. congruence.
      * right. left. eauto.
      * destruct pre as [|p pre]; injection Eq as -> ->; [congruence|].
        right. right. exists pre, n, post, s', u'. rewrite sets_in_cons, E, Es in He. eauto 6.
    + intros [->|[(n & Hn & Hf & Hs)|(pre & n & post & s' & u' & -> & Hf & Hs & He & ->)]].
      * left. exists name. split; [by left|done].
      * left. exists n. split; [by right|done].
      * right. exists (name :: pre), n, post, s', u'. rewrite sets_in_cons, E, Es. eauto 6.
  - split.
    + intros [(n & [->|Hn]%elem_of_cons & Hf & Hs)|(pre & n & post & s' & u' & Eq & Hf & Hs & He & ->)].
      * congruence.
      * left. eauto.
      * destruct pre as [|p pre]; injection Eq as -> ->; [congruence|].
        right. exists pre, n, post, s', u'. rewrite sets_in_cons, E in He. eauto 6.
    + intros [(n & Hn & Hf & Hs)|(pre & n & post & s' & u' & -> & Hf & Hs & He & ->)].
      * left. exists n. split; [by right|done].
      * right. exists (name :: pre), n, post, s', u'. rewrite sets_in_cons, E. eauto 6.
Qed.

(** A map holds the handlers of a predicate, one for each name. *)
Definition holds_all (P : handlerExtensionUnion → Prop) (m : expansion) : Prop :=
  (∀ k u, m !! k = Some u → P u ∧ k = handler_name u) ∧ (∀ u, P u → is_Some (m !! handler_name u)).

Lemma holds_all_iff P Q m : (∀ u, P u ↔ Q u) → holds_all Q m → holds_all P m.
Proof. unfold holds_all. intros E. by setoid_rewrite E. Qed.

Lemma holds_all_union P Q m n :
  holds_all P m → holds_all Q n → holds_all (λ u, P u ∨ Q u) (m ∪ n).
Proof.
  intros [H1 H2] [H3 H4]. split.
  - intros k u [Hk|[_ Hk]]%lookup_union_Some_raw; [apply H1 in Hk|apply H3 in Hk]; naive_solver.
  - intros u [Hu|Hu]; apply lookup_union_is_Some; auto.
Qed.

Lemma holds_all_out P m : holds_all P m → holds_all (λ u, ∃ u', P u' ∧ u = out_of_set u') (out_of_set <$> m).
Proof.
  intros [H1 H2]. split.
  - intros k u Hk. rewrite lookup_fmap_Some in Hk. destruct Hk as (u' & <- & Hk). apply H1 in Hk as [Hp ->]. eauto.
  - intros u (u' & Hp & ->). rewrite lookup_fmap, fmap_is_Some. by apply (H2 u').
Qed.

Lemma holds_all_add P m u :
  holds_all P m →
  holds_all (λ u', P u' ∨ u' = u) (match m !! handler_name u with Some _ => m | None => <[handler_name u := u]> m end).
Proof.
  intros [H1 H2]. destruct (m !! handler_name u) as [v|] eqn:E; split.
  - intros k u' Hk. apply H1 in Hk. naive_solver.
  - intros u' [Hu| ->]; [by apply H2|by rewrite E].
  - intros k u' [[<- <-]|[_ Hk]]%lookup_insert_Some; [naive_solver|apply H1 in Hk; naive_solver].
  - intros u' [Hu| ->]; [|by rewrite lookup_insert_eq]. destruct (H2 u' Hu) as [v Hv].
    destruct (decide (handler_name u = handler_name u')) as [->|Hn]; [by rewrite lookup_insert_eq|].
    rewrite lookup_insert_ne by done. eauto.
Qed.

Lemma expand_loop_holds expand :
  ∀ level,
  (∀ names l, level < l → if (3 <? l)%nat then ∃ e, expand names l = inr e
                          else ∃ m, expand names l = inl m ∧ holds_all (expands l names) m) →
  ∀ names P acc, holds_all P acc →
  holds_all (λ u, P u ∨ leads_to level names u) (expand_loop expand namespace names level acc).
Proof.
  intros level Hrec names. revert level Hrec. induction names as [|name names IH]; intros level Hrec P acc Ha; cbn [expand_loop].
  { eapply holds_all_iff; [|exact Ha]. intros u. split; [intros [?|[(n & Hn & _)|(pre & n & post & s & u' & E & _)]]; [done| |]|by left].
    - by apply elem_of_nil in Hn.
    - by destruct pre. }
  destruct (find_handler namespace name) as [s|] eqn:E; [destruct (is_set s) eqn:Es|].
  - specialize (Hrec (h_Handlers (u_Handler s)) (S level) ltac:(lia)) as Hs.
    assert (∀ names l, S level < l → if (3 <? l)%nat then ∃ e, expand names l = inr e
              else ∃ m, expand names l = inl m ∧ holds_all (expands l names) m) as Hrec' by (intros; apply Hrec; lia).
    destruct (Nat.ltb_spec 3 (S level)) as [Hl|Hl].
    + destruct Hs as [e ->]. eapply holds_all_iff; [|by apply (IH (S level) Hrec' P)].
      intros u. rewrite leads_to_cons, E, Es. split; [|tauto].
      intros [?|[(u' & He & _)|?]]; auto. apply expands_leads in He. lia.
    + destruct Hs as (m & -> & Hm).
      eapply holds_all_iff; [|apply (IH (S level) Hrec' _ _ (holds_all_union _ _ _ _ Ha (holds_all_out _ _ Hm)))].
      intros u. rewrite leads_to_cons, E, Es. tauto.
  - eapply holds_all_iff; [|apply (IH level Hrec _ _ (holds_all_add _ _ s Ha))].
    intros u. rewrite leads_to_cons, E, Es. cbn. tauto.
  - eapply holds_all_iff; [|by apply (IH level Hrec P)]. intros u. by rewrite leads_to_cons, E.
Qed.

Lemma expandHandlers_holds fuel : ∀ names level, 4 ≤ fuel + level →
  if (3 <? level)%nat then ∃ e, expandHandlers fuel namespace names level = inr e
  else ∃ m, expandHandlers fuel namespace names level = inl m ∧ holds_all (expands level names) m.
Proof.
  induction fuel as [|f IH]; intros names level Hf; cbn [expandHandlers]; destruct (Nat.ltb_spec 3 level) as [Hl|Hl]; eauto; [lia|].
  eexists. split; [reflexivity|].
  eapply holds_all_iff; [|apply (expand_loop_holds _ level) with (P := λ _, False)].
  - intros u. rewrite expands_leads. split; [intros [_ ?]; by right|intros [[]|?]; by split].
  - intros names' l Hlt. apply IH. lia.
  - split; [intros k u; by rewrite lookup_empty|done].
Qed.
End Expansion.

(* ------------------------------------------------------------------ *)
(** ** The event is only redacted *)

Section Steps.
Context (digit : Z → bool) (lower : Z → Z) `{PipeStore} `{World}.
Abbreviation redacted := (redact_entity digit lower).

(** The event, or with its entity redacted. *)
Definition version (e e' : Event) : Prop := e' = e ∨ e' = redacted e.

Lemma version_refl e : version e e.
Proof. by left. Qed.

Lemma redact_again e : redacted (redacted e) = redacted e.
Proof. unfold redact_entity. cbn. by rewrite redacted_twice. Qed.

Lemma version_trans e1 e2 e3 : version e1 e2 → version e2 e3 → version e1 e3.
Proof. intros [->| ->] [->| ->]; unfold version; rewrite ?redact_again; auto. Qed.

(** A computation goes on from every version of an event to a version of it,
    and adds to the actions; its result, unless it panics, is of [P]. *)
Definition goes {A} (e : Event) (m : pipe A) (P : A + error → Prop) : Prop :=
  ∀ e' t, version e e' → ∃ r e'' t', m (e', t) = (r, (e'', t ++ t')) ∧ version e e'' ∧
    match r with Ret a => P (inl a) | Fail x => P (inr x) | Panic => False end.

Lemma goes_ret {A} e (a : A) (P : A + error → Prop) : P (inl a) → goes e (mret a) P.
Proof. intros Hp e' t Hv. exists (Ret a), e', []. by rewrite app_nil_r. Qed.

Lemma goes_failed {A} e x (P : A + error → Prop) : P (inr x) → goes e (failed x) P.
Proof. intros Hp e' t Hv. exists (Fail x), e', []. by rewrite app_nil_r. Qed.

Lemma goes_bind {A B} e (m : pipe A) (f : A → pipe B) P Q :
  goes e m P → (∀ a, P (inl a) → goes e (f a) Q) → (∀ x, P (inr x) → Q (inr x)) → goes e (m ≫= f) Q.
Proof.
  intros Hm Hf Hx e' t Hv. destruct (Hm e' t Hv) as (r & e1 & t1 & E1 & V1 & Hr).
  unfold mbind, pipe_bind. rewrite E1. destruct r as [a|x|]; [|by exists (Fail x), e1, t1; eauto|done].
  destruct (Hf a Hr e1 (t ++ t1) V1) as (r & e2 & t2 & E2 & V2 & Hr2). exists r, e2, (t1 ++ t2). by rewrite (assoc_L (++)).
Qed.

Lemma goes_impl {A} e (m : pipe A) (P Q : A + error → Prop) : (∀ r, P r → Q r) → goes e m P → goes e m Q.
Proof.
  intros Hi Hm e' t Hv. destruct (Hm e' t Hv) as (r & e1 & t1 & E1 & V1 & Hr).
  exists r, e1, t1. split_and!; [done..|]. destruct r; auto.
Qed.

Lemma goes_event e : goes e the_event (λ r, ∃ e', r = inl e' ∧ version e e').
Proof. intros e' t Hv. exists (Ret e'), e', []. rewrite app_nil_r. split_and!; [done..|]. eauto. Qed.

Lemma goes_perform e a : goes e (perform a) (λ r, ∃ h, r = inl h).
Proof. intros e' t Hv. exists (Ret t), e', [a]. split_and!; [done..|]. eauto. Qed.

Lemma goes_attempt {A} e (m : pipe A) P : goes e m P → goes e (attempt m) (λ r, ∃ x, r = inl x ∧ P x).
Proof.
  intros Hm e' t Hv. destruct (Hm e' t Hv) as (r & e1 & t1 & E1 & V1 & Hr). unfold attempt. rewrite E1.
  destruct r as [a|x|]; [exists (Ret (inl a)), e1, t1|exists (Ret (inr x)), e1, t1|done]; eauto 10.
Qed.

Definition any {A} (r : A + error) : Prop := True.
Definition fine {A} (r : A + error) : Prop := ∃ a, r = inl a.

Lemma goes_no_result {A} e (m : pipe A) : goes e m any → goes e (no_result m) fine.
Proof.
  intros Hm. unfold no_result. eapply goes_bind; [by apply goes_attempt| |by intros x (? & ? & _)].
  intros a _. apply goes_ret. by eexists.
Qed.

(** What the program relies on, so that nothing panics: the first metric
    point is there, events are encoded, windows of filters are there. *)
Definition no_null_point (e : Event) : Prop := EventFields e = Ret ().
Definition encodes : Prop := ∀ e, Marshal e ≠ Panic.
Definition windows_ok : Prop :=
  ∀ ns n f w, GetEventFilterByName ns n = inl (Some f) → When f = Some w → InWindows w time_Now ≠ Panic.

Context (e : Event) (e_entity : is_Some (ev_Entity e)) (e_points : no_null_point e)
  (enc : encodes) (win : windows_ok).

Lemma version_fields e' : version e e' → is_Some (ev_Entity e') ∧ no_null_point e'.
Proof.
  intros [->| ->]; [done|]. destruct e as [m ts [en|] c me]; destruct e_entity as [x Hx]; [|done].
  unfold no_null_point, EventFields, redact_entity in *. cbn in *.
  destruct (Labels (e_Meta en)), (Annotations (e_Meta en)); by split.
Qed.

Lemma goes_log : goes e log_fields fine.
Proof.
  unfold log_fields. eapply goes_bind; [apply goes_event| |by intros x (? & ? & _)].
  intros e' (? & [= <-] & Hv) e1 t Hv1. destruct (version_fields e' Hv) as [_ Hp]. unfold no_null_point in Hp.
  unfold lift. rewrite Hp. exists (Ret ()), e1, []. rewrite app_nil_r. split_and!; [done..|]. by eexists.
Qed.

(** A step that may redact. *)
Lemma goes_redact e0 : version e e0 → goes e (λ s, (Ret (), (redacted e0, s.2))) fine.
Proof.
  intros Hv0 e1 t Hv. exists (Ret ()), (redacted e0), []. rewrite app_nil_r. split_and!; [done| |by eexists].
  destruct Hv0 as [->| ->]; rewrite ?redact_again; by right.
Qed.

Lemma goes_evaluate filter assets :
  (∀ w, When filter = Some w → InWindows w time_Now ≠ Panic) →
  goes e (evaluateEventFilter digit lower filter assets) fine.
Proof.
  intros Hw. unfold evaluateEventFilter.
  eapply goes_bind; [apply goes_event| |by intros x (? & ? & _)]. intros e0 (? & [= <-] & Hv).
  eapply goes_bind; [by apply goes_redact| |by intros x [? ?]]. intros _ _.
  eapply goes_bind; [apply goes_log| |by intros x [? ?]]. intros _ _.
  eapply goes_bind; [apply goes_event| |by intros x (? & ? & _)]. intros e1 _.
  destruct (When filter) as [w|]; [|by apply goes_ret; eexists]. specialize (Hw w eq_refl).
  destruct (InWindows w time_Now) as [b|x|]; [|by apply goes_ret; eexists|done].
  repeat (case_match; [by apply goes_ret; eexists|]). by apply goes_ret; eexists.
Qed.

Lemma goes_extension_filter ns name : goes e (extension_filter ns name) fine.
Proof.
  unfold extension_filter. destruct (GetExtension ns name) as [ext|]; [|by apply goes_ret; eexists].
  destruct (extensionExecutor ext); [by apply goes_ret; eexists|].
  eapply goes_bind; [apply goes_event| |by intros x (? & ? & _)]. intros e0 _.
  eapply goes_bind; [apply goes_perform| |by intros x (? & ?)]. intros h _.
  destruct (FilterEvent h ext e0); by apply goes_ret; eexists.
Qed.

Lemma goes_filter name : goes e (apply_filter digit lower name) fine.
Proof.
  unfold apply_filter. eapply goes_bind; [apply goes_event| |by intros x (? & ? & _)]. intros e0 (? & [= <-] & Hv).
  repeat (case_match; [by apply goes_ret; eexists|]).
  destruct (version_fields e0 Hv) as [[en Hen] _]. rewrite Hen.
  destruct (GetEventFilterByName _ _) as [[f|]|] eqn:E; [|apply goes_extension_filter|by apply goes_ret; eexists].
  eapply goes_bind; [apply goes_evaluate; intros w; by eapply win| |by intros x [? ?]].
  intros b _. by apply goes_ret; eexists.
Qed.

Lemma goes_filters names : goes e (filter_loop digit lower names) fine.
Proof.
  induction names as [|n names IH]; cbn [filter_loop]; [by apply goes_ret; eexists|].
  eapply goes_bind; [apply goes_filter| |by intros x [? ?]].
  intros [] _; [by apply goes_ret; eexists|done|by apply goes_ret; eexists].
Qed.

Lemma goes_filterEvent h : goes e (filterEvent digit lower h) fine.
Proof.
  unfold filterEvent. eapply goes_bind; [apply goes_log| |by intros x [? ?]]. intros _ _. apply goes_filters.
Qed.

Lemma goes_execute req : goes e (execute_command req) any.
Proof.
  unfold execute_command. eapply goes_bind; [apply goes_perform| |done].
  intros h _. destruct (Execute h req); [by apply goes_ret|by apply goes_failed].
Qed.

Lemma goes_marshal e0 : goes e (lift (Marshal e0)) any.
Proof.
  intros e1 t Hv. specialize (enc e0). exists (Marshal e0), e1, []. rewrite app_nil_r. split_and!; [done..|].
  by destruct (Marshal e0).
Qed.

Lemma goes_mutate h : goes e (mutateEvent h) any.
Proof.
  unfold mutateEvent. eapply goes_bind; [apply goes_log| |done]. intros _ _.
  destruct (is_empty (h_Mutator h)).
  { unfold jsonMutator. eapply goes_bind; [apply goes_event| |done]. intros e0 _. apply goes_marshal. }
  eapply goes_bind; [apply goes_event| |done]. intros e0 _. case_match; [by apply goes_ret|].
  unfold stored_mutator. eapply goes_bind; [apply goes_event| |done]. intros e1 (? & [= <-] & Hv).
  destruct (version_fields e1 Hv) as [[en Hen] _]. rewrite Hen.
  destruct (GetMutatorByName _ _) as [[m|]|]; [| |by apply goes_failed].
  - unfold pipeMutator. eapply goes_bind; [apply goes_event| |done]. intros e2 _.
    eapply goes_bind; [apply goes_marshal| |done]. intros d _.
    eapply goes_bind; [apply goes_execute| |done]. intros r _. case_match; [by apply goes_failed|by apply goes_ret].
  - unfold extension_mutator. destruct (GetExtension _ _) as [ext|x]; [|case_match; [by apply goes_ret|by apply goes_failed]].
    destruct (extensionExecutor ext); [by apply goes_failed|].
    eapply goes_bind; [apply goes_event| |done]. intros e2 _.
    eapply goes_bind; [apply goes_perform| |done]. intros hist _.
    destruct (MutateEvent hist ext e2); [by apply goes_ret|by apply goes_failed].
Qed.

(** A handler that can be handled: of a known type, with its socket or its
    extension. *)
Definition sound (u : handlerExtensionUnion) : Prop :=
  let t := h_Type (u_Handler u) in
  is_type t "pipe" = true ∨
  ((is_type t "tcp" = true ∨ is_type t "udp" = true) ∧ is_Some (Socket (u_Handler u))) ∨
  (is_type t "grpc" = true ∧ is_Some (u_Extension u)).

Lemma goes_handle_one u : sound u → goes e (handle_one digit lower u) fine.
Proof.
  intros Hs. unfold handle_one. eapply goes_bind; [apply goes_filterEvent| |by intros x [? ?]].
  intros [] _; [by apply goes_ret; eexists|].
  eapply goes_bind; [apply goes_attempt, goes_mutate| |by intros x (? & ? & _)].
  intros [d|x] _; [|by apply goes_ret; eexists]. unfold send_to_handler.
  case_match eqn:E1; [apply goes_no_result, goes_execute|].
  destruct (is_type (h_Type (u_Handler u)) "tcp" || is_type (h_Type (u_Handler u)) "udp") eqn:E2.
  - apply goes_no_result. unfold socketHandler.
    assert (is_Some (Socket (u_Handler u))) as [s ->].
    { destruct Hs as [?|[[_ ?]|[Eg _]]]; [congruence|done|]. unfold is_type in *. apply bytes_equal_true in Eg. rewrite Eg in E2. discriminate. }
    eapply goes_bind; [apply goes_perform| |done]. intros hist _.
    destruct (DialTimeout _ _ _ _); [by apply goes_failed|].
    eapply goes_bind; [apply goes_perform| |done]. intros ? _. by apply goes_ret.
  - apply orb_false_iff in E2 as [E2 E3]. destruct Hs as [?|[[[?|?] _]|[Eg [ext Hx]]]]; [congruence..|].
    rewrite Eg, Hx. apply goes_no_result. unfold grpcHandler.
    destruct (extensionExecutor ext); [by apply goes_failed|].
    eapply goes_bind; [apply goes_event| |done]. intros e0 _.
    eapply goes_bind; [apply goes_perform| |done]. intros ? _. by apply goes_ret.
Qed.

Lemma goes_handle_all us : Forall sound us → goes e (handle_all digit lower us) fine.
Proof.
  induction 1 as [|u us Hu _ IH]; cbn [handle_all]; [by apply goes_ret; eexists|].
  eapply goes_bind; [by apply goes_handle_one| |by intros x [? ?]]. by intros _ _.
Qed.
End Steps.

(** C19: the handlers a list of names expands to are those it leads to, one
    for each name, for every store, also one whose sets contain themselves: a
    handler is found in a set only when the levels of the sets on the way,
    which the sets before each of them in its list raise too, stay below
    four. *)
Theorem expand_handlers_exact `{PipeStore} (namespace : bytes) (names : list bytes) :
  ∃ m, expandHandlers 3 namespace names 1 = inl m ∧
    (∀ k u, m !! k = Some u → expands namespace 1 names u ∧ k = handler_name u) ∧
    (∀ u, expands namespace 1 names u → is_Some (m !! handler_name u)).
Proof. apply (expandHandlers_holds namespace 3 names 1). lia. Qed.

(* ------------------------------------------------------------------ *)
(** ** The program behind the pipeline *)

Section Piped.
Context (digit : Z → bool) (lower : Z → Z) `{PipeStore} `{World}.
Abbreviation redacted := (redact_entity digit lower).

Lemma redacted_entity entity : ∃ entity', GetRedactedEntity digit lower (Some entity) = Some entity' ∧
  om_Name (e_Meta entity') = om_Name (e_Meta entity) ∧ Namespace (e_Meta entity') = Namespace (e_Meta entity) ∧
  EntityClass entity' = EntityClass entity.
Proof.
  destruct (GetRedactedEntity digit lower (Some entity)) as [entity'|] eqn:E.
  - apply redacted_fields in E. exists entity'. naive_solver.
  - cbn in E. destruct (Labels (e_Meta entity)), (Annotations (e_Meta entity)); discriminate E.
Qed.

Lemma validate_redacted ps pe now e : Validate_event ps pe now (redacted e) = Validate_event ps pe now e.
Proof.
  unfold Validate_event. destruct e as [m ts [entity|] c me]; [|done]. cbn [ev_Entity redact_entity].
  destruct (redacted_entity entity) as (e' & -> & Hn & Hns & Hc). unfold Validate_entity. by rewrite Hn, Hns, Hc.
Qed.

Lemma add_points_redacted bp e points :
  add_points bp (ev_Entity (redacted e)) points = add_points bp (ev_Entity e) points.
Proof.
  revert bp. induction points as [|p points IH]; intros bp; [done|]. cbn [add_points].
  assert (make_point (ev_Entity (redacted e)) p = make_point (ev_Entity e) p) as ->.
  { destruct p as [p|]; [|done]. unfold make_point. destruct e as [m ts [entity|] c me]; [|done]. cbn [ev_Entity redact_entity].
    destruct (redacted_entity entity) as (e' & -> & Hn & _). by rewrite Hn. }
  destruct (make_point (ev_Entity e) p); cbn; [apply IH|done..].
Qed.

Lemma sendMetrics_redacted `{Net} cfg e : sendMetrics cfg (redacted e) = sendMetrics cfg e.
Proof.
  unfold sendMetrics, make_batch. destruct e as [m ts en c [me|]]; [|done].
  destruct (NewBatchPoints _) as [bp| |]; [|done..]. cbn [mbind outcome_bind ev_Metrics redact_entity].
  by rewrite (add_points_redacted bp (MkEvent m ts en c (Some me))).
Qed.

(** A filter of the pipeline itself, which the event passes. *)
Definition passes (e : Event) (name : bytes) : Prop :=
  (name = bs "is_incident" ∧ (IsIncident e || IsResolution e) = true) ∨
  (name = bs "has_metrics" ∧ HasMetrics e = true) ∨
  (name = bs "not_silenced" ∧ IsSilenced e = false).

Lemma filters_pass e e' t names :
  version digit lower e e' → Forall (passes e) names → filter_loop digit lower names (e', t) = (Ret false, (e', t)).
Proof.
  intros Hv. assert (IsIncident e' = IsIncident e ∧ IsResolution e' = IsResolution e ∧ HasMetrics e' = HasMetrics e ∧
    IsSilenced e' = IsSilenced e) as (E1 & E2 & E3 & E4) by (by destruct Hv as [->| ->]).
  induction 1 as [|n names Hn _ IH]; [done|]. cbn [filter_loop].
  assert (apply_filter digit lower n (e', t) = (Ret Passed, (e', t))) as Ea; [|unfold mbind, pipe_bind; by rewrite Ea].
  unfold apply_filter, the_event, mbind, pipe_bind. cbn [fst].
  destruct Hn as [[-> Hp]|[[-> Hp]|[-> Hp]]]; cbn -[IsIncident IsResolution HasMetrics IsSilenced].
  - rewrite E1, E2. apply orb_true_iff in Hp as [->| ->]; [done|]. by rewrite andb_false_r.
  - by rewrite E3, Hp.
  - by rewrite E4, Hp.
Qed.

Lemma io_step {A B} (r : outcome A) (a : A) (f : A → io B) : r = Ret a → (GoNet.lift r ≫= f) = f a.
Proof. intros ->. unfold mbind, io_bind. cbn. by destruct (f a). Qed.

Lemma bind_step {A B} (m : pipe A) (f : A → pipe B) s a s' : m s = (Ret a, s') → (m ≫= f) s = f a s'.
Proof. unfold mbind, pipe_bind. by intros ->. Qed.

(** A handler without a mutator, of which the event passes the filters, is
    sent the event as JSON. *)
Lemma handle_sent e e' t u data :
  version digit lower e e' → EventFields e' = Ret () →
  h_Mutator (u_Handler u) = [] → Forall (passes e) (Filters (u_Handler u)) → Marshal e' = Ret data →
  handle_one digit lower u (e', t) = send_to_handler u data (e', t).
Proof.
  intros Hv Hf Hm Hp Hd.
  assert (∀ t, log_fields (e', t) = (Ret (), (e', t))) as El.
  { intros t0. unfold log_fields, mbind, pipe_bind, the_event, lift. cbn [fst]. by rewrite Hf. }
  assert (filterEvent digit lower (u_Handler u) (e', t) = (Ret false, (e', t))) as Ef.
  { unfold filterEvent. rewrite (bind_step _ _ _ _ _ (El t)). by apply (filters_pass e). }
  assert (attempt (mutateEvent (u_Handler u)) (e', t) = (Ret (inl data), (e', t))) as Em.
  { unfold attempt, mutateEvent. rewrite (bind_step _ _ _ _ _ (El t)), Hm. cbn [is_empty]. unfold jsonMutator.
    rewrite (bind_step _ _ (e', t) e' (e', t)) by done. unfold lift. by rewrite Hd. }
  unfold handle_one. rewrite (bind_step _ _ _ _ _ Ef). cbn match. by rewrite (bind_step _ _ _ _ _ Em).
Qed.

(** One of type pipe runs its command. *)
Lemma send_piped e t u data :
  is_type (h_Type (u_Handler u)) "pipe" = true →
  send_to_handler u data (e, t) =
    (Ret (), (e, t ++ [Ran (MkExecution (h_Command (u_Handler u))
       (command_env (Namespace (h_Meta (u_Handler u))) (h_RuntimeAssets (u_Handler u)) (h_EnvVars (u_Handler u)))
       data (h_Timeout (u_Handler u)))])).
Proof.
  intros Ht. unfold send_to_handler. rewrite Ht. cbn match.
  unfold no_result, pipeHandler, execute_command, attempt, perform, failed, lift, mbind, pipe_bind.
  cbn [fst snd]. by destruct (Execute t _).
Qed.

Lemma handle_all_app e us vs s s' :
  handle_all digit lower us (e, s) = (Ret (), s') → handle_all digit lower (us ++ vs) (e, s) = handle_all digit lower vs s'.
Proof.
  revert e s. induction us as [|u us IH]; intros e s E; [by injection E as <-|]. cbn [handle_all app] in *.
  unfold mbind, pipe_bind in *. destruct (handle_one digit lower u (e, s)) as [[[]| |] [e1 s1]]; [|done..]. by apply IH.
Qed.
End Piped.


(* ------------------------------------------------------------------ *)
(** ** A pipeline to try the theorems on *)

Definition toy_handler (name type : bytes) (handlers filters : list bytes) : Handler_ :=
  MkHandler (MkMeta name (bs "default") None None) type [] (bs "sensu-influxdb-handler") 0
    (Some (MkSocket (bs "localhost") 3000)) handlers filters [bs "INFLUXDB_ADDR=http://influx:8086"] [].
Definition toy_extension : Extension := MkExtension (MkMeta (bs "ext") (bs "default") None None) (bs "grpc://ext").
Definition toy_when : TimeWindowWhen :=
  MkWhen (MkDays [Some (MkRange (bs "nine") (bs "5:00PM"))] [] [] [] [] [] [] []).

(** A store with a pipe handler, a tcp handler, sets and an extension. *)
#[local] Instance toy_store : PipeStore := {|
  GetHandlerByName _ n :=
    if bytes_equal n (bs "influxdb") then inl (Some (toy_handler n (bs "pipe") [] [bs "has_metrics"]))
    else if bytes_equal n (bs "debug") then inl (Some (toy_handler n (bs "tcp") [] [bs "always"]))
    else if bytes_equal n (bs "all") then inl (Some (toy_handler n (bs "set") [bs "influxdb"; bs "all"; bs "debug"] []))
    else if bytes_equal n (bs "plugins") then inl (Some (toy_handler n (bs "set") [bs "ext"] []))
    else inl None;
  GetMutatorByName _ _ := inl None;
  GetEventFilterByName _ n :=
    if bytes_equal n (bs "always") then
      inl (Some (MkFilter (MkMeta n (bs "default") None None) (bs "allow") [bs "true"] None []))
    else inl None;
  GetExtension _ n := if bytes_equal n (bs "ext") then inl toy_extension else inr ErrNoExtension
|}.

Definition piped_entity (password : bytes) : Entity :=
  MkEntity (MkMeta (bs "entity1") (bs "default") (Some {[bs "password" := password]}) (Some ∅)) (bs "host") [] 0 false [].
Definition piped_event (password : bytes) (handlers : list bytes) : Event :=
  MkEvent (MkMeta [] [] None None) 1552506033 (Some (piped_entity password)) None
    (Some (MkMetrics handlers [Some (MkMetricPoint (bs "answer") (float_of_decimal false 42 0) 1552506033 [])])).
Definition piped_text : bytes := js
  "{'timestamp':1552506033,
    'entity':{'entity_class':'host','metadata':{'name':'entity1','namespace':'default',
                                                'labels':{'password':'REDACTED'},'annotations':{}}},
    'metrics':{'handlers':['debug','all'],'points':[{'name':'answer','value':42,'timestamp':1552506033}]}}".

#[local] Instance toy_world : World := {|
  Execute _ _ := inl (MkExecuted [] 0);
  DialTimeout _ _ _ _ := None;
  extensionExecutor _ := None;
  FilterEvent _ _ _ := inl false;
  MutateEvent _ _ _ := inl [];
  RuntimeAssetSet := ();
  GetAll _ _ := inl ();
  assets_Env _ := [];
  js_Evaluate _ _ _ := (true, None);
  Marshal _ := Ret piped_text;
  Environ := [bs "PATH=/bin"];
  time_Now := MkUTC Mon 0
|}.

Definition toy_digit (r : Z) : bool := false.
Definition toy_lower (r : Z) : Z := r.

Definition toy_expansion : expansion :=
  {[bs "influxdb" := MkUnion (toy_handler (bs "influxdb") (bs "pipe") [] [bs "has_metrics"]) None;
    bs "debug" := MkUnion (toy_handler (bs "debug") (bs "tcp") [] [bs "always"]) None]}.

Lemma piped_text_decodes :
  Unmarshal_event piped_text = Ret (redact_entity toy_digit toy_lower (piped_event (bs "secret") [bs "debug"; bs "all"])).
Proof. vm_compute. reflexivity. Qed.


(* ------------------------------------------------------------------ *)
(** ** Where the pipeline goes wrong *)

(** C36: three weaknesses of the pipeline. An extension loses itself in a
    set: the handler that is expanded has none, and to handle it panics. Of
    three sets in one list the last is left out, as if it were nested. And a
    filter with a window that cannot be read lets the event pass, which its
    log denies. *)
Theorem pipeline_hazards (digit : Z → bool) (lower : Z → Z) `{PipeStore} `{World}
    (namespace name n : bytes) (s : Handler_) (ext : Extension) (e : Event) (t : list action) (data : bytes)
    (a b c : bytes) (ha hb hc : handlerExtensionUnion) (filter : EventFilter) (w : TimeWindowWhen) (x : error) assets :
  GetHandlerByName namespace name = inl (Some s) → h_Type s = bs "set" → h_Handlers s = [n] →
  GetHandlerByName namespace n = inl None → GetExtension namespace n = inl ext →
  EventFields e = Ret () → EventFields (redact_entity digit lower e) = Ret () → Marshal e = Ret data →
  find_handler namespace a = Some ha → find_handler namespace b = Some hb → find_handler namespace c = Some hc →
  is_set ha = true → is_set hb = true → is_set hc = true →
  When filter = Some w → InWindows w time_Now = Fail x →
  (∃ u, expandHandlers 3 namespace [name] 1 = inl {[URL ext := u]} ∧ (handle_one digit lower u (e, t)).1 = Panic) ∧
  (∀ u, expands namespace 1 [a; b; c] u →
     ∃ u', (expands namespace 2 (h_Handlers (u_Handler ha)) u' ∨ expands namespace 3 (h_Handlers (u_Handler hb)) u') ∧
       u = out_of_set u') ∧
  evaluateEventFilter digit lower filter assets (e, t) = (Ret false, (redact_entity digit lower e, t)).
Proof.
  intros Hs Ht Hh Hn Hx He Hr Hd Ha Hb Hc Sa Sb Sc Hw Hi. split_and!.
  - eexists. split.
    + cbn [expandHandlers Nat.ltb Nat.leb expand_loop]. unfold find_handler at 1. rewrite Hs. unfold is_set at 1. cbn [u_Handler].
      unfold is_type. rewrite Ht. cbn match. rewrite Hh. cbn [expandHandlers expand_loop Nat.ltb Nat.leb].
      unfold find_handler. rewrite Hn, Hx. change (bytes_equal (bs "set") (bs "set")) with true. cbn match.
      unfold is_set, handler_name. cbn -[lookup insert empty fmap union].
      rewrite lookup_empty, (left_id_L ∅ (∪)). change (is_type _ "set") with false. cbn match.
      rewrite insert_empty, map_fmap_singleton. reflexivity.
    + rewrite (handle_sent _ _ e e t _ data); [reflexivity|apply version_refl|done|done|constructor|done].
  - intros u. rewrite expands_leads, !leads_to_cons, Ha, Sa, leads_to_cons, Hb, Sb, leads_to_cons, Hc, Sc.
    intros [_ [(u' & He' & ->)|[(u' & He' & ->)|[(u' & He' & ->)|[(? & Hn' & _)|(pre & ? & ? & ? & ? & E & _)]]]]]; eauto.
    + apply expands_leads in He'. lia.
    + by apply elem_of_nil in Hn'.
    + by destruct pre.
  - unfold evaluateEventFilter, log_fields, the_event, lift, mbind, pipe_bind. cbn [fst snd]. rewrite Hr, Hw, Hi. reflexivity.
Qed.

Lemma pipeline_hazards_witness :
  let e := piped_event (bs "secret") [bs "plugins"] in
  (∃ u, expandHandlers 3 (bs "default") [bs "plugins"] 1 = inl {[bs "grpc://ext" := u]} ∧
     (handle_one toy_digit toy_lower u (e, [])).1 = Panic) ∧
  evaluateEventFilter toy_digit toy_lower (MkFilter (MkMeta [] [] None None) (bs "allow") [] (Some toy_when) []) None (e, []) =
    (Ret false, (redact_entity toy_digit toy_lower e, [])).
Proof.
  intros e.
  destruct (pipeline_hazards toy_digit toy_lower (bs "default") (bs "plugins") (bs "ext")
    (toy_handler (bs "plugins") (bs "set") [bs "ext"] []) toy_extension e [] piped_text (bs "all") (bs "all") (bs "all")
    (MkUnion (toy_handler (bs "all") (bs "set") [bs "influxdb"; bs "all"; bs "debug"] []) None)
    (MkUnion (toy_handler (bs "all") (bs "set") [bs "influxdb"; bs "all"; bs "debug"] []) None)
    (MkUnion (toy_handler (bs "all") (bs "set") [bs "influxdb"; bs "all"; bs "debug"] []) None)
    (MkFilter (MkMeta [] [] None None) (bs "allow") [] (Some toy_when) []) toy_when
    (match InWindows toy_when time_Now with Fail x => x | _ => ErrNoExtension end) None)
    as (H1 & _ & H3); try reflexivity.
  by split.
Defined.
