(* ===== verification/Eventd.v ===== *)
(** * Eventd ([backend/eventd]): what the backend does with an event

    Every event is validated, marked with the silences that apply, stored,
    and published to the pipeline; an event that a check with a time to live
    does not send in time is made up. The stores, the switches and the bus
    are an interface, over the state of the backend. *)

From S2P Require Import Prelude GoStd GoNet GoTime TimeWindow Sensu StoreKeys StoreKeysFacts EtcdStore EventStore.

(* ------------------------------------------------------------------ *)
(** ** The interface *)

(** The silenced entries of [store.Store], in the namespace of a context. *)
Class SilencedEntries (St : Type) := {
  by_subscription : bytes → list bytes → store_m St (list Silenced);
  by_check_name : bytes → bytes → store_m St (list Silenced);
  by_name : bytes → list bytes → store_m St (list Silenced);
  delete_by_name : bytes → list bytes → store_m St ()
}.

(** The entities of [store.Store], [store.EventStore], the switches of
    [liveness.Interface], and [Publish] on [TopicEvent]. *)
Class Backend (St : Type) := {
  backend_silenced :: SilencedEntries St;
  store_GetEntityByName : bytes → bytes → store_m St (option Entity);
  store_GetEventByEntityCheck : bytes → bytes → bytes → store_m St (option Event);
  store_UpdateEvent : Event → store_m St (Event * option Event);
  switches_Alive : bytes → Z → store_m St ();
  switches_Bury : bytes → store_m St ();
  bus_Publish : Event → store_m St ()
}.

(** ** What eventd relies on *)

(** An entry that is read from the store has the time that its lease has
    left. *)
Definition with_expire (s : Silenced) (ttl : Z) : Silenced :=
  MkSilenced (s_Meta s) (s_Check s) (s_Subscription s) (s_Begin s) ttl (ExpireOnResolve s).

(** An entry as the API makes it: valid, and named by its subscription and
    its check. *)
Record well_kept (name : bytes) (e : Silenced) : Prop := {
  kept_name : om_Name (s_Meta e) = name;
  kept_parts : SilencedName (s_Subscription e) (s_Check e) = Ret name;
  kept_valid : Validate_silenced e = None
}.

(** The entries of a state, by namespace and name, and the events that have
    been published in it. *)
Class BackendView (St : Type) := {
  store_ok : St → Prop;
  entry_at : St → bytes → bytes → option Silenced;
  published : St → list Event
}.

Section View.
Context {St : Type} `{BackendView St}.
Definition same_entries (s s' : St) : Prop :=
  (store_ok s → store_ok s') ∧
  ∀ ns name, plain_name ns → plain_name name → entry_at s' ns name = entry_at s ns name.
Definition present (s : St) (ns name : bytes) : bool :=
  match entry_at s ns name with Some _ => true | None => false end.

(** Whatever it does, it publishes nothing. *)
Definition quiet {A} (m : store_m St A) : Prop := ∀ s, published (m s).2 = published s.
End View.

(** The calls for silenced entries that succeed. *)
Class SilencedLaws (St : Type) `{SilencedEntries St} `{BackendView St} := {
  entry_kept s ns name e : store_ok s → plain_name ns → plain_name name → entry_at s ns name = Some e → well_kept name e;
  by_subscription_law ns subs s l s' : store_ok s → plain_name ns → Forall plain_name subs →
    by_subscription ns subs s = (Ret (inl l), s') →
    same_entries s s' ∧
    (∀ x, x ∈ l → ∃ name e ttl, plain_name name ∧ entry_at s ns name = Some e ∧ x = with_expire e ttl) ∧
    (∀ sub name e, sub ∈ subs → plain_name name → has_prefix name sub = true → entry_at s ns name = Some e →
       ∃ ttl, with_expire e ttl ∈ l);
  by_check_name_law ns check s l s' : store_ok s → plain_name ns →
    by_check_name ns check s = (Ret (inl l), s') →
    same_entries s s' ∧
    (∀ x, x ∈ l ↔ ∃ name, plain_name name ∧ entry_at s ns name = Some x ∧ s_Check x = check);
  by_name_law ns names s l s' : store_ok s → plain_name ns → Forall plain_name names →
    by_name ns names s = (Ret (inl l), s') →
    same_entries s s' ∧
    map (λ x, om_Name (s_Meta x)) l = List.filter (present s ns) names ∧
    (∀ x, x ∈ l → ∃ e ttl, entry_at s ns (om_Name (s_Meta x)) = Some e ∧ x = with_expire e ttl);
  delete_by_name_law ns names s s' : store_ok s → plain_name ns → Forall plain_name names →
    delete_by_name ns names s = (Ret (inl ()), s') →
    store_ok s' ∧
    ∀ ns' name, plain_name ns' → plain_name name →
      entry_at s' ns' name = if decide (ns' = ns ∧ name ∈ names) then None else entry_at s ns' name
}.

(** An event whose names make plain keys. *)
Record plain_event (e : Event) (entity : Entity) (check : Check_) : Prop := {
  pe_entity : ev_Entity e = Some entity;
  pe_check : ev_Check e = Some check;
  pe_namespace : plain_name (Namespace (e_Meta entity));
  pe_entity_name : plain_name (om_Name (e_Meta entity));
  pe_check_name : plain_name (om_Name (c_Meta check));
  pe_alone : RoundRobin check = true → plain_name (Namespace (c_Meta check))
}.

(** A key of plain names. *)
Definition switch_key (key : bytes) : Prop := ∃ parts, parts ≠ [] ∧ Forall plain_name parts ∧ key = join (bs "/") parts.

(** The other calls, when they succeed, and what is published: only by the
    bus, and not when it returns an error. *)
Class BackendLaws (St : Type) `{Backend St} `{BackendView St} := {
  backend_silenced_laws :: SilencedLaws St;
  update_event_law e entity check s r s' : plain_event e entity check → store_UpdateEvent e s = (Ret (inl r), s') →
    same_entries s s';
  update_check_law e check s e' prev s' : ev_Check e = Some check → store_UpdateEvent e s = (Ret (inl (e', prev)), s') →
    ev_Entity e' = ev_Entity e ∧ ∃ check', ev_Check e' = Some check' ∧ c_Meta check' = c_Meta check ∧
      RoundRobin check' = RoundRobin check ∧ Status check' = Status check ∧ Silenced_by check' = Silenced_by check;
  alive_law key ttl s s' : switch_key key → switches_Alive key ttl s = (Ret (inl ()), s') → same_entries s s';
  bury_law key s r s' : switch_key key → switches_Bury key s = (Ret r, s') → same_entries s s';
  publish_law e s s' : bus_Publish e s = (Ret (inl ()), s') → same_entries s s' ∧ published s' = published s ++ [e];
  publish_fails e s r s' : bus_Publish e s = (r, s') → r ≠ Ret (inl ()) → published s' = published s;
  quiet_by_subscription ns subs : quiet (by_subscription ns subs);
  quiet_by_check_name ns check : quiet (by_check_name ns check);
  quiet_by_name ns names : quiet (by_name ns names);
  quiet_delete_by_name ns names : quiet (delete_by_name ns names);
  quiet_get_event ns entity check : quiet (store_GetEventByEntityCheck ns entity check);
  quiet_get_entity ns entity : quiet (store_GetEntityByName ns entity);
  quiet_update_event e : quiet (store_UpdateEvent e);
  quiet_alive key ttl : quiet (switches_Alive key ttl);
  quiet_bury key : quiet (switches_Bury key)
}.

(** A call whose error is wrapped, and one whose error is only logged. *)
Definition wrapping {St A} (text : string) (m : store_m St A) : store_m St A := λ s,
  match m s with
  | (Ret (inr e), s) => (Ret (inr (other_error (Wrapf text [] (Error_text e)))), s)
  | r => r
  end.
Definition tried {St A} (m : store_m St A) : store_m St (A + store_error) := λ s,
  match m s with
  | (Ret r, s) => (Ret (inl r), s)
  | (Fail e, s) => (Fail e, s)
  | (Panic, s) => (Panic, s)
  end.

(* ------------------------------------------------------------------ *)
(** ** Keys of switches *)

(** [eventKey], which dereferences the check and the entity. *)
Definition eventKey (event : Event) : outcome bytes :=
  match ev_Check event, ev_Entity event with
  | Some check, Some entity =>
      if RoundRobin check && negb (bytes_equal (EntityClass entity) (bs "proxy")) then
        Ret (path_Join [Namespace (c_Meta check); om_Name (c_Meta check)])
      else Ret (path_Join [Namespace (e_Meta entity); om_Name (c_Meta check); om_Name (e_Meta entity)])
  | _, _ => Panic
  end.

(** [parseKey]: the namespace, the check and the entity. *)
Definition parseKey (key : bytes) : outcome (bytes * bytes * bytes) :=
  match split_byte "/" key with
  | [namespace; check] => Ret (namespace, check, [])
  | [namespace; check; entity] => Ret (namespace, check, entity)
  | _ => Fail (Errorf "bad key" [])
  end.

(* ------------------------------------------------------------------ *)
(** ** The silences of an event ([silenced.go]) *)

Definition set_silenced (c : Check_) (ids : list bytes) : Check_ :=
  MkCheck (c_Meta c) (Interval c) (Cron c) (Ttl c) (Timeout c) (c_Subscriptions c) (c_Handlers c)
    (RuntimeAssets c) (c_ProxyEntityName c) (c_ProxyRequests c) (Subdue c) (OutputMetricFormat c)
    (EnvVars c) (MaxOutputSize c) (LowFlapThreshold c) (HighFlapThreshold c) (Status c) (State c)
    (Executed c) (History c) (TotalStateChange c) (LastOK c) (Occurrences c) (OccurrencesWatermark c)
    ids (Output c) (RoundRobin c).

Definition addToSilencedBy (id : bytes) (ids : list bytes) : list bytes :=
  if InArray id ids then ids else ids ++ [id].

(** [silencedBy]. *)
Definition silencedBy (event : Event) (entries : list Silenced) (now : Z) : outcome (list bytes) :=
  found ← SilencedBy event entries now;
  Ret (foldl (λ names entry, addToSilencedBy (om_Name (s_Meta entry)) names) [] found).

Section Eventd.
Context {St : Type} `{Backend St}.
Abbreviation store := (store_m St).

(** [getSilenced], at the Unix time [now]: the event with its silences. *)
Definition getSilenced (namespace : bytes) (event : Event) (now : Z) : store Event :=
  match ev_Check event with
  | None => mret event
  | Some check =>
      match ev_Entity event with
      | None => crash
      | Some entity =>
          let entitySubscription := GetEntitySubscription (om_Name (e_Meta entity)) in
          entries ← wrapping "error setting silenced entries: %s"
            (by_subscription namespace (c_Subscriptions check ++ [entitySubscription]));
          results ← by_check_name namespace (om_Name (c_Meta check));
          ids ← checked other_error (silencedBy event (entries ++ results) now);
          mret (set_check event (set_silenced check ids))
      end
  end.

Definition not_resolved : string := "couldn't resolve silences: %s".
Definition handleExpireOnResolveEntries (namespace : bytes) (event : Event) : store Event :=
  match ev_Check event with
  | None => mret event
  | Some check =>
      if negb (IsResolution event) then mret event
      else
        entries ← wrapping not_resolved (by_name namespace (Silenced_by check));
        let names := map (λ entry, om_Name (s_Meta entry)) in
        let toDelete := names (List.filter ExpireOnResolve entries) in
        let toRetain := names (List.filter (λ entry, negb (ExpireOnResolve entry)) entries) in
        _ ← wrapping not_resolved (delete_by_name namespace toDelete);
        mret (set_check event (set_silenced check toRetain))
  end.

(* ------------------------------------------------------------------ *)
(** ** Events that arrive ([eventd.go]) *)

Section Handle.
(** The parsers of the validation, and the clock. *)
Context (ParseStandard_ok : bytes → bool) (ParseExpressions : list bytes → option error)
  (local_now : LocalTime) (now : Z).

(** The switch of the event: reset, or buried when the time to live is gone;
    an error of burying is only logged. *)
Definition flip_switch (event : Event) (prevEvent : option Event) (switchKey : bytes) : store () :=
  match ev_Check event with
  | None => crash
  | Some check =>
      if (0 <? Ttl check)%Z then switches_Alive switchKey (Ttl check)
      else
        match prevEvent with
        | None => mret ()
        | Some prev =>
            match ev_Check prev with
            | None => crash
            | Some prevCheck =>
                if (0 <? Ttl prevCheck)%Z then _ ← tried (switches_Bury switchKey); mret () else mret ()
            end
        end
  end.

(** [handleMessage], of a message that is not an event, of a nil event, and
    of an event. *)
Definition handleMessage (msg : option (option Event)) : store () :=
  match msg with
  | None => failing (other_error (Errorf "received non-Event on event channel" []))
  | Some None => crash
  | Some (Some event) =>
      _ ← checked other_error (Validate_event ParseStandard_ok ParseExpressions local_now event);
      if negb (HasCheck event) then bus_Publish event
      else
        match ev_Entity event with
        | None => crash
        | Some entity =>
            let namespace := Namespace (e_Meta entity) in
            event ← getSilenced namespace event now;
            event ← handleExpireOnResolveEntries namespace event;
            updated ← store_UpdateEvent event;
            let '(event, prevEvent) := updated in
            switchKey ← checked other_error (eventKey event);
            _ ← flip_switch event prevEvent switchKey;
            bus_Publish event
        end
  end.
End Handle.

(* ------------------------------------------------------------------ *)
(** ** Checks that are late *)

(** [NewCheck(NewCheckConfigFromFace(check))]: the configuration of a check,
    without results. *)
Definition NewCheck (c : Check_) : Check_ :=
  MkCheck (fill_meta (c_Meta c)) (Interval c) (Cron c) (Ttl c) (Timeout c) (c_Subscriptions c) (c_Handlers c)
    (RuntimeAssets c) (c_ProxyEntityName c) (c_ProxyRequests c) (Subdue c) (OutputMetricFormat c)
    (EnvVars c) (MaxOutputSize c) (LowFlapThreshold c) (HighFlapThreshold c) 0 [] 0 [] 0 0 0 0 [] []
    (RoundRobin c).

Definition set_result (c : Check_) (output : bytes) (status : Z) (state : bytes) (executed : Z) : Check_ :=
  MkCheck (c_Meta c) (Interval c) (Cron c) (Ttl c) (Timeout c) (c_Subscriptions c) (c_Handlers c)
    (RuntimeAssets c) (c_ProxyEntityName c) (c_ProxyRequests c) (Subdue c) (OutputMetricFormat c)
    (EnvVars c) (MaxOutputSize c) (LowFlapThreshold c) (HighFlapThreshold c) status state
    executed (History c) (TotalStateChange c) (LastOK c) (Occurrences c) (OccurrencesWatermark c)
    (Silenced_by c) output (RoundRobin c).

Section Late.
(** The order of [sort.Sort]; the clock, by its readings. *)
Context (sort_history : list CheckHistory → list CheckHistory) (clock : nat → Z).

Definition late_output (seconds : Z) : bytes :=
  bs "Last check execution was " ++ format_int seconds ++ bs " seconds ago".

(** The check of an event that is made up after [check]. *)
Definition failed_check (check : Check_) : Check_ :=
  MergeWith sort_history
    (set_result (NewCheck check) (late_output (i64 (clock 0 - Executed check))) 1 EventFailingState (clock 1)) check.

Definition createFailedCheckEvent (namespace : bytes) (event : Event) : store Event :=
  match ev_Check event with
  | None => failing (other_error (Errorf "event does not contain a check" []))
  | Some check =>
      match ev_Entity event with
      | None => crash
      | Some entity =>
          found ← store_GetEventByEntityCheck namespace (om_Name (e_Meta entity)) (om_Name (c_Meta check));
          match found with
          | None => crash
          | Some event =>
              match ev_Check event with
              | None => crash
              | Some check => mret (set_check (set_timestamp event (clock 2)) (failed_check check))
              end
          end
      end
  end.

Definition handleFailure (event : Event) : store () :=
  match ev_Entity event with
  | None => crash
  | Some entity =>
      failedCheckEvent ← createFailedCheckEvent (Namespace (e_Meta entity)) event;
      updated ← store_UpdateEvent failedCheckEvent;
      bus_Publish updated.1
  end.

(** [dead], called when a switch expires: whether to bury it. Errors are
    only logged. *)
Definition dead (key : bytes) (leader : bool) : store bool :=
  match parseKey key with
  | Ret (namespace, check, entity) =>
      if is_empty entity then mret false
      else
        ent ← tried (store_GetEntityByName namespace entity);
        match ent with
        | inl None => mret true
        | _ =>
            found ← tried (store_GetEventByEntityCheck namespace entity check);
            match found with
            | inl (Some event) =>
                if leader then _ ← tried (handleFailure event); mret false else mret false
            | _ => mret false
            end
        end
  | _ => mret false
  end.
End Late.

(** [alive] only logs. *)
Definition alive (key : bytes) : bool := false.
End Eventd.
