(* ===== verification/SilencedStore.v ===== *)
(** * Silenced entries in the store ([backend/store/etcd/silenced_store.go])

    The entries are kept under their names, which begin with the subscription
    they silence; those that expire are kept with a lease. *)

From S2P Require Import Prelude GoStd GoStdFacts GoNet GoTime TimeWindow Sensu StoreKeys StoreKeysFacts EtcdClient EtcdStore.
From S2P Require Import SensuFacts EtcdStoreFacts EventStore EventStoreGuarantees Eventd.

(* ------------------------------------------------------------------ *)
(** ** The client of etcd, with leases *)

(** What the entries need of the client beyond [Etcd]: the lease of a key
    that is returned, and transactions that delete keys, or put them with a
    lease. *)
Record lease_kv := MkLeaseKv { kv_Key : bytes; kv_Value : bytes; kv_Lease : Z }.
Inductive lease_op :=
| LeaseGet (key : bytes) (end_ : range_end)
| LeasePut (key value : bytes) (lease : option Z)
| LeaseDelete (key : bytes).
Inductive lease_response := range_answer (kvs : list lease_kv) | other_answer.
Record lease_txn := MkLeaseTxn { lt_Succeeded : bool; lt_Responses : list lease_response }.

Class EtcdLeases (St : Type) := {
  lease_Txn : list cmp → list lease_op → St → (lease_txn + error) * St;
  lease_Get : bytes → range_end → St → (list lease_kv + error) * St;
  lease_Put : bytes → bytes → Z → St → (() + error) * St;
  etcd_Grant : Z → St → (Z + error) * St;
  etcd_TimeToLive : Z → St → (Z + error) * St
}.

(** What etcd documents, on a map of keys to values and leases; no lease is
    the lease zero. *)
Abbreviation leased_map := (gmap bytes (bytes * Z)).
Definition values (m : leased_map) : gmap bytes bytes := fst <$> m.
Definition lease_range (m : leased_map) (key : bytes) (end_ : range_end) : list lease_kv :=
  map (λ k, let '(v, l) := default ([], 0%Z) (m !! k) in MkLeaseKv k v l) (range_keys (values m) key end_).

Fixpoint run_lease_ops (m : leased_map) (ops : list lease_op) : list lease_response * leased_map :=
  match ops with
  | [] => ([], m)
  | LeaseGet k e :: ops' => let '(rs, m') := run_lease_ops m ops' in (range_answer (lease_range m k e) :: rs, m')
  | LeasePut k v l :: ops' => let '(rs, m') := run_lease_ops (<[k := (v, default 0%Z l)]> m) ops' in (other_answer :: rs, m')
  | LeaseDelete k :: ops' => let '(rs, m') := run_lease_ops (delete k m) ops' in (other_answer :: rs, m')
  end.
Definition lease_txn_on_map (m : leased_map) (cmps : list cmp) (thens : list lease_op) : lease_txn * leased_map :=
  if forallb (holds (values m)) cmps then
    let '(rs, m') := run_lease_ops m thens in (MkLeaseTxn true rs, m')
  else (MkLeaseTxn false [], m).

Class EtcdLeaseLaws (St : Type) `{EtcdLeases St} := {
  leased : St → leased_map;
  lease_txn_law cmps ops s r s' : lease_Txn cmps ops s = (inl r, s') →
    (r, leased s') = lease_txn_on_map (leased s) cmps ops;
  lease_get_law k e s kvs s' : lease_Get k e s = (inl kvs, s') → kvs = lease_range (leased s) k e ∧ leased s' = leased s;
  lease_put_law k v l s u s' : lease_Put k v l s = (inl u, s') → leased s' = <[k := (v, l)]> (leased s);
  grant_law ttl s l s' : etcd_Grant ttl s = (inl l, s') → leased s' = leased s;
  time_to_live_law l s ttl s' : etcd_TimeToLive l s = (inl ttl, s') → leased s' = leased s
}.

(* ------------------------------------------------------------------ *)
(** ** The methods *)

(** A call of the client whose error is wrapped. *)
Definition call_wrapped {St A} (text : string) (f : St → (A + error) * St) : store_m St A := λ s,
  match f s with (inl a, s) => (Ret (inl a), s) | (inr e, s) => (Ret (inr (other_error (Wrapf text [] e))), s) end.

(** [GetSilencedPath]. *)
Definition GetSilencedPath (namespace name : bytes) : bytes := context_path silencedKeyBuilder namespace name.

Section Entries.
Context {St : Type} `{EtcdLeases St}.
Abbreviation store := (store_m St).

(** [proto.Marshal] and [unmarshal] of entries. *)
Context (Marshal_silenced : Silenced → outcome bytes) (unmarshal_silenced : bytes → outcome Silenced).

Definition DeleteSilencedEntryByName (namespace : bytes) (names : list bytes) : store () :=
  match names with
  | [] => mret ()
  | _ =>
      _ ← call_wrapped "error deleting silenced entries: %s"
            (lease_Txn [] (map (λ name, LeaseDelete (GetSilencedPath namespace name)) names));
      mret ()
  end.

(** [arraySilencedEntries]. *)
Fixpoint arraySilencedEntries (kvs : list lease_kv) : store (list Silenced) :=
  match kvs with
  | [] => mret []
  | kv :: kvs' =>
      ttl ← call (etcd_TimeToLive (kv_Lease kv));
      entry ← checked other_error (unmarshal_silenced (kv_Value kv));
      rest ← arraySilencedEntries kvs';
      mret (with_expire entry ttl :: rest)
  end.

(** [arrayTxnSilencedEntries]: the entries of one response, and of all. *)
Definition not_retrieved : string := "couldn't get silenced entries: %s".
Fixpoint response_entries (kvs : list lease_kv) : store (list Silenced) :=
  match kvs with
  | [] => mret []
  | kv :: kvs' =>
      ttl ← call_wrapped not_retrieved (etcd_TimeToLive (kv_Lease kv));
      entry ← checked (λ e, other_error (Wrapf not_retrieved [] e)) (unmarshal_silenced (kv_Value kv));
      rest ← response_entries kvs';
      mret (with_expire entry ttl :: rest)
  end.
Fixpoint arrayTxnSilencedEntries (responses : list lease_response) : store (list Silenced) :=
  match responses with
  | [] => mret []
  | range_answer kvs :: responses' =>
      entries ← response_entries kvs;
      rest ← arrayTxnSilencedEntries responses';
      mret (entries ++ rest)
  | other_answer :: _ => crash
  end.

Definition GetSilencedEntries (namespace : bytes) : store (list Silenced) :=
  resp ← call (lease_Get (GetSilencedPath namespace []) with_prefix);
  arraySilencedEntries resp.

Definition GetSilencedEntriesBySubscription (namespace : bytes) (subscriptions : list bytes) : store (list Silenced) :=
  match subscriptions with
  | [] => failing (other_error (Errorf "couldn't get silenced entries: must specify at least one subscription" []))
  | _ =>
      resp ← call_wrapped not_retrieved
        (lease_Txn [] (map (λ sub, LeaseGet (GetSilencedPath namespace sub) with_prefix) subscriptions));
      arrayTxnSilencedEntries (lt_Responses resp)
  end.

(** The loop of [GetSilencedEntriesByCheckName]. *)
Fixpoint entries_of_check (checkName : bytes) (kvs : list lease_kv) : store (list Silenced) :=
  match kvs with
  | [] => mret []
  | kv :: kvs' =>
      entry ← checked other_error (unmarshal_silenced (kv_Value kv));
      rest ← entries_of_check checkName kvs';
      mret (if bytes_equal (s_Check entry) checkName then entry :: rest else rest)
  end.
Definition GetSilencedEntriesByCheckName (namespace checkName : bytes) : store (list Silenced) :=
  if is_empty checkName then failing (other_error (Errorf "must specify check name" []))
  else
    resp ← call (lease_Get (GetSilencedPath namespace []) with_prefix);
    entries_of_check checkName resp.

Definition GetSilencedEntryByName (namespace name : bytes) : store (option Silenced) :=
  if is_empty name then failing (other_error (Errorf "must specify name" []))
  else
    resp ← call (lease_Get (GetSilencedPath namespace name) one_key);
    entries ← arraySilencedEntries resp;
    mret (head entries).

Definition GetSilencedEntriesByName (namespace : bytes) (names : list bytes) : store (list Silenced) :=
  match names with
  | [] => mret []
  | _ =>
      resp ← call_wrapped not_retrieved
        (lease_Txn [] (map (λ name, LeaseGet (GetSilencedPath namespace name) one_key) names));
      arrayTxnSilencedEntries (lt_Responses resp)
  end.

(** [UpdateSilencedEntry], at the time [currentTime]. *)
Definition UpdateSilencedEntry (namespace : bytes) (silenced : Silenced) (currentTime : Z) : store () :=
  _ ← checked other_error (of_error (Validate_silenced silenced));
  silencedBytes ← checked other_error (Marshal_silenced silenced);
  let cmp := key_there (getNamespacePath (Namespace (s_Meta silenced))) in
  let path := GetSilencedPath namespace (om_Name (s_Meta silenced)) in
  lease ← (if (0 <? s_Expire silenced)%Z then
             let timeDelta := i64 (s_Begin silenced - currentTime) in
             let expireTime := if (0 <? timeDelta)%Z then i64 (s_Expire silenced + timeDelta) else s_Expire silenced in
             id ← call (etcd_Grant expireTime); mret (Some id)
           else mret None);
  res ← call (lease_Txn [cmp] [LeasePut path silencedBytes lease]);
  if negb (lt_Succeeded res) then
    failing (other_error (Errorf "could not create the silenced entry %s in namespace %s"
      [om_Name (s_Meta silenced); Namespace (s_Meta silenced)]))
  else mret ().
End Entries.

(* ------------------------------------------------------------------ *)
(** ** Entities ([entity_store.go]) *)

Section Entities.
Context {St : Type} `{Etcd St} (Marshal_entity : Entity → outcome bytes) (unmarshal_entity : bytes → outcome Entity).
Abbreviation store := (store_m St).

(** [getEntityPath] and [GetEntitiesPath]. *)
Definition getEntityPath (e : Entity) : bytes := resource_path entityKeyBuilder (e_Meta e).
Definition GetEntitiesPath (namespace name : bytes) : bytes := context_path entityKeyBuilder namespace name.

Definition DeleteEntity (e : Entity) : store () :=
  _ ← checked other_error (of_error (Validate_entity e));
  _ ← call (etcd_Delete (getEntityPath e) one_key); mret ().
Definition DeleteEntityByName (namespace name : bytes) : store () :=
  if is_empty name then failing (other_error (Errorf "must specify name" []))
  else _ ← call (etcd_Delete (GetEntitiesPath namespace name) one_key); mret ().

Definition fill_entity (e : Entity) : Entity :=
  MkEntity (fill_meta (e_Meta e)) (EntityClass e) (e_Subscriptions e) (LastSeen e) (Deregister e) (Redact e).
Definition GetEntityByName (namespace name : bytes) : store (option Entity) :=
  if is_empty name then failing (other_error (Errorf "must specify name" []))
  else
    resp ← call (etcd_Get (MkGet (GetEntitiesPath namespace name) one_key 1 false));
    match Kvs resp with
    | [(_, v)] => entity ← checked other_error (unmarshal_entity v); mret (Some (fill_entity entity))
    | _ => mret None
    end.

Definition UpdateEntity (e : Entity) : store () :=
  _ ← checked other_error (of_error (Validate_entity e));
  eStr ← checked other_error (Marshal_entity e);
  res ← call (etcd_Txn [key_there (getNamespacePath (Namespace (e_Meta e)))] [OpPut (getEntityPath e) eStr] []);
  if negb (Succeeded res) then
    failing (other_error (Errorf "could not create the entity %s in namespace %s"
      [om_Name (e_Meta e); Namespace (e_Meta e)]))
  else mret ().
End Entities.

(* ------------------------------------------------------------------ *)
(** ** Calls that succeed *)

Lemma call_wrapped_inl {St A} text (f : St → (A + error) * St) s a s' :
  call_wrapped text f s = (Ret (inl a), s') → f s = (inl a, s').
Proof. unfold call_wrapped. destruct (f s) as [[?|?] ?]; try discriminate. by intros [= -> ->]. Qed.

(** Elements of lists that are related, and of a concatenation. *)
Lemma Forall2_elem_l {A B} (P : A → B → Prop) l k x : Forall2 P l k → x ∈ l → ∃ y, y ∈ k ∧ P x y.
Proof.
  intros HP [i Hi]%list_elem_of_lookup. destruct (Forall2_lookup_l _ _ _ _ _ HP Hi) as (y & Hy & HPxy).
  exists y. split; [by eapply list_elem_of_lookup_2|done].
Qed.
Lemma Forall2_elem_r {A B} (P : A → B → Prop) l k y : Forall2 P l k → y ∈ k → ∃ x, x ∈ l ∧ P x y.
Proof. intros HP%Forall2_flip Hy. by eapply Forall2_elem_l in HP. Qed.
Lemma elem_concat_map {A B} (f : A → list B) l y : y ∈ concat (map f l) ↔ ∃ x, x ∈ l ∧ y ∈ f x.
Proof.
  rewrite <- flat_map_concat_map, list_elem_of_In, in_flat_map. by setoid_rewrite list_elem_of_In.
Qed.

Section Facts.
Context {St : Type} `{EtcdLeaseLaws St}.
Context (Marshal_silenced : Silenced → outcome bytes) (unmarshal_silenced : bytes → outcome Silenced).

(** An entry read from a value, with some time left. *)
Definition read_as (kv : lease_kv) (x : Silenced) : Prop :=
  ∃ e ttl, unmarshal_silenced (kv_Value kv) = Ret e ∧ x = with_expire e ttl.

Lemma response_entries_inl kvs s l s' : response_entries unmarshal_silenced kvs s = (Ret (inl l), s') →
  leased s' = leased s ∧ Forall2 read_as kvs l.
Proof.
  revert s l s'. induction kvs as [|kv kvs IH]; intros s l s'; cbn [response_entries].
  - by intros [<- <-]%ret_inl.
  - intros (ttl & s1 & E1%call_wrapped_inl%time_to_live_law & (e & s2 & [E2 ->]%checked_inl
      & (rest & s3 & [E3 Hr]%IH & [<- <-]%ret_inl)%bind_inl)%bind_inl)%bind_inl.
    split; [congruence|]. constructor; [by exists e, ttl|done].
Qed.

Lemma arrayTxn_inl kvss s l s' :
  arrayTxnSilencedEntries unmarshal_silenced (map range_answer kvss) s = (Ret (inl l), s') →
  leased s' = leased s ∧ Forall2 read_as (concat kvss) l.
Proof.
  revert s l s'. induction kvss as [|kvs kvss IH]; intros s l s'; cbn [map arrayTxnSilencedEntries concat].
  - by intros [<- <-]%ret_inl.
  - intros (es & s1 & [E1 H1]%response_entries_inl & (rest & s2 & [E2 H2]%IH & [<- <-]%ret_inl)%bind_inl)%bind_inl.
    split; [congruence|by apply Forall2_app].
Qed.

Lemma entries_of_check_inl check kvs (s : St) l s' :
  entries_of_check unmarshal_silenced check kvs s = (Ret (inl l), s') →
  s' = s ∧ ∃ es, Forall2 (λ kv e, unmarshal_silenced (kv_Value kv) = Ret e) kvs es ∧
    l = List.filter (λ e, bytes_equal (s_Check e) check) es.
Proof.
  revert s l s'. induction kvs as [|kv kvs IH]; intros s l s'; cbn [entries_of_check].
  - intros [<- <-]%ret_inl. split; [done|]. by exists [].
  - intros (e & s1 & [E1 ->]%checked_inl & (rest & s2 & (-> & es & Hes & ->)%IH & [<- <-]%ret_inl)%bind_inl)%bind_inl.
    split; [done|]. exists (e :: es). split; [by constructor|]. cbn [List.filter]. by destruct (bytes_equal _ _).
Qed.

Lemma run_gets (m : leased_map) (end_ : range_end) keys :
  run_lease_ops m (map (λ k, LeaseGet k end_) keys) = (map range_answer (map (λ k, lease_range m k end_) keys), m).
Proof. induction keys as [|k keys IH]; [done|]. cbn [map run_lease_ops]. by rewrite IH. Qed.

Lemma run_deletes (m : leased_map) keys :
  (run_lease_ops m (map LeaseDelete keys)).2 = foldl (λ m k, delete k m) m keys.
Proof.
  revert m. induction keys as [|k keys IH]; intros m; [done|]. cbn [map run_lease_ops foldl].
  rewrite <- IH. by destruct (run_lease_ops _ _).
Qed.

Lemma lookup_deletes (m : leased_map) keys k :
  foldl (λ m k, delete k m) m keys !! k = if decide (k ∈ keys) then None else m !! k.
Proof.
  revert m. induction keys as [|x keys IH]; intros m; cbn [foldl]; [done|]. rewrite IH.
  destruct (decide (k ∈ keys)) as [Hk|Hk]; [by rewrite decide_True by (by right)|].
  destruct (decide (k = x)) as [->|Hne].
  - rewrite decide_True by (by left). apply lookup_delete_eq.
  - rewrite decide_False by (by intros [?|?]%elem_of_cons). by apply lookup_delete_ne.
Qed.

(** The keys of a range, with their values and leases. *)
Lemma elem_lease_range m key e kv : kv ∈ lease_range m key e ↔
  in_range_of key e (kv_Key kv) = true ∧ m !! kv_Key kv = Some (kv_Value kv, kv_Lease kv).
Proof.
  unfold lease_range. rewrite list_elem_of_In, in_map_iff. setoid_rewrite <- list_elem_of_In.
  setoid_rewrite elem_range_keys. unfold values. setoid_rewrite lookup_fmap. split.
  - intros (k & <- & Hr & Hk). destruct (m !! k) as [[v l]|] eqn:E; [|by destruct Hk]. cbn. by rewrite E.
  - intros [Hr Hk]. exists (kv_Key kv). rewrite Hk. cbn. split; [by destruct kv|]. split; [done|by eexists].
Qed.

(* ------------------------------------------------------------------ *)
(** ** The entries that are kept *)

Definition silenced_root : bytes := type_path silencedKeyBuilder ++ bs "/".

Lemma GetSilencedPath_plain ns name : plain_name ns → plain_name name →
  GetSilencedPath ns name = silenced_root ++ ns ++ slash :: name.
Proof.
  intros Hns Hn. unfold GetSilencedPath, silenced_root.
  change (context_path silencedKeyBuilder ns name) with (resource_path silencedKeyBuilder (MkMeta name ns None None)).
  rewrite resource_path_plain; [|by apply (bool_decide_unpack _)|done|done]. by rewrite <- !(assoc_L (++)).
Qed.

Lemma GetSilencedPath_all ns : plain_name ns → GetSilencedPath ns [] = silenced_root ++ ns ++ [slash].
Proof.
  intros Hns. unfold GetSilencedPath, silenced_root.
  rewrite context_path_all; [|by apply (bool_decide_unpack _)|done]. by rewrite <- !(assoc_L (++)).
Qed.

(** A key below the one of a namespace, or with more behind. *)
Lemma has_prefix_path ns ns' sub name : plain_name ns → plain_name ns' →
  has_prefix (silenced_root ++ ns' ++ slash :: name) (silenced_root ++ ns ++ slash :: sub) = true ↔
  ns' = ns ∧ has_prefix name sub = true.
Proof.
  intros Hns Hns'. rewrite !has_prefix_iff. split.
  - intros [r E]. rewrite <- !(assoc_L (++)) in E. apply (inj (app silenced_root)) in E.
    cbn [app] in E. apply sep_inj_l in E as [-> ->]; [|apply Hns'|apply Hns]. split; [done|by exists r].
  - intros [-> [r ->]]. exists r. rewrite <- !(assoc_L (++)). by cbn [app].
Qed.

Lemma path_inj ns name ns' name' : plain_name ns → plain_name ns' →
  silenced_root ++ ns ++ slash :: name = silenced_root ++ ns' ++ slash :: name' ↔ ns = ns' ∧ name = name'.
Proof.
  intros Hns Hns'. split; [|by intros [-> ->]]. intros E%(inj (app silenced_root)).
  apply sep_inj_l in E as [-> ->]; [done|apply Hns|apply Hns'].
Qed.
End Facts.

(* ------------------------------------------------------------------ *)
(** ** The store as eventd sees it *)

Section Implementation.
Context {St : Type} `{EtcdLeaseLaws St} (unmarshal_silenced : bytes → outcome Silenced).

(** What has been published. *)
Context (sent : St → list Event).

#[local] Instance etcd_silenced : SilencedEntries St := {|
  by_subscription := GetSilencedEntriesBySubscription unmarshal_silenced;
  by_check_name := GetSilencedEntriesByCheckName unmarshal_silenced;
  by_name := GetSilencedEntriesByName unmarshal_silenced;
  delete_by_name := DeleteSilencedEntryByName
|}.

(** The keys of entries hold the entries they name. *)
Definition entries_kept (m : leased_map) : Prop :=
  ∀ k v l, m !! k = Some (v, l) → has_prefix k silenced_root = true →
    ∃ ns name e, k = GetSilencedPath ns name ∧ plain_name ns ∧ plain_name name ∧
      unmarshal_silenced v = Ret e ∧ well_kept name e.
Definition entry_in (m : leased_map) (ns name : bytes) : option Silenced :=
  match m !! GetSilencedPath ns name with
  | Some (v, _) => match unmarshal_silenced v with Ret e => Some e | _ => None end
  | None => None
  end.

#[local] Instance etcd_view : BackendView St := {|
  store_ok s := entries_kept (leased s); entry_at s := entry_in (leased s); published := sent
|}.

(** The entries are below their root. *)
Lemma same_root (s s' : St) :
  (∀ k, has_prefix k silenced_root = true → values (leased s') !! k = values (leased s) !! k) → same_entries s s'.
Proof.
  unfold values. intros E. setoid_rewrite lookup_fmap in E. split.
  - intros Hok k v l Hk Hp. specialize (E k Hp). rewrite Hk in E.
    destruct (leased s !! k) as [[v' l']|] eqn:E'; [|done]. injection E as ->. by eapply Hok.
  - intros ns name Hns Hn. unfold entry_at, etcd_view, entry_in.
    assert (has_prefix (GetSilencedPath ns name) silenced_root = true) as Hp.
    { rewrite GetSilencedPath_plain by done. apply has_prefix_iff. by eexists. }
    specialize (E _ Hp). destruct (leased s' !! _) as [[v l]|], (leased s !! _) as [[v' l']|]; try done. by injection E as ->.
Qed.

Lemma same_leased (s s' : St) : leased s' = leased s → same_entries s s'.
Proof. intros E. apply same_root. by rewrite E. Qed.

(** A transaction that only reads. *)
Lemma read_txn_inl keys end_ s l s' :
  (resp ← call_wrapped not_retrieved (lease_Txn [] (map (λ k, LeaseGet k end_) keys));
   arrayTxnSilencedEntries unmarshal_silenced (lt_Responses resp)) s = (Ret (inl l), s') →
  leased s' = leased s ∧
  Forall2 (read_as unmarshal_silenced) (concat (map (λ k, lease_range (leased s) k end_) keys)) l.
Proof.
  intros (resp & s1 & E1%call_wrapped_inl & E2)%bind_inl. apply lease_txn_law in E1. unfold lease_txn_on_map in E1. cbn [forallb] in E1.
  rewrite run_gets in E1. injection E1 as -> E1. cbn [lt_Responses] in E2.
  apply arrayTxn_inl in E2 as [E2 Hl]. split; [congruence|done].
Qed.

(** A key of an entry, read. *)
Lemma entry_key m kv x : entries_kept m → m !! kv_Key kv = Some (kv_Value kv, kv_Lease kv) →
  has_prefix (kv_Key kv) silenced_root = true → read_as unmarshal_silenced kv x →
  ∃ ns name e ttl, plain_name ns ∧ plain_name name ∧ kv_Key kv = silenced_root ++ ns ++ slash :: name ∧
    entry_in m ns name = Some e ∧ x = with_expire e ttl.
Proof.
  intros Hok Hkv Hp (e & ttl & He & ->). destruct (Hok _ _ _ Hkv Hp) as (ns & name & e' & Hk & Hns & Hn & He' & _).
  exists ns, name, e, ttl. split_and!; [done|done|by rewrite Hk, GetSilencedPath_plain| |done].
  unfold entry_in. rewrite <- Hk, Hkv, He. done.
Qed.

Lemma in_entry m ns name e : entry_in m ns name = Some e → ∃ kv,
  kv_Key kv = GetSilencedPath ns name ∧ m !! kv_Key kv = Some (kv_Value kv, kv_Lease kv) ∧
  unmarshal_silenced (kv_Value kv) = Ret e.
Proof.
  unfold entry_in. destruct (m !! _) as [[v l]|] eqn:E; [|done]. destruct (unmarshal_silenced v) eqn:Ev; try done.
  intros [= ->]. by exists (MkLeaseKv (GetSilencedPath ns name) v l).
Qed.

Lemma root_prefix x : has_prefix (silenced_root ++ x) silenced_root = true.
Proof. apply has_prefix_iff. by exists x. Qed.

Lemma etcd_by_subscription ns subs s l s' : store_ok s → plain_name ns → Forall plain_name subs →
  by_subscription ns subs s = (Ret (inl l), s') →
  same_entries s s' ∧
  (∀ x, x ∈ l → ∃ name e ttl, plain_name name ∧ entry_at s ns name = Some e ∧ x = with_expire e ttl) ∧
  (∀ sub name e, sub ∈ subs → plain_name name → has_prefix name sub = true → entry_at s ns name = Some e →
     ∃ ttl, with_expire e ttl ∈ l).
Proof.
  intros Hok Hns Hsubs E. cbn [by_subscription etcd_silenced] in E. unfold GetSilencedEntriesBySubscription in E.
  destruct subs as [|sub0 subs0] eqn:Es; [discriminate|]. rewrite <- Es in *. clear Es.
  rewrite <- (map_map (GetSilencedPath ns) (λ k, LeaseGet k with_prefix)) in E.
  apply read_txn_inl in E as (E1 & Hl). split_and!; [by apply same_leased| |].
  - intros x Hx. destruct (Forall2_elem_r _ _ _ _ Hl Hx) as (kv & Hkv & Hr).
    apply elem_concat_map in Hkv as (k & (sub & -> & Hsub)%list_elem_of_fmap & [Hp Hkv]%elem_lease_range).
    rewrite Forall_forall in Hsubs. apply Hsubs in Hsub. cbn [in_range_of] in Hp. rewrite GetSilencedPath_plain in Hp by done.
    destruct (entry_key _ _ x Hok Hkv) as (ns' & name & e & ttl & Hns' & Hn & Hk & He & ->); [|done|].
    + apply has_prefix_iff in Hp as [r ->]. rewrite <- (assoc_L (++)). apply root_prefix.
    + rewrite Hk in Hp. apply has_prefix_path in Hp as [-> _]; [|done..]. by exists name, e, ttl.
  - intros sub name e Hsub Hn Hp He. rewrite Forall_forall in Hsubs. apply Hsubs in Hsub as Hps.
    apply in_entry in He as (kv & Hk & Hkv & Hv).
    destruct (Forall2_elem_l _ _ _ kv Hl) as (x & Hx & e' & ttl & He' & ->).
    + apply elem_concat_map. exists (GetSilencedPath ns sub). split; [by apply list_elem_of_fmap_2|].
      apply elem_lease_range. split; [|done]. cbn [in_range_of]. rewrite Hk, !GetSilencedPath_plain by done.
      by apply has_prefix_path.
    + exists ttl. congruence.
Qed.

Lemma etcd_by_check_name ns check s l s' : store_ok s → plain_name ns →
  by_check_name ns check s = (Ret (inl l), s') →
  same_entries s s' ∧
  (∀ x, x ∈ l ↔ ∃ name, plain_name name ∧ entry_at s ns name = Some x ∧ s_Check x = check).
Proof.
  intros Hok Hns E. cbn [by_check_name etcd_silenced] in E. unfold GetSilencedEntriesByCheckName in E.
  destruct (is_empty check); [discriminate|]. apply bind_inl in E as (kvs & s1 & E1%call_inl_inv & E2).
  apply entries_of_check_inl in E2 as (-> & es & Hes & ->). apply lease_get_law in E1 as [-> E1].
  split; [by apply same_leased|].
  intros x. rewrite list_elem_of_In, filter_In, <- list_elem_of_In, bytes_equal_true. split.
  - intros [Hx <-]. destruct (Forall2_elem_r _ _ _ _ Hes Hx) as (kv & [Hp Hkv]%elem_lease_range & Hr).
    cbn [in_range_of] in Hp. rewrite GetSilencedPath_all in Hp by done.
    assert (has_prefix (kv_Key kv) silenced_root = true) as Hroot.
    { apply has_prefix_iff in Hp as [r ->]. rewrite <- (assoc_L (++)). apply root_prefix. }
    destruct (Hok _ _ _ Hkv Hroot) as (ns' & name & e & Hk & Hns' & Hn & He & _). assert (e = x) as -> by congruence.
    rewrite Hk, GetSilencedPath_plain in Hp by done. apply (has_prefix_path ns ns' [] name) in Hp as [-> _]; [|done..].
    exists name. split_and!; [done| |done]. unfold entry_at, etcd_view, entry_in. by rewrite <- Hk, Hkv, He.
  - intros (name & Hn & He & Hc). split; [|done]. apply in_entry in He as (kv & Hk & Hkv & Hv).
    destruct (Forall2_elem_l _ _ _ kv Hes) as (x' & Hx & He').
    + apply elem_lease_range. split; [|done]. cbn [in_range_of].
      rewrite Hk, GetSilencedPath_plain, GetSilencedPath_all by done. by apply (has_prefix_path ns ns [] name).
    + congruence.
Qed.
Lemma lease_range_one m k :
  lease_range m k one_key = match m !! k with Some (v, l) => [MkLeaseKv k v l] | None => [] end.
Proof.
  unfold lease_range. rewrite range_keys_one. unfold there, values. rewrite lookup_fmap.
  destruct (m !! k) as [[v l]|] eqn:E; [|done]. cbn. by rewrite E.
Qed.

(** The value of an entry's key, decoded. *)
Lemma kept_entry m ns name v l : entries_kept m → plain_name ns → plain_name name →
  m !! GetSilencedPath ns name = Some (v, l) →
  ∃ e, unmarshal_silenced v = Ret e ∧ entry_in m ns name = Some e ∧ well_kept name e.
Proof.
  intros Hok Hns Hn Hv. assert (has_prefix (GetSilencedPath ns name) silenced_root = true) as Hp
    by (rewrite GetSilencedPath_plain by done; apply root_prefix).
  destruct (Hok _ _ _ Hv Hp) as (ns' & name' & e & Hk & Hns' & Hn' & He & Hw). exists e.
  rewrite !GetSilencedPath_plain in Hk by done. apply path_inj in Hk as [-> ->]; [|done..].
  split_and!; [done| |done]. unfold entry_in. by rewrite Hv, He.
Qed.

Lemma etcd_entry_kept s ns name e : store_ok s → plain_name ns → plain_name name →
  entry_at s ns name = Some e → well_kept name e.
Proof.
  intros Hok Hns Hn He. unfold entry_at, etcd_view in He. pose proof He as He'. unfold entry_in in He.
  destruct (leased s !! _) as [[v l]|] eqn:Ev; [|done]. destruct (kept_entry _ _ _ _ _ Hok Hns Hn Ev) as (e' & _ & E & Hw).
  congruence.
Qed.

Lemma read_names m ns names l : entries_kept m → plain_name ns → Forall plain_name names →
  Forall2 (read_as unmarshal_silenced) (concat (map (λ k, lease_range m k one_key) (map (GetSilencedPath ns) names))) l →
  map (λ x, om_Name (s_Meta x)) l =
    List.filter (λ n, match entry_in m ns n with Some _ => true | None => false end) names ∧
  (∀ x, x ∈ l → ∃ e ttl, entry_in m ns (om_Name (s_Meta x)) = Some e ∧ x = with_expire e ttl).
Proof.
  intros Hok Hns Hn. revert l. induction Hn as [|name names Hn _ IH]; intros l; cbn [map concat List.filter].
  - intros ->%Forall2_nil_inv_l. split; [done|]. by intros x ?%elem_of_nil.
  - rewrite lease_range_one. destruct (m !! GetSilencedPath ns name) as [[v z]|] eqn:E.
    + destruct (kept_entry _ _ _ _ _ Hok Hns Hn E) as (e & Hv & He & Hw). rewrite He. cbn [app].
      intros (x & l' & (e' & ttl & He' & ->) & Hl & ->)%Forall2_cons_inv_l. cbn [kv_Value] in He'.
      assert (e' = e) as -> by congruence. destruct (IH _ Hl) as [I1 I2].
      assert (om_Name (s_Meta (with_expire e ttl)) = name) as Hname by apply Hw.
      split; [cbn [map]; by rewrite I1, Hname|]. intros x [->|Hx]%elem_of_cons; [|by apply I2].
      exists e, ttl. by rewrite Hname.
    + unfold entry_in at 1. rewrite E. cbn [app]. intros Hl. by apply IH.
Qed.

Lemma etcd_by_name ns names s l s' : store_ok s → plain_name ns → Forall plain_name names →
  by_name ns names s = (Ret (inl l), s') →
  same_entries s s' ∧
  map (λ x, om_Name (s_Meta x)) l = List.filter (present s ns) names ∧
  (∀ x, x ∈ l → ∃ e ttl, entry_at s ns (om_Name (s_Meta x)) = Some e ∧ x = with_expire e ttl).
Proof.
  intros Hok Hns Hn E. cbn [by_name etcd_silenced] in E. unfold GetSilencedEntriesByName in E.
  destruct names as [|name0 names0] eqn:Es.
  { apply ret_inl in E as [<- <-]. split_and!; try done. by intros x ?%elem_of_nil. }
  rewrite <- Es in *. clear Es. rewrite <- (map_map (GetSilencedPath ns) (λ k, LeaseGet k one_key)) in E.
  apply read_txn_inl in E as (E1 & Hl). split; [by apply same_leased|]. by apply read_names.
Qed.

Lemma etcd_delete_by_name ns names s s' : store_ok s → plain_name ns → Forall plain_name names →
  delete_by_name ns names s = (Ret (inl ()), s') →
  store_ok s' ∧
  ∀ ns' name, plain_name ns' → plain_name name →
    entry_at s' ns' name = if decide (ns' = ns ∧ name ∈ names) then None else entry_at s ns' name.
Proof.
  intros Hok Hns Hnames E. cbn [delete_by_name etcd_silenced] in E. unfold DeleteSilencedEntryByName in E.
  assert (leased s' = foldl (λ m k, delete k m) (leased s) (map (GetSilencedPath ns) names)) as El.
  { destruct names as [|name0 names0] eqn:Es; [by apply ret_inl in E as [_ <-]|]. rewrite <- Es in *. clear Es.
    rewrite <- (map_map (GetSilencedPath ns) LeaseDelete) in E.
    apply bind_inl in E as (r & s1 & E1%call_wrapped_inl & [_ <-]%ret_inl).
    apply lease_txn_law in E1. unfold lease_txn_on_map in E1. cbn [forallb] in E1.
    pose proof (run_deletes (leased s) (map (GetSilencedPath ns) names)) as Hd.
    destruct (run_lease_ops _ _). injection E1 as _ ->. done. }
  split.
  - intros k v l Hk Hp. rewrite El, lookup_deletes in Hk. destruct (decide _); [done|]. by apply (Hok k v l).
  - intros ns' name Hns' Hn. unfold entry_at, etcd_view, entry_in. rewrite El, lookup_deletes.
    rewrite Forall_forall in Hnames.
    destruct (decide (ns' = ns ∧ name ∈ names)) as [[-> Hin]|Hout].
    + by rewrite decide_True by (by apply list_elem_of_fmap_2).
    + rewrite decide_False; [done|]. intros (name' & E' & Hin)%list_elem_of_fmap. apply Hout.
      rewrite !GetSilencedPath_plain in E' by auto. apply path_inj in E' as [-> ->]; [done|done|done].
Qed.

#[local] Instance etcd_silenced_laws : SilencedLaws St := {|
  entry_kept := etcd_entry_kept; by_subscription_law := etcd_by_subscription;
  by_check_name_law := etcd_by_check_name; by_name_law := etcd_by_name; delete_by_name_law := etcd_delete_by_name
|}.

(** Writing an entry. *)
Context (Marshal_silenced : Silenced → outcome bytes)
  (codec : ∀ e b, Marshal_silenced e = Ret b → unmarshal_silenced b = Ret e).

Lemma UpdateSilencedEntry_inl ns e now s s' :
  UpdateSilencedEntry Marshal_silenced ns e now s = (Ret (inl ()), s') →
  ∃ b l, Marshal_silenced e = Ret b ∧ Validate_silenced e = None ∧
    leased s' = <[GetSilencedPath ns (om_Name (s_Meta e)) := (b, l)]> (leased s) ∧
    is_Some (leased s !! getNamespacePath (Namespace (s_Meta e))).
Proof.
  unfold UpdateSilencedEntry.
  intros ([] & s1 & [Hv ->]%checked_inl & (b & s2 & [Hb ->]%checked_inl & (l & s3 & El & (r & s4 & Et%call_inl_inv & E)%bind_inl)%bind_inl)%bind_inl)%bind_inl.
  apply of_error_Ret in Hv.
  assert (leased s3 = leased s) as E3.
  { destruct (0 <? s_Expire e)%Z; [|by apply ret_inl in El as [_ <-]].
    apply bind_inl in El as (id & s5 & Eg%call_inl_inv%grant_law & [_ <-]%ret_inl). exact Eg. }
  apply lease_txn_law in Et. unfold lease_txn_on_map in Et. cbn [forallb holds run_lease_ops] in Et.
  rewrite E3, andb_true_r in Et. unfold values in Et. rewrite lookup_fmap in Et.
  destruct (leased s !! getNamespacePath _) as [x|] eqn:En; cbn [fmap option_fmap option_map] in Et.
  - injection Et as -> Et. cbn [lt_Succeeded negb] in E. apply ret_inl in E as [_ <-].
    exists b, (default 0%Z l). split_and!; [done|done|done|by eexists].
  - injection Et as -> Et. discriminate E.
Qed.

(** An entry written is kept under its name, the others as they were. *)
Lemma etcd_update ns e now s s' : store_ok s → plain_name ns → plain_name (om_Name (s_Meta e)) →
  SilencedName (s_Subscription e) (s_Check e) = Ret (om_Name (s_Meta e)) →
  UpdateSilencedEntry Marshal_silenced ns e now s = (Ret (inl ()), s') →
  store_ok s' ∧ ∀ ns' name, plain_name ns' → plain_name name →
    entry_at s' ns' name = if decide (ns' = ns ∧ name = om_Name (s_Meta e)) then Some e else entry_at s ns' name.
Proof.
  intros Hok Hns Hn Hparts (b & l & Hb & Hv & El & _)%UpdateSilencedEntry_inl. apply codec in Hb. split.
  - intros k v z Hk Hp. rewrite El in Hk. apply lookup_insert_Some in Hk as [[<- [= <- <-]]|[_ Hk]]; [|by eapply Hok].
    exists ns, (om_Name (s_Meta e)), e. by split_and!.
  - intros ns' name Hns' Hname. unfold entry_at, etcd_view, entry_in. rewrite El.
    destruct (decide (ns' = ns ∧ name = om_Name (s_Meta e))) as [[-> ->]|Hne]; [by rewrite lookup_insert_eq, Hb|].
    rewrite lookup_insert_ne; [done|]. rewrite !GetSilencedPath_plain by done. intros E%path_inj; [|done..].
    destruct E. by apply Hne.
Qed.
End Implementation.
