(* ===== verification/Liveness.v ===== *)
(** * Switches ([backend/liveness/liveness.go])

    A switch is a key of etcd with a lease: while somebody keeps it alive it
    stays, and when its lease runs out every backend that watches the keys
    sees it deleted. The one whose transaction puts the key back is told that
    it leads. *)

From S2P Require Import Prelude GoStd GoStdFacts GoNet TimeWindow Sensu StoreKeys EtcdClient EtcdStore EtcdStoreFacts EventStoreGuarantees Eventd SilencedStore.

(* ------------------------------------------------------------------ *)
(** ** Events of a watch *)

(** [clientv3.Event], with the value before ([WithPrevKV]); the value of a
    deleted key is empty. *)
Inductive event_type := PUT | DELETE.
Record watch_event := MkWatch { we_Type : event_type; we_Key : bytes; we_Value : bytes; we_Prev : option bytes }.

(** [State]. *)
Inductive State := Alive | Dead.
Definition SwitchPrefix : bytes := bs "/sensu.io/switchsets".
Definition FallbackTTL : Z := 5.
Definition buried : bytes := bs "buried".

Definition isBuried (event : watch_event) : bool :=
  if negb (is_empty (we_Value event)) then bytes_equal (we_Value event) buried
  else match we_Prev event with Some v => bytes_equal v buried | None => false end.

(** [fmt.Sscanf(text, "%d", &n)] into an [int64] that is zero: blanks, a
    sign, digits; the number stays zero when they are not there. *)
Definition scan_blank (c : ascii) : bool :=
  let n := N_of_ascii c in (n =? 9)%N || ((11 <=? n) && (n <=? 13))%N || (n =? 32)%N.
Fixpoint skip_blanks (s : bytes) : bytes :=
  match s with c :: s' => if scan_blank c then skip_blanks s' else s | [] => [] end.
Fixpoint span_digits (s : bytes) : bytes :=
  match s with c :: s' => if is_digit c then c :: span_digits s' else [] | [] => [] end.
Definition sscan_int (text : bytes) : Z :=
  let s := skip_blanks text in
  let token := match s with
               | c :: s' => if (c =c "+") || (c =c "-") then c :: span_digits s' else span_digits s
               | [] => []
               end in
  match parse_int token with Ret n => n | _ => 0%Z end.

(** A previous value that is there and not empty. *)
Definition previous (event : watch_event) : option bytes :=
  match we_Prev event with Some (c :: v) => Some (c :: v) | _ => None end.

Definition getTTLFromEvent (event : watch_event) : Z * State :=
  let prev := match previous event with Some v => sscan_int v | None => 0%Z end in
  let prevState := if (0 <? prev)%Z then Alive else Dead in
  if negb (is_empty (we_Value event)) then (sscan_int (we_Value event), prevState)
  else match previous event with
       | Some v => (sscan_int v, prevState)
       | None => ((- FallbackTTL)%Z, prevState)
       end.

(** A call of the client whose error is only logged. *)
Definition attempted {St A} (f : St → (A + error) * St) : store_m St (A + error) := λ s,
  let '(r, s) := f s in (Ret (inl r), s).

(* ------------------------------------------------------------------ *)
(** ** A set of switches *)

(** [strings.TrimPrefix]. *)
Definition trim_prefix (s p : bytes) : bytes := if has_prefix s p then drop (length p) s else s.

(** The function that is queued for an event: [notifyDead] or [notifyAlive],
    with the key that it is about and its arguments. *)
Inductive notice :=
| notifyDead (key id : bytes) (prev : State) (leader : bool)
| notifyAlive (key id : bytes) (prev : State).
Definition notice_key (n : notice) : bytes :=
  match n with notifyDead key _ _ _ => key | notifyAlive key _ _ => key end.
Definition leads (n : notice) : bool := match n with notifyDead _ _ _ leader => leader | notifyAlive _ _ _ => false end.

Definition MaxInt64 : Z := 9223372036854775807.

Section SwitchSet.
Context {St : Type} `{Etcd St} `{EtcdLeases St}.
Abbreviation store := (store_m St).

(** The prefix of the set, [path.Join(SwitchPrefix, name)]. *)
Context (prefix : bytes).

Definition ping (id : bytes) (ttl : Z) (alive : bool) : store () :=
  if (ttl <? FallbackTTL)%Z then
    failing (other_error (Errorf "bad ttl: %d is less than the minimum value of %d" [format_int ttl; format_int FallbackTTL]))
  else
    let putVal := if alive then ttl else (- ttl)%Z in
    let key := path_Join [prefix; id] in
    let val := format_int putVal in
    lease ← call (etcd_Grant ttl);
    call (lease_Put key val lease).
(** The methods [Alive] and [Dead]. *)
Definition SwitchSet_Alive (id : bytes) (ttl : Z) : store () := ping id ttl true.
Definition SwitchSet_Dead (id : bytes) (ttl : Z) : store () := ping id ttl false.

Definition not_buried : string := "error burying switch: %s".
Definition bury_put (id : bytes) : store () := call_wrapped not_buried (etcd_Put (path_Join [prefix; id]) buried).
Definition bury_delete (id : bytes) : store () :=
  _ ← call_wrapped not_buried (etcd_Delete (path_Join [prefix; id]) one_key); mret ().
Definition Bury (id : bytes) : store () := _ ← bury_put id; bury_delete id.

(** [handleEvent]: the functions it queues, none when the client fails. *)
Definition switch_id (key : bytes) : bytes := trim_prefix key (prefix ++ bs "/").
Definition handleEvent (event : watch_event) : store (list notice) :=
  if isBuried event then mret []
  else
    let '(ttl, prevState) := getTTLFromEvent event in
    let key := we_Key event in
    match we_Type event with
    | DELETE =>
        let leaseTTL := if (ttl <? 0)%Z then i64 (- ttl) else ttl in
        let ttl := if (ttl <? 0)%Z then ttl else (- ttl)%Z in
        granted ← attempted (etcd_Grant leaseTTL);
        match granted with
        | inr _ => mret []
        | inl lease =>
            resp ← attempted (lease_Txn [key_absent key] [LeasePut key (format_int ttl) (Some lease)]);
            match resp with
            | inr _ => mret []
            | inl resp => mret [notifyDead key (switch_id key) prevState (lt_Succeeded resp)]
            end
        end
    | PUT =>
        if (ttl =? 0)%Z then mret []
        else if (0 <? ttl)%Z && negb (ttl =? MaxInt64)%Z then mret [notifyAlive key (switch_id key) prevState]
        else mret []
    end.

(** The function of the queue that [monitor] takes next: the callbacks tell
    whether to bury the switch, and an error of that is only logged. *)
Context (notify_dead : bytes → State → bool → store bool) (notify_alive : bytes → State → bool → store bool).
Definition notify (n : notice) : store () :=
  bury ← match n with
         | notifyDead _ id prev leader => notify_dead id prev leader
         | notifyAlive _ id prev => notify_alive id prev false
         end;
  if (bury : bool) then _ ← tried (Bury (switch_id (notice_key n))); mret () else mret ().
End SwitchSet.

(* ------------------------------------------------------------------ *)
(** ** Backends that watch the switches *)

(** The keys of etcd, and what has happened to them, in order. *)
Record world := MkWorld { w_keys : gmap bytes bytes; w_log : list watch_event }.

Definition put_key (k v : bytes) (w : world) : world :=
  MkWorld (<[k := v]> (w_keys w)) (w_log w ++ [MkWatch PUT k v (w_keys w !! k)]).
Definition delete_key (k : bytes) (w : world) : world :=
  match w_keys w !! k with
  | Some v => MkWorld (delete k (w_keys w)) (w_log w ++ [MkWatch DELETE k [] (Some v)])
  | None => w
  end.

(** The operations of a transaction, in turn; reads answer without leases. *)
Fixpoint run_world (ops : list lease_op) (w : world) : list lease_response * world :=
  match ops with
  | [] => ([], w)
  | LeaseGet k e :: ops' =>
      let '(rs, w') := run_world ops' w in
      (range_answer (map (λ k, MkLeaseKv k (default [] (w_keys w !! k)) 0) (range_keys (w_keys w) k e)) :: rs, w')
  | LeasePut k v _ :: ops' => let '(rs, w') := run_world ops' (put_key k v w) in (other_answer :: rs, w')
  | LeaseDelete k :: ops' => let '(rs, w') := run_world ops' (delete_key k w) in (other_answer :: rs, w')
  end.

(** A client that does not fail. *)
#[export] Instance world_leases : EtcdLeases world := {|
  lease_Txn c ops w :=
    if forallb (holds (w_keys w)) c then let '(rs, w) := run_world ops w in (inl (MkLeaseTxn true rs), w)
    else (inl (MkLeaseTxn false []), w);
  lease_Get k e w := (inl (map (λ k, MkLeaseKv k (default [] (w_keys w !! k)) 0) (range_keys (w_keys w) k e)), w);
  lease_Put k v _ w := (inl (), put_key k v w);
  etcd_Grant ttl w := (inl 1%Z, w);
  etcd_TimeToLive l w := (inl (-1)%Z, w)
|}.
#[export] Instance world_etcd : Etcd world := {|
  etcd_Txn c t e w := let '(r, m) := txn_on_map (w_keys w) c t e in (inl r, MkWorld m (w_log w));
  etcd_Get r w := (inl (range_of_map (w_keys w) r), w);
  etcd_Put k v w := (inl (), put_key k v w);
  etcd_Delete k e w :=
    let keys := range_keys (w_keys w) k e in
    (inl (Z.of_nat (length keys)), fold_left (λ w k, delete_key k w) keys w);
  GetPrefixRangeEnd := prefix_end
|}.

(** Some backends, each at a place of the log, and what they were told; the
    switches that are put and not yet deleted by [Bury]. *)
Record system := MkSystem {
  sy_world : world; cursors : list nat; told : list (nat * notice); burying : list bytes
}.
Definition started (backends : nat) : system := MkSystem (MkWorld ∅ []) (replicate backends 0) [] [].

Section Steps.
Context (prefix : bytes).

(** A step: somebody asserts that a switch is alive or dead, or buries it in
    two steps; the lease of a key that [expires] runs out; a backend handles
    the next event, or, when it is [faulty], loses it to an error of the
    client or of the watch. *)
Inductive switch_step (expires : bytes → Prop) (faulty : nat → Prop) (s : system) : system → Prop :=
| step_ping id ttl alive w :
    ping prefix id ttl alive (sy_world s) = (Ret (inl ()), w) →
    switch_step expires faulty s (MkSystem w (cursors s) (told s) (burying s))
| step_expire k v :
    w_keys (sy_world s) !! k = Some v → v ≠ buried → expires k →
    switch_step expires faulty s (MkSystem (delete_key k (sy_world s)) (cursors s) (told s) (burying s))
| step_bury_put id w :
    bury_put prefix id (sy_world s) = (Ret (inl ()), w) →
    switch_step expires faulty s (MkSystem w (cursors s) (told s) (id :: burying s))
| step_bury_delete id before after w :
    burying s = before ++ id :: after → bury_delete prefix id (sy_world s) = (Ret (inl ()), w) →
    switch_step expires faulty s (MkSystem w (cursors s) (told s) (before ++ after))
| step_handle i c event notices w :
    cursors s !! i = Some c → w_log (sy_world s) !! c = Some event →
    handleEvent prefix event (sy_world s) = (Ret (inl notices), w) →
    switch_step expires faulty s (MkSystem w (<[i := S c]> (cursors s)) (told s ++ map (pair i) notices) (burying s))
| step_lose i c :
    faulty i → cursors s !! i = Some c → c < length (w_log (sy_world s)) →
    switch_step expires faulty s (MkSystem (sy_world s) (<[i := S c]> (cursors s)) (told s) (burying s)).

Definition reaches (expires : bytes → Prop) (faulty : nat → Prop) (backends : nat) (s : system) : Prop :=
  rtc (switch_step expires faulty) (started backends) s.
End Steps.

(** The last event of a key, the expiries of a key, and how often somebody
    was told to lead for it. *)
Definition of_key (k : bytes) (event : watch_event) : bool := bytes_equal (we_Key event) k.
Definition last_event (k : bytes) (log : list watch_event) : option watch_event := last (List.filter (of_key k) log).
Definition is_delete (event : watch_event) : bool := match we_Type event with DELETE => true | PUT => false end.
Definition expiries (k : bytes) (log : list watch_event) : nat :=
  length (List.filter (λ e, of_key k e && is_delete e) log).
Definition leaders (k : bytes) (told : list (nat * notice)) : nat :=
  length (List.filter (λ t, bytes_equal (notice_key t.2) k && leads t.2) told).

(* ------------------------------------------------------------------ *)
(** ** Facts of the log *)

Lemma filter_snoc {A} (p : A → bool) l x : List.filter p (l ++ [x]) = List.filter p l ++ (if p x then [x] else []).
Proof. rewrite List.filter_app. cbn. by destruct (p x). Qed.

Lemma last_event_snoc k log e : last_event k (log ++ [e]) = if of_key k e then Some e else last_event k log.
Proof. unfold last_event. rewrite filter_snoc. destruct (of_key k e); [by rewrite last_snoc|by rewrite app_nil_r]. Qed.

Lemma expiries_snoc k log e :
  expiries k (log ++ [e]) = expiries k log + (if of_key k e && is_delete e then 1 else 0).
Proof. unfold expiries. rewrite filter_snoc, length_app. by destruct (of_key k e && is_delete e). Qed.

Lemma leaders_app k l m : leaders k (l ++ m) = leaders k l + leaders k m.
Proof. unfold leaders. by rewrite List.filter_app, length_app. Qed.

Lemma of_key_spec k e : of_key k e = true ↔ we_Key e = k.
Proof. apply bytes_equal_true. Qed.
Lemma of_key_other k e : we_Key e ≠ k → of_key k e = false.
Proof. apply bytes_equal_false. Qed.

(** Everything of a key that a backend at [c] has handled. *)
Definition caught_up (c : nat) (k : bytes) (log : list watch_event) : Prop :=
  List.filter (of_key k) (drop c log) = [].

Lemma caught_up_snoc c k log e : c ≤ length log →
  caught_up c k (log ++ [e]) ↔ caught_up c k log ∧ of_key k e = false.
Proof.
  intros Hc. unfold caught_up. rewrite drop_app_le, filter_snoc by done. destruct (of_key k e).
  - split; [intros H; by apply app_eq_nil in H as [_ ?]|by intros [_ ?]].
  - rewrite app_nil_r. naive_solver.
Qed.

Lemma caught_up_next c k log e : log !! c = Some e → caught_up (S c) k log →
  caught_up c k log ∧ we_Key e ≠ k ∨ we_Key e = k ∧ last_event k log = Some e.
Proof.
  intros He Hk. destruct (decide (we_Key e = k)) as [E|E].
  - right. split; [done|]. unfold last_event. rewrite <- (take_drop_middle log c e) by done.
    rewrite List.filter_app. cbn [List.filter]. rewrite (proj2 (of_key_spec k e)) by done.
    unfold caught_up in Hk. rewrite Hk. apply last_snoc.
  - left. split; [|done]. unfold caught_up. rewrite (drop_S log e c) by done. cbn [List.filter]. by rewrite of_key_other.
Qed.

(* ------------------------------------------------------------------ *)
(** ** What holds of every system that is reached *)

Definition shows (keys : gmap bytes bytes) (k : bytes) (e : option watch_event) : Prop :=
  match e with
  | Some e => if is_delete e then keys !! k = None else keys !! k = Some (we_Value e)
  | None => keys !! k = None
  end.

Section Invariant.
Context (faulty : nat → Prop).
Record system_ok (s : system) : Prop := {
  ok_cursors : Forall (λ c, c ≤ length (w_log (sy_world s))) (cursors s);
  ok_keys k : shows (w_keys (sy_world s)) k (last_event k (w_log (sy_world s)));
  ok_armed i c k e : ¬ faulty i → cursors s !! i = Some c → caught_up c k (w_log (sy_world s)) →
    last_event k (w_log (sy_world s)) = Some e → is_delete e = true → isBuried e = true;
  ok_leaders k : leaders k (told s) ≤ expiries k (w_log (sy_world s)) ∧
    (w_keys (sy_world s) !! k = None →
       expiries k (w_log (sy_world s)) = 0 ∨ leaders k (told s) < expiries k (w_log (sy_world s)))
}.

Lemma ok_started n : system_ok (started n).
Proof.
  split; cbn [sy_world started w_log w_keys cursors told].
  - apply Forall_replicate. cbn. lia.
  - intros k. apply lookup_empty.
  - intros i c k e _ _ _ He. done.
  - intros k. split; [cbn; lia|by left].
Qed.

(** Putting or deleting a key, whatever the notices of before. *)
Lemma ok_put k v s b : system_ok s → system_ok (MkSystem (put_key k v (sy_world s)) (cursors s) (told s) b).
Proof.
  intros [Hc Hk Ha Hl]. split; cbn [sy_world cursors told put_key w_keys w_log].
  - eapply Forall_impl; [exact Hc|]. intros c. rewrite length_app. cbn. lia.
  - intros k'. rewrite last_event_snoc. destruct (of_key k' _) eqn:E.
    + apply of_key_spec in E as <-. cbn. apply lookup_insert_eq.
    + assert (k ≠ k') by (intros ->; by rewrite (proj2 (of_key_spec k' _)) in E).
      specialize (Hk k'). unfold shows in *. by rewrite lookup_insert_ne.
  - intros i c k' e Hi Hci Hup. rewrite Forall_lookup in Hc. apply caught_up_snoc in Hup as [Hup E]; [|by eapply Hc].
    rewrite last_event_snoc, E. by eapply Ha.
  - intros k'. rewrite expiries_snoc. cbn [is_delete we_Type]. rewrite andb_false_r, Nat.add_0_r.
    destruct (Hl k') as [H1 H2]. split; [done|]. intros [? ?]%lookup_insert_None. auto.
Qed.

Lemma ok_delete k s b : system_ok s → system_ok (MkSystem (delete_key k (sy_world s)) (cursors s) (told s) b).
Proof.
  intros [Hc Hk Ha Hl]. unfold delete_key. destruct (w_keys (sy_world s) !! k) as [v|] eqn:Ev; [|by split].
  split; cbn [sy_world cursors told w_keys w_log].
  - eapply Forall_impl; [exact Hc|]. intros c. rewrite length_app. cbn. lia.
  - intros k'. rewrite last_event_snoc. destruct (of_key k' _) eqn:E.
    + apply of_key_spec in E as <-. cbn. apply lookup_delete_eq.
    + assert (k ≠ k') by (intros ->; by rewrite (proj2 (of_key_spec k' _)) in E).
      specialize (Hk k'). unfold shows in *. by rewrite lookup_delete_ne.
  - intros i c k' e Hi Hci Hup. rewrite Forall_lookup in Hc. apply caught_up_snoc in Hup as [Hup E]; [|by eapply Hc].
    rewrite last_event_snoc, E. by eapply Ha.
  - intros k'. rewrite expiries_snoc. cbn [is_delete we_Type]. rewrite andb_true_r. destruct (Hl k') as [H1 H2].
    destruct (of_key k' _) eqn:E.
    + split; [lia|]. intros _. right. lia.
    + assert (k ≠ k') by (intros ->; by rewrite (proj2 (of_key_spec k' _)) in E).
      rewrite Nat.add_0_r. split; [done|]. by rewrite lookup_delete_ne.
Qed.

(** A notice that leads to nothing, and one who leads for an expiry. *)
Lemma ok_told s i n : leads n = false → system_ok s →
  system_ok (MkSystem (sy_world s) (cursors s) (told s ++ [(i, n)]) (burying s)).
Proof.
  intros Hn [Hc Hk Ha Hl]. split; try done. intros k. cbn [told sy_world]. rewrite leaders_app.
  assert (leaders k [(i, n)] = 0) as -> by (unfold leaders; cbn; by rewrite Hn, andb_false_r).
  rewrite Nat.add_0_r. apply Hl.
Qed.

Lemma ok_lead s i k n : leads n = true → notice_key n = k → w_keys (sy_world s) !! k = None →
  0 < expiries k (w_log (sy_world s)) → ∀ v, system_ok s →
  system_ok (MkSystem (put_key k v (sy_world s)) (cursors s) (told s ++ [(i, n)]) (burying s)).
Proof.
  intros Hn Hkn Hnone He v Hok. pose proof (ok_put k v s (burying s) Hok) as [Hc Hk Ha Hl].
  split; try done. intros k'. specialize (Hl k'). cbn [told sy_world] in *. rewrite leaders_app.
  destruct (decide (k' = k)) as [->|Hne].
  - assert (leaders k [(i, n)] = 1) as ->.
    { unfold leaders. cbn. by rewrite Hn, Hkn, (proj2 (bytes_equal_true k k)). }
    destruct (ok_leaders s Hok k) as [H1 H2]. specialize (H2 Hnone). cbn [put_key w_log w_keys] in *.
    rewrite expiries_snoc in *. cbn [is_delete we_Type] in *. rewrite andb_false_r, Nat.add_0_r in *.
    rewrite lookup_insert_eq. split; [lia|done].
  - assert (leaders k' [(i, n)] = 0) as ->; [|by rewrite Nat.add_0_r].
    unfold leaders. cbn. by rewrite Hkn, (proj2 (bytes_equal_false k k')).
Qed.

(** The next place of a backend. *)
Lemma ok_move s i c e : system_ok s → cursors s !! i = Some c → w_log (sy_world s) !! c = Some e →
  (¬ faulty i → w_keys (sy_world s) !! we_Key e = None → is_delete e = true → isBuried e = true) →
  system_ok (MkSystem (sy_world s) (<[i := S c]> (cursors s)) (told s) (burying s)).
Proof.
  intros [Hc Hk Ha Hl] Hi He Hb. split; try done; cbn [sy_world cursors].
  - apply Forall_insert; [done|]. by apply lookup_lt_Some in He.
  - intros j c' k e' Hj Hcj Hup Hlast Hdel. destruct (decide (j = i)) as [->|Hne].
    + rewrite list_lookup_insert_eq in Hcj by (by eapply lookup_lt_Some). injection Hcj as <-.
      destruct (caught_up_next _ _ _ _ He Hup) as [[Hup' _]|[<- Hlast']]; [by eapply Ha|].
      assert (e' = e) as -> by congruence. apply Hb; [done| |done].
      specialize (Hk (we_Key e)). rewrite Hlast in Hk. unfold shows in Hk. by rewrite Hdel in Hk.
    + rewrite list_lookup_insert_ne in Hcj by done. by eapply Ha.
Qed.

Context (prefix : bytes).

(** What handling an event does to the keys: nothing, and then the key of an
    expiry is there, or it puts the key of an expiry back. *)
Lemma handleEvent_world event w notices w' : handleEvent prefix event w = (Ret (inl notices), w') →
  (w' = w ∧ (notices = [] ∨ ∃ n, notices = [n] ∧ leads n = false) ∧
     (w_keys w !! we_Key event = None → is_delete event = true → isBuried event = true)) ∨
  (∃ n v, notices = [n] ∧ leads n = true ∧ notice_key n = we_Key event ∧ w_keys w !! we_Key event = None ∧
     is_delete event = true ∧ w' = put_key (we_Key event) v w).
Proof.
  unfold handleEvent, is_delete. destruct (isBuried event) eqn:Eb.
  { intros [= <- <-]. left. split; [done|]. split; [by left|done]. }
  destruct (getTTLFromEvent event) as [ttl prevState]. destruct (we_Type event).
  - intros E. left. destruct (ttl =? 0)%Z; [|destruct (_ && _)]; injection E as <- <-; (split; [done|]); (split; [|done]);
      [by left|right; by eexists|by left].
  - unfold mbind, store_bind, attempted. cbn [etcd_Grant world_leases lease_Txn forallb holds].
    destruct (w_keys w !! we_Key event) as [v|] eqn:Ek; cbn [andb]; intros [= <- <-].
    + left. split; [done|]. split; [right; by eexists|done].
    + right. by do 2 eexists.
Qed.

Lemma delete_world k w : (etcd_Delete (St := world) k one_key w).2 = delete_key k w.
Proof.
  cbn [etcd_Delete world_etcd snd]. rewrite range_keys_one. unfold there, delete_key.
  destruct (w_keys w !! k) eqn:E; cbn [fold_left]; [unfold delete_key; by rewrite E|done].
Qed.

Lemma step_system_ok expires s s' : system_ok s → switch_step prefix expires faulty s s' → system_ok s'.
Proof.
  intros Hok Hs. destruct Hs as [id ttl al w E|k v Hk _ _|id w E|id before after w _ E|i c ev ns w Hi He E|i c Hf Hi He].
  - unfold ping in E. destruct (ttl <? FallbackTTL)%Z; [discriminate|]. injection E as <-. by apply ok_put.
  - by apply ok_delete.
  - injection E as <-. by apply ok_put.
  - apply bind_inl in E as (z & w1 & E%call_wrapped_inl & [_ <-]%ret_inl).
    pose proof (delete_world (path_Join [prefix; id]) (sy_world s)) as Hd. rewrite E in Hd. cbn [snd] in Hd. subst w1.
    by apply ok_delete.
  - apply handleEvent_world in E as [(-> & Hns & Hb)|(n & v & -> & Hn & Hkey & Hnone & Hdel & ->)].
    + apply (ok_move s i c ev) in Hok; [|done..]. destruct Hns as [->|(n & -> & Hn)].
      * cbn [map]. rewrite app_nil_r. exact Hok.
      * cbn [map]. by apply (ok_told _ i n) in Hok.
    + cbn [map]. apply (ok_lead s i _ n Hn Hkey Hnone) with (v := v) in Hok.
      * apply (ok_move _ i c ev) in Hok; [exact Hok|done| |].
        -- cbn [sy_world put_key w_log]. rewrite lookup_app_l; [done|]. by eapply lookup_lt_Some.
        -- intros _. cbn [sy_world put_key w_keys]. by rewrite lookup_insert_eq.
      * unfold expiries. rewrite <- (take_drop_middle _ _ _ He), List.filter_app, length_app. cbn [List.filter].
        rewrite (proj2 (of_key_spec _ ev)), Hdel by done. cbn [andb length]. lia.
  - destruct (lookup_lt_is_Some_2 _ _ He) as [ev Hev]. by eapply ok_move.
Qed.

Lemma reached_ok expires n s : reaches prefix expires faulty n s → system_ok s.
Proof.
  unfold reaches. intros Hr. assert (system_ok (started n)) as H0 by apply ok_started. revert H0.
  induction Hr as [|x y z Hxy _ IH]; [done|]. intros Hx. apply IH. by eapply step_system_ok.
Qed.
End Invariant.

(* ------------------------------------------------------------------ *)
(** ** The properties *)

(** C26: whatever the backends and their clients do at the same time, for a
    switch no more backends are told to lead than it was deleted; and once a
    backend that loses no events has handled all of them, a switch that is
    not there was never put, or its last value was buried: one that expired
    has been put back. *)
Theorem switches_kept (prefix : bytes) (expires : bytes → Prop) (faulty : nat → Prop) (backends : nat) (s : system) :
  reaches prefix expires faulty backends s →
  (∀ k, leaders k (told s) ≤ expiries k (w_log (sy_world s))) ∧
  (∀ i k, ¬ faulty i → cursors s !! i = Some (length (w_log (sy_world s))) → w_keys (sy_world s) !! k = None →
     last_event k (w_log (sy_world s)) = None ∨
     ∃ e, last_event k (w_log (sy_world s)) = Some e ∧ is_delete e = true ∧ isBuried e = true).
Proof.
  intros Hr. apply reached_ok in Hr as [Hc Hk Ha Hl]. split; [intros k; apply Hl|].
  intros i k Hi Hci Hnone. specialize (Hk k). destruct (last_event k (w_log (sy_world s))) as [e|] eqn:E; [right|by left].
  unfold shows in Hk. destruct (is_delete e) eqn:Ed; [|congruence]. exists e. split_and!; [done|done|].
  eapply Ha; [done|done| |done|done]. unfold caught_up. by rewrite drop_all.
Qed.

(** ** Runs *)

(** The steps as commands, and what they do. *)
Inductive move :=
| Ping (id : bytes) (ttl : Z) (alive : bool) | Expire (k : bytes) | BuryPut (id : bytes) | BuryDelete (id : bytes)
| Handle (i : nat) | Lose (i : nat).

Definition in_world (s : system) (r : outcome (() + store_error) * world) (b : list bytes) : option system :=
  match r with (Ret (inl _), w) => Some (MkSystem w (cursors s) (told s) b) | _ => None end.
Fixpoint remove_first (id : bytes) (l : list bytes) : option (list bytes) :=
  match l with
  | [] => None
  | x :: l' => if bytes_equal x id then Some l' else (λ m, x :: m) <$> remove_first id l'
  end.

Section Moves.
Context (prefix : bytes).
Definition do_move (s : system) (m : move) : option system :=
  let w := sy_world s in
  match m with
  | Ping id ttl alive => in_world s (ping prefix id ttl alive w) (burying s)
  | Expire k =>
      v ← w_keys w !! k;
      if bytes_equal v buried then None else Some (MkSystem (delete_key k w) (cursors s) (told s) (burying s))
  | BuryPut id => in_world s (bury_put prefix id w) (id :: burying s)
  | BuryDelete id => b ← remove_first id (burying s); in_world s (bury_delete prefix id w) b
  | Handle i =>
      c ← cursors s !! i; event ← w_log w !! c;
      match handleEvent prefix event w with
      | (Ret (inl ns), w') => Some (MkSystem w' (<[i := S c]> (cursors s)) (told s ++ map (pair i) ns) (burying s))
      | _ => None
      end
  | Lose i =>
      c ← cursors s !! i;
      if bool_decide (c < length (w_log w)) then Some (MkSystem w (<[i := S c]> (cursors s)) (told s) (burying s))
      else None
  end.
Fixpoint do_moves (s : system) (ms : list move) : option system :=
  match ms with [] => Some s | m :: ms' => s' ← do_move s m; do_moves s' ms' end.

Definition permitted (expires : bytes → Prop) (faulty : nat → Prop) (m : move) : Prop :=
  match m with Expire k => expires k | Lose i => faulty i | _ => True end.

Lemma in_world_Some s r b s' : in_world s r b = Some s' →
  ∃ w, r = (Ret (inl ()), w) ∧ s' = MkSystem w (cursors s) (told s) b.
Proof. destruct r as [[[[]|]| |] w]; try done. intros [= <-]. by exists w. Qed.

Lemma remove_first_Some id l l' : remove_first id l = Some l' → ∃ a b, l = a ++ id :: b ∧ l' = a ++ b.
Proof.
  revert l'. induction l as [|x l IH]; intros l'; cbn [remove_first]; [done|]. destruct (bytes_equal x id) eqn:E.
  - apply bytes_equal_true in E as ->. intros [= <-]. by exists [], l.
  - intros (m & (a & b & -> & ->)%IH & ->)%fmap_Some. by exists (x :: a), b.
Qed.

Lemma do_move_step expires faulty s m s' : do_move s m = Some s' → permitted expires faulty m →
  switch_step prefix expires faulty s s'.
Proof.
  destruct m as [id ttl al|k|id|id|i|i]; cbn [do_move permitted]; intros E Hp.
  - apply in_world_Some in E as (w & E & ->). by eapply step_ping.
  - apply bind_Some in E as (v & Hv & E). destruct (bytes_equal v buried) eqn:Eb; [done|]. injection E as <-.
    eapply step_expire; [done|by apply bytes_equal_false|done].
  - apply in_world_Some in E as (w & E & ->). by eapply step_bury_put.
  - apply bind_Some in E as (b & (before & after & Hb & ->)%remove_first_Some & (w & E & ->)%in_world_Some).
    by eapply step_bury_delete.
  - apply bind_Some in E as (c & Hc & (ev & Hev & E)%bind_Some).
    destruct (handleEvent prefix ev (sy_world s)) as [[[ns|]| |] w] eqn:Eh; try done. injection E as <-. by eapply step_handle.
  - apply bind_Some in E as (c & Hc & E). destruct (bool_decide _) eqn:Eb; [|done]. injection E as <-.
    apply bool_decide_eq_true in Eb. by eapply step_lose.
Qed.

Lemma do_moves_steps expires faulty ms s s' : do_moves s ms = Some s' → Forall (permitted expires faulty) ms →
  rtc (switch_step prefix expires faulty) s s'.
Proof.
  intros E Hms. revert s E. induction Hms as [|m ms Hm _ IH]; intros s E; cbn [do_moves] in E.
  - injection E as ->. apply rtc_refl.
  - apply bind_Some in E as (s1 & E1 & E2). eapply rtc_l; [by eapply do_move_step|by apply IH].
Qed.
End Moves.

Definition toy_prefix : bytes := bs "/sensu.io/switchsets/eventd".
Definition toy_id : bytes := bs "default/cpu/e1".
Definition toy_key : bytes := toy_prefix ++ bs "/" ++ toy_id.

Definition run_from (s : system) (ms : list move) : system := default s (do_moves toy_prefix s ms).
Lemma run_from_steps expires faulty s ms :
  match do_moves toy_prefix s ms with Some _ => true | None => false end = true → Forall (permitted expires faulty) ms →
  rtc (switch_step toy_prefix expires faulty) s (run_from s ms).
Proof.
  unfold run_from. destruct (do_moves toy_prefix s ms) as [s'|] eqn:E; [|done]. intros _ H. by eapply do_moves_steps.
Qed.

(** A switch that expired, seen by one backend of two. *)
Definition toy_expired : system :=
  MkSystem (MkWorld {[toy_key := bs "-60"]}
    [MkWatch PUT toy_key (bs "60") None; MkWatch DELETE toy_key [] (Some (bs "60")); MkWatch PUT toy_key (bs "-60") None])
    [3; 0] [(0, notifyAlive toy_key toy_id Dead); (0, notifyDead toy_key toy_id Alive true)] [].

Lemma toy_expired_reached : reaches toy_prefix (λ _, True) (λ i, i = 1) 2 toy_expired.
Proof.
  apply (do_moves_steps _ _ _ [Ping toy_id 60 true; Expire toy_key; Handle 0; Handle 0; Handle 0]); [|by repeat constructor].
  vm_compute. reflexivity.
Qed.

Lemma switches_kept_witness :
  leaders toy_key (told toy_expired) = 1 ∧ expiries toy_key (w_log (sy_world toy_expired)) = 1 ∧
  is_Some (w_keys (sy_world toy_expired) !! toy_key).
Proof.
  destruct (switches_kept toy_prefix (λ _, True) (λ i, i = 1) 2 toy_expired toy_expired_reached) as [H1 H2].
  split; [vm_compute; reflexivity|]. split; [vm_compute; reflexivity|]. destruct (w_keys (sy_world toy_expired) !! toy_key) eqn:E; [by eexists|].
  exfalso. destruct (H2 0 toy_key) as [Hn|(e & He & _ & Hb)]; [done|done|done|discriminate Hn|].
  injection He as <-. discriminate Hb.
Defined.

(** C39: three runs of switches that race. An expiry that one backend handles
    late makes two of them lead for the same event, when the switch has
    expired again before. A switch that is kept alive while it is buried is
    reported dead to a leader, although no lease ran out. And a switch that
    is buried before a backend has handled an expiry of it comes back. *)
Theorem switch_races :
  (∃ s, reaches toy_prefix (λ _, True) (λ _, False) 2 s ∧ cursors s = [2; 2] ∧
     told s = [(0, notifyAlive toy_key toy_id Dead); (0, notifyDead toy_key toy_id Alive true);
               (1, notifyAlive toy_key toy_id Dead); (1, notifyDead toy_key toy_id Alive true)]) ∧
  (∃ s, reaches toy_prefix (λ _, False) (λ _, False) 1 s ∧ last (told s) = Some (0, notifyDead toy_key toy_id Alive true)) ∧
  (∃ s s', reaches toy_prefix (λ _, True) (λ _, False) 1 s ∧ burying s = [] ∧ w_keys (sy_world s) !! toy_key = None ∧
     last (w_log (sy_world s)) = Some (MkWatch DELETE toy_key [] (Some buried)) ∧
     rtc (switch_step toy_prefix (λ _, False) (λ _, False)) s s' ∧ is_Some (w_keys (sy_world s') !! toy_key)).
Proof.
  split; [|split].
  - exists (run_from (started 2) [Ping toy_id 60 true; Expire toy_key; Handle 0; Handle 0; Expire toy_key; Handle 1; Handle 1]).
    split; [apply run_from_steps; [vm_compute; reflexivity|by repeat constructor]|]. split; vm_compute; reflexivity.
  - exists (run_from (started 1) [Ping toy_id 60 true; BuryPut toy_id; Ping toy_id 60 true; BuryDelete toy_id;
                                   Handle 0; Handle 0; Handle 0; Handle 0]).
    split; [apply run_from_steps; [vm_compute; reflexivity|by repeat constructor]|]. vm_compute. reflexivity.
  - set (s := run_from (started 1) [Ping toy_id 60 true; Expire toy_key; BuryPut toy_id; BuryDelete toy_id]).
    exists s, (run_from s [Handle 0; Handle 0]). split_and!; [|vm_compute; reflexivity..| |vm_compute; by eexists];
      (apply run_from_steps; [vm_compute; reflexivity|by repeat constructor]).
Qed.
