(* ===== verification/EventdGuarantees.v ===== *)
(** * What eventd guarantees: silences, publication, and checks that are late *)

From S2P Require Import Prelude GoStd GoStdFacts GoNet GoTime TimeWindow Sensu SensuFacts.
From S2P Require Import SensuGuarantees StoreKeys StoreKeysFacts EtcdClient EtcdStore EventStore EventHistory.
From S2P Require Import EtcdStoreFacts EventStoreGuarantees Eventd SilencedStore Liveness.

(* ------------------------------------------------------------------ *)
(** ** Names of entries *)

Lemma word_plain (class : ascii → bool) s c : word_of class s → class c = false → c ∉ s.
Proof. intros [_ Hs] Hc Hin. rewrite Forall_forall in Hs. apply Hs in Hin. congruence. Qed.

(** The name of a check that an event may carry. *)
Definition check_name (s : bytes) : Prop := ":"%char ∉ s ∧ s ≠ bs "*".

Lemma valid_check_name ps pe now c : Validate_check ps pe now c = Ret () → check_name (om_Name (c_Meta c)).
Proof.
  rewrite Validate_check_iff. unfold is_test_check. intros [->|[Hw _ _ _ _ _ _ _ _ _ _]].
  - by apply (bool_decide_unpack _).
  - split; [by eapply word_plain|]. intros E. rewrite E in Hw. eapply (word_plain _ _ "*"%char) in Hw; [|done]. apply Hw. by left.
Qed.

Lemma valid_entry_check e : Validate_silenced e = None →
  s_Check e = [] ∨ s_Check e = bs "*" ∨ ":"%char ∉ s_Check e.
Proof.
  unfold Validate_silenced. rewrite !or_else_None. intros [_ H].
  destruct (is_empty (s_Check e)) eqn:E; [apply is_empty_true in E; by left|].
  destruct (bytes_equal (s_Check e) (bs "*")) eqn:E2; [apply bytes_equal_true in E2; by right; left|].
  right; right. cbn [negb andb] in H. rewrite prefix_error_None, ValidateName_iff in H. by eapply word_plain.
Qed.

(** An entry for all subscriptions is of the check that it names. *)
Lemma star_check e check : well_kept (bs "*:" ++ check) e → check_name check → s_Check e = check.
Proof.
  intros [_ Hp Hv] [Hc Hs]. apply valid_entry_check in Hv.
  assert (∃ sub x, bs "*:" ++ check = (sub ++ bs ":") ++ x ∧ (x = s_Check e ∨ s_Check e = [] ∧ x = bs "*"))
    as (sub & x & E & Hx).
  { unfold SilencedName in Hp. destruct (is_empty (s_Subscription e) && is_empty (s_Check e)); [done|].
    injection Hp as Hp. exists (if is_empty (s_Subscription e) then bs "*" else s_Subscription e),
      (if is_empty (s_Check e) then bs "*" else s_Check e).
    split; [rewrite <- (assoc_L (++)); by symmetry|]. destruct (s_Check e); [by right|by left]. }
  assert (":"%char ∉ x) as Hno.
  { destruct Hx as [->|[_ ->]]; [|by apply (bool_decide_unpack _)].
    destruct Hv as [->|[->|?]]; [by apply (bool_decide_unpack _)..|done]. }
  change (bs "*:") with (bs "*" ++ bs ":") in E. apply sep_inj_r in E as [_ ->]; [|done..].
  destruct Hx as [|[_ ?]]; [done|by destruct Hs].
Qed.

Lemma plain_entity_subscription name : plain_name name → plain_name (GetEntitySubscription name).
Proof.
  intros [_ _ Hs]. unfold GetEntitySubscription. split; [done|by split|].
  rewrite not_elem_of_app. split; [by apply (bool_decide_unpack _)|done].
Qed.

(* ------------------------------------------------------------------ *)
(** ** The silences of an event *)

Lemma InArray_plain x l : plain_name x → InArray x l = true ↔ x ∈ l.
Proof. intros Hx. apply InArray_iff, Hx. Qed.

Lemma add_all_spec (found : list Silenced) ids : Forall (λ x, plain_name (om_Name (s_Meta x))) found →
  let ids' := foldl (λ names entry, addToSilencedBy (om_Name (s_Meta entry)) names) ids found in
  (NoDup ids → NoDup ids') ∧ ∀ id, id ∈ ids' ↔ id ∈ ids ∨ ∃ x, x ∈ found ∧ om_Name (s_Meta x) = id.
Proof.
  intros Hf. revert ids. induction Hf as [|x found Hx _ IH]; intros ids; cbn [foldl].
  - split; [done|]. intros id. split; [by left|]. by intros [?|(? & ?%elem_of_nil & _)].
  - destruct (IH (addToSilencedBy (om_Name (s_Meta x)) ids)) as [I1 I2]. split.
    + intros Hnd. apply I1. unfold addToSilencedBy. destruct (InArray _ ids) eqn:E; [done|].
      apply NoDup_app. split_and!; [done| |apply NoDup_singleton]. intros y Hy ->%list_elem_of_singleton.
      apply (InArray_plain _ _ Hx) in Hy. congruence.
    + intros id. rewrite I2. setoid_rewrite elem_of_cons. unfold addToSilencedBy. destruct (InArray _ ids) eqn:E.
      * apply InArray_plain in E; [|done]. naive_solver.
      * rewrite elem_of_app, list_elem_of_singleton. naive_solver.
Qed.

(* ------------------------------------------------------------------ *)
(** ** What publishes nothing *)

Create HintDb quiet.
#[export] Hint Resolve quiet_by_subscription quiet_by_check_name quiet_by_name quiet_delete_by_name
  quiet_get_event quiet_get_entity quiet_update_event quiet_alive quiet_bury : quiet.

Section Quiet.
Context {St : Type} `{BackendView St}.

Lemma quiet_ret {A} (a : A) : quiet (mret a : store_m St A).
Proof. done. Qed.
Lemma quiet_failing {A} e : quiet (failing e : store_m St A).
Proof. done. Qed.
Lemma quiet_crash {A} : quiet (crash : store_m St A).
Proof. done. Qed.
Lemma quiet_checked {A} wrap (r : outcome A) : quiet (checked wrap r : store_m St A).
Proof. intros s. by destruct r. Qed.
Lemma quiet_bind {A B} (m : store_m St A) (f : A → store_m St B) : quiet m → (∀ a, quiet (f a)) → quiet (m ≫= f).
Proof.
  intros Hm Hf s. unfold mbind, store_bind. pose proof (Hm s) as E. destruct (m s) as [[[a|e]|e|] s1]; cbn in E; try done.
  by rewrite Hf.
Qed.
Lemma quiet_wrapping {A} text (m : store_m St A) : quiet m → quiet (wrapping text m).
Proof. intros Hm s. unfold wrapping. pose proof (Hm s) as E. by destruct (m s) as [[[]| |] ?]. Qed.
Lemma quiet_tried {A} (m : store_m St A) : quiet m → quiet (tried m).
Proof. intros Hm s. unfold tried. pose proof (Hm s) as E. by destruct (m s) as [[[]| |] ?]. Qed.
Lemma quiet_call {A} (f : St → (A + error) * St) : (∀ s, published (f s).2 = published s) → quiet (call f).
Proof. intros Hf s. unfold call. specialize (Hf s). by destruct (f s) as [[]]. Qed.
Lemma quiet_call_wrapped {A} text (f : St → (A + error) * St) :
  (∀ s, published (f s).2 = published s) → quiet (call_wrapped text f).
Proof. intros Hf s. unfold call_wrapped. specialize (Hf s). by destruct (f s) as [[]]. Qed.

Lemma quiet_run {A} (m : store_m St A) s r s' : quiet m → m s = (r, s') → published s' = published s.
Proof. intros Hm E. specialize (Hm s). by rewrite E in Hm. Qed.
End Quiet.
#[export] Hint Resolve quiet_ret quiet_failing quiet_crash quiet_checked quiet_bind quiet_wrapping quiet_tried
  quiet_call quiet_call_wrapped : quiet.

(** A computation of such calls. *)
Ltac quietly := repeat first [apply quiet_bind; [|intros ?] | case_match | solve [eauto with quiet]].

Section Silent.
Context {St : Type} `{BackendLaws St}.

Lemma quiet_getSilenced ns e now : quiet (getSilenced ns e now).
Proof. unfold getSilenced. quietly. Qed.
Lemma quiet_handleExpire ns e : quiet (handleExpireOnResolveEntries ns e).
Proof. unfold handleExpireOnResolveEntries. quietly. Qed.
Lemma quiet_flip_switch e prev key : quiet (flip_switch e prev key).
Proof. unfold flip_switch. quietly. Qed.
Lemma quiet_createFailed sort_history clock ns e : quiet (createFailedCheckEvent sort_history clock ns e).
Proof. unfold createFailedCheckEvent. quietly. Qed.

(** What is published last, or nothing because of an error before. *)
Definition publishes_last (m : store_m St ()) : Prop := ∀ s r s', m s = (r, s') →
  (r ≠ Ret (inl ()) ∧ published s' = published s) ∨
  (r = Ret (inl ()) ∧ ∃ e, published s' = published s ++ [e]).

Lemma publish_run e s r s' : bus_Publish e s = (r, s') →
  (r ≠ Ret (inl ()) ∧ published s' = published s) ∨ (r = Ret (inl ()) ∧ published s' = published s ++ [e]).
Proof.
  intros E. assert (r = Ret (inl ()) ∨ r ≠ Ret (inl ())) as [->|Hr] by (destruct r as [[[]|?]| |]; auto); [right|left].
  - by apply publish_law in E as [_ E].
  - split; [done|by eapply publish_fails].
Qed.
Lemma last_publish e : publishes_last (bus_Publish e).
Proof. intros s r s' [?|[? ?]]%publish_run; [by left|right]. split; [done|by exists e]. Qed.
Lemma last_quiet (m : store_m St ()) : quiet m → (∀ s s', m s ≠ (Ret (inl ()), s')) → publishes_last m.
Proof. intros Hq Hm s r s' E. left. split; [intros ->; by apply Hm in E|by eapply quiet_run]. Qed.
Lemma last_bind {A} (m : store_m St A) (f : A → store_m St ()) : quiet m → (∀ a, publishes_last (f a)) → publishes_last (m ≫= f).
Proof.
  intros Hm Hf s r s'. unfold mbind, store_bind. pose proof (Hm s) as Ep.
  destruct (m s) as [[[a|e]|e|] s1]; cbn in Ep; [|by intros [= <- <-]; left..].
  intros E%Hf. by rewrite Ep in E.
Qed.

(** At most one event is published, such as [P] says. *)
Definition appends {A} (P : Event → Prop) (m : store_m St A) : Prop := ∀ s r s', m s = (r, s') →
  published s' = published s ∨ ∃ e, P e ∧ published s' = published s ++ [e].

Lemma appends_quiet {A} P (m : store_m St A) : quiet m → appends P m.
Proof. intros Hm s r s' E. left. by eapply quiet_run. Qed.
Lemma appends_bind {A B} P (m : store_m St A) (f : A → store_m St B) :
  quiet m → (∀ a s s', m s = (Ret (inl a), s') → appends P (f a)) → appends P (m ≫= f).
Proof.
  intros Hm Hf s r s'. unfold mbind, store_bind. pose proof (Hm s) as Ep.
  destruct (m s) as [[[a|e]|e|] s1] eqn:E; cbn in Ep; [|by intros [= _ <-]; left..].
  intros E2. rewrite <- Ep. by eapply Hf.
Qed.
Lemma appends_then {A B} P (m : store_m St A) (f : A → store_m St B) :
  appends P m → (∀ a, quiet (f a)) → appends P (m ≫= f).
Proof.
  intros Hm Hf s r s'. unfold mbind, store_bind. destruct (m s) as [r1 s1] eqn:E. apply Hm in E.
  destruct r1 as [[a|e]|e|]; [|by intros [= _ <-]..]. intros E2. eapply quiet_run in E2; [|apply Hf]. by rewrite E2.
Qed.
Lemma appends_tried {A} P (m : store_m St A) : appends P m → appends P (tried m).
Proof. intros Hm s r s'. unfold tried. destruct (m s) as [[]] eqn:E; intros [= _ <-]; by eapply Hm. Qed.
Lemma appends_publish (P : Event → Prop) e : P e → appends P (bus_Publish e).
Proof. intros HP s r s' [[_ E]|[_ E]]%publish_run; [by left|right; by exists e]. Qed.
End Silent.
#[export] Hint Resolve quiet_getSilenced quiet_handleExpire quiet_flip_switch quiet_createFailed : quiet.

(* ------------------------------------------------------------------ *)
(** ** Keys of switches *)

Lemma clean_step_keeps rooted w kept : plain_name w → clean_step rooted kept w = w :: kept.
Proof. intros [H1 [H2 H3] _]. unfold clean_step. by rewrite !(proj2 (bytes_equal_false w _)) by done. Qed.

Lemma path_Join_plain l : l ≠ [] → Forall plain_name l → path_Join l = join (bs "/") l.
Proof.
  intros Hne Hl. destruct l as [|w l]; [done|]. apply Forall_cons in Hl as Hw. destruct Hw as [Hw _].
  destruct Hw as [Hw1 _ Hw2]. destruct w as [|c w]; [done|].
  change (path_Join ((c :: w) :: l)) with (path_Clean (join (bs "/") ((c :: w) :: l))).
  assert (∃ s, join (bs "/") ((c :: w) :: l) = c :: s) as [s Es] by (destruct l; by eexists).
  assert (split_byte "/" (join (bs "/") ((c :: w) :: l)) = (c :: w) :: l) as Hsplit.
  { rewrite split_join by done. clear -Hl. induction Hl as [|x k Hx _ IH]; [done|]. cbn [map concat].
    by rewrite IH, split_byte_plain by apply Hx. }
  unfold path_Clean. rewrite Es, <- Es, Hsplit.
  assert (Ascii.eqb c "/" = false) as -> by (apply Ascii.eqb_neq; intros ->; apply Hw2; by left).
  assert (clean_elems false ((c :: w) :: l) = (c :: w) :: l) as ->; [|by rewrite Es].
  unfold clean_elems. rewrite <- (rev_involutive ((c :: w) :: l)) at 2. f_equal.
  assert (∀ kept, foldl (clean_step false) kept ((c :: w) :: l) = rev ((c :: w) :: l) ++ kept) as Hf;
    [|by rewrite Hf, app_nil_r].
  clear -Hl. induction Hl as [|x l' Hx _ IH]; intros kept; [done|]. cbn [foldl rev].
  rewrite IH, clean_step_keeps by done. by rewrite <- (assoc_L (++)).
Qed.

Lemma eventKey_plain e entity c : plain_event e entity c →
  let alone := RoundRobin c && negb (bytes_equal (EntityClass entity) (bs "proxy")) in
  let parts := if alone then [Namespace (c_Meta c); om_Name (c_Meta c)]
               else [Namespace (e_Meta entity); om_Name (c_Meta c); om_Name (e_Meta entity)] in
  eventKey e = Ret (join (bs "/") parts) ∧ split_byte "/" (join (bs "/") parts) = parts.
Proof.
  intros [He Hc Hns Hen Hcn Hcns]. unfold eventKey. rewrite Hc, He.
  destruct (RoundRobin c) eqn:Er; [specialize (Hcns eq_refl)|clear Hcns]; cbn [andb]; [destruct (negb _)|]; cbn match zeta; rewrite path_Join_plain by (by rewrite ?Forall_cons, ?Forall_nil);
    (split; [done|]); rewrite split_join by done; cbn [map concat]; rewrite !split_byte_plain by
      (apply Hns || apply Hen || apply Hcn || apply Hcns); done.
Qed.

Lemma eventKey_switch e entity c key : plain_event e entity c → eventKey e = Ret key → switch_key key.
Proof.
  intros Hp Hk. destruct (eventKey_plain e entity c Hp) as [E _]. rewrite E in Hk. injection Hk as <-.
  destruct Hp as [_ _ Hns Hen Hcn Hcns]. eexists. split; [|split; [|reflexivity]].
  - by destruct (RoundRobin c && _).
  - destruct (RoundRobin c); [specialize (Hcns eq_refl)|clear Hcns]; cbn [andb]; [destruct (negb _)|]; by rewrite !Forall_cons, Forall_nil.
Qed.

(* ------------------------------------------------------------------ *)
(** ** Storing and marking *)

Section Eventd.
Context {St : Type} `{BackendLaws St}.

Lemma wrapping_inl {A} text (m : store_m St A) s a s' :
  wrapping text m s = (Ret (inl a), s') → m s = (Ret (inl a), s').
Proof. unfold wrapping. by destruct (m s) as [[[]| |] ?]. Qed.

Lemma same_entries_trans (s1 s2 s3 : St) : same_entries s1 s2 → same_entries s2 s3 → same_entries s1 s3.
Proof. intros [Ok1 E1] [Ok2 E2]. split; [auto|]. intros. rewrite E2, E1 by done. done. Qed.

(** The names that eventd writes on an event are those of the entries in the
    store that silence it. *)
Definition silencing_ids (s : St) (ns : bytes) (c : Check_) (entity : Entity) (now : Z) (ids : list bytes) : Prop :=
  NoDup ids ∧ ∀ id, id ∈ ids ↔ plain_name id ∧
    ∃ x, entry_at s ns id = Some x ∧ silences (om_Name (c_Meta c)) (c_Subscriptions c) entity now x.

Lemma getSilenced_inl s e c entity now e' s' :
  store_ok s → plain_event e entity c → Forall plain_name (c_Subscriptions c) → check_name (om_Name (c_Meta c)) →
  getSilenced (Namespace (e_Meta entity)) e now s = (Ret (inl e'), s') →
  same_entries s s' ∧
  ∃ ids, e' = set_check e (set_silenced c ids) ∧ silencing_ids s (Namespace (e_Meta entity)) c entity now ids.
Proof.
  intros Hok [He Hc Hns Hen Hcn _] Hsubs Hname. set (ns := Namespace (e_Meta entity)) in *.
  unfold getSilenced. rewrite Hc, He. set (esub := GetEntitySubscription _).
  intros (l & s1 & E1%wrapping_inl & (r & s2 & E2 & (ids & s3 & [E3 ->]%checked_inl & [<- <-]%ret_inl)%bind_inl)%bind_inl)%bind_inl.
  assert (Forall plain_name (c_Subscriptions c ++ [esub])) as Hall.
  { apply Forall_app. split; [done|]. constructor; [|done]. by apply plain_entity_subscription. }
  apply by_subscription_law in E1 as (S1 & L1 & L2); [|done..].
  apply by_check_name_law in E2 as (S2 & R1); [|by apply S1|done].
  assert (∀ x, x ∈ r ↔ ∃ name, plain_name name ∧ entry_at s ns name = Some x ∧ s_Check x = om_Name (c_Meta c)) as R.
  { intros x. rewrite R1. split; intros (n & Hn & Hx & ?); exists n; (split_and!; [done| |done]).
    - by rewrite (proj2 S1) in Hx.
    - by rewrite (proj2 S1). }
  split; [by eapply same_entries_trans|]. exists ids. split; [done|].
  unfold silencedBy in E3. destruct (silencing e c entity (l ++ r) now Hc He) as (p & Ep & Hp). rewrite Ep in E3.
  cbn [mbind outcome_bind] in E3. injection E3 as <-.
  assert (∀ y, y ∈ List.filter p (l ++ r) ↔
    (y ∈ l ∨ y ∈ r) ∧ silences (om_Name (c_Meta c)) (c_Subscriptions c) entity now y) as Hfound.
  { intros y. rewrite list_elem_of_In, filter_In, <- list_elem_of_In, elem_of_app, Hp. done. }
  assert (∀ y, y ∈ l ∨ y ∈ r → ∃ name x ttl, plain_name name ∧ entry_at s ns name = Some x ∧
    (y = x ∨ y = with_expire x ttl) ∧ om_Name (s_Meta y) = name) as Hy.
  { intros y [Hy|Hy].
    - destruct (L1 y Hy) as (n & x & ttl & Hn & Hx & ->). exists n, x, ttl. split_and!; [done|done|by right|].
      apply (entry_kept s ns n x) in Hx as [Hx _ _]; done.
    - apply R in Hy as (n & Hn & Hx & _). exists n, y, 0%Z. split_and!; [done|done|by left|].
      apply (entry_kept s ns n y) in Hx as [Hx _ _]; done. }
  destruct (add_all_spec (List.filter p (l ++ r)) []) as [A1 A2].
  { apply Forall_forall. intros y [Hin _]%Hfound. by destruct (Hy y Hin) as (n & x & ttl & Hn & _ & _ & ->). }
  split; [apply A1, NoDup_nil_2|]. intros id. rewrite A2. split.
  - intros [?%elem_of_nil|(y & [Hin Hs]%Hfound & <-)]; [done|].
    destruct (Hy y Hin) as (n & x & ttl & Hn & Hx & [->| ->] & <-); (split; [done|]); by exists x.
  - intros (Hid & x & Hx & Hs). right.
    assert (om_Name (s_Meta x) = id) as Hxid by (by apply (entry_kept s ns id x) in Hx as [Hx' _ _]).
    pose proof Hs as Hs'. destruct Hs as [_ [E|(sub & Hsub & Hn)]].
    + exists x. split; [|done]. apply Hfound. split; [|done]. right. apply R. exists id. split_and!; [done|done|].
      apply star_check; [|done]. rewrite <- E, Hxid. by apply (entry_kept s ns id x).
    + destruct (L2 sub id x) as [ttl Hl]; [|done| |done|].
      * apply elem_of_app. destruct Hsub as [->|(_ & ? & _)]; [right; by left|by left].
      * apply has_prefix_iff. rewrite <- Hxid. destruct Hn as [-> | ->]; by eexists.
      * exists (with_expire x ttl). split; [|done]. apply Hfound. split; [by left|done].
Qed.

(** The entry of a name ends with the incident. *)
Definition resolves (s : St) (ns id : bytes) : bool :=
  match entry_at s ns id with Some x => ExpireOnResolve x | None => false end.

Lemma silencing_ids_kept s ns c entity now ids :
  silencing_ids s ns c entity now ids → Forall plain_name ids ∧ List.filter (present s ns) ids = ids.
Proof.
  intros [_ Hids]. split; [by apply Forall_forall; intros id []%Hids|].
  assert (∀ id, id ∈ ids → present s ns id = true) as Hp.
  { intros id (_ & x & Hx & _)%Hids. unfold present. by rewrite Hx. }
  clear Hids. induction ids as [|id ids IH]; [done|]. cbn [List.filter]. rewrite Hp by (by left). f_equal.
  apply IH. intros; apply Hp. by right.
Qed.

Lemma filter_names {A} (f : A → bytes) (p : A → bool) (q : bytes → bool) l :
  (∀ x, x ∈ l → p x = q (f x)) → map f (List.filter p l) = List.filter q (map f l).
Proof.
  intros Hpq. induction l as [|x l IH]; [done|]. cbn [List.filter map]. rewrite (Hpq x) by (by left).
  destruct (q (f x)); cbn [map]; rewrite IH; try done; intros; apply Hpq; by right.
Qed.

Lemma filter_keeps {A} (p : A → bool) l : (∀ x, p x = true) → List.filter p l = l.
Proof. intros Hp. induction l as [|x l IH]; [done|]. cbn. by rewrite Hp, IH. Qed.

Lemma set_silenced_again e c ids ids' : set_check (set_check e (set_silenced c ids)) (set_silenced (set_silenced c ids) ids') =
  set_check e (set_silenced c ids').
Proof. done. Qed.

Lemma plain_set_check e entity c c' : plain_event e entity c → c_Meta c' = c_Meta c → RoundRobin c' = RoundRobin c →
  plain_event (set_check e c') entity c'.
Proof. intros [? ? ? ? ? ?] Hm Hr. split; [done|done|done|done|by rewrite Hm|by rewrite Hm, Hr]. Qed.

(** What is left of the silences of an event, and of the entries. *)
Definition gone (s : St) (ns : bytes) (e : Event) (id : bytes) : bool := IsResolution e && resolves s ns id.

Lemma handleExpire_inl s0 s e entity c now ids e' s' (ns := Namespace (e_Meta entity)) :
  store_ok s → same_entries s0 s → plain_event e entity c → silencing_ids s0 ns c entity now ids →
  handleExpireOnResolveEntries ns (set_check e (set_silenced c ids)) s = (Ret (inl e'), s') →
  store_ok s' ∧
  e' = set_check e (set_silenced c (List.filter (λ id, negb (gone s0 ns e id)) ids)) ∧
  ∀ ns' id, plain_name ns' → plain_name id →
    entry_at s' ns' id = if decide (ns' = ns ∧ id ∈ ids ∧ gone s0 ns e id = true) then None else entry_at s0 ns' id.
Proof.
  intros Hok [Hok0 Hsame] [He Hc Hns _ _ _] Hids. apply silencing_ids_kept in Hids as [Hplain Hkept].
  unfold handleExpireOnResolveEntries. cbn [ev_Check set_check].
  assert (IsResolution (set_check e (set_silenced c ids)) = IsResolution e) as ->.
  { unfold IsResolution, IsIncident. cbn [ev_Check set_check]. by rewrite Hc. }
  unfold gone. destruct (IsResolution e); cbn [negb andb].
  2:{ intros [<- <-]%ret_inl. split_and!; [done|by rewrite filter_keeps|].
      intros ns' id Hns' Hid. rewrite decide_False by (by intros (_ & _ & ?)). by apply Hsame. }
  change (Silenced_by (set_silenced c ids)) with ids.
  intros (l & s1 & E1%wrapping_inl & ([] & s2 & E2%wrapping_inl & [<- <-]%ret_inl)%bind_inl)%bind_inl.
  apply by_name_law in E1 as ([So1 Se1] & N1 & L1); [|done..].
  assert (List.filter (present s ns) ids = ids) as Hp.
  { rewrite <- Hkept at 2. apply filter_ext_in. intros id Hin%list_elem_of_In. unfold present.
    rewrite Forall_forall in Hplain. by rewrite Hsame by auto. }
  rewrite Hp in N1.
  assert (∀ x, x ∈ l → ExpireOnResolve x = resolves s0 ns (om_Name (s_Meta x))) as Hx.
  { intros x Hin. assert (om_Name (s_Meta x) ∈ ids) as Hid by (rewrite <- N1; by apply list_elem_of_In, (in_map (λ x, om_Name (s_Meta x))), list_elem_of_In).
    rewrite Forall_forall in Hplain. apply Hplain in Hid. destruct (L1 x Hin) as (y & ttl & Hy & ->). unfold resolves.
    rewrite Hsame in Hy by done. by rewrite Hy. }
  rewrite (filter_names _ _ (resolves s0 ns)) in E2 by done. rewrite N1 in E2.
  assert (Forall plain_name (List.filter (resolves s0 ns) ids)) as Hpl.
  { apply Forall_forall. intros id. rewrite list_elem_of_In, filter_In, <- list_elem_of_In. intros [Hid _].
    rewrite Forall_forall in Hplain. by apply Hplain. }
  apply delete_by_name_law in E2 as (So2 & L2); [|by apply So1|done|done].
  split_and!; [done| |].
  - rewrite set_silenced_again. f_equal. f_equal. rewrite (filter_names _ _ (λ id, negb (resolves s0 ns id))), N1; [done|].
    intros x Hin. by rewrite (Hx x Hin).
  - intros ns' id Hns' Hid. rewrite L2, Se1, Hsame by done.
    assert (id ∈ List.filter (resolves s0 ns) ids ↔ id ∈ ids ∧ resolves s0 ns id = true) as Hin.
    { by rewrite list_elem_of_In, filter_In, <- list_elem_of_In. }
    by rewrite (decide_ext _ _ _ _ (and_iff_compat_l (ns' = ns) Hin)).
Qed.

Lemma flip_switch_inl e prev key s s' : switch_key key → flip_switch e prev key s = (Ret (inl ()), s') → same_entries s s'.
Proof.
  intros Hkey. assert (same_entries s s) as Hrefl by done. unfold flip_switch. destruct (ev_Check e) as [c|]; [|discriminate].
  destruct (0 <? Ttl c)%Z; [by apply alive_law|]. destruct prev as [p|]; [|by intros [_ <-]%ret_inl].
  destruct (ev_Check p) as [pc|]; [|discriminate]. destruct (0 <? Ttl pc)%Z; [|by intros [_ <-]%ret_inl].
  intros (r & s1 & E & [_ <-]%ret_inl)%bind_inl. unfold tried in E.
  destruct (switches_Bury key s) as [[r'| |] s2] eqn:Eb; try discriminate. injection E as _ <-. by eapply bury_law.
Qed.
End Eventd.

(** What is handled without an error. *)
Lemma handled_event `{BackendLaws St} (ParseStandard_ok : bytes → bool) (ParseExpressions : list bytes → option error)
    (local_now : LocalTime) (now : Z) (e : Event) (entity : Entity) (c : Check_) (s s' : St)
    (ns := Namespace (e_Meta entity)) :
  store_ok s → plain_event e entity c → Forall plain_name (c_Subscriptions c) →
  handleMessage ParseStandard_ok ParseExpressions local_now now (Some (Some e)) s = (Ret (inl ()), s') →
  ∃ ids, silencing_ids s ns c entity now ids ∧
    (∃ s1 s2 e' prev,
       store_UpdateEvent (set_check e (set_silenced c (List.filter (λ id, negb (gone s ns e id)) ids))) s1 =
         (Ret (inl (e', prev)), s2) ∧
       published s' = published s ++ [e']) ∧
    ∀ ns' id, plain_name ns' → plain_name id →
      entry_at s' ns' id = if decide (ns' = ns ∧ id ∈ ids ∧ gone s ns e id = true) then None else entry_at s ns' id.
Proof.
  intros Hok Hp Hsubs. pose proof Hp as [He Hc Hns Hen Hcn Hal]. cbn [handleMessage].
  intros ([] & s0 & [Hv ->]%checked_inl & E)%bind_inl. unfold HasCheck in E. rewrite Hc, He in E. cbn [negb] in E.
  assert (check_name (om_Name (c_Meta c))) as Hname.
  { unfold Validate_event in Hv. rewrite He, Hc in Hv. apply of_error_bind in Hv as [_ Hv].
    apply bind_Ret_unit in Hv as [Hv%wrapped_Ret _]. by eapply valid_check_name. }
  apply bind_inl in E as (e1 & s1 & E1 & (e2 & s2 & E2 & ([e' prev] & s3 & E3 & (key & s4 & [Ekey ->]%checked_inl & E4)%bind_inl)%bind_inl)%bind_inl).
  apply bind_inl in E4 as ([] & s5 & E4 & [[_ Se5] P5]%publish_law).
  assert (published s5 = published s) as Hpub.
  { eapply quiet_run in E1; [|auto with quiet]. eapply quiet_run in E2; [|auto with quiet].
    eapply quiet_run in E3; [|auto with quiet]. eapply quiet_run in E4; [|auto with quiet]. congruence. }
  apply (getSilenced_inl s e c entity now) in E1 as ([So1 Se1] & ids & -> & Hids); [|done..].
  eapply (handleExpire_inl s s1 e entity c now) in E2 as (So2 & -> & L2); [|by apply So1|done|done|done].
  match type of E3 with store_UpdateEvent (set_check e ?x) _ = _ =>
    assert (plain_event (set_check e x) entity x) as Hp' by (by apply (plain_set_check e entity c)) end.
  assert (switch_key key) as Hkey.
  { destruct (update_check_law _ _ _ _ _ _ (pe_check _ _ _ Hp') E3) as (Hent & c' & Hc' & Hm & Hr & _).
    eapply (eventKey_switch e' entity c'); [|done]. destruct Hp' as [? ? ? ? ? ?].
    split; [by rewrite Hent|done|done|done|by rewrite Hm|by rewrite Hm, Hr]. }
  apply flip_switch_inl in E4 as [_ Se4]; [|done].
  pose proof E3 as E3'. eapply update_event_law in E3' as [_ Se3]; [|exact Hp'].
  exists ids. split_and!; [done| |].
  { exists s2, s3, e', prev. split; [exact E3|congruence]. }
  intros ns' id Hns' Hid. by rewrite Se5, Se4, Se3, L2.
Qed.

(** Whatever message arrives, eventd publishes at most one event for it:
    none when it reports an error, or panics, and one when it does not. *)
Theorem published_once `{BackendLaws St} (ParseStandard_ok : bytes → bool) (ParseExpressions : list bytes → option error)
    (local_now : LocalTime) (now : Z) (msg : option (option Event)) (s s' : St) r :
  handleMessage ParseStandard_ok ParseExpressions local_now now msg s = (r, s') →
  (r ≠ Ret (inl ()) ∧ published s' = published s) ∨
  (r = Ret (inl ()) ∧ ∃ e, published s' = published s ++ [e]).
Proof.
  revert s r s'. change (publishes_last (handleMessage ParseStandard_ok ParseExpressions local_now now msg)).
  destruct msg as [[e|]|]; cbn [handleMessage]; [|by apply last_quiet..].
  apply last_bind; [auto with quiet|intros _]. destruct (negb _); [apply last_publish|].
  destruct (ev_Entity e) as [entity|]; [|by apply last_quiet].
  repeat (apply last_bind; [auto with quiet|intros ?]; try case_match). apply last_publish.
Qed.

(* ------------------------------------------------------------------ *)
(** ** Late checks *)

Lemma failed_check_result sort_history clock p :
  Status (failed_check sort_history clock p) = 1%Z ∧ Silenced_by (failed_check sort_history clock p) = [].
Proof. unfold failed_check, MergeWith, updateCheckState. by repeat case_match. Qed.

Section Late.
Context {St : Type} `{BackendLaws St} (sort_history : list CheckHistory → list CheckHistory) (clock : nat → Z).

(** An event of a check that fails, and that has no silences. *)
Definition failure_event (e : Event) : Prop :=
  ∃ c, ev_Check e = Some c ∧ Status c = 1%Z ∧ Silenced_by c = [].

Lemma createFailed_inl ns e s e' s' : createFailedCheckEvent sort_history clock ns e s = (Ret (inl e'), s') →
  ∃ p, ev_Check e' = Some (failed_check sort_history clock p).
Proof.
  unfold createFailedCheckEvent. destruct (ev_Check e) as [c|]; [|discriminate].
  destruct (ev_Entity e) as [entity|]; [|discriminate]. intros ([f|] & s1 & _ & E)%bind_inl; [|discriminate].
  destruct (ev_Check f) as [p|]; [|discriminate]. apply ret_inl in E as [<- _]. by exists p.
Qed.

Lemma handleFailure_appends e : appends failure_event (handleFailure sort_history clock e).
Proof.
  unfold handleFailure. destruct (ev_Entity e) as [entity|]; [|apply appends_quiet; auto with quiet].
  apply appends_bind; [auto with quiet|]. intros e1 s s1 [p Hp]%createFailed_inl.
  apply appends_bind; [auto with quiet|]. intros [e2 prev] s2 s3 E2. apply appends_publish. cbn [fst].
  destruct (update_check_law _ _ _ _ _ _ Hp E2) as (_ & c & Hc & _ & _ & Hst & Hsil).
  destruct (failed_check_result sort_history clock p). exists c. split_and!; [done|congruence..].
Qed.
End Late.

(** The key of the switch of an event is read back as the namespace, the
    check and the entity, or, for a round robin check whose entity is no
    proxy, as the namespace and the check alone, for which a missing event is
    not made up; two events with plain names share a switch only when they
    agree on these. A valid name that is not plain loses its switch. *)
Theorem switch_keys :
  (∀ e entity c, plain_event e entity c →
     ∃ k, eventKey e = Ret k ∧
       parseKey k = Ret (if RoundRobin c && negb (bytes_equal (EntityClass entity) (bs "proxy"))
                         then (Namespace (c_Meta c), om_Name (c_Meta c), [])
                         else (Namespace (e_Meta entity), om_Name (c_Meta c), om_Name (e_Meta entity)))) ∧
  (∀ `{Backend St} sort_history clock k leader ns check (s : St),
     parseKey k = Ret (ns, check, []) → dead sort_history clock k leader s = (Ret (inl false), s)) ∧
  (∃ e entity c k, ev_Entity e = Some entity ∧ ev_Check e = Some c ∧ ValidateName (om_Name (c_Meta c)) = None ∧
     Validate_entity entity = None ∧ eventKey e = Ret k ∧ parseKey k = Fail (Errorf "bad key" [])).
Proof.
  split; [|split].
  - intros e entity c Hp. destruct (eventKey_plain e entity c Hp) as [Hk Hs].
    eexists. split; [exact Hk|]. unfold parseKey. rewrite Hs. by destruct (RoundRobin c && _).
  - intros St HB sort_history clock k leader ns check s Hk. unfold dead. by rewrite Hk.
  - exists (MkEvent (MkMeta [] [] None None) 0
              (Some (MkEntity (MkMeta (bs "e1") (bs "default") None None) (bs "host") [] 0 false []))
              (Some (NewCheck (MkCheck (MkMeta (bs "..") (bs "default") None None) 10 [] 0 0 [] [] [] [] None None
                 [] [] 0 0 0 0 [] 0 [] 0 0 0 0 [] [] false))) None).
    do 3 eexists. split_and!; [done|done|..]; by vm_compute.
Qed.


(* ------------------------------------------------------------------ *)
(** ** Resolution *)

Lemma IsResolution_short e c : ev_Check e = Some c → length (History c) ≤ 1 → IsResolution e = false.
Proof.
  intros Hc Hl. unfold IsResolution. rewrite Hc. destruct (History c !! _); [|done].
  by rewrite (proj2 (Nat.ltb_ge _ _)).
Qed.

Lemma IsResolution_step e sort_history p c h :
  (∀ l, sort_history l ≡ₚ l ∧ StronglySorted executed_le (sort_history l)) →
  StronglySorted earlier (History p ++ [result_entry c]) → length (History p) ≤ 21 →
  last (History p) = Some h → h_Status h ≠ 0%Z → Status c = 0%Z →
  IsResolution (set_check e (step sort_history p c)) = true.
Proof.
  intros Hsort Hs Hl Hlast Hh Hc. destruct (step_last sort_history Hsort p c Hs Hl) as (_ & _ & Hrev).
  rewrite Hlast in Hrev. destruct Hrev as [rest Hrev]. apply (f_equal (@rev _)) in Hrev. rewrite rev_involutive in Hrev.
  cbn [rev] in Hrev. rewrite <- (assoc_L (++)) in Hrev. cbn [app] in Hrev.
  unfold IsResolution, IsIncident. cbn [ev_Check set_check].
  assert (Status (step sort_history p c) = Status c) as ->.
  { unfold step, updateOccurrences, MergeWith, updateCheckState. by repeat case_match. }
  rewrite Hrev, length_app, Hc. cbn [length]. replace (length (rev rest) + 2 - 2) with (length (rev rest) + 0) by lia.
  rewrite lookup_app_r, Nat.add_0_r, Nat.sub_diag by lia. cbn [lookup list_lookup].
  rewrite (proj2 (Nat.ltb_lt _ _)) by lia. by rewrite (proj2 (Z.eqb_neq _ _)).
Qed.

(** C37: an event whose check carries no history beyond its own result, which
    is what an agent sends, ends no silence, even if it is a resolution as it
    is stored: eventd looks for a resolution before the store has merged the
    history, where the passing result would follow a failing one. *)
Theorem resolution_keeps_silences `{BackendLaws St} (ParseStandard_ok : bytes → bool)
    (ParseExpressions : list bytes → option error) (sort_history : list CheckHistory → list CheckHistory)
    (local_now : LocalTime) (now : Z) (e : Event) (entity : Entity) (c p : Check_) (h : CheckHistory) (s s' : St) :
  store_ok s → plain_event e entity c → Forall plain_name (c_Subscriptions c) → length (History c) ≤ 1 →
  handleMessage ParseStandard_ok ParseExpressions local_now now (Some (Some e)) s = (Ret (inl ()), s') →
  (∀ l, sort_history l ≡ₚ l ∧ StronglySorted executed_le (sort_history l)) →
  StronglySorted earlier (History p ++ [result_entry c]) → length (History p) ≤ 21 →
  last (History p) = Some h → h_Status h ≠ 0%Z → Status c = 0%Z →
  IsResolution (set_check e (step sort_history p c)) = true ∧
  ∀ ns id, plain_name ns → plain_name id → entry_at s' ns id = entry_at s ns id.
Proof.
  intros Hok Hp Hsubs Hhist E Hsort Hs Hl Hlast Hh Hc. split; [by eapply IsResolution_step|].
  destruct (handled_event ParseStandard_ok ParseExpressions local_now now e entity c s s' Hok Hp Hsubs E)
    as (ids & _ & _ & Hentries).
  intros ns id Hns Hid. rewrite Hentries by done. apply decide_False. intros (_ & _ & Hgone). revert Hgone.
  unfold gone. by rewrite (IsResolution_short e c) by (apply Hp || done).
Qed.


(* ------------------------------------------------------------------ *)
(** ** The backend over etcd *)

Section OverEtcd.
Context {St : Type} `{EtcdLaws St} `{EtcdLeaseLaws St}.
(** Both interfaces are of one client. *)
Hypothesis one_client : ∀ s, contents s = values (leased s).

(** What has been published, which no call of the client changes. *)
Context (sent : St → list Event).
Hypothesis sent_Txn : ∀ c t e s, sent (etcd_Txn c t e s).2 = sent s.
Hypothesis sent_Get : ∀ r s, sent (etcd_Get r s).2 = sent s.
Hypothesis sent_lease_Txn : ∀ c o s, sent (lease_Txn c o s).2 = sent s.
Hypothesis sent_lease_Get : ∀ k e s, sent (lease_Get k e s).2 = sent s.
Hypothesis sent_TimeToLive : ∀ l s, sent (etcd_TimeToLive l s).2 = sent s.
Hypothesis sent_Grant : ∀ ttl s, sent (etcd_Grant ttl s).2 = sent s.
Hypothesis sent_lease_Put : ∀ k v l s, sent (lease_Put k v l s).2 = sent s.
Hypothesis sent_Put : ∀ k v s, sent (etcd_Put k v s).2 = sent s.
Hypothesis sent_Delete : ∀ k e s, sent (etcd_Delete k e s).2 = sent s.

(** The codecs, the parsers of the validation, the clock and the sort. *)
Context (unmarshal_silenced : bytes → outcome Silenced) (unmarshal_entity : bytes → outcome Entity)
  (Marshal_event : Event → outcome bytes) (unmarshal_event : bytes → outcome Event)
  (ParseStandard_ok : bytes → bool) (ParseExpressions : list bytes → option error)
  (local_now : LocalTime) (sort_history : list CheckHistory → list CheckHistory) (now : Z).

(** The bus, which leaves the entries alone. *)
Context (publish : Event → store_m St ()).
Definition leaves_entries (s s' : St) : Prop :=
  ∀ k, has_prefix k silenced_root = true → contents s' !! k = contents s !! k.
Hypothesis publish_sends : ∀ e s s', publish e s = (Ret (inl ()), s') →
  leaves_entries s s' ∧ sent s' = sent s ++ [e].
Hypothesis publish_error : ∀ e s r s', publish e s = (r, s') → r ≠ Ret (inl ()) → sent s' = sent s.

(** A call of the client that fails was done or was not. *)
Hypothesis put_fails : ∀ k v s e s', etcd_Put k v s = (inr e, s') →
  contents s' = contents s ∨ contents s' = <[k := v]> (contents s).
Hypothesis delete_fails : ∀ k s e s', etcd_Delete k one_key s = (inr e, s') →
  contents s' = contents s ∨ contents s' = (delete_on_map (contents s) k one_key).2.

(** The switches of [livenessFactory("eventd", ...)]. *)
Definition eventd_switches : bytes := path_Join [SwitchPrefix; bs "eventd"].

#[local] Existing Instance etcd_silenced.
#[local] Instance etcd_backend : Backend St := {|
  backend_silenced := etcd_silenced unmarshal_silenced;
  store_GetEntityByName := GetEntityByName unmarshal_entity;
  store_GetEventByEntityCheck := GetEventByEntityCheck unmarshal_event;
  store_UpdateEvent e := UpdateEvent Marshal_event unmarshal_event ParseStandard_ok ParseExpressions local_now
    sort_history now (Some e);
  switches_Alive := SwitchSet_Alive eventd_switches; switches_Bury := Bury eventd_switches; bus_Publish := publish
|}.
#[local] Instance backend_view : BackendView St := etcd_view unmarshal_silenced sent.

Lemma leaves_same s s' : leaves_entries s s' → same_entries s s'.
Proof. intros Hk. apply same_root. intros k Hp. specialize (Hk k Hp). by rewrite !one_client in Hk. Qed.

Lemma event_path_elsewhere e entity c path : plain_event e entity c → getEventPath e = Ret path →
  has_prefix path silenced_root = false.
Proof.
  intros [He Hc Hns Hen Hcn _]. unfold getEventPath. rewrite He, Hc. intros Hpath.
  assert (path = path_Join (Root :: [bs "events"; Namespace (e_Meta entity); om_Name (e_Meta entity); om_Name (c_Meta c)]))
    as -> by (by injection Hpath).
  destruct (plain_segments _ Hns) as [S1 T1], (plain_segments _ Hen) as [S2 T2], (plain_segments _ Hcn) as [S3 T3].
  rewrite path_Join_root by (repeat constructor; done).
  unfold key_of. cbn [map concat]. rewrite S1, S2, S3. reflexivity.
Qed.

Lemma update_event_same e entity c s r s' : plain_event e entity c → store_UpdateEvent e s = (Ret (inl r), s') →
  same_entries s s'.
Proof.
  intros Hp. destruct r as [e' prev]. intros E%UpdateEvent_inl. apply leaves_same. intros k Hk.
  destruct E as [ent chk m path b _ _ _ _ _ Hpath _ _ _ ->]. apply lookup_insert_ne. intros ->.
  eapply event_path_elsewhere in Hpath; [|done]. congruence.
Qed.

Lemma update_event_check e c s e' prev s' : ev_Check e = Some c → store_UpdateEvent e s = (Ret (inl (e', prev)), s') →
  ev_Entity e' = ev_Entity e ∧ ∃ c', ev_Check e' = Some c' ∧ c_Meta c' = c_Meta c ∧
    RoundRobin c' = RoundRobin c ∧ Status c' = Status c ∧ Silenced_by c' = Silenced_by c.
Proof.
  intros Hc E%UpdateEvent_inl. destruct E as [ent chk m path b _ Hc' _ _ _ _ Hm -> _ _].
  assert (chk = c) as -> by congruence. split; [unfold persisted; by repeat case_match; simplify_eq|].
  destruct (persisted_check now (set_check e (updateOccurrences m)) (updateOccurrences m) eq_refl) as (_ & _ & _ & ->).
  eexists. split; [done|].
  assert (c_Meta m = c_Meta c ∧ RoundRobin m = RoundRobin c ∧ Status m = Status c ∧ Silenced_by m = Silenced_by c)
    as (<- & <- & <- & <-).
  { unfold merged_with in Hm. destruct (found _ path) as [v|]; [|by destruct Hm as [_ ->]].
    destruct Hm as (? & p & _ & _ & _ & ->). unfold MergeWith, updateCheckState. by repeat case_match. }
  unfold updateOccurrences. by repeat case_match.
Qed.

Lemma quiet_response kvs : quiet (response_entries unmarshal_silenced kvs : store_m St _).
Proof. induction kvs; cbn [response_entries]; quietly. Qed.
Lemma quiet_array rs : quiet (arrayTxnSilencedEntries unmarshal_silenced rs : store_m St _).
Proof. induction rs; cbn [arrayTxnSilencedEntries]; quietly. all: auto using quiet_response with quiet. Qed.
Lemma quiet_entries_of_check check kvs : quiet (entries_of_check unmarshal_silenced check kvs : store_m St _).
Proof. induction kvs; cbn [entries_of_check]; quietly. Qed.

Lemma quiet_GetEvent ns entity check : quiet (GetEventByEntityCheck unmarshal_event ns entity check : store_m St _).
Proof. unfold GetEventByEntityCheck. quietly. Qed.
Lemma quiet_merged c prev : quiet (merged sort_history c prev : store_m St _).
Proof. unfold merged. quietly. Qed.

Lemma quiet_ping id ttl al : quiet (ping eventd_switches id ttl al : store_m St _).
Proof. unfold ping. quietly. Qed.
Lemma quiet_Bury id : quiet (Bury eventd_switches id : store_m St _).
Proof. unfold Bury, bury_put, bury_delete. quietly. Qed.

(** The switches are elsewhere. *)
Lemma switch_elsewhere key : switch_key key → has_prefix (path_Join [eventd_switches; key]) silenced_root = false.
Proof.
  intros (parts & Hne & Hp & ->).
  change (path_Join [eventd_switches; join (bs "/") parts])
    with (path_Join (Root :: [bs "switchsets"; bs "eventd"; join (bs "/") parts])).
  assert (tame (join (bs "/") parts)) as Ht.
  { unfold tame. rewrite split_join by done. apply Forall_concat_map. eapply Forall_impl; [exact Hp|].
    intros w Hw. by apply plain_segments in Hw as [_ Hw]. }
  rewrite path_Join_root; [reflexivity|]. rewrite !Forall_cons, Forall_nil. split_and!; [by apply (bool_decide_unpack _)..|done|done].
Qed.

Lemma leaves_insert (s s' : St) k v : contents s' = <[k := v]> (contents s) → has_prefix k silenced_root = false → leaves_entries s s'.
Proof. intros E Hk k' Hk'. rewrite E. apply lookup_insert_ne. intros ->. congruence. Qed.
Lemma leaves_delete (s s' : St) k : contents s' = (delete_on_map (contents s) k one_key).2 → has_prefix k silenced_root = false →
  leaves_entries s s'.
Proof.
  intros E Hk k' Hk'. rewrite E. unfold delete_on_map. rewrite range_keys_one. unfold there.
  destruct (contents s !! k); [|done]. cbn [snd foldr]. apply lookup_delete_ne. intros ->. congruence.
Qed.
Lemma leaves_trans (s1 s2 s3 : St) : leaves_entries s1 s2 → leaves_entries s2 s3 → leaves_entries s1 s3.
Proof. intros E1 E2 k Hk. by rewrite E2, E1. Qed.

Lemma alive_leaves key ttl s s' : switch_key key → SwitchSet_Alive eventd_switches key ttl s = (Ret (inl ()), s') → leaves_entries s s'.
Proof.
  intros Hk%switch_elsewhere. unfold SwitchSet_Alive, ping. destruct (ttl <? FallbackTTL)%Z; [discriminate|].
  intros (l & s1 & E1%call_inl_inv%grant_law & E2%call_inl_inv%lease_put_law)%bind_inl.
  apply (leaves_insert _ _ (path_Join [eventd_switches; key]) (format_int ttl)); [|done].
  rewrite !one_client, E2, E1. unfold values. by rewrite fmap_insert.
Qed.

Lemma bury_leaves key s r s' : switch_key key → Bury eventd_switches key s = (Ret r, s') → leaves_entries s s'.
Proof.
  intros Hk%switch_elsewhere. unfold Bury, bury_put, bury_delete, mbind, store_bind, call_wrapped.
  destruct (etcd_Put _ buried s) as [[u|err] s1] eqn:E1.
  - apply put_law in E1. assert (leaves_entries s s1) as L1 by (by eapply leaves_insert).
    destruct (etcd_Delete _ one_key s1) as [[n|err] s2] eqn:E2; intros [= _ <-]; (eapply leaves_trans; [exact L1|]).
    + apply delete_law in E2. eapply leaves_delete; [|exact Hk]. by rewrite <- E2.
    + apply delete_fails in E2 as [E2|E2]; [|by eapply leaves_delete]. intros k _. by rewrite E2.
  - intros [= _ <-]. apply put_fails in E1 as [E1|E1]; [|by eapply leaves_insert]. intros k _. by rewrite E1.
Qed.

Lemma etcd_backend_laws : BackendLaws St.
Proof.
  split.
  - by apply etcd_silenced_laws.
  - intros. by eapply update_event_same.
  - intros. by eapply update_event_check.
  - intros key ttl s s' Hk E. apply leaves_same. exact (alive_leaves key ttl s s' Hk E).
  - intros key s r s' Hk E. apply leaves_same. exact (bury_leaves key s r s' Hk E).
  - intros e s s' E. apply publish_sends in E as [E1 E2]. split; [by apply leaves_same|done].
  - apply publish_error.
  - intros ns subs. cbn [by_subscription backend_silenced etcd_backend etcd_silenced]. unfold GetSilencedEntriesBySubscription. quietly. all: auto using quiet_array with quiet.
  - intros ns check. cbn [by_check_name backend_silenced etcd_backend etcd_silenced]. unfold GetSilencedEntriesByCheckName. quietly. auto using quiet_entries_of_check with quiet.
  - intros ns names. cbn [by_name backend_silenced etcd_backend etcd_silenced]. unfold GetSilencedEntriesByName. quietly. auto using quiet_array with quiet.
  - intros ns names. cbn [delete_by_name backend_silenced etcd_backend etcd_silenced]. unfold DeleteSilencedEntryByName. quietly.
  - apply quiet_GetEvent.
  - intros ns entity. cbn [store_GetEntityByName etcd_backend]. unfold GetEntityByName. quietly.
  - intros e. cbn [store_UpdateEvent etcd_backend]. unfold UpdateEvent. quietly. all: auto using quiet_GetEvent, quiet_merged with quiet.
  - intros key ttl. apply quiet_ping.
  - apply quiet_Bury.
Qed.
End OverEtcd.

(* ------------------------------------------------------------------ *)
(** ** A backend *)

(** Keys with leases, and the events that were sent. *)
Definition toy_store : Type := leased_map * list Event.
Definition relabel (m : gmap bytes bytes) : leased_map := (λ v, (v, 0%Z)) <$> m.
Lemma values_relabel m : values (relabel m) = m.
Proof. apply map_eq. intros k. unfold values, relabel. rewrite !lookup_fmap. by destruct (m !! k). Qed.

#[local] Instance toy_etcd : Etcd toy_store := {|
  etcd_Txn c t e s := let '(r, m) := txn_on_map (values s.1) c t e in (inl r, (relabel m, s.2));
  etcd_Get r s := (inl (range_of_map (values s.1) r), s);
  etcd_Put k v s := (inl (), (relabel (<[k := v]> (values s.1)), s.2));
  etcd_Delete k e s := let '(n, m) := delete_on_map (values s.1) k e in (inl n, (relabel m, s.2));
  GetPrefixRangeEnd := prefix_end
|}.
#[local] Program Instance toy_etcd_laws : EtcdLaws toy_store := {| contents s := values s.1 |}.
Next Obligation.
  intros c t e s r s'. cbn. destruct (txn_on_map (values s.1) c t e). intros [= -> <-]. cbn. by rewrite values_relabel.
Qed.
Next Obligation. by intros r s resp s' [= <- <-]. Qed.
Next Obligation. intros k v s u s' [= _ <-]. apply values_relabel. Qed.
Next Obligation.
  intros k e s n s'. cbn. intros [= <- <-]. cbn. by rewrite values_relabel.
Qed.
Next Obligation. apply prefix_end_ok. Qed.

#[local] Instance toy_leases : EtcdLeases toy_store := {|
  lease_Txn c o s := let '(r, m) := lease_txn_on_map s.1 c o in (inl r, (m, s.2));
  lease_Get k e s := (inl (lease_range s.1 k e), s);
  lease_Put k v l s := (inl (), (<[k := (v, l)]> s.1, s.2));
  etcd_Grant ttl s := (inl 7%Z, s);
  etcd_TimeToLive l s := (inl (-1)%Z, s)
|}.
#[local] Program Instance toy_lease_laws : EtcdLeaseLaws toy_store := {| leased := fst |}.
Next Obligation. intros c o s r s'. cbn. destruct (lease_txn_on_map s.1 c o). by intros [= -> <-]. Qed.
Next Obligation. by intros k e s kvs s' [= <- <-]. Qed.
Next Obligation. by intros k v l s u s' [= _ <-]. Qed.
Next Obligation. by intros ttl s l s' [= _ <-]. Qed.
Next Obligation. by intros l s ttl s' [= _ <-]. Qed.

(** One entry, that expires on resolution; an entity; the event stored
    before, which failed; and the codecs of their only values. *)
Definition toy_silence : Silenced :=
  MkSilenced (MkMeta (bs "linux:cpu") (bs "default") None None) (bs "cpu") (bs "linux") 0 (-1) true.
Definition late_check (status executed : Z) (history : list CheckHistory) : Check_ :=
  MkCheck (c_Meta toy_check) 10 [] 30 0 [bs "linux"] [] [] [] None None [] [] 0 0 0 status [] executed
    history 0 0 1 1 [] [] false.
Definition toy_event (status executed : Z) (history : list CheckHistory) : Event :=
  MkEvent (MkMeta [] [] None None) executed (Some silence_entity) (Some (late_check status executed history)) None.
Definition toy_before : Event := toy_event 2 100 [MkHistory 2 100].
Definition toy_start : toy_store :=
  ({[getNamespacePath (bs "default") := ([], 0%Z); GetSilencedPath (bs "default") (bs "linux:cpu") := ([], 0%Z);
     GetEntitiesPath (bs "default") (bs "e1") := ([], 0%Z);
     path_Join [EtcdRoot; bs "events"; bs "default"; bs "e1"; bs "cpu"] := ([], 0%Z)]}, []).

#[local] Instance toy_backend : Backend toy_store :=
  etcd_backend (λ _, Ret toy_silence) (λ _, Ret silence_entity) (λ _, Ret []) (λ _, Ret toy_before)
    (λ _, true) (λ _, None) (MkUTC Mon 0) (sort history_lt) 100
    (λ e s, (Ret (inl ()), (s.1, s.2 ++ [e]))).
#[local] Instance toy_view : BackendView toy_store := backend_view snd (λ _, Ret toy_silence).
#[local] Instance toy_laws : BackendLaws toy_store.
Proof.
  apply etcd_backend_laws; try done.
  - intros c t e s. cbn. by destruct (txn_on_map _ _ _ _).
  - intros c o s. cbn. by destruct (lease_txn_on_map _ _ _).
  - by intros e s s' [= <-].
  - by intros e s r s' [= <- <-].
Qed.


Ltac plainly := split; [done|by split|by apply (bool_decide_unpack _)].

Lemma toy_start_ok : store_ok toy_start.
Proof.
  intros k v l. unfold leased, toy_lease_laws, toy_start. cbn [fst]. rewrite !lookup_insert_Some, lookup_singleton_Some.
  intros [[<- E]|[_ [[<- E]|[_ [[<- E]|[_ [<- E]]]]]]] Hp; try by vm_compute in Hp.
  exists (bs "default"), (bs "linux:cpu"), toy_silence. split_and!; [done|plainly|plainly|done|by split].
Qed.

Lemma toy_plain status executed history :
  plain_event (toy_event status executed history) silence_entity (late_check status executed history) ∧
  Forall plain_name (c_Subscriptions (late_check status executed history)).
Proof. split; [split; [done|done|plainly..|done]|]. constructor; [plainly|constructor]. Qed.

(** What eventd does at the start. *)
Definition toy_handle (e : Event) : outcome (() + store_error) * toy_store :=
  handleMessage (λ _, true) (λ _, None) (MkUTC Mon 0) 100 (Some (Some e)) toy_start.
Lemma toy_run e : (toy_handle e).1 = Ret (inl ()) →
  handleMessage (λ _, true) (λ _, None) (MkUTC Mon 0) 100 (Some (Some e)) toy_start = (Ret (inl ()), (toy_handle e).2).
Proof. intros E. change (toy_handle e = (Ret (inl ()), (toy_handle e).2)). rewrite <- E. by destruct (toy_handle e). Qed.

(** A resolution, by the history that it carries: the entry is deleted. *)
Definition toy_resolution : list CheckHistory := [MkHistory 2 100; MkHistory 0 160].

Lemma published_once_witness :
  ∃ e, published (toy_handle (toy_event 0 160 [])).2 = [] ++ [e].
Proof.
  assert ((toy_handle (toy_event 0 160 [])).1 = Ret (inl ())) as E by (vm_compute; reflexivity).
  destruct (published_once (λ _, true) (λ _, None) (MkUTC Mon 0) 100 (Some (Some (toy_event 0 160 []))) toy_start
    (toy_handle (toy_event 0 160 [])).2 (Ret (inl ())) (toy_run _ E)) as [[Hne _]|[_ H]]; [by destruct Hne|exact H].
Defined.

(** The same result as an agent sends it: the entry stays, whatever it says
    of resolutions. *)
Lemma resolution_keeps_silences_witness :
  IsResolution (set_check (toy_event 0 160 [])
    (step (sort history_lt) (late_check 2 100 [MkHistory 2 100]) (late_check 0 160 []))) = true ∧
  entry_at (toy_handle (toy_event 0 160 [])).2 (bs "default") (bs "linux:cpu") = Some toy_silence ∧
  ExpireOnResolve toy_silence = true.
Proof.
  destruct (toy_plain 0 160 []) as [Hp Hs].
  assert ((toy_handle (toy_event 0 160 [])).1 = Ret (inl ())) as E by (vm_compute; reflexivity).
  destruct (resolution_keeps_silences (λ _, true) (λ _, None) (sort history_lt) (MkUTC Mon 0) 100 (toy_event 0 160 [])
    silence_entity (late_check 0 160 []) (late_check 2 100 [MkHistory 2 100]) (MkHistory 2 100) toy_start
    (toy_handle (toy_event 0 160 [])).2 toy_start_ok Hp Hs) as [H1 H2].
  - cbn. lia.
  - exact (toy_run _ E).
  - apply sort_history_ok.
  - by repeat constructor.
  - cbn. lia.
  - done.
  - done.
  - done.
  - split; [exact H1|]. split; [|done]. rewrite H2; [by vm_compute|plainly|plainly].
Defined.

(** The check of [toy_before] is late, and its silence is not looked for. *)
Definition toy_dead : outcome (bool + store_error) * toy_store :=
  dead (sort history_lt) (λ _, 200%Z) (bs "default/cpu/e1") true toy_start.

#[local] Instance meta_eq_dec : EqDecision ObjectMeta.
Proof. solve_decision. Defined.
#[local] Instance silenced_eq_dec : EqDecision Silenced.
Proof. solve_decision. Defined.

(** A codec of one entry. *)
Definition toy_marshal (e : Silenced) : outcome bytes :=
  if decide (e = toy_silence) then Ret [] else Fail (Errorf "another entry" []).
Definition toy_written : toy_store := (UpdateSilencedEntry toy_marshal (bs "default") toy_silence 100 toy_start).2.

